(** * Mimir build engine: signatures, cache, target graph and executor

    A shallow embedding of the core of the Mimir build engine
    (src/src/signature.cpp, cache.cpp, dag.cpp, executor.cpp, with the
    mock command runner of command_runner.cpp, the command line and
    build of main.cpp and the parser of build files of parser.cpp)
    together with the properties its specification states about it.

    Conventions.
    - [std::string] is [string] (a sequence of 8-bit characters).
    - [unsigned int] is a [Z] kept in [0, 2^32) with the wrap-around written
      out ([u32]).
    - [std::unordered_map<std::string, V>] is [gmap string V].  The order in
      which a range-for visits such a map is not fixed by the language; it is
      a parameter ([UMapOrder]) and every theorem holds for all of them.
    - The counters of [topologicalSort] and the markers of the cycle
      detection are [int]s that stay far from the bounds of the type (a
      counter is at most the number of dependencies of a target); they are
      plain [Z].
    - The file system is a finite map from paths to contents: a path can be
      opened for reading iff it is in the map.
    - The command runner is a parameter of the executor: a function from
      the command and the file system to a result and a file system.
    - An execution records what it does that can be observed (status
      lines, progress callbacks, runner calls, cache writes) in a trace.
      The workers of the multi-threaded strategy are a transition system:
      a worker moves from one point of its loop to the next in one step,
      a block that holds the mutex is one step, and a schedule lists which
      worker moves next and when [cancel()] is called.
    - The regular expressions of the parser are matched by hand-written
      functions; each greedy repetition is followed by something that
      cannot begin with a character of its class, so the longest run is
      the only candidate.  The loops of [expandVariables] have no bound
      in the source: the model counts replacements, and [None] says that
      the count given did not suffice.  What [std::filesystem] answers is
      a parameter ([Disk]). *)

From Stdlib Require Import ZArith String Ascii List Lia.
From stdpp Require Import gmap strings list fin_maps relations.

Open Scope string_scope.
Open Scope list_scope.
Open Scope nat_scope.
Open Scope stdpp_scope.

#[local] Arguments String.append !_ _ / : simpl nomatch.

(** ** Iteration order of unordered maps *)

Record UMapOrder := {
  iter : forall {V : Type}, gmap string V -> list (string * V);
  iter_perm : forall (V : Type) (m : gmap string V), iter m ≡ₚ map_to_list m
}.

(** One concrete order, used to run the definitions on examples. *)
Definition std_order : UMapOrder :=
  {| iter := fun V m => map_to_list m;
     iter_perm := fun V m => reflexivity (map_to_list m) |}.

(** ** File system *)

(** [files] holds the paths that [std::ifstream] can open with their
    contents; [blocked] holds the paths that [std::ofstream] cannot open. *)
Record FileSystem := {
  files : gmap string string;
  blocked : gset string
}.

Definition file_good (fs : FileSystem) (path : string) : bool :=
  bool_decide (is_Some (files fs !! path)).

Definition write_file (fs : FileSystem) (path content : string) : FileSystem :=
  {| files := <[path := content]> (files fs); blocked := blocked fs |}.

(** ** Signature service (signature.cpp) *)

Module Signature.

Definition u32 (x : Z) : Z := x mod 2 ^ 32.

Definition byte_val (c : ascii) : Z := Z.of_N (N_of_ascii c).

(** The three words the loop of [sha256] updates. *)
Record words := { h0 : Z; h1 : Z; h2 : Z }.

Definition init_words : words :=
  {| h0 := 0x6a09e667; h1 := 0xbb67ae85; h2 := 0x3c6ef372 |}.

Definition h3 : Z := 0xa54ff53a.
Definition h4 : Z := 0x510e527f.
Definition h5 : Z := 0x9b05688c.
Definition h6 : Z := 0x1f83d9ab.
Definition h7 : Z := 0x5be0cd19.

(** One iteration of the [for] loop on byte [c]. *)
Definition absorb (w : words) (c : ascii) : words :=
  let a := Z.lxor (h0 w) (byte_val c) in
  let a := Z.lor (u32 (Z.shiftl a 7)) (Z.shiftr a 25) in
  {| h0 := a;
     h1 := Z.lxor (h1 w) a;
     h2 := u32 (h2 w + byte_val c) |}.

Fixpoint absorb_all (w : words) (data : string) : words :=
  match data with
  | EmptyString => w
  | String c rest => absorb_all (absorb w c) rest
  end.

Definition hex_digit (n : Z) : ascii :=
  match String.get (Z.to_nat n) "0123456789abcdef" with
  | Some c => c
  | None => "0"%char
  end.

(** [std::hex] output of an unsigned value: most significant digit first,
    no leading zeros, at least one digit.  Eight digits are enough for an
    [unsigned int]. *)
Fixpoint hex_digits (fuel : nat) (n : Z) (acc : string) : string :=
  match fuel with
  | O => acc
  | S fuel' =>
      let acc' := String (hex_digit (n mod 16)) acc in
      if n / 16 =? 0 then acc' else hex_digits fuel' (n / 16) acc'
  end%Z.

Definition to_hex (n : Z) : string := hex_digits 8 n "".

Fixpoint fill (k : nat) (c : ascii) : string :=
  match k with O => "" | S k' => String c (fill k' c) end.

(** [std::setfill(c) << std::setw(w)]: pad on the left up to width [w]. *)
Definition setw (w : nat) (c : ascii) (s : string) : string :=
  fill (w - String.length s) c +:+ s.

Definition put_hex8 (n : Z) : string := setw 8 "0" (to_hex n).

Definition sha256 (data : string) : string :=
  let w := absorb_all init_words data in
  put_hex8 (h0 w) +:+ put_hex8 (h1 w) +:+ put_hex8 (h2 w) +:+
  put_hex8 h3 +:+ put_hex8 h4 +:+ put_hex8 h5 +:+ put_hex8 h6 +:+
  put_hex8 h7.

Definition computeFileSignature (fs : FileSystem) (filepath : string) : string :=
  match files fs !! filepath with
  | None => ""
  | Some content => sha256 content
  end.

Definition computeCommandSignature (command : string) : string :=
  sha256 command.

Definition computeTargetSignature (fs : FileSystem) (command : string)
    (inputs : list string) : string :=
  let combined :=
    foldl (fun combined input =>
             combined +:+ ("|" +:+ computeFileSignature fs input))
          command inputs in
  sha256 combined.

Definition is_lower_hex (c : ascii) : Prop :=
  In c (list_ascii_of_string "0123456789abcdef").

Definition all_lower_hex (s : string) : Prop :=
  Forall is_lower_hex (list_ascii_of_string s).

(** The last five words of every digest. *)
Definition fixed_tail : string := "a54ff53a510e527f9b05688c1f83d9ab5be0cd19".

End Signature.

(** ** Cache (cache.cpp) *)

Module Cache.

Record t := {
  cacheDir_ : string;
  cacheFile_ : string;
  signatures_ : gmap string string
}.

(** Constructor.  [ensureCacheDir] only creates a directory; directories
    are not part of [FileSystem]. *)
Definition make (cacheDir : string) : t :=
  {| cacheDir_ := cacheDir;
     cacheFile_ := cacheDir +:+ "/cache.txt";
     signatures_ := ∅ |}.

Definition with_signatures (c : t) (m : gmap string string) : t :=
  {| cacheDir_ := cacheDir_ c; cacheFile_ := cacheFile_ c; signatures_ := m |}.

Definition newline : ascii := "010"%char.
Definition equals : ascii := "="%char.

(** One call of [std::getline]: the characters up to the first newline
    and, when a newline was found, what follows it. *)
Fixpoint getline (s : string) : string * option string :=
  match s with
  | EmptyString => (EmptyString, None)
  | String c rest =>
      if Ascii.eqb c newline then (EmptyString, Some rest)
      else let '(line, after) := getline rest in (String c line, after)
  end.

(** The lines that [while (std::getline(file, line))] visits: the call
    fails, and the loop ends, when no character is left. *)
Fixpoint getlines (s : string) : list string :=
  match s with
  | EmptyString => []
  | String c rest =>
      if Ascii.eqb c newline then EmptyString :: getlines rest
      else match getlines rest with
           | [] => [String c EmptyString]
           | line :: lines => String c line :: lines
           end
  end.

(** [line.find(c)]: index of the first occurrence, [None] for [npos]. *)
Fixpoint find (c : ascii) (s : string) : option nat :=
  match s with
  | EmptyString => None
  | String a rest => if Ascii.eqb a c then Some 0 else S <$> find c rest
  end.

Fixpoint str_drop (n : nat) (s : string) : string :=
  match n, s with
  | S n', String _ rest => str_drop n' rest
  | _, _ => s
  end.

Fixpoint str_take (n : nat) (s : string) : string :=
  match n, s with
  | S n', String c rest => String c (str_take n' rest)
  | _, _ => EmptyString
  end.

(** [s.substr(pos, count)] and [s.substr(pos)], for [pos <= s.size()]. *)
Definition substr (s : string) (pos : nat) (count : option nat) : string :=
  match count with
  | Some n => str_take n (str_drop pos s)
  | None => str_drop pos s
  end.

(** Body of the loop in [load]. *)
Definition load_line (signatures : gmap string string) (line : string)
    : gmap string string :=
  match find equals line with
  | Some pos =>
      let key := substr line 0 (Some pos) in
      let value := substr line (pos + 1) None in
      <[key := value]> signatures
  | None => signatures
  end.

Definition load (fs : FileSystem) (c : t) : bool * t :=
  match files fs !! cacheFile_ c with
  | None => (false, c)
  | Some content =>
      (true, with_signatures c (foldl load_line ∅ (getlines content)))
  end.

Definition write_entries (entries : list (string * string)) : string :=
  foldl (fun out '(targetName, signature) =>
           out +:+ targetName +:+ "=" +:+ signature +:+ String newline "")
        "" entries.

Definition save (O : UMapOrder) (fs : FileSystem) (c : t) : bool * FileSystem :=
  if bool_decide (cacheFile_ c ∈ blocked fs) then (false, fs)
  else (true, write_file fs (cacheFile_ c) (write_entries (iter O (signatures_ c)))).

Definition getSignature (c : t) (targetName : string) : string :=
  match signatures_ c !! targetName with
  | Some sig => sig
  | None => ""
  end.

Definition findSignature (c : t) (targetName : string) : option string :=
  signatures_ c !! targetName.

Definition setSignature (c : t) (targetName signature : string) : t :=
  with_signatures c (<[targetName := signature]> (signatures_ c)).

Definition needsRebuild (c : t) (targetName currentSignature : string) : bool :=
  match signatures_ c !! targetName with
  | None => true
  | Some sig => negb (String.eqb sig currentSignature)
  end.

Definition removeSignature (c : t) (targetName : string) : bool * t :=
  (bool_decide (is_Some (signatures_ c !! targetName)),
   with_signatures c (delete targetName (signatures_ c))).

Definition clear (c : t) : t := with_signatures c ∅.

(** A name that can be written to the cache file and read back: it holds
    neither the separator nor a line break. *)
Definition plain_name (s : string) : Prop :=
  find equals s = None /\ find newline s = None.

Definition plain_signature (s : string) : Prop := find newline s = None.

(** [lines] holds the line [key=value], [key] holds no separator, and no
    later line starts with [key=]: the last line that gives [key] a
    value gives it [value]. *)
Definition last_binding (lines : list string) (key value : string) : Prop :=
  find equals key = None
  /\ exists before after,
       lines = before ++ (key +:+ "=" +:+ value) :: after
       /\ forall line value', line ∈ after -> line <> key +:+ "=" +:+ value'.

Definition plain_entry (e : string * string) : Prop :=
  plain_name e.1 /\ plain_signature e.2.

(** The line [save] writes for an entry. *)
Definition entry_line (e : string * string) : string :=
  e.1 +:+ "=" +:+ e.2.

Definition set_all (c : t) (ops : list (string * string)) : t :=
  foldl (fun c '(targetName, signature) => setSignature c targetName signature)
        c ops.

End Cache.

(** ** Targets and the target graph (target.h, dag.cpp) *)

Record Target := {
  name_ : string;
  inputs_ : list string;
  outputs_ : list string;
  command_ : string;
  dependencies_ : list string;
  signature_ : string
}.

(** [m[k]] on an unordered map: the stored value, after inserting the
    default when the key is absent. *)
Definition subscript {V : Type} (dflt : V) (m : gmap string V) (k : string)
    : V * gmap string V :=
  match m !! k with
  | Some v => (v, m)
  | None => (dflt, <[k := dflt]> m)
  end.

Module DAG.

(** [targets_]. *)
Abbreviation t := (gmap string Target).

Definition addTarget (d : t) (target : Target) : bool * t :=
  match d !! name_ target with
  | Some _ => (false, d)
  | None => (true, <[name_ target := target]> d)
  end.

Definition removeTarget (d : t) (name : string) : bool * t :=
  (bool_decide (is_Some (d !! name)), delete name d).

Definition hasTarget (d : t) (name : string) : bool :=
  bool_decide (is_Some (d !! name)).

Definition getTarget (d : t) (name : string) : option Target := d !! name.

Definition getDependencies (d : t) (name : string) : list string :=
  match d !! name with
  | Some target => dependencies_ target
  | None => []
  end.

Definition getDependents (O : UMapOrder) (d : t) (name : string) : list string :=
  (filter (fun e => name ∈ dependencies_ e.2) (iter O d)).*1.

Definition validateDependencies (O : UMapOrder) (d : t) : list string :=
  iter O d ≫= fun e =>
    filter (fun dep => d !! dep = None) (dependencies_ e.2).

(** *** Graph notions *)

(** [edge d a b]: target [a] declares the dependency [b]. *)
Definition edge (d : t) (a b : string) : Prop :=
  exists target, d !! a = Some target /\ b ∈ dependencies_ target.

Definition has_cycle (d : t) : Prop := exists a, tc (edge d) a a.

(** Consecutive elements of [p] are joined by declared edges. *)
Fixpoint is_path (d : t) (p : list string) : Prop :=
  match p with
  | a :: (b :: _) as rest => edge d a b /\ is_path d rest
  | _ => True
  end.

(** A closed walk written with its first node repeated at the end. *)
Definition closed_path (d : t) (p : list string) : Prop :=
  (exists x mid, p = x :: mid ++ [x]) /\ is_path d p.

Definition dependency_closed (d : t) : Prop :=
  forall a b, edge d a b -> is_Some (d !! b).

Definition no_duplicate_dependencies (d : t) : Prop :=
  forall a target, d !! a = Some target -> NoDup (dependencies_ target).

(** [a] occurs in [l] at a smaller index than [b]. *)
Definition before (l : list string) (a b : string) : Prop :=
  exists i j, l !! i = Some a /\ l !! j = Some b /\ i < j.

(** Every key is the name of the target stored under it. *)
Definition keyed_by_name (d : t) : Prop :=
  forall k target, d !! k = Some target -> name_ target = k.

(** Boolean checks of the graph notions, for concrete graphs. *)
Definition all_edges (d : t) (P : string -> string -> bool) : bool :=
  forallb (fun e => forallb (P e.1) (dependencies_ e.2)) (map_to_list d).

Definition closed_check (d : t) : bool :=
  all_edges d (fun _ b => bool_decide (is_Some (d !! b))).

Definition rank_check (d : t) (rank : string -> nat) : bool :=
  all_edges d (fun a b => rank b <? rank a).

Definition nodup_check (d : t) : bool :=
  forallb (fun e => bool_decide (NoDup (dependencies_ e.2))) (map_to_list d).

(** *** Cycle detection *)

Record CycleDetectionResult := {
  hasCycle : bool;
  cycleNodes : list string
}.

(** The three objects [hasCycleUtil] receives by reference. *)
Record dfs := {
  visited : gmap string Z;
  recStack : list string;
  found : list string
}.

Definition set_visited (st : dfs) (m : gmap string Z) : dfs :=
  {| visited := m; recStack := recStack st; found := found st |}.

(** [std::find(recStack.begin(), recStack.end(), dep)] up to the end. *)
Fixpoint from_first (dep : string) (stack : list string) : list string :=
  match stack with
  | [] => []
  | x :: rest => if String.eqb x dep then stack else from_first dep rest
  end.

(** [visited[node] = 2; recStack.pop_back(); return false;] *)
Definition leave (node : string) (st : dfs) : option (bool * dfs) :=
  Some (false, {| visited := <[node := 2%Z]> (visited st);
                  recStack := removelast (recStack st);
                  found := found st |}).

(** The loop over the dependencies of [node]; [call] is the recursive
    call. *)
Fixpoint visit_deps (call : string -> dfs -> option (bool * dfs))
    (node : string) (deps : list string) (st : dfs) : option (bool * dfs) :=
  match deps with
  | [] => leave node st
  | dep :: deps' =>
      let '(colour, vis) := subscript 0%Z (visited st) dep in
      let st := set_visited st vis in
      if (colour =? 0)%Z then
        match call dep st with
        | None => None
        | Some (true, st') => Some (true, st')
        | Some (false, st') => visit_deps call node deps' st'
        end
      else if (colour =? 1)%Z then
        Some (true, {| visited := vis;
                       recStack := recStack st;
                       found := from_first dep (recStack st) ++ [dep] |})
      else visit_deps call node deps' st
  end.

(** [fuel] bounds the depth of the recursion; [None] when it runs out. *)
Fixpoint hasCycleUtil (fuel : nat) (d : t) (node : string) (st : dfs)
    : option (bool * dfs) :=
  match fuel with
  | O => None
  | S fuel' =>
      let st := {| visited := <[node := 1%Z]> (visited st);
                   recStack := recStack st ++ [node];
                   found := found st |} in
      match d !! node with
      | Some target =>
          visit_deps (hasCycleUtil fuel' d) node (dependencies_ target) st
      | None => leave node st
      end
  end.

(** Every name the traversal can meet: targets and declared
    dependencies. *)
Definition universe (d : t) : gset string :=
  dom d ∪ list_to_set (map_to_list d ≫= fun e => dependencies_ e.2).

(** The recursion never nests deeper than the number of names. *)
Definition dfs_fuel (d : t) : nat := S (size (universe d)).

(** The marker of a name: 0 unvisited, 1 on the current path, anything
    else finished. *)
Definition colour (st : dfs) (n : string) : Z :=
  default 0%Z (visited st !! n).

Definition finished (st : dfs) (n : string) : Prop :=
  colour st n <> 0%Z /\ colour st n <> 1%Z.

Definition unvisited (d : t) (st : dfs) : list string :=
  filter (fun n => colour st n = 0%Z) (elements (universe d)).

(** What holds of the traversal state between two steps: the names on
    the current path are those marked 1, the path follows declared
    edges, and the finished names are closed under edges and lie on no
    cycle. *)
Record dfs_inv (d : t) (st : dfs) : Prop := {
  on_path_marked : forall n, colour st n = 1%Z <-> n ∈ recStack st;
  stack_is_path : is_path d (recStack st);
  finished_closed : forall a b, finished st a -> edge d a b -> finished st b;
  finished_acyclic : forall a, finished st a -> ~ tc (edge d) a a
}.

(** [hasCycleUtil] returned [false]: the state [st'] it leaves when
    called on [node] in state [st]. *)
Definition returned_false (d : t) (node : string) (st st' : dfs) : Prop :=
  dfs_inv d st'
  /\ recStack st' = recStack st
  /\ found st' = found st
  /\ (forall n, colour st n <> 0%Z -> colour st' n = colour st n)
  /\ finished st' node.

(** What a call of [hasCycleUtil] on [node] in state [st] gives. *)
Definition visit_result (d : t) (node : string) (st : dfs)
    (res : option (bool * dfs)) : Prop :=
  exists b st',
    res = Some (b, st')
    /\ if b : bool then closed_path d (found st')
       else returned_false d node st st'.

(** When [hasCycleUtil] may be called on [node] in state [st] with
    [fuel]. *)
Definition visit_ready (d : t) (fuel : nat) (node : string) (st : dfs)
    : Prop :=
  dfs_inv d st
  /\ colour st node = 0%Z
  /\ node ∈ universe d
  /\ (recStack st = []
      \/ exists top, last (recStack st) = Some top /\ edge d top node)
  /\ length (unvisited d st) < fuel.

Fixpoint detect_loop (d : t) (entries : list (string * Target)) (st : dfs)
    : option CycleDetectionResult :=
  match entries with
  | [] => Some {| hasCycle := false; cycleNodes := found st |}
  | (name, _) :: rest =>
      let '(colour, vis) := subscript 0%Z (visited st) name in
      let st := set_visited st vis in
      if (colour =? 0)%Z then
        match hasCycleUtil (dfs_fuel d) d name st with
        | None => None
        | Some (true, st') => Some {| hasCycle := true; cycleNodes := found st' |}
        | Some (false, st') => detect_loop d rest st'
        end
      else detect_loop d rest st
  end.

Definition detectCyclesWithPath (O : UMapOrder) (d : t)
    : option CycleDetectionResult :=
  detect_loop d (iter O d) {| visited := ∅; recStack := []; found := [] |}.

Definition detectCycles (O : UMapOrder) (d : t) : option bool :=
  hasCycle <$> detectCyclesWithPath O d.

(** *** Topological order *)

(** The first two loops of [topologicalSort]. *)
Definition init_inDegree (O : UMapOrder) (d : t) : gmap string Z :=
  let zeroed :=
    foldl (fun inDegree e =>
             match inDegree !! e.1 with
             | None => <[e.1 := 0%Z]> inDegree
             | Some _ => inDegree
             end) ∅ (iter O d) in
  foldl (fun inDegree e =>
           foldl (fun inDegree _ =>
                    let '(n, inDegree) := subscript 0%Z inDegree e.1 in
                    <[e.1 := (n + 1)%Z]> inDegree)
                 inDegree (dependencies_ e.2))
        zeroed (iter O d).

Definition init_queue (O : UMapOrder) (inDegree : gmap string Z) : list string :=
  (filter (fun e => e.2 = 0%Z) (iter O inDegree)).*1.

(** Body of the inner loop: [current] was just taken from the queue. *)
Definition relax (current : string) (st : gmap string Z * list string)
    (e : string * Target) : gmap string Z * list string :=
  let '(inDegree, queue) := st in
  if bool_decide (current ∈ dependencies_ e.2) then
    let '(n, inDegree) := subscript 0%Z inDegree e.1 in
    let inDegree := <[e.1 := (n - 1)%Z]> inDegree in
    (inDegree, if (n - 1 =? 0)%Z then queue ++ [e.1] else queue)
  else st.

(** [while (idx < queue.size())]; [fuel] bounds the iterations. *)
Fixpoint process_queue (fuel : nat) (entries : list (string * Target))
    (inDegree : gmap string Z) (queue : list string) (idx : nat)
    (result : list string) : option (list string) :=
  match queue !! idx with
  | None => Some result
  | Some current =>
      match fuel with
      | O => None
      | S fuel' =>
          let '(inDegree, queue) :=
            foldl (relax current) (inDegree, queue) entries in
          process_queue fuel' entries inDegree queue (S idx)
                        (result ++ [current])
      end
  end.

(** No name enters the queue twice, so [size d] iterations suffice. *)
Definition topologicalSort (O : UMapOrder) (d : t) : option (list string) :=
  let inDegree := init_inDegree O d in
  process_queue (size d) (iter O d) inDegree (init_queue O inDegree) 0 [].

(** The targets whose count reaches zero when [cur] is taken from the
    queue. *)
Definition relaxed_by (cur : string) (inD : gmap string Z)
    (e : string * Target) : Prop :=
  cur ∈ dependencies_ e.2 /\ inD !! e.1 = Some 1%Z.

#[global] Instance relaxed_by_dec cur inD e : Decision (relaxed_by cur inD e).
Proof. unfold relaxed_by. apply _. Defined.

(** How many of the names taken from the queue are among [deps]. *)
Definition seen (deps processed : list string) : nat :=
  length (filter (fun x => x ∈ deps) processed).

(** What holds of [inDegree], [queue] and [idx] each time the loop of
    [topologicalSort] tests its condition. *)
Record queue_inv (d : t) (inD : gmap string Z) (q : list string) (idx : nat)
    : Prop := {
  inv_nodup : NoDup q;
  inv_idx : idx <= length q;
  inv_keys : forall n, is_Some (inD !! n) -> is_Some (d !! n);
  inv_degree : forall n t, d !! n = Some t ->
    inD !! n = Some (Z.of_nat (length (dependencies_ t))
                     - Z.of_nat (seen (dependencies_ t) (take idx q)))%Z;
  inv_queue : forall n, n ∈ q <-> inD !! n = Some 0%Z;
  inv_order : forall i n t dep,
    q !! i = Some n -> d !! n = Some t -> dep ∈ dependencies_ t ->
    exists j, j < i /\ q !! j = Some dep
}.

Definition buildable (d : DAG.t) (n : string) : Prop :=
  forall m, rtc (edge d) n m ->
    (exists target, d !! m = Some target /\ NoDup (dependencies_ target))
    /\ ~ tc (edge d) m m.

End DAG.

(** ** Executor (executor.cpp) *)

Module Executor.

Record ExecutorConfig := {
  numThreads : Z;
  dryRun : bool;
  verbose : bool;
  stopOnError : bool;
  colorOutput : bool
}.

(** [elapsedSeconds] is wall-clock time and is left out. *)
Record BuildStats := {
  totalTargets : nat;
  builtTargets : nat;
  skippedTargets : nat;
  failedTargets : nat
}.

Definition no_stats : BuildStats :=
  {| totalTargets := 0; builtTargets := 0; skippedTargets := 0;
     failedTargets := 0 |}.

(** What an execution does that can be observed from outside, in the
    order in which it happens. *)
Inductive Event :=
| Status (status name : string)
    (** [printStatus(status, name, ...)] *)
| Progress (name : string) (current total : nat) (status : string)
    (** [progressCallback_(name, current, total, status)] *)
| RunSimple (command : string) (ok : bool)
    (** [commandRunner_->runSimple(command)] returned [ok] *)
| SetSignature (name sig : string).
    (** [cache.setSignature(name, sig)] *)

(** The executor: its configuration, the command runner (an external
    program transforming the file system) and whether a progress callback
    is registered. *)
Record t := {
  config_ : ExecutorConfig;
  commandRunner_ : string -> FileSystem -> bool * FileSystem;
  progressCallback_ : bool
}.

(** Everything an execution reads and changes. *)
Record World := {
  fs : FileSystem;
  cache : Cache.t;
  trace : list Event
}.

Definition emit (e : Event) (w : World) : World :=
  {| fs := fs w; cache := cache w; trace := trace w ++ [e] |}.

Definition printStatus (status name : string) (w : World) : World :=
  emit (Status status name) w.

Definition progress (ex : t) (name : string) (current total : nat)
    (status : string) (w : World) : World :=
  if progressCallback_ ex then emit (Progress name current total status) w
  else w.

(** The loop over [getOutputs()] with [std::ifstream::good]. *)
Fixpoint outputsExist (fs : FileSystem) (outputs : list string) : bool :=
  match outputs with
  | [] => true
  | output :: rest =>
      if file_good fs output then outputsExist fs rest else false
  end.

Definition isOutOfDate (target : Target) (w : World) : bool :=
  let currentSig :=
    Signature.computeTargetSignature (fs w) (command_ target) (inputs_ target) in
  Cache.needsRebuild (cache w) (name_ target) currentSig.

Definition runCommand (ex : t) (command : string) (w : World) : bool * World :=
  if dryRun (config_ ex) then (true, w)
  else
    let '(ok, fs') := commandRunner_ ex command (fs w) in
    (ok, emit (RunSimple command ok)
              {| fs := fs'; cache := cache w; trace := trace w |}).

(** [newSig = computeTargetSignature(...); cache.setSignature(name, newSig)] *)
Definition store_signature (target : Target) (w : World) : World :=
  let newSig :=
    Signature.computeTargetSignature (fs w) (command_ target) (inputs_ target) in
  emit (SetSignature (name_ target) newSig)
       {| fs := fs w;
          cache := Cache.setSignature (cache w) (name_ target) newSig;
          trace := trace w |}.

(** [cancelled] is the value [cancelled_.load()] returns. *)
Definition executeTarget (ex : t) (cancelled : bool) (target : Target)
    (w : World) : bool * World :=
  if cancelled then (false, w)
  else if outputsExist (fs w) (outputs_ target) && negb (isOutOfDate target w)
  then (true, printStatus "UP-TO-DATE" (name_ target) w)
  else
    let w := printStatus "BUILD" (name_ target) w in
    let '(ok, w) := runCommand ex (command_ target) w in
    if negb ok then (false, printStatus "FAILED" (name_ target) w)
    else
      let w := store_signature target w in
      (true, printStatus "SUCCESS" (name_ target) w).

Definition count_built (s : BuildStats) : BuildStats :=
  {| totalTargets := totalTargets s; builtTargets := S (builtTargets s);
     skippedTargets := skippedTargets s; failedTargets := failedTargets s |}.
Definition count_skipped (s : BuildStats) : BuildStats :=
  {| totalTargets := totalTargets s; builtTargets := builtTargets s;
     skippedTargets := S (skippedTargets s); failedTargets := failedTargets s |}.
Definition count_failed (s : BuildStats) : BuildStats :=
  {| totalTargets := totalTargets s; builtTargets := builtTargets s;
     skippedTargets := skippedTargets s; failedTargets := S (failedTargets s) |}.
Definition set_total (s : BuildStats) (n : nat) : BuildStats :=
  {| totalTargets := n; builtTargets := builtTargets s;
     skippedTargets := skippedTargets s; failedTargets := failedTargets s |}.

(** *** Single-threaded strategy *)

(** The body of the loop of [executeSingleThreaded] for a target that
    exists.  The first component tells whether the function returns
    [false] at once (a failure with [stopOnError]). *)
Definition single_body (ex : t) (targetName : string) (current : nat)
    (target : Target) (w : World) (stats : BuildStats)
    : bool * World * BuildStats :=
  let total := totalTargets stats in
  let w := progress ex targetName current total "BUILDING" w in
  if outputsExist (fs w) (outputs_ target) && negb (isOutOfDate target w)
  then
    let w := printStatus "UP-TO-DATE" (name_ target) w in
    let stats := count_skipped stats in
    let w := progress ex targetName current total "UP-TO-DATE" w in
    (false, w, stats)
  else
    let w := printStatus "BUILD" (name_ target) w in
    let '(ok, w) := runCommand ex (command_ target) w in
    if negb ok then
      let w := printStatus "FAILED" (name_ target) w in
      let stats := count_failed stats in
      let w := progress ex targetName current total "FAILED" w in
      (stopOnError (config_ ex), w, stats)
    else
      let w := store_signature target w in
      let w := printStatus "SUCCESS" (name_ target) w in
      let stats := count_built stats in
      let w := progress ex targetName current total "SUCCESS" w in
      (false, w, stats).

(** The loop of [executeSingleThreaded] over the rest of [order].
    [cancel_reads i] is what [cancelled_.load()] returns at the start of
    iteration [i]; the flag is set by other threads.  [current] counts
    the iterations done so far. *)
Fixpoint single_loop (ex : t) (d : DAG.t) (cancel_reads : nat -> bool)
    (order : list string) (current : nat) (w : World) (stats : BuildStats)
    : bool * World * BuildStats :=
  match order with
  | [] => (Nat.eqb (failedTargets stats) 0, w, stats)
  | targetName :: rest =>
      if cancel_reads current then (false, w, stats)
      else
        let current := S current in
        match DAG.getTarget d targetName with
        | None => single_loop ex d cancel_reads rest current w stats
        | Some target =>
            let '(stop, w, stats) :=
              single_body ex targetName current target w stats in
            if stop then (false, w, stats)
            else single_loop ex d cancel_reads rest current w stats
        end
  end.

Definition executeSingleThreaded (O : UMapOrder) (ex : t) (d : DAG.t)
    (cancel_reads : nat -> bool) (w : World) (stats : BuildStats)
    : option (bool * World * BuildStats) :=
  order ← DAG.topologicalSort O d;
  Some (single_loop ex d cancel_reads order 0 w (set_total stats (length order))).

(** *** Multi-threaded strategy *)

(** The state the workers share.  [completed], [inProgress], [failed]
    and [processedCount] are the locals of [executeMultiThreaded];
    [cancelled] is the executor's [cancelled_]. *)
Record Shared := {
  completed : gmap string bool;
  inProgress : gmap string bool;
  failed : bool;
  processedCount : nat;
  cancelled : bool;
  world : World;
  stats : BuildStats
}.

Definition set_maps (sh : Shared) (c ip : gmap string bool) : Shared :=
  {| completed := c; inProgress := ip; failed := failed sh;
     processedCount := processedCount sh; cancelled := cancelled sh;
     world := world sh; stats := stats sh |}.

Definition set_world (sh : Shared) (w : World) : Shared :=
  {| completed := completed sh; inProgress := inProgress sh;
     failed := failed sh; processedCount := processedCount sh;
     cancelled := cancelled sh; world := w; stats := stats sh |}.

Definition set_stats (sh : Shared) (s : BuildStats) : Shared :=
  {| completed := completed sh; inProgress := inProgress sh;
     failed := failed sh; processedCount := processedCount sh;
     cancelled := cancelled sh; world := world sh; stats := s |}.

(** The loop of [canExecute] over the dependencies. *)
Fixpoint deps_completed (deps : list string) (c : gmap string bool)
    : bool * gmap string bool :=
  match deps with
  | [] => (true, c)
  | dep :: rest =>
      let '(done, c) := subscript false c dep in
      if done then deps_completed rest c else (false, c)
  end.

Definition canExecute (target : Target) (c ip : gmap string bool)
    : bool * gmap string bool * gmap string bool :=
  let '(ok, c) := deps_completed (dependencies_ target) c in
  if ok then
    let '(busy, ip) := subscript false ip (name_ target) in
    (negb busy, c, ip)
  else (false, c, ip).

(** [for (name : order) if (t && !completed[name] && canExecute(t))]:
    the first target that can start. *)
Fixpoint first_ready (d : DAG.t) (order : list string)
    (c ip : gmap string bool)
    : option string * gmap string bool * gmap string bool :=
  match order with
  | [] => (None, c, ip)
  | name :: rest =>
      match DAG.getTarget d name with
      | None => first_ready d rest c ip
      | Some target =>
          let '(done, c) := subscript false c name in
          if done then first_ready d rest c ip
          else
            let '(ok, c, ip) := canExecute target c ip in
            if ok then (Some name, c, ip) else first_ready d rest c ip
      end
  end.

Definition allDone (O : UMapOrder) (c : gmap string bool) : bool :=
  forallb snd (iter O c).

(** Where a worker is in the body of its loop.  A worker moves from one
    point to the next in one step; steps of different workers
    interleave. *)
Inductive WorkerPC :=
| AtTop                                    (** [while (true)] *)
| AtWait                                   (** taking the lock, [cv.wait] *)
| Picked (targetName : string)             (** lock released *)
| Checking (targetName : string) (target : Target)
| Running (targetName : string) (target : Target)
| Storing (targetName : string) (target : Target)
| Finishing (targetName : string) (success : bool)
| Returned.

(** The block that holds [mtx]: the wait predicate and the choice of a
    target.  When the predicate is false the worker stays blocked. *)
Definition acquire (O : UMapOrder) (ex : t) (d : DAG.t)
    (order : list string) (sh : Shared) : Shared * WorkerPC :=
  if (failed sh && stopOnError (config_ ex)) || cancelled sh then (sh, Returned)
  else if allDone O (completed sh) then (sh, Returned)
  else
    match first_ready d order (completed sh) (inProgress sh) with
    | (Some name, c, ip) => (set_maps sh c (<[name := true]> ip), Picked name)
    | (None, c, ip) => (set_maps sh c ip, AtWait)
    end.

Definition finish (sh : Shared) (targetName : string) (success : bool)
    : Shared :=
  {| completed := <[targetName := true]> (completed sh);
     inProgress := <[targetName := false]> (inProgress sh);
     failed := if success then failed sh else true;
     processedCount := processedCount sh; cancelled := cancelled sh;
     world := world sh; stats := stats sh |}.

Definition worker_step (O : UMapOrder) (ex : t) (d : DAG.t)
    (order : list string) (sh : Shared) (pc : WorkerPC)
    : Shared * WorkerPC :=
  match pc with
  | AtTop => if cancelled sh then (sh, Returned) else (sh, AtWait)
  | AtWait => acquire O ex d order sh
  | Picked targetName =>
      if String.eqb targetName "" then (sh, AtTop)
      else
        match DAG.getTarget d targetName with
        | None => (sh, AtTop)
        | Some target =>
            let current := S (processedCount sh) in
            let w := progress ex targetName current
                              (totalTargets (stats sh)) "BUILDING" (world sh) in
            ({| completed := completed sh; inProgress := inProgress sh;
                failed := failed sh; processedCount := current;
                cancelled := cancelled sh; world := w; stats := stats sh |},
             Checking targetName target)
        end
  | Checking targetName target =>
      let w := world sh in
      if outputsExist (fs w) (outputs_ target) && negb (isOutOfDate target w)
      then
        let w := printStatus "UP-TO-DATE" (name_ target) w in
        (set_stats (set_world sh w) (count_skipped (stats sh)),
         Finishing targetName true)
      else
        (set_world sh (printStatus "BUILD" (name_ target) w),
         Running targetName target)
  | Running targetName target =>
      let '(ok, w) := runCommand ex (command_ target) (world sh) in
      if ok then (set_world sh w, Storing targetName target)
      else
        let w := printStatus "FAILED" (name_ target) w in
        (set_stats (set_world sh w) (count_failed (stats sh)),
         Finishing targetName false)
  | Storing targetName target =>
      let w := store_signature target (world sh) in
      let w := printStatus "SUCCESS" (name_ target) w in
      (set_stats (set_world sh w) (count_built (stats sh)),
       Finishing targetName true)
  | Finishing targetName success => (finish sh targetName success, AtTop)
  | Returned => (sh, Returned)
  end.

(** What can happen next: worker [i] takes a step, or another thread
    calls [cancel()]. *)
Inductive Action :=
| Run (i : nat)
| CancelRequest.

Record System := {
  shared : Shared;
  threads : list WorkerPC
}.

Definition sys_step (O : UMapOrder) (ex : t) (d : DAG.t)
    (order : list string) (sys : System) (a : Action) : System :=
  match a with
  | CancelRequest =>
      let sh := shared sys in
      {| shared :=
           {| completed := completed sh; inProgress := inProgress sh;
              failed := failed sh; processedCount := processedCount sh;
              cancelled := true; world := world sh; stats := stats sh |};
         threads := threads sys |}
  | Run i =>
      match threads sys !! i with
      | None => sys
      | Some pc =>
          let '(sh, pc') := worker_step O ex d order (shared sys) pc in
          {| shared := sh; threads := <[i := pc']> (threads sys) |}
      end
  end.

Definition all_false (order : list string) : gmap string bool :=
  foldl (fun m name => <[name := false]> m) ∅ order.

Definition init_system (ex : t) (order : list string) (cancelled0 : bool)
    (w : World) (s : BuildStats) : System :=
  {| shared :=
       {| completed := all_false order; inProgress := all_false order;
          failed := false; processedCount := 0; cancelled := cancelled0;
          world := w; stats := set_total s (length order) |};
     threads := replicate (Z.to_nat (numThreads (config_ ex))) AtTop |}.

Definition run_schedule (O : UMapOrder) (ex : t) (d : DAG.t)
    (order : list string) (sys : System) (schedule : list Action) : System :=
  foldl (sys_step O ex d order) sys schedule.

Definition joined (sys : System) : bool :=
  forallb (fun pc => match pc with Returned => true | _ => false end)
          (threads sys).

(** [cancelled0] is the flag when the call starts; [schedule] is the
    interleaving.  The call returns once every worker has returned
    ([None] if the schedule stops before that). *)
Definition executeMultiThreaded (O : UMapOrder) (ex : t) (d : DAG.t)
    (cancelled0 : bool) (schedule : list Action) (w : World)
    (s : BuildStats) : option (bool * World * BuildStats) :=
  order ← DAG.topologicalSort O d;
  let sys := run_schedule O ex d order (init_system ex order cancelled0 w s)
                          schedule in
  if joined sys then
    Some (negb (failed (shared sys)), world (shared sys), stats (shared sys))
  else None.

(** What the surroundings of one call do: the values read from the
    cancel flag by the single-threaded loop, and for the workers the
    initial flag and the interleaving. *)
Record Environment := {
  cancel_reads : nat -> bool;
  cancelled0 : bool;
  schedule : list Action
}.

Definition executeWithStats (O : UMapOrder) (ex : t) (d : DAG.t)
    (env : Environment) (w : World) (s : BuildStats)
    : option (bool * World * BuildStats) :=
  if (numThreads (config_ ex) <=? 1)%Z then
    executeSingleThreaded O ex d (cancel_reads env) w s
  else
    executeMultiThreaded O ex d (cancelled0 env) (schedule env) w s.

(** *** Notions used to state what an execution does *)

(** The specification's test for skipping: every declared output can be
    opened and the cache holds the current signature. *)
Definition up_to_date (target : Target) (w : World) : Prop :=
  (forall output, output ∈ outputs_ target -> is_Some (files (fs w) !! output))
  /\ Cache.needsRebuild (cache w) (name_ target)
       (Signature.computeTargetSignature (fs w) (command_ target)
                                         (inputs_ target)) = false.

(** The events added between [w] and [w']. *)
Definition events_since (w w' : World) : list Event :=
  drop (length (trace w)) (trace w').

Definition is_run (e : Event) : Prop :=
  match e with RunSimple _ _ => True | _ => False end.

(** The target was reported up to date and no command was run. *)
Definition skipped (name : string) (events : list Event) : Prop :=
  Status "UP-TO-DATE" name ∈ events /\ Forall (fun e => ~ is_run e) events.

(** The target was rebuilt between [w] and [w']: BUILD was printed for
    it and not UP-TO-DATE, [runCommand] was called for its command and
    its answer decided between SUCCESS and FAILED.  Outside dry-run mode
    the call is a call of the runner with the command, on the file system
    of [w], and [w'] holds the file system the runner left; in dry-run
    mode no command runs and the answer is success. *)
Definition rebuilt (ex : t) (target : Target) (w w' : World) : Prop :=
  let events := events_since w w' in
  let run := commandRunner_ ex (command_ target) (fs w) in
  Status "BUILD" (name_ target) ∈ events
  /\ ~ Status "UP-TO-DATE" (name_ target) ∈ events
  /\ (if dryRun (config_ ex)
      then Status "SUCCESS" (name_ target) ∈ events
           /\ Forall (fun e => ~ is_run e) events /\ fs w' = fs w
      else RunSimple (command_ target) run.1 ∈ events
           /\ Status (if run.1 then "SUCCESS" else "FAILED") (name_ target)
                ∈ events
           /\ fs w' = run.2).

(** [e] reports that the processing of [name] has ended. *)
Definition finishes (name : string) (e : Event) : Prop :=
  e = Status "UP-TO-DATE" name \/ e = Status "SUCCESS" name
  \/ e = Status "FAILED" name.

Definition begins (name : string) (e : Event) : Prop :=
  exists current total, e = Progress name current total "BUILDING".

(** Every BUILDING event of a target comes after an event that ends the
    processing of each of its dependencies. *)
Definition dependencies_respected (d : DAG.t) (tr : list Event) : Prop :=
  forall i e name target dep,
    tr !! i = Some e -> begins name e ->
    d !! name = Some target -> dep ∈ dependencies_ target ->
    exists j e', j < i /\ tr !! j = Some e' /\ finishes dep e'.

Definition is_write (e : Event) : Prop :=
  match e with SetSignature _ _ => True | _ => False end.

(** The cache after the writes recorded in a trace. *)
Definition replay (c : Cache.t) (tr : list Event) : Cache.t :=
  foldl (fun c e => match e with
                    | SetSignature name sig => Cache.setSignature c name sig
                    | _ => c
                    end) c tr.

(** [target] is one of the targets of the graph. *)
Definition registered (d : DAG.t) (target : Target) : Prop :=
  exists key, DAG.getTarget d key = Some target.

(** Every recorded cache write is justified by what the trace holds
    before it: the entry written is that of a target among [known], and
    the write follows the BUILD line of that target and, after it, a
    successful [runCommand] for the command of that target -- the runner
    returned success for it, or the executor is in dry-run mode. *)
Definition writes_follow_success (ex : t) (known : Target -> Prop)
    (tr : list Event) : Prop :=
  forall i name sig,
    tr !! i = Some (SetSignature name sig) ->
    exists target j,
      known target /\ name_ target = name
      /\ j < i /\ tr !! j = Some (Status "BUILD" name)
      /\ (dryRun (config_ ex) = true
          \/ exists k, j < k /\ k < i
               /\ tr !! k = Some (RunSimple (command_ target) true)).

(** [w'] is [w] after some events: its cache is the cache of [w] after
    the recorded writes, each of which is justified. *)
Definition extends (ex : t) (known : Target -> Prop) (w w' : World) : Prop :=
  exists events,
    trace w' = trace w ++ events
    /\ cache w' = replay (cache w) events
    /\ writes_follow_success ex known events.

(** Some event of [tr] ends the processing of [name]. *)
Definition finished_in (tr : list Event) (name : string) : Prop :=
  exists j e, tr !! j = Some e /\ finishes name e.

(** [e] starts no target. *)
Definition quiet (e : Event) : Prop := forall name, ~ begins name e.

(** [e] is a SUCCESS or FAILED report for [name], printed or passed to
    the progress callback. *)
Definition reports_result (name : string) (e : Event) : bool :=
  match e with
  | Status status n | Progress n _ _ status =>
      String.eqb n name
      && (String.eqb status "SUCCESS" || String.eqb status "FAILED")
  | _ => false
  end.

(** What a worker at [pc] relies on, for the order of events. *)
Definition thread_ok (d : DAG.t) (sh : Shared) (pc : WorkerPC) : Prop :=
  match pc with
  | Picked n =>
      forall target dep,
        d !! n = Some target -> dep ∈ dependencies_ target ->
        completed sh !! dep = Some true
  | Checking n target | Running n target | Storing n target =>
      d !! n = Some target
  | Finishing n _ => finished_in (trace (world sh)) n
  | _ => True
  end.

(** What holds of a multi-threaded execution whatever the interleaving,
    for the order of events: targets start after their dependencies have
    ended, and a target marked completed has ended. *)
Record deps_inv (d : DAG.t) (sys : System) : Prop := {
  di_trace : dependencies_respected d (trace (world (shared sys)));
  di_completed : forall n,
    completed (shared sys) !! n = Some true ->
    finished_in (trace (world (shared sys))) n;
  di_threads : forall i pc,
    threads sys !! i = Some pc -> thread_ok d (shared sys) pc
}.

(** Events were added to the world, none of which starts a target. *)
Definition quiet_change (w w' : World) : Prop :=
  exists events, trace w' = trace w ++ events /\ Forall quiet events.

(** [sh'] comes after [sh]: events were added and no target stopped
    being completed. *)
Definition grows (sh sh' : Shared) : Prop :=
  (forall k, completed sh !! k = Some true -> completed sh' !! k = Some true)
  /\ exists events, trace (world sh') = trace (world sh) ++ events.

(** [c'] marks the same targets completed as [c]. *)
Definition same_trues (c c' : gmap string bool) : Prop :=
  forall k, c' !! k = Some true <-> c !! k = Some true.

Definition keyed_check (d : DAG.t) : bool :=
  forallb (fun e => String.eqb (name_ e.2) e.1) (map_to_list d).

(** What holds of a multi-threaded execution that starts with the
    cancel flag set: nothing is done and nothing fails. *)
Definition cancelled_inv (w : World) (sys : System) : Prop :=
  cancelled (shared sys) = true
  /\ failed (shared sys) = false
  /\ world (shared sys) = w
  /\ Forall (fun pc => pc = AtTop \/ pc = Returned) (threads sys).

(** What the events so far hold for a worker at [pc]: the BUILD line of
    its target once it runs the command, and the success of the command
    once it is about to store the signature. *)
Definition justified (ex : t) (d : DAG.t) (events : list Event)
    (pc : WorkerPC) : Prop :=
  match pc with
  | Checking _ target => registered d target
  | Running _ target =>
      registered d target
      /\ exists j, events !! j = Some (Status "BUILD" (name_ target))
  | Storing _ target =>
      registered d target
      /\ exists j,
           events !! j = Some (Status "BUILD" (name_ target))
           /\ (dryRun (config_ ex) = true
               \/ exists k, j < k
                    /\ events !! k = Some (RunSimple (command_ target) true))
  | _ => True
  end.

(** What holds of a multi-threaded execution started in [w0] whatever
    the interleaving: the cache is the initial one after the recorded
    writes, every write is justified, and so is every worker. *)
Definition writes_inv (ex : t) (d : DAG.t) (w0 : World) (sys : System)
    : Prop :=
  exists events,
    trace (world (shared sys)) = trace w0 ++ events
    /\ cache (world (shared sys)) = replay (cache w0) events
    /\ writes_follow_success ex (registered d) events
    /\ forall i pc, threads sys !! i = Some pc -> justified ex d events pc.

(** The lines BUILD and FAILED of a target called [name], and the cache
    writes for that name. *)
Definition is_build (name : string) (e : Event) : bool :=
  match e with
  | Status status n => String.eqb n name && String.eqb status "BUILD"
  | _ => false
  end.

Definition is_failure (name : string) (e : Event) : bool :=
  match e with
  | Status status n => String.eqb n name && String.eqb status "FAILED"
  | _ => false
  end.

Definition is_write_of (name : string) (e : Event) : bool :=
  match e with
  | SetSignature n _ => String.eqb n name
  | _ => false
  end.

Definition count (p : Event -> bool) (events : list Event) : nat :=
  length (List.filter p events).

(** Each FAILED line and each cache write for [name] has a BUILD line of
    its own. *)
Definition settled (name : string) (events : list Event) : Prop :=
  count (is_failure name) events + count (is_write_of name) events
  <= count (is_build name) events.

(** The worker at [pc] has printed BUILD for a target called [name] and
    neither FAILED nor a cache write has followed. *)
Definition building (name : string) (pc : WorkerPC) : Prop :=
  match pc with
  | Running _ target | Storing _ target => name_ target = name
  | _ => False
  end.

(** What holds of a multi-threaded execution whatever the interleaving,
    for the number of lines and writes of each name. *)
Definition settled_inv (w0 : World) (sys : System) : Prop :=
  exists events,
    trace (world (shared sys)) = trace w0 ++ events
    /\ forall name,
         settled name events
         /\ ((exists i pc, threads sys !! i = Some pc /\ building name pc) ->
             count (is_failure name) events + count (is_write_of name) events
             < count (is_build name) events).

(** A change of the world that writes nothing to the cache. *)
Definition plain_change (w w' : World) : Prop :=
  cache w' = cache w
  /\ exists events,
       trace w' = trace w ++ events /\ Forall (fun e => ~ is_write e) events.

(** [execute]: statistics are collected and dropped. *)
Definition execute (O : UMapOrder) (ex : Executor.t) (d : DAG.t)
    (env : Environment) (w : World) : option (bool * World) :=
  r ← executeWithStats O ex d env w no_stats;
  Some (r.1.1, r.1.2).

(** A change of the world in which no command was run. *)
Definition no_run_change (w w' : World) : Prop :=
  fs w' = fs w
  /\ exists events,
       trace w' = trace w ++ events /\ Forall (fun e => ~ is_run e) events.

Definition is_status (status : string) (e : Event) : bool :=
  match e with
  | Status s _ => String.eqb s status
  | _ => false
  end.

(** How many status lines [status] were printed. *)
Definition status_count (status : string) (events : list Event) : nat :=
  length (List.filter (is_status status) events).

(** The statistics [s'] are [s] plus what the events between [w] and [w']
    report. *)
Definition accounted (w : World) (s : BuildStats) (w' : World)
    (s' : BuildStats) : Prop :=
  exists events,
    trace w' = trace w ++ events
    /\ totalTargets s' = totalTargets s
    /\ builtTargets s' = builtTargets s + status_count "SUCCESS" events
    /\ skippedTargets s' = skippedTargets s + status_count "UP-TO-DATE" events
    /\ failedTargets s' = failedTargets s + status_count "FAILED" events.

(** What a dry run changes: no command is run, the files stay as they
    are, and no target is counted as failed. *)
Definition dry_change (w : World) (s : BuildStats) (w' : World)
    (s' : BuildStats) : Prop :=
  no_run_change w w' /\ failedTargets s' = failedTargets s.

(** [name] was reported up to date or built. *)
Definition succeeded (name : string) (events : list Event) : Prop :=
  Status "UP-TO-DATE" name ∈ events \/ Status "SUCCESS" name ∈ events.

Definition is_progress (e : Event) : Prop :=
  match e with Progress _ _ _ _ => True | _ => False end.

(** The number of targets counted as built, skipped or failed. *)
Definition counted (s : BuildStats) : nat :=
  builtTargets s + skippedTargets s + failedTargets s.

(** [c'] is [c] after some [operator[]] reads: absent keys may have been
    added with the value [false]. *)
Definition padded (c c' : gmap string bool) : Prop :=
  forall k, c' !! k = c !! k \/ (c !! k = None /\ c' !! k = Some false).

(** The worker at [pc] has taken the target [n]. *)
Definition holds (n : string) (pc : WorkerPC) : Prop :=
  match pc with
  | Picked m | Checking m _ | Running m _ | Storing m _ | Finishing m _ => m = n
  | _ => False
  end.

(** The worker at [pc] has printed the first status line of [n]. *)
Definition late (n : string) (pc : WorkerPC) : Prop :=
  match pc with
  | Running m _ | Storing m _ | Finishing m _ => m = n
  | _ => False
  end.

(** [e] is the first status line of a target called [name]: UP-TO-DATE
    or BUILD. *)
Definition is_start (name : string) (e : Event) : bool :=
  match e with
  | Status status n =>
      String.eqb n name
      && (String.eqb status "BUILD" || String.eqb status "UP-TO-DATE")
  | _ => false
  end.

Definition start_count (name : string) (events : list Event) : nat :=
  length (List.filter (is_start name) events).

(** What holds of a multi-threaded execution started in [w0] whatever
    the interleaving: a target is held by at most one worker, a held
    target is marked in progress and not completed, and the first status
    line of a target is printed at most once. *)
Record once_inv (d : DAG.t) (w0 : World) (sys : System) : Prop := {
  on_events : exists events,
    trace (world (shared sys)) = trace w0 ++ events
    /\ forall n,
         start_count n events <= 1
         /\ (start_count n events = 1 ->
             completed (shared sys) !! n = Some true
             \/ exists i pc, threads sys !! i = Some pc /\ late n pc);
  on_unique : forall n i j pc pc',
    threads sys !! i = Some pc -> threads sys !! j = Some pc' ->
    holds n pc -> holds n pc' -> i = j;
  on_held : forall n i pc,
    threads sys !! i = Some pc -> holds n pc ->
    inProgress (shared sys) !! n = Some true
    /\ completed (shared sys) !! n <> Some true;
  on_target : forall i pc,
    threads sys !! i = Some pc ->
    match pc with
    | Checking n t | Running n t | Storing n t => d !! n = Some t
    | _ => True
    end
}.

(** What a worker at [pc] has established, for the result of the build:
    a worker about to record the end of a target has printed its last
    status line, and a worker returns only when the build is cancelled,
    has failed with [stopOnError], or every target of the order is
    completed. *)
Definition thread_done (ex : Executor.t) (d : DAG.t) (order : list string)
    (sh : Shared) (events : list Event) (pc : WorkerPC) : Prop :=
  match pc with
  | Checking n t | Running n t | Storing n t => d !! n = Some t
  | Finishing n success =>
      exists t, d !! n = Some t
        /\ if success then succeeded (name_ t) events
           else Status "FAILED" (name_ t) ∈ events
  | Returned =>
      cancelled sh = true
      \/ (failed sh = true /\ stopOnError (config_ ex) = true)
      \/ forall n, n ∈ order -> completed sh !! n = Some true
  | _ => True
  end.

(** What holds of a multi-threaded execution started in [w0] whatever
    the interleaving, for its result: a completed target has printed its
    last status line, and the [failed] flag is set exactly when a FAILED
    line has been recorded. *)
Record done_inv (ex : Executor.t) (d : DAG.t) (order : list string)
    (w0 : World) (sys : System) : Prop := {
  dn_keys : forall n, n ∈ order -> is_Some (completed (shared sys) !! n);
  dn_events : exists events,
    trace (world (shared sys)) = trace w0 ++ events
    /\ (forall n, completed (shared sys) !! n = Some true ->
          exists t, d !! n = Some t
            /\ finished_in events (name_ t)
            /\ (failed (shared sys) = false -> succeeded (name_ t) events))
    /\ (failed (shared sys) = true -> 0 < status_count "FAILED" events)
    /\ (0 < status_count "FAILED" events ->
        failed (shared sys) = true
        \/ exists i n, threads sys !! i = Some (Finishing n false))
    /\ (forall i pc, threads sys !! i = Some pc ->
          thread_done ex d order (shared sys) events pc)
}.

End Executor.

(** ** The program (main.cpp) *)

Module Main.

(** The loop of [main] that fills the graph: the result of [addTarget]
    is ignored. *)
Definition add_targets (targets : list Target) : DAG.t :=
  foldl (fun dag target => (DAG.addTarget dag target).2) ∅ targets.

Import Executor.

(** *** Command line *)

Record Options := {
  buildFile : string;
  config : ExecutorConfig;
  command : string
}.

(** The values [main] starts with: [ExecutorConfig()] and the two
    strings. *)
Definition default_config : ExecutorConfig :=
  {| numThreads := 1; dryRun := false; verbose := false;
     stopOnError := true; colorOutput := true |}.

Definition default_options : Options :=
  {| buildFile := "build.yaml"; config := default_config;
     command := "build" |}.

Definition is_space (c : ascii) : bool :=
  let n := nat_of_ascii c in
  (n =? 32) || ((9 <=? n) && (n <=? 13)).

Definition digit_value (c : ascii) : option Z :=
  let n := nat_of_ascii c in
  if (48 <=? n) && (n <=? 57) then Some (Z.of_nat (n - 48)) else None.

Fixpoint skip_spaces (s : string) : string :=
  match s with
  | String c rest => if is_space c then skip_spaces rest else s
  | EmptyString => s
  end.

Fixpoint digits (acc : Z) (s : string) : Z :=
  match s with
  | String c rest =>
      match digit_value c with
      | Some v => digits (10 * acc + v) rest
      | None => acc
      end
  | EmptyString => acc
  end.

(** [strtol] in base 10, which [std::atoi] calls: white space, an
    optional sign, then digits up to the first character that is none; 0
    when there is no digit; a number outside the range of [long] (64 bits)
    gives the nearest bound. *)
Definition LONG_MAX : Z := 2 ^ 63 - 1.
Definition LONG_MIN : Z := - 2 ^ 63.

Definition strtol (s : string) : Z :=
  let n := match skip_spaces s with
           | String c rest =>
               if Ascii.eqb c "-" then (- digits 0 rest)%Z
               else if Ascii.eqb c "+" then digits 0 rest
               else digits 0 (String c rest)
           | EmptyString => 0%Z
           end in
  Z.max LONG_MIN (Z.min LONG_MAX n).

(** The conversion of a [long] to [int]: the low 32 bits, read as a
    signed number. *)
Definition to_int (n : Z) : Z := ((n + 2 ^ 31) mod 2 ^ 32 - 2 ^ 31)%Z.

(** [std::atoi], as the C library of the platform (glibc, 64-bit [long])
    computes it: [(int) strtol(s, NULL, 10)].  For a number that fits in
    an [int] this is the number; the C standard leaves the other cases
    open. *)
Definition atoi (s : string) : Z := to_int (strtol s).

(** A string of decimal digits. *)
Fixpoint is_number (s : string) : bool :=
  match s with
  | EmptyString => true
  | String c rest => bool_decide (is_Some (digit_value c)) && is_number rest
  end.

Definition set_config (o : Options) (c : ExecutorConfig) : Options :=
  {| buildFile := buildFile o; config := c; command := command o |}.

(** The branches of the loop that read one argument. *)
Definition flag (arg : string) (o : Options) : Options :=
  let c := config o in
  if String.eqb arg "-n" || String.eqb arg "--dry-run" then
    set_config o {| numThreads := numThreads c; dryRun := true;
                    verbose := verbose c; stopOnError := stopOnError c;
                    colorOutput := colorOutput c |}
  else if String.eqb arg "-v" || String.eqb arg "--verbose" then
    set_config o {| numThreads := numThreads c; dryRun := dryRun c;
                    verbose := true; stopOnError := stopOnError c;
                    colorOutput := colorOutput c |}
  else if String.eqb arg "--no-color" then
    set_config o {| numThreads := numThreads c; dryRun := dryRun c;
                    verbose := verbose c; stopOnError := stopOnError c;
                    colorOutput := false |}
  else if String.eqb arg "build" then
    {| buildFile := buildFile o; config := c; command := "build" |}
  else if String.eqb arg "clean" then
    {| buildFile := buildFile o; config := c; command := "clean" |}
  else o.

Definition set_jobs (o : Options) (value : string) : Options :=
  let c := config o in
  let n := atoi value in
  set_config o {| numThreads := if (n <? 1)%Z then 1%Z else n;
                  dryRun := dryRun c; verbose := verbose c;
                  stopOnError := stopOnError c;
                  colorOutput := colorOutput c |}.

(** The loop of [main] over [argv[1]], [argv[2]], ...; [None] when the
    usage is printed and [main] returns 0. *)
Fixpoint parse_args (args : list string) (o : Options) : option Options :=
  match args with
  | [] => Some o
  | arg :: rest =>
      if String.eqb arg "-h" || String.eqb arg "--help" then None
      else
        match rest with
        | value :: rest' =>
            if String.eqb arg "-f" then
              parse_args rest'
                {| buildFile := value; config := config o;
                   command := command o |}
            else if String.eqb arg "-j" then parse_args rest' (set_jobs o value)
            else parse_args rest (flag arg o)
        | [] => Some (flag arg o)
        end
  end.

(** The arguments [main] knows. *)
Definition known_arguments : list string :=
  ["-h"; "--help"; "-f"; "-j"; "-n"; "--dry-run"; "-v"; "--verbose";
   "--no-color"; "build"; "clean"].

(** *** The build *)

(** [main] from the parsed targets on: the checks of the graph, the
    execution and the exit code.  [runner] is the system command runner;
    [main] installs no progress callback and never calls [cancel()], so
    the surroundings of the execution are the steps the workers take.
    The result is the exit code, the file system left behind and what
    the executor did. *)
Definition build (O : UMapOrder) (config : ExecutorConfig)
    (runner : string -> FileSystem -> bool * FileSystem)
    (schedule : list nat) (targets : list Target) (fs : FileSystem)
    : option (Z * FileSystem * list Event) :=
  match targets with
  | [] => Some (1%Z, fs, [])
  | _ =>
      let dag := Main.add_targets targets in
      match DAG.validateDependencies O dag with
      | _ :: _ => Some (1%Z, fs, [])
      | [] =>
          match DAG.detectCyclesWithPath O dag with
          | None => None
          | Some cycleResult =>
              if DAG.hasCycle cycleResult then Some (1%Z, fs, [])
              else
                let cache := (Cache.load fs (Cache.make ".mimir")).2 in
                let executor :=
                  {| config_ := config; commandRunner_ := runner;
                     progressCallback_ := false |} in
                let env :=
                  {| cancel_reads := fun _ => false; cancelled0 := false;
                     schedule := Run <$> schedule |} in
                match executeWithStats O executor dag env
                        {| Executor.fs := fs; Executor.cache := cache;
                           trace := [] |} no_stats with
                | None => None
                | Some (success, w, stats) =>
                    let fs' :=
                      (Cache.save O (Executor.fs w) (Executor.cache w)).2 in
                    Some (if success then 0%Z else 1%Z, fs', trace w)
                end
          end
      end
  end.

End Main.

(** ** Command runners (command_runner.h, command_runner.cpp) *)

Module CommandRunner.

Record CommandResult := {
  exitCode : Z;
  stdOut : string;
  stdErr : string;
  timedOut : bool
}.

Definition success (r : CommandResult) : bool :=
  (exitCode r =? 0)%Z && negb (timedOut r).

Record CommandOptions := {
  workingDir : string;
  timeoutSeconds : option Z;
  captureOutput : bool;
  inheritEnvironment : bool
}.

(** [CommandOptions()]. *)
Definition default_options : CommandOptions :=
  {| workingDir := ""; timeoutSeconds := None; captureOutput := false;
     inheritEnvironment := true |}.

(** [{0, "", "", false}]. *)
Definition ok_result : CommandResult :=
  {| exitCode := 0; stdOut := ""; stdErr := ""; timedOut := false |}.

End CommandRunner.

(** The runner used in tests: it records the commands and returns results
    set up beforehand. *)

Module MockCommandRunner.

Import CommandRunner.

(** The handler is taken to be a function of its arguments; [None] is
    the empty [std::function]. *)
Record t := {
  defaultResult_ : CommandResult;
  commandResults_ : gmap string CommandResult;
  handler_ : option (string -> CommandOptions -> CommandResult);
  lastCommand_ : string;
  commandCount_ : nat
}.

(** Constructor. *)
Definition make : t :=
  {| defaultResult_ := ok_result; commandResults_ := ∅; handler_ := None;
     lastCommand_ := ""; commandCount_ := 0 |}.

Definition run (m : t) (command : string) (options : CommandOptions)
    : CommandResult * t :=
  let m := {| defaultResult_ := defaultResult_ m;
              commandResults_ := commandResults_ m;
              handler_ := handler_ m;
              lastCommand_ := command;
              commandCount_ := S (commandCount_ m) |} in
  match handler_ m with
  | Some handler => (handler command options, m)
  | None =>
      match commandResults_ m !! command with
      | Some result => (result, m)
      | None => (defaultResult_ m, m)
      end
  end.

Definition runSimple (m : t) (command : string) : bool * t :=
  let '(result, m) := run m command default_options in
  (success result, m).

Definition setDefaultResult (m : t) (result : CommandResult) : t :=
  {| defaultResult_ := result; commandResults_ := commandResults_ m;
     handler_ := handler_ m; lastCommand_ := lastCommand_ m;
     commandCount_ := commandCount_ m |}.

Definition setResultFor (m : t) (command : string) (result : CommandResult)
    : t :=
  {| defaultResult_ := defaultResult_ m;
     commandResults_ := <[command := result]> (commandResults_ m);
     handler_ := handler_ m; lastCommand_ := lastCommand_ m;
     commandCount_ := commandCount_ m |}.

Definition setHandler (m : t)
    (handler : option (string -> CommandOptions -> CommandResult)) : t :=
  {| defaultResult_ := defaultResult_ m;
     commandResults_ := commandResults_ m;
     handler_ := handler; lastCommand_ := lastCommand_ m;
     commandCount_ := commandCount_ m |}.

Definition getLastCommand (m : t) : string := lastCommand_ m.

Definition getCommandCount (m : t) : nat := commandCount_ m.

Definition reset (m : t) : t :=
  {| defaultResult_ := ok_result; commandResults_ := ∅; handler_ := None;
     lastCommand_ := ""; commandCount_ := 0 |}.

(** The mock after the commands [commands] were run one after the
    other. *)
Definition run_all (m : t) (commands : list string) : t :=
  foldl (fun m command => (runSimple m command).2) m commands.

End MockCommandRunner.

(** ** Targets (target.cpp) *)

Module TargetOps.

(** [Target()]. *)
Definition default : Target :=
  {| name_ := ""; inputs_ := []; outputs_ := []; command_ := "";
     dependencies_ := []; signature_ := "" |}.

Definition setName (t : Target) (targetName : string) : Target :=
  {| name_ := targetName; inputs_ := inputs_ t; outputs_ := outputs_ t;
     command_ := command_ t; dependencies_ := dependencies_ t;
     signature_ := signature_ t |}.

Definition addInput (t : Target) (input : string) : Target :=
  {| name_ := name_ t; inputs_ := inputs_ t ++ [input];
     outputs_ := outputs_ t; command_ := command_ t;
     dependencies_ := dependencies_ t; signature_ := signature_ t |}.

Definition addOutput (t : Target) (output : string) : Target :=
  {| name_ := name_ t; inputs_ := inputs_ t;
     outputs_ := outputs_ t ++ [output]; command_ := command_ t;
     dependencies_ := dependencies_ t; signature_ := signature_ t |}.

Definition setCommand (t : Target) (cmd : string) : Target :=
  {| name_ := name_ t; inputs_ := inputs_ t; outputs_ := outputs_ t;
     command_ := cmd; dependencies_ := dependencies_ t;
     signature_ := signature_ t |}.

Definition addDependency (t : Target) (dependency : string) : Target :=
  {| name_ := name_ t; inputs_ := inputs_ t; outputs_ := outputs_ t;
     command_ := command_ t; dependencies_ := dependencies_ t ++ [dependency];
     signature_ := signature_ t |}.

End TargetOps.

(** ** Parser of build files (parser.h, parser.cpp) *)

Module Parser.

Record ParseError := {
  message : string;
  file : string;
  line : nat;
  column : nat
}.

(** [ParseError(msg, filePath)]. *)
Definition error (msg filePath : string) : ParseError :=
  {| message := msg; file := filePath; line := 0; column := 0 |}.

(** [ParseResult<T>]. *)
Inductive ParseResult (T : Type) :=
  | Value (v : T)
  | Failure (e : ParseError).
Arguments Value {T} v.
Arguments Failure {T} e.

(** *** Strings *)

Definition tab : ascii := "009"%char.
Definition quote : ascii := "034"%char.

(** The character sets of the trimming calls: space and tab, and these with
    the double quote. *)
Definition blanks : string := String " " (String tab "").
Definition blanks_quote : string := String " " (String tab (String quote "")).

Fixpoint contains (c : ascii) (chars : string) : bool :=
  match chars with
  | EmptyString => false
  | String a rest => Ascii.eqb a c || contains c rest
  end.

(** [s.find_first_not_of(chars)], [None] for [npos]. *)
Fixpoint find_first_not_of (chars s : string) : option nat :=
  match s with
  | EmptyString => None
  | String c rest =>
      if contains c chars then S <$> find_first_not_of chars rest else Some 0
  end.

(** [s.find_last_not_of(chars)]. *)
Fixpoint find_last_not_of (chars s : string) : option nat :=
  match s with
  | EmptyString => None
  | String c rest =>
      match find_last_not_of chars rest with
      | Some i => Some (S i)
      | None => if contains c chars then None else Some 0
      end
  end.

(** Whether [pattern] is found at the start of [s]. *)
Fixpoint starts_with (pattern s : string) : bool :=
  match pattern, s with
  | EmptyString, _ => true
  | String a pattern', String b s' => Ascii.eqb a b && starts_with pattern' s'
  | String _ _, EmptyString => false
  end.

(** [s.find(pattern)] for a string pattern. *)
Fixpoint find_str (pattern s : string) : option nat :=
  if starts_with pattern s then Some 0
  else match s with
       | EmptyString => None
       | String _ rest => S <$> find_str pattern rest
       end.

(** [s.front()] and [s.back()] of a string; [None] when it is empty. *)
Definition front (s : string) : option ascii :=
  match s with
  | EmptyString => None
  | String c _ => Some c
  end.

Fixpoint back (s : string) : option ascii :=
  match s with
  | EmptyString => None
  | String c EmptyString => Some c
  | String _ rest => back rest
  end.

(** The statement [start = s.find_first_not_of(blanks); if (start != npos)
    s = s.substr(start)]. *)
Definition drop_blanks (s : string) : string :=
  match find_first_not_of blanks s with
  | Some start => Cache.str_drop start s
  | None => s
  end.

(** The pieces that [while (std::getline(iss, item, delim))] visits. *)
Fixpoint split_on (delim : ascii) (s : string) : list string :=
  match s with
  | EmptyString => []
  | String c rest =>
      if Ascii.eqb c delim then EmptyString :: split_on delim rest
      else match split_on delim rest with
           | [] => [String c EmptyString]
           | item :: items => String c item :: items
           end
  end.

(** *** Regular expressions *)

(** The classes [\w] and [\s]. *)
Definition is_word (c : ascii) : bool :=
  let n := nat_of_ascii c in
  ((48 <=? n) && (n <=? 57)) || ((65 <=? n) && (n <=? 90))
  || ((97 <=? n) && (n <=? 122)) || (n =? 95).

Definition is_space (c : ascii) : bool :=
  let n := nat_of_ascii c in
  (n =? 32) || ((9 <=? n) && (n <=? 13)).

(** The longest prefix of characters of a class, and what follows it: how a
    greedy [c*] matches when the next thing to match cannot begin with a
    character of the class. *)
Fixpoint span (p : ascii -> bool) (s : string) : string * string :=
  match s with
  | EmptyString => (EmptyString, EmptyString)
  | String c rest =>
      if p c then let '(taken, after) := span p rest in (String c taken, after)
      else (EmptyString, s)
  end.

(** A literal at the start of [s]: what follows it. *)
Fixpoint literal (lit s : string) : option string :=
  match lit, s with
  | EmptyString, _ => Some s
  | String a lit', String b s' =>
      if Ascii.eqb a b then literal lit' s' else None
  | String _ _, EmptyString => None
  end.

(** [c+]: at least one character of the class. *)
Definition span1 (p : ascii -> bool) (s : string) : option (string * string) :=
  match span p s with
  | (EmptyString, _) => None
  | r => Some r
  end.

(** A match of [\$\{(\w+)\}] at the start of [s]: the group and what
    follows the match. *)
Definition match_var (s : string) : option (string * string) :=
  s ← literal "${" s;
  '(name, s) ← span1 is_word s;
  s ← literal "}" s;
  Some (name, s).

(** A match of [\$\{\{([^\}]+)\}\}] at the start of [s]. *)
Definition match_expr (s : string) : option (string * string) :=
  s ← literal "${{" s;
  '(expr, s) ← span1 (fun c => negb (Ascii.eqb c "}")) s;
  s ← literal "}}" s;
  Some (expr, s).

(** [std::regex_search]: the leftmost match, as the text before it, the
    group and the text after it. *)
Fixpoint regex_search (m : string -> option (string * string)) (s : string)
    : option (string * string * string) :=
  match m s with
  | Some (group, after) => Some (EmptyString, group, after)
  | None =>
      match s with
      | EmptyString => None
      | String c rest =>
          '(before, group, after) ← regex_search m rest;
          Some (String c before, group, after)
      end
  end.

(** [std::regex_match] with the pattern of [evaluateExpression], written
    here with Q for the double quote:
    [^\s*(\w+)\s+if\s+config\.(\w+)\s*==\s*Q([^Q]+)Q\s*else\s*(\w+)\s*$];
    the four groups. *)
Definition ternary_expr (expr : string)
    : option (string * string * string * string) :=
  let s := (span is_space expr).2 in
  '(varTrue, s) ← span1 is_word s;
  '(_, s) ← span1 is_space s;
  s ← literal "if" s;
  '(_, s) ← span1 is_space s;
  s ← literal "config." s;
  '(cfgKey, s) ← span1 is_word s;
  s ← literal "==" (span is_space s).2;
  s ← literal (String quote "") (span is_space s).2;
  '(cfgVal, s) ← span1 (fun c => negb (Ascii.eqb c quote)) s;
  s ← literal (String quote "") s;
  s ← literal "else" (span is_space s).2;
  '(varFalse, s) ← span1 is_word (span is_space s).2;
  match (span is_space s).2 with
  | EmptyString => Some (varTrue, cfgKey, cfgVal, varFalse)
  | _ => None
  end.

(** *** Expressions and variables *)

Definition evaluateExpression (expr : string) (vars cfg : gmap string string)
    : string :=
  match ternary_expr expr with
  | Some (varTrue, cfgKey, cfgVal, varFalse) =>
      if bool_decide (cfg !! cfgKey = Some cfgVal)
      then default "" (vars !! varTrue)
      else default "" (vars !! varFalse)
  | None =>
      match vars !! expr with
      | Some value => value
      | None => expr
      end
  end.

(** One [while (std::regex_search(out, m, pattern))] loop of
    [expandVariables].  The loop has no bound in the source; [fuel] bounds
    the number of replacements, and [None] says that more were needed. *)
Fixpoint expand_loop (fuel : nat) (m : string -> option (string * string))
    (vars cfg : gmap string string) (out : string) : option string :=
  match regex_search m out with
  | None => Some out
  | Some (before, group, after) =>
      match fuel with
      | 0 => None
      | S fuel' =>
          expand_loop fuel' m vars cfg
            (before +:+ evaluateExpression group vars cfg +:+ after)
      end
  end.

Definition expandVariables (fuel : nat) (input : string)
    (vars cfg : gmap string string) : option string :=
  out ← expand_loop fuel match_var vars cfg input;
  expand_loop fuel match_expr vars cfg out.

Definition joinList (l : list string) : string :=
  match l with
  | [] => ""
  | first :: rest => foldl (fun out item => out +:+ " " +:+ item) first rest
  end.

(** What [std::filesystem] answers: whether a path exists, and the regular
    files that [recursive_directory_iterator] finds below a path, in its
    order. *)
Record Disk := {
  exists_ : string -> bool;
  regular_files : string -> list string
}.

Definition expandGlob (disk : Disk) (pattern : string) : list string :=
  match find_str "**" pattern with
  | Some pos =>
      let base := Cache.substr pattern 0 (Some pos) in
      if exists_ disk base then regular_files disk base else []
  | None => if exists_ disk pattern then [pattern] else []
  end.

(** *** YAML *)

(** The local variables of [parseYAML]. *)
Record YamlState := {
  targets : list Target;
  current : Target;
  inTarget : bool;
  currentList : string;
  currentSection : string;
  multilineIndentLevel : nat;
  readingMultilineCommand : bool;
  multilineBuffer : string;
  vars : gmap string string;
  cfg : gmap string string
}.

Definition yaml_init : YamlState :=
  {| targets := []; current := TargetOps.default; inTarget := false;
     currentList := ""; currentSection := ""; multilineIndentLevel := 0;
     readingMultilineCommand := false; multilineBuffer := "";
     vars := ∅; cfg := ∅ |}.

Definition with_current (st : YamlState) (t : Target) : YamlState :=
  {| targets := targets st; current := t; inTarget := inTarget st;
     currentList := currentList st; currentSection := currentSection st;
     multilineIndentLevel := multilineIndentLevel st;
     readingMultilineCommand := readingMultilineCommand st;
     multilineBuffer := multilineBuffer st; vars := vars st; cfg := cfg st |}.

Definition with_currentList (st : YamlState) (l : string) : YamlState :=
  {| targets := targets st; current := current st; inTarget := inTarget st;
     currentList := l; currentSection := currentSection st;
     multilineIndentLevel := multilineIndentLevel st;
     readingMultilineCommand := readingMultilineCommand st;
     multilineBuffer := multilineBuffer st; vars := vars st; cfg := cfg st |}.

Definition with_currentSection (st : YamlState) (s : string) : YamlState :=
  {| targets := targets st; current := current st; inTarget := inTarget st;
     currentList := currentList st; currentSection := s;
     multilineIndentLevel := multilineIndentLevel st;
     readingMultilineCommand := readingMultilineCommand st;
     multilineBuffer := multilineBuffer st; vars := vars st; cfg := cfg st |}.

Definition with_multiline (st : YamlState) (level : nat) (reading : bool)
    (buffer : string) : YamlState :=
  {| targets := targets st; current := current st; inTarget := inTarget st;
     currentList := currentList st; currentSection := currentSection st;
     multilineIndentLevel := level; readingMultilineCommand := reading;
     multilineBuffer := buffer; vars := vars st; cfg := cfg st |}.

Definition with_vars (st : YamlState) (v : gmap string string) : YamlState :=
  {| targets := targets st; current := current st; inTarget := inTarget st;
     currentList := currentList st; currentSection := currentSection st;
     multilineIndentLevel := multilineIndentLevel st;
     readingMultilineCommand := readingMultilineCommand st;
     multilineBuffer := multilineBuffer st; vars := v; cfg := cfg st |}.

Definition with_cfg (st : YamlState) (c : gmap string string) : YamlState :=
  {| targets := targets st; current := current st; inTarget := inTarget st;
     currentList := currentList st; currentSection := currentSection st;
     multilineIndentLevel := multilineIndentLevel st;
     readingMultilineCommand := readingMultilineCommand st;
     multilineBuffer := multilineBuffer st; vars := vars st; cfg := c |}.

(** [if (inTarget && !current.getName().empty()) targets.push_back(current)]. *)
Definition push_current (st : YamlState) : list Target :=
  if inTarget st && negb (String.eqb (name_ (current st)) "")
  then targets st ++ [current st]
  else targets st.

(** The lines [- ...] at indent 2: a new target begins. *)
Definition begin_target (st : YamlState) (trimmed : string) : YamlState :=
  let current :=
    match find_str "name:" trimmed with
    | Some pos =>
        TargetOps.setName TargetOps.default
          (drop_blanks (Cache.substr trimmed (pos + 5) None))
    | None => TargetOps.default
    end in
  {| targets := push_current st; current := current; inTarget := true;
     currentList := ""; currentSection := currentSection st;
     multilineIndentLevel := multilineIndentLevel st;
     readingMultilineCommand := readingMultilineCommand st;
     multilineBuffer := multilineBuffer st; vars := vars st; cfg := cfg st |}.

(** The lambda [expandAllLists]. *)
Definition expandAllLists (disk : Disk) (vars : gmap string string)
    (t : Target) : gmap string string :=
  let expandedInputs := concat (expandGlob disk <$> inputs_ t) in
  let expandedOutputs := concat (expandGlob disk <$> outputs_ t) in
  let expandedDeps := concat (expandGlob disk <$> dependencies_ t) in
  <["dependencies" := joinList expandedDeps]>
    (<["outputs" := joinList expandedOutputs]>
       (<["inputs" := joinList expandedInputs]> vars)).

(** [current.setCommand(expandVariables(text, expandAllLists(current),
    cfg))]. *)
Definition set_expanded_command (disk : Disk) (fuel : nat) (st : YamlState)
    (text : string) : option YamlState :=
  command ← expandVariables fuel text
              (expandAllLists disk (vars st) (current st)) (cfg st);
  Some (with_current st (TargetOps.setCommand (current st) command)).

(** [current.addInput(item)] and the like, by the value of
    [currentList]. *)
Definition add_to_list (currentList : string) (t : Target) (item : string)
    : Target :=
  if String.eqb currentList "inputs" then TargetOps.addInput t item
  else if String.eqb currentList "outputs" then TargetOps.addOutput t item
  else if String.eqb currentList "dependencies"
       then TargetOps.addDependency t item
  else t.

(** A line [key: value] inside a target. *)
Definition yaml_key_value (disk : Disk) (fuel : nat) (st : YamlState)
    (indent : nat) (key value : string) : option YamlState :=
  if String.eqb key "name" then
    Some (with_currentList
            (with_current st (TargetOps.setName (current st) value)) "")
  else if String.eqb key "command" then
    if String.eqb value "|" || String.eqb value ">" then
      Some (with_multiline st (indent + 2) true "")
    else
      st ← set_expanded_command disk fuel st value;
      Some (with_currentList st "")
  else if String.eqb key "inputs" then Some (with_currentList st "inputs")
  else if String.eqb key "outputs" then Some (with_currentList st "outputs")
  else if String.eqb key "dependencies"
       then Some (with_currentList st "dependencies")
  else Some st.

(** The body of the loop of [parseYAML] from the test for an empty line
    on. *)
Definition yaml_plain_line (disk : Disk) (fuel : nat) (st : YamlState)
    (line : string) : option YamlState :=
  if String.eqb line "" || bool_decide (front line = Some "#"%char) then Some st
  else
    match find_first_not_of blanks line with
    | None => Some st
    | Some indent =>
        let trimmed := Cache.substr line indent None in
        if (indent =? 0) && String.eqb trimmed "variables:" then
          Some (with_currentSection st "variables")
        else if (indent =? 0) && String.eqb trimmed "config:" then
          Some (with_currentSection st "config")
        else if (indent =? 0) && String.eqb trimmed "targets:" then
          Some (with_currentSection st "")
        else
          match (if String.eqb (currentSection st) "" then None
                 else Cache.find ":" trimmed) with
          | Some colonPos =>
              let key := Cache.substr trimmed 0 (Some colonPos) in
              let value :=
                drop_blanks (Cache.substr trimmed (colonPos + 1) None) in
              if String.eqb (currentSection st) "variables" then
                Some (with_vars st (<[key := value]> (vars st)))
              else if String.eqb (currentSection st) "config" then
                Some (with_cfg st (<[key := value]> (cfg st)))
              else Some st
          | None =>
              if (indent =? 2) && bool_decide (front trimmed = Some "-"%char)
              then Some (begin_target st trimmed)
              else if negb (inTarget st) then Some st
              else
                match Cache.find ":" trimmed with
                | Some colonPos =>
                    yaml_key_value disk fuel st indent
                      (Cache.substr trimmed 0 (Some colonPos))
                      (drop_blanks (Cache.substr trimmed (colonPos + 1) None))
                | None =>
                    if bool_decide (front trimmed = Some "-"%char)
                       && negb (String.eqb (currentList st) "")
                    then
                      Some (with_current st
                              (add_to_list (currentList st) (current st)
                                 (drop_blanks (Cache.substr trimmed 1 None))))
                    else Some st
                end
          end
    end.

(** Whether a line goes on with the block of a multi-line command. *)
Definition in_block (st : YamlState) (line : string) : bool :=
  match find_first_not_of blanks line with
  | Some indent => multilineIndentLevel st <=? indent
  | None => false
  end.

(** The block ends: the command is set from the buffer. *)
Definition end_block (disk : Disk) (fuel : nat) (st : YamlState)
    : option YamlState :=
  st ← set_expanded_command disk fuel st (multilineBuffer st);
  Some (with_multiline st (multilineIndentLevel st) false "").

(** The body of the loop of [parseYAML]. *)
Definition yaml_line (disk : Disk) (fuel : nat) (st : YamlState)
    (line : string) : option YamlState :=
  if readingMultilineCommand st then
    if in_block st line then
      Some (with_multiline st (multilineIndentLevel st) true
              (multilineBuffer st
               +:+ Cache.substr line (multilineIndentLevel st) None
               +:+ String Cache.newline ""))
    else
      st ← end_block disk fuel st;
      yaml_plain_line disk fuel st line
  else yaml_plain_line disk fuel st line.

Fixpoint yaml_lines (disk : Disk) (fuel : nat) (st : YamlState)
    (lines : list string) : option YamlState :=
  match lines with
  | [] => Some st
  | line :: rest =>
      st ← yaml_line disk fuel st line;
      yaml_lines disk fuel st rest
  end.

(** [parseYAML]: the targets and [lastError_]; [None] when an expansion
    needed more than [fuel] replacements. *)
Definition parseYAML (disk : Disk) (fuel : nat) (fs : FileSystem)
    (filepath : string) : option (list Target * option ParseError) :=
  match files fs !! filepath with
  | None => Some ([], Some (error "Failed to open file" filepath))
  | Some content =>
      st ← yaml_lines disk fuel yaml_init (Cache.getlines content);
      st ← (if readingMultilineCommand st
            then set_expanded_command disk fuel st (multilineBuffer st)
            else Some st);
      Some (push_current st, None)
  end.

(** *** TOML *)

(** The local variables of [parseTOML] that change; [vars] and [cfg] stay
    empty. *)
Record TomlState := {
  toml_targets : list Target;
  toml_current : Target;
  toml_currentList : string
}.

Definition toml_init : TomlState :=
  {| toml_targets := []; toml_current := TargetOps.default;
     toml_currentList := "" |}.

(** [if (!current.getName().empty()) targets.push_back(current)]. *)
Definition toml_push (st : TomlState) : list Target :=
  if String.eqb (name_ (toml_current st)) "" then toml_targets st
  else toml_targets st ++ [toml_current st].

(** A line [[section]]. *)
Definition toml_section (st : TomlState) (line : string) : TomlState :=
  let section := Cache.substr line 1 (Some (String.length line - 2)) in
  let current :=
    if bool_decide (find_str "target" section = Some 0) then
      match Cache.find "." section with
      | Some dot =>
          TargetOps.setName TargetOps.default
            (Cache.substr section (dot + 1) None)
      | None => TargetOps.default
      end
    else TargetOps.default in
  {| toml_targets := toml_push st; toml_current := current;
     toml_currentList := "" |}.

(** One piece of a list value: trimmed of blanks and quotes and added,
    unless nothing is left. *)
Definition toml_item (currentList : string) (t : Target) (item : string)
    : Target :=
  match find_first_not_of blanks_quote item,
        find_last_not_of blanks_quote item with
  | Some start, Some end_ =>
      add_to_list currentList t
        (Cache.substr item start (Some (end_ - start + 1)))
  | _, _ => t
  end.

(** A line [key = value]. *)
Definition toml_key_value (fuel : nat) (st : TomlState) (key value : string)
    : option TomlState :=
  if String.eqb key "name" then
    Some {| toml_targets := toml_targets st;
            toml_current := TargetOps.setName (toml_current st) value;
            toml_currentList := toml_currentList st |}
  else if String.eqb key "command" then
    let current := toml_current st in
    let tmpVars : gmap string string :=
      <["dependencies" := joinList (dependencies_ current)]>
        (<["outputs" := joinList (outputs_ current)]>
           (<["inputs" := joinList (inputs_ current)]> ∅)) in
    command ← expandVariables fuel value tmpVars ∅;
    Some {| toml_targets := toml_targets st;
            toml_current := TargetOps.setCommand current command;
            toml_currentList := "" |}
  else if String.eqb key "inputs" || String.eqb key "outputs"
          || String.eqb key "dependencies" then
    let current :=
      if negb (String.eqb value "")
         && bool_decide (front value = Some "["%char) then
        let items :=
          match Cache.find "]" value with
          | Some endPos => Cache.substr value 1 (Some (endPos - 1))
          | None => Cache.substr value 1 None
          end in
        foldl (toml_item key) (toml_current st) (split_on "," items)
      else toml_current st in
    Some {| toml_targets := toml_targets st; toml_current := current;
            toml_currentList := key |}
  else Some st.

(** The body of the loop of [parseTOML]. *)
Definition toml_line (fuel : nat) (st : TomlState) (line : string)
    : option TomlState :=
  if String.eqb line "" || bool_decide (front line = Some "#"%char) then Some st
  else
    match find_first_not_of blanks line with
    | None => Some st
    | Some trimStart =>
        let line := Cache.substr line trimStart None in
        if bool_decide (front line = Some "["%char)
           && bool_decide (back line = Some "]"%char) then
          Some (toml_section st line)
        else
          match Cache.find "=" line with
          | None => Some st
          | Some eqPos =>
              let key := Cache.substr line 0 (Some eqPos) in
              let value := Cache.substr line (eqPos + 1) None in
              let key :=
                match find_last_not_of blanks key with
                | Some keyEnd => Cache.substr key 0 (Some (keyEnd + 1))
                | None => key
                end in
              let value := drop_blanks value in
              let value :=
                if negb (String.eqb value "")
                   && bool_decide (front value = Some quote)
                   && bool_decide (back value = Some quote)
                then Cache.substr value 1 (Some (String.length value - 2))
                else value in
              toml_key_value fuel st key value
          end
    end.

Fixpoint toml_lines (fuel : nat) (st : TomlState) (lines : list string)
    : option TomlState :=
  match lines with
  | [] => Some st
  | line :: rest =>
      st ← toml_line fuel st line;
      toml_lines fuel st rest
  end.

Definition parseTOML (fuel : nat) (fs : FileSystem) (filepath : string)
    : option (list Target * option ParseError) :=
  match files fs !! filepath with
  | None => Some ([], Some (error "Failed to open file" filepath))
  | Some content =>
      st ← toml_lines fuel toml_init (Cache.getlines content);
      Some (toml_push st, None)
  end.

(** *** Results *)

(** [parseYAMLWithResult] and [parseTOMLWithResult]: the error when
    [lastError_] is set, the targets otherwise. *)
Definition with_result (r : list Target * option ParseError)
    : ParseResult (list Target) :=
  match r.2 with
  | Some e => Failure e
  | None => Value r.1
  end.

Definition parseYAMLWithResult (disk : Disk) (fuel : nat) (fs : FileSystem)
    (filepath : string) : option (ParseResult (list Target)) :=
  with_result <$> parseYAML disk fuel fs filepath.

Definition parseTOMLWithResult (fuel : nat) (fs : FileSystem)
    (filepath : string) : option (ParseResult (list Target)) :=
  with_result <$> parseTOML fuel fs filepath.

Definition parseFile (disk : Disk) (fuel : nat) (fs : FileSystem)
    (filepath : string) : option (ParseResult (list Target)) :=
  if bool_decide (is_Some (find_str ".yaml" filepath))
     || bool_decide (is_Some (find_str ".yml" filepath))
  then parseYAMLWithResult disk fuel fs filepath
  else if bool_decide (is_Some (find_str ".toml" filepath))
  then parseTOMLWithResult fuel fs filepath
  else Some (Failure (error "Unknown file format" filepath)).

(** *** Notions used in the statements about the parser *)

Fixpoint all_chars (p : ascii -> bool) (s : string) : bool :=
  match s with
  | EmptyString => true
  | String c rest => p c && all_chars p rest
  end.

(** A non-empty string of [\w] characters. *)
Definition word (s : string) : Prop :=
  s <> "" /\ all_chars is_word s = true.

Definition no_dollar (s : string) : Prop := Cache.find "$" s = None.

(** A text with references, piece by piece: plain text, [${name}] and
    [${{expr}}]. *)
Inductive Piece :=
  | Text (s : string)
  | Var (name : string)
  | Expr (expr : string).

Definition written (p : Piece) : string :=
  match p with
  | Text s => s
  | Var name => "${" +:+ (name +:+ "}")
  | Expr expr => "${{" +:+ (expr +:+ "}}")
  end.

Definition text_of (pieces : list Piece) : string :=
  foldr (fun p s => written p +:+ s) "" pieces.

(** What a piece stands for. *)
Definition expanded (vars cfg : gmap string string) (p : Piece) : string :=
  match p with
  | Text s => s
  | Var name => default name (vars !! name)
  | Expr expr => evaluateExpression expr vars cfg
  end.

(** The pieces whose expansion is plain substitution: no [$] in the text
    and in the values, so that no replacement brings a new reference. *)
Definition substitutable (vars cfg : gmap string string) (p : Piece) : Prop :=
  no_dollar (expanded vars cfg p) /\
  match p with
  | Text _ => True
  | Var name => word name
  | Expr expr =>
      expr <> "" /\ Cache.find "}" expr = None /\ no_dollar expr
  end.

(** No match of [m] begins inside [pre], whatever follows. *)
Definition inert (m : string -> option (string * string)) (pre : string)
    : Prop :=
  forall rest,
    regex_search m (pre +:+ rest)
    = (fun r => (pre +:+ r.1.1, r.1.2, r.2)) <$> regex_search m rest.

(** The text of a ternary expression. *)
Definition ternary (varTrue cfgKey cfgVal varFalse : string) : string :=
  varTrue +:+ " " +:+ "if" +:+ " " +:+ "config." +:+ cfgKey +:+ " " +:+ "=="
  +:+ " " +:+ String quote "" +:+ cfgVal +:+ String quote "" +:+ " "
  +:+ "else" +:+ " " +:+ varFalse.

(** The test of [parseFile] and of [main] on the name of the build file. *)
Definition known_format (filepath : string) : bool :=
  bool_decide (is_Some (find_str ".yaml" filepath))
  || bool_decide (is_Some (find_str ".yml" filepath))
  || bool_decide (is_Some (find_str ".toml" filepath)).

Definition named (t : Target) : Prop := name_ t <> "".

(** *** Build files as they are written *)

(** Lines, each ended by a newline. *)
Definition unlines (lines : list string) : string :=
  foldr (fun l s => l +:+ String Cache.newline s) "" lines.

(** A text that a line can hold after a key or a dash: not empty, no blank in front, no newline. *)
Definition plain_text (s : string) : Prop :=
  match s with
  | EmptyString => False
  | String c _ => contains c blanks = false
  end
  /\ Cache.find Cache.newline s = None.

(** The layout of a target in a YAML build file. *)
Definition yaml_items (items : list string) : list string :=
  (fun item => "      - " +:+ item) <$> items.

Definition yaml_target (t : Target) : list string :=
  ["  - name: " +:+ name_ t; "    inputs:"] ++ yaml_items (inputs_ t)
  ++ ["    outputs:"] ++ yaml_items (outputs_ t)
  ++ ["    command: " +:+ command_ t; "    dependencies:"]
  ++ yaml_items (dependencies_ t).

Definition yaml_file (targets : list Target) : string :=
  unlines ("targets:" :: concat (yaml_target <$> targets)).

(** The targets that this layout can hold. *)
Definition yaml_item (s : string) : Prop :=
  plain_text s /\ Cache.find ":" s = None.

Definition yaml_writable (t : Target) : Prop :=
  plain_text (name_ t)
  /\ Forall yaml_item (inputs_ t)
  /\ Forall yaml_item (outputs_ t)
  /\ Forall yaml_item (dependencies_ t)
  /\ plain_text (command_ t) /\ no_dollar (command_ t)
  /\ command_ t <> "|" /\ command_ t <> ">"
  /\ signature_ t = "".

(** The state of the loop of [parseYAML] between the lines of targets. *)
Definition between (targets : list Target) (current : Target)
    (inTarget : bool) (currentList : string) : YamlState :=
  {| targets := targets; current := current; inTarget := inTarget;
     currentList := currentList; currentSection := "";
     multilineIndentLevel := 0; readingMultilineCommand := false;
     multilineBuffer := ""; vars := ∅; cfg := ∅ |}.

(** [k] spaces. *)
Fixpoint spaces (k : nat) : string :=
  match k with
  | 0 => ""
  | S k' => String " " (spaces k')
  end.

(** The layout of a target in a TOML build file. *)
Definition quoted (s : string) : string := String quote (s +:+ String quote "").

Fixpoint join_with (sep : string) (pieces : list string) : string :=
  match pieces with
  | [] => ""
  | [p] => p
  | p :: ps => p +:+ sep +:+ join_with sep ps
  end.

(** The texts between the commas of a list value. *)
Definition toml_pieces (items : list string) : list string :=
  match items with
  | [] => []
  | first :: rest =>
      quoted first :: ((fun item => " " +:+ quoted item) <$> rest)
  end.

Definition toml_list (items : list string) : string :=
  "[" +:+ join_with "," (toml_pieces items) +:+ "]".

Definition toml_target (t : Target) : list string :=
  ["[target." +:+ name_ t +:+ "]";
   "name = " +:+ quoted (name_ t);
   "inputs = " +:+ toml_list (inputs_ t);
   "outputs = " +:+ toml_list (outputs_ t);
   "command = " +:+ quoted (command_ t);
   "dependencies = " +:+ toml_list (dependencies_ t)].

Definition toml_file (targets : list Target) : string :=
  unlines (concat (toml_target <$> targets)).

(** The targets that this layout can hold. *)
Definition toml_item_ok (s : string) : Prop :=
  match s with
  | EmptyString => False
  | String c _ => contains c blanks_quote = false
  end
  /\ match back s with
     | Some c => contains c blanks_quote = false
     | None => False
     end
  /\ Cache.find "," s = None /\ Cache.find "]" s = None
  /\ Cache.find Cache.newline s = None.

Definition toml_writable (t : Target) : Prop :=
  name_ t <> "" /\ Cache.find Cache.newline (name_ t) = None
  /\ Forall toml_item_ok (inputs_ t)
  /\ Forall toml_item_ok (outputs_ t)
  /\ Forall toml_item_ok (dependencies_ t)
  /\ Cache.find Cache.newline (command_ t) = None /\ no_dollar (command_ t)
  /\ signature_ t = "".

End Parser.

(** ** Example graphs *)

Module Examples.

Definition target (name : string) (deps : list string) : Target :=
  {| name_ := name; inputs_ := []; outputs_ := [];
     command_ := "touch " +:+ name; dependencies_ := deps;
     signature_ := "" |}.

Definition dag_of (targets : list Target) : DAG.t :=
  foldl (fun d x => (DAG.addTarget d x).2) ∅ targets.

(** [A], [B -> A], [C -> B]. *)
Definition linear : DAG.t :=
  dag_of [target "A" []; target "B" ["A"]; target "C" ["B"]].

(** [A], [B -> A], [C -> A], [D -> B, C]. *)
Definition diamond : DAG.t :=
  dag_of [target "A" []; target "B" ["A"]; target "C" ["A"];
          target "D" ["B"; "C"]].

Definition diamond_rank (name : string) : nat :=
  if String.eqb name "A" then 0 else if String.eqb name "D" then 2 else 1.

(** [B] lists its dependency [A] twice. *)
Definition twice : DAG.t := dag_of [target "A" []; target "B" ["A"; "A"]].

(** [A] depends on a name that is not a target. *)
Definition ghost : DAG.t := dag_of [target "A" ["ghost"]; target "B" []].

Definition rank_B (name : string) : nat :=
  if String.eqb name "B" then 1 else 0.

Definition rank_A (name : string) : nat :=
  if String.eqb name "A" then 1 else 0.

Definition empty_fs : FileSystem := {| files := ∅; blocked := ∅ |}.

Definition config (threads : Z) (dry : bool) : Executor.ExecutorConfig :=
  {| Executor.numThreads := threads; Executor.dryRun := dry;
     Executor.verbose := false; Executor.stopOnError := true;
     Executor.colorOutput := true |}.

(** An executor whose commands all succeed and change nothing. *)
Definition executor (threads : Z) (dry : bool) : Executor.t :=
  {| Executor.config_ := config threads dry;
     Executor.commandRunner_ := fun _ fs => (true, fs);
     Executor.progressCallback_ := true |}.

(** An executor whose commands all fail. *)
Definition failing_executor (dry : bool) : Executor.t :=
  {| Executor.config_ := config 1 dry;
     Executor.commandRunner_ := fun _ fs => (false, fs);
     Executor.progressCallback_ := true |}.

Definition fresh_world : Executor.World :=
  {| Executor.fs := empty_fs; Executor.cache := Cache.make ".mimir";
     Executor.trace := [] |}.

(** The world a second execution starts in: files and cache of [w], and
    nothing observed yet. *)
Definition again (w : Executor.World) : Executor.World :=
  {| Executor.fs := Executor.fs w; Executor.cache := Executor.cache w;
     Executor.trace := [] |}.

(** A target with an output, and a world in which the cache holds its
    current signature and the output is missing. *)
Definition output_target : Target :=
  {| name_ := "A"; inputs_ := []; outputs_ := ["a.out"];
     command_ := "touch a.out"; dependencies_ := []; signature_ := "" |}.

Definition deleted_output_world : Executor.World :=
  {| Executor.fs := empty_fs;
     Executor.cache :=
       Cache.setSignature (Cache.make ".mimir") "A"
         (Signature.computeTargetSignature empty_fs "touch a.out" []);
     Executor.trace := [] |}.

(** An executor whose command for B fails and whose other commands
    succeed, and a world whose cache holds an entry for B. *)
Definition picky_executor (threads : Z) : Executor.t :=
  {| Executor.config_ := config threads false;
     Executor.commandRunner_ :=
       fun command fs => (negb (String.eqb command "touch B"), fs);
     Executor.progressCallback_ := false |}.

Definition stale_world : Executor.World :=
  {| Executor.fs := empty_fs;
     Executor.cache := Cache.setSignature (Cache.make ".mimir") "B" "old";
     Executor.trace := [] |}.

Definition never_cancelled (i : nat) : bool := false.

Definition always_cancelled (i : nat) : bool := true.

(** Workers [0 .. threads-1] take one step each, [rounds] times. *)
Definition round_robin (threads rounds : nat) : list Executor.Action :=
  mjoin (replicate rounds (Executor.Run <$> seq 0 threads)).

(** [cancel()] was called before the execution starts. *)
Definition cancelled_before (schedule : list Executor.Action)
    : Executor.Environment :=
  {| Executor.cancel_reads := always_cancelled; Executor.cancelled0 := true;
     Executor.schedule := schedule |}.

(** The events of a second single-threaded execution of [linear], after
    a first one that built everything. *)
Definition second_run_trace : list Executor.Event :=
  match Executor.executeSingleThreaded std_order (executor 1 false) linear
          never_cancelled fresh_world Executor.no_stats with
  | Some (_, w1, _) =>
      match Executor.executeSingleThreaded std_order (executor 1 false) linear
              never_cancelled (again w1) Executor.no_stats with
      | Some (_, w2, _) => Executor.trace w2
      | None => []
      end
  | None => []
  end.

(** A cache file with a repeated key, a line without separator, a value
    that holds the separator and an empty key. *)
Definition messy_cache_file : string :=
  "a=b=c" +:+ String Cache.newline
  ("no separator" +:+ String Cache.newline
   ("a=1" +:+ String Cache.newline "=x")).

(** A file system that holds one source file. *)
Definition source_fs : FileSystem :=
  {| files := {[ "a.c" := "int main(void) { return 0; }" ]}; blocked := ∅ |}.

(** The surroundings of a call during which [cancel()] is never called:
    the workers take their steps in the order [schedule]. *)
Definition no_cancel (schedule : list Executor.Action)
    : Executor.Environment :=
  {| Executor.cancel_reads := never_cancelled; Executor.cancelled0 := false;
     Executor.schedule := schedule |}.

Definition result_of (o : option (bool * Executor.World * Executor.BuildStats))
    : bool * Executor.World * Executor.BuildStats :=
  match o with
  | Some r => r
  | None => (false, fresh_world, Executor.no_stats)
  end.

(** A first build of [linear] by [ex]. *)
Definition linear_run (ex : Executor.t) (schedule : list Executor.Action)
    : bool * Executor.World * Executor.BuildStats :=
  result_of (Executor.executeWithStats std_order ex linear
               (no_cancel schedule) fresh_world Executor.no_stats).

(** An executor whose commands all fail and that goes on after a
    failure. *)
Definition lenient_executor : Executor.t :=
  {| Executor.config_ :=
       {| Executor.numThreads := 1; Executor.dryRun := false;
          Executor.verbose := false; Executor.stopOnError := false;
          Executor.colorOutput := true |};
     Executor.commandRunner_ := fun _ fs => (false, fs);
     Executor.progressCallback_ := true |}.

Definition linear_targets : list Target :=
  [target "A" []; target "B" ["A"]; target "C" ["B"]].

(** What [main] gives for [linear_targets] with one job, commands that
    succeed and an empty file system. *)
Definition main_run : Z * FileSystem * list Executor.Event :=
  match Main.build std_order Main.default_config (fun _ fs => (true, fs))
          [] linear_targets empty_fs with
  | Some r => r
  | None => (1%Z, empty_fs, [])
  end.

(** *** Build files *)

Import Parser.

Definition flags : gmap string string :=
  {[ "CC" := "gcc"; "CFLAGS" := "-Wall -O2"; "DEBUG" := "-g" ]}.

Definition debug_mode : gmap string string := {[ "mode" := "debug" ]}.

(** A disk with the directory [src/] and two files in it. *)
Definition sources_disk : Disk :=
  {| exists_ := fun p =>
       bool_decide (p = "src/") || bool_decide (p = "src/main.c")
       || bool_decide (p = "src/README");
     regular_files := fun p =>
       if bool_decide (p = "src/") then ["src/main.c"; "src/README"]
       else [] |}.

(** A target whose input exists and whose output does not. *)
Definition compile_main : Target :=
  {| name_ := "compile"; inputs_ := ["src/main.c"]; outputs_ := ["main.o"];
     command_ := ""; dependencies_ := []; signature_ := "" |}.

Definition compile_command : list Piece :=
  [Var "CC"; Text " "; Var "CFLAGS"; Text " ";
   Expr (ternary "DEBUG" "mode" "debug" "CFLAGS"); Text " -c "; Var "SRC"].

Definition nl : string := String Cache.newline "".

(** A build file with a target that has no name. *)
Definition nameless_yaml : string :=
  "targets:" +:+ nl +:+
  "  - command: echo nameless" +:+ nl +:+
  "  - name: named" +:+ nl +:+
  "    command: echo named" +:+ nl.

Definition nameless_fs : FileSystem :=
  {| files := {[ "build.yaml" := nameless_yaml ]}; blocked := ∅ |}.

Definition no_disk : Disk :=
  {| exists_ := fun _ => false; regular_files := fun _ => [] |}.

(** The build file of two targets, as it is written. *)
Definition build_yaml : string :=
  "targets:" +:+ nl +:+
  "  - name: compile_main" +:+ nl +:+
  "    inputs:" +:+ nl +:+
  "      - main.c" +:+ nl +:+
  "    outputs:" +:+ nl +:+
  "      - main.o" +:+ nl +:+
  "    command: gcc -c main.c -o main.o" +:+ nl +:+
  "    dependencies:" +:+ nl +:+
  "  - name: link_program" +:+ nl +:+
  "    inputs:" +:+ nl +:+
  "      - main.o" +:+ nl +:+
  "    outputs:" +:+ nl +:+
  "      - program" +:+ nl +:+
  "    command: gcc main.o -o program" +:+ nl +:+
  "    dependencies:" +:+ nl +:+
  "      - compile_main" +:+ nl.

Definition two_targets : list Target :=
  [{| name_ := "compile_main"; inputs_ := ["main.c"]; outputs_ := ["main.o"];
      command_ := "gcc -c main.c -o main.o"; dependencies_ := [];
      signature_ := "" |};
   {| name_ := "link_program"; inputs_ := ["main.o"];
      outputs_ := ["program"]; command_ := "gcc main.o -o program";
      dependencies_ := ["compile_main"]; signature_ := "" |}].

Definition build_fs : FileSystem :=
  {| files := {[ "build.yaml" := build_yaml ]}; blocked := ∅ |}.

(** A build file whose only input holds a colon. *)
Definition colon_yaml : string :=
  "targets:" +:+ nl +:+
  "  - name: fetch" +:+ nl +:+
  "    inputs:" +:+ nl +:+
  "      - C:/src/main.c" +:+ nl +:+
  "    command: gcc -c main.c" +:+ nl.

Definition q : string := String quote "".

(** The build file of [two_targets] in TOML, as it is written. *)
Definition build_toml : string :=
  "[target.compile_main]" +:+ nl +:+
  "name = " +:+ q +:+ "compile_main" +:+ q +:+ nl +:+
  "inputs = [" +:+ q +:+ "main.c" +:+ q +:+ "]" +:+ nl +:+
  "outputs = [" +:+ q +:+ "main.o" +:+ q +:+ "]" +:+ nl +:+
  "command = " +:+ q +:+ "gcc -c main.c -o main.o" +:+ q +:+ nl +:+
  "dependencies = []" +:+ nl +:+
  "[target.link_program]" +:+ nl +:+
  "name = " +:+ q +:+ "link_program" +:+ q +:+ nl +:+
  "inputs = [" +:+ q +:+ "main.o" +:+ q +:+ "]" +:+ nl +:+
  "outputs = [" +:+ q +:+ "program" +:+ q +:+ "]" +:+ nl +:+
  "command = " +:+ q +:+ "gcc main.o -o program" +:+ q +:+ nl +:+
  "dependencies = [" +:+ q +:+ "compile_main" +:+ q +:+ "]" +:+ nl.

Definition toml_fs : FileSystem :=
  {| files := {[ "build.toml" := build_toml ]}; blocked := ∅ |}.

End Examples.

(** * Properties *)

(** ** Strings *)

Section StringFacts.

Lemma str_app_assoc (a b c : string) : (a +:+ b) +:+ c = a +:+ (b +:+ c).
Proof. induction a as [|x a IH]; simpl; [done|]. by rewrite IH. Qed.

Lemma str_app_nil_r (a : string) : a +:+ "" = a.
Proof. induction a as [|x a IH]; simpl; [done|]. by rewrite IH. Qed.

Lemma str_length_app (a b : string) :
  String.length (a +:+ b) = String.length a + String.length b.
Proof. induction a as [|x a IH]; simpl; [done|]. by rewrite IH. Qed.

Lemma chars_app (a b : string) :
  list_ascii_of_string (a +:+ b)
  = list_ascii_of_string a ++ list_ascii_of_string b.
Proof. induction a as [|x a IH]; simpl; [done|]. by rewrite IH. Qed.

End StringFacts.

(** ** Signature service *)

Section SignatureProofs.
Import Signature.

Lemma all_lower_hex_app a b :
  all_lower_hex a -> all_lower_hex b -> all_lower_hex (a +:+ b).
Proof. unfold all_lower_hex. rewrite chars_app. apply Forall_app_2. Qed.

Lemma hex_digit_lower n : is_lower_hex (hex_digit n).
Proof.
  unfold hex_digit, is_lower_hex. generalize (Z.to_nat n). intros k.
  do 16 (destruct k as [|k]; [simpl; tauto|]). simpl. tauto.
Qed.

Lemma hex_digits_length fuel n acc :
  String.length (hex_digits fuel n acc) <= fuel + String.length acc.
Proof.
  revert n acc. induction fuel as [|fuel IH]; intros n acc; simpl; [lia|].
  destruct (n / 16 =? 0)%Z; simpl; [lia|].
  etrans; [apply IH|]. simpl. lia.
Qed.

Lemma hex_digits_lower fuel n acc :
  all_lower_hex acc -> all_lower_hex (hex_digits fuel n acc).
Proof.
  revert n acc. induction fuel as [|fuel IH]; intros n acc Hacc; simpl; [done|].
  assert (all_lower_hex (String (hex_digit (n mod 16)) acc)) as H.
  { constructor; [apply hex_digit_lower | done]. }
  destruct (n / 16 =? 0)%Z; [done|]. by apply IH.
Qed.

Lemma fill_length k c : String.length (fill k c) = k.
Proof. induction k; simpl; congruence. Qed.

Lemma fill_zero_lower k : all_lower_hex (fill k "0").
Proof.
  induction k; simpl; [constructor|].
  constructor; [|done]. unfold is_lower_hex. simpl. tauto.
Qed.

Lemma put_hex8_length n : String.length (put_hex8 n) = 8.
Proof.
  unfold put_hex8, setw, to_hex. rewrite str_length_app, fill_length.
  pose proof (hex_digits_length 8 n "") as H.
  change (String.length "") with 0 in H. lia.
Qed.

Lemma put_hex8_lower n : all_lower_hex (put_hex8 n).
Proof.
  apply all_lower_hex_app; [apply fill_zero_lower|].
  apply hex_digits_lower. constructor.
Qed.

Lemma fixed_words :
  put_hex8 h3 +:+ put_hex8 h4 +:+ put_hex8 h5 +:+ put_hex8 h6 +:+ put_hex8 h7
  = fixed_tail.
Proof. vm_compute. reflexivity. Qed.

Lemma fixed_tail_lower : all_lower_hex fixed_tail.
Proof.
  rewrite <- fixed_words.
  do 4 (apply all_lower_hex_app; [apply put_hex8_lower|]).
  apply put_hex8_lower.
Qed.

(** The digest is the three data words followed by the fixed tail. *)
Lemma sha256_split data :
  let w := absorb_all init_words data in
  sha256 data
  = (put_hex8 (h0 w) +:+ put_hex8 (h1 w) +:+ put_hex8 (h2 w)) +:+ fixed_tail.
Proof.
  intros w. unfold sha256. fold w. rewrite <- fixed_words.
  by rewrite !str_app_assoc.
Qed.

(** C10: every digest is 64 lowercase hexadecimal characters, and its
    last 40 characters are the same for all inputs: only a head of 24
    characters is computed from the data. *)
Theorem sha256_fixed_tail (data : string) :
  String.length (sha256 data) = 64
  /\ all_lower_hex (sha256 data)
  /\ exists head, String.length head = 24 /\ sha256 data = head +:+ fixed_tail.
Proof.
  rewrite sha256_split. cbv zeta.
  set (w := absorb_all init_words data).
  split; [|split].
  - rewrite !str_length_app, !put_hex8_length. reflexivity.
  - apply all_lower_hex_app; [|apply fixed_tail_lower].
    do 2 (apply all_lower_hex_app; [apply put_hex8_lower|]).
    apply put_hex8_lower.
  - eexists. split; [|reflexivity].
    by rewrite !str_length_app, !put_hex8_length.
Qed.

(** The head does depend on the data. *)
Lemma sha256_head_varies : sha256 "" <> sha256 "a".
Proof. intros H. vm_compute in H. discriminate. Qed.

(** C7: two different commands with the same target signature. *)
Theorem target_signature_collision (fs : FileSystem) :
  "AQ0001" <> "QA0010"
  /\ computeTargetSignature fs "AQ0001" [] = computeTargetSignature fs "QA0010" [].
Proof. split; [discriminate | vm_compute; reflexivity]. Qed.

(** Swapping two inputs with equal contents leaves the signature as it
    was. *)
Lemma target_signature_reorder_same_contents fs cmd a b :
  files fs !! a = files fs !! b ->
  computeTargetSignature fs cmd [a; b] = computeTargetSignature fs cmd [b; a].
Proof.
  intros H. unfold computeTargetSignature, computeFileSignature. simpl.
  by rewrite H.
Qed.

End SignatureProofs.

(** ** Iteration over unordered maps *)

Section IterFacts.
Context (O : UMapOrder) {V : Type}.
Implicit Types m : gmap string V.

Lemma iter_NoDup_keys m : NoDup (iter O m).*1.
Proof. rewrite (iter_perm O). apply NoDup_fst_map_to_list. Qed.

Lemma elem_of_iter m k v : (k, v) ∈ iter O m ↔ m !! k = Some v.
Proof. rewrite (iter_perm O). apply elem_of_map_to_list. Qed.

Lemma elem_of_iter_keys m k : k ∈ (iter O m).*1 ↔ is_Some (m !! k).
Proof.
  rewrite list_elem_of_fmap. split.
  - intros [[k' v] [-> H]]. apply elem_of_iter in H. eauto.
  - intros [v H]. exists (k, v). split; [done|]. by apply elem_of_iter.
Qed.

Lemma iter_keys_length m : length (iter O m).*1 = size m.
Proof. rewrite length_fmap, (iter_perm O). apply length_map_to_list. Qed.
End IterFacts.

(** ** Cache *)

Section CacheProofs.
Import Cache Examples.

(** *** Searching and cutting strings *)

Lemma find_app_None c a b :
  find c a = None -> find c b = None -> find c (a +:+ b) = None.
Proof.
  intros Ha Hb. induction a as [|x a IH]; simpl in *; [done|].
  destruct (Ascii.eqb x c); [done|].
  destruct (find c a); [done|]. by rewrite IH.
Qed.

Lemma find_app_found c a b n :
  find c a = Some n -> find c (a +:+ b) = Some n.
Proof.
  revert n. induction a as [|x a IH]; intros n; simpl; [done|].
  destruct (Ascii.eqb x c); [done|].
  destruct (find c a) as [p|]; simpl; [|done].
  intros [= <-]. by rewrite (IH p).
Qed.

Lemma find_app_first c a b :
  find c a = None -> find c (a +:+ String c b) = Some (String.length a).
Proof.
  intros Ha. induction a as [|x a IH]; simpl in *.
  - by rewrite Ascii.eqb_refl.
  - destruct (Ascii.eqb x c); [done|].
    destruct (find c a); [done|]. by rewrite IH.
Qed.

Lemma str_take_app a b : str_take (String.length a) (a +:+ b) = a.
Proof. induction a as [|x a IH]; simpl; [by destruct b|]. by rewrite IH. Qed.

Lemma str_drop_app a b : str_drop (String.length a) (a +:+ b) = b.
Proof. induction a as [|x a IH]; simpl; [by destruct b|]. done. Qed.

(** Where [find] reports the separator, the line is the text before it,
    the separator and the text after it, and the text before holds no
    separator. *)
Lemma find_split c s pos :
  find c s = Some pos ->
  s = str_take pos s +:+ String c (str_drop (pos + 1) s)
  /\ find c (str_take pos s) = None.
Proof.
  revert pos. induction s as [|x s IH]; intros pos; simpl; [done|].
  destruct (Ascii.eqb_spec x c) as [->|Hne].
  - intros [= <-]. by destruct s.
  - destruct (find c s) as [p|] eqn:Hf; simpl; [|done].
    intros [= <-]. destruct (IH p eq_refl) as [H1 H2]. simpl.
    rewrite <- H1, H2. split; [done|].
    destruct (Ascii.eqb_spec x c); [done|]. done.
Qed.

Lemma load_line_skip m line : find equals line = None -> load_line m line = m.
Proof. unfold load_line. by intros ->. Qed.

Lemma load_line_entry m key value :
  find equals key = None ->
  load_line m (key +:+ "=" +:+ value) = <[key := value]> m.
Proof.
  intros Hk. unfold load_line.
  change ("=" +:+ value) with (String equals value).
  rewrite (find_app_first _ _ _ Hk). unfold substr. simpl str_drop at 1.
  rewrite str_take_app.
  replace (String.length key + 1) with (String.length (key +:+ "=")).
  - change (String equals value) with ("=" +:+ value).
    rewrite <- str_app_assoc. by rewrite str_drop_app.
  - rewrite str_length_app. done.
Qed.

(** A line with a separator is [key=value] for the key that holds none. *)
Lemma line_with_separator line pos :
  find equals line = Some pos ->
  exists key value,
    line = key +:+ "=" +:+ value /\ find equals key = None.
Proof.
  intros H. destruct (find_split _ _ _ H) as [H1 H2].
  by exists (str_take pos line), (str_drop (pos + 1) line).
Qed.

Lemma entry_line_inj k1 v1 k2 v2 :
  find equals k1 = None -> find equals k2 = None ->
  k1 +:+ "=" +:+ v1 = k2 +:+ "=" +:+ v2 -> k1 = k2 /\ v1 = v2.
Proof.
  intros H1 H2 Heq.
  pose proof (load_line_entry ∅ k1 v1 H1) as E1.
  pose proof (load_line_entry ∅ k2 v2 H2) as E2.
  rewrite Heq in E1. rewrite E1 in E2.
  apply (f_equal (fun m => m !! k1)) in E2.
  rewrite lookup_insert_eq in E2.
  destruct (decide (k2 = k1)) as [->|Hne].
  - rewrite lookup_insert_eq in E2. split; congruence.
  - by rewrite lookup_insert_ne, lookup_empty in E2.
Qed.

(** *** Reading lines *)

Lemma getlines_unfold s :
  getlines s =
  match s with
  | EmptyString => []
  | _ => let '(line, after) := getline s in
         line :: match after with Some rest => getlines rest | None => [] end
  end.
Proof.
  induction s as [|c s IH]; [done|]. simpl.
  destruct (Ascii.eqb c newline); [done|].
  rewrite IH. destruct s as [|c' s']; [done|].
  by destruct (getline (String c' s')) as [line after].
Qed.

Lemma getlines_line s rest :
  find newline s = None ->
  getlines (s +:+ String newline rest) = s :: getlines rest.
Proof.
  intros Hs. induction s as [|c s IH]; simpl in *; [done|].
  destruct (Ascii.eqb c newline); [done|].
  destruct (find newline s); [done|]. by rewrite IH.
Qed.

(** *** Loading *)

Lemma last_binding_snoc_other lines line key value :
  (forall value', line <> key +:+ "=" +:+ value') ->
  last_binding (lines ++ [line]) key value <-> last_binding lines key value.
Proof.
  intros Hline. unfold last_binding. split.
  - intros [Hk (before & after & Heq & Hlast)]. split; [done|].
    destruct (decide (after = [])) as [->|Hne].
    + apply app_inj_tail in Heq as [_ Heq]. by destruct (Hline value).
    + destruct (exists_last Hne) as (after' & x & ->).
      change (before ++ (key +:+ "=" +:+ value) :: after' ++ [x])
        with (before ++ ((key +:+ "=" +:+ value) :: after') ++ [x]) in Heq.
      rewrite app_assoc in Heq. apply app_inj_tail in Heq as [-> ->].
      exists before, after'. split; [done|].
      intros l v' Hl. apply Hlast. apply elem_of_app. by left.
  - intros [Hk (before & after & -> & Hlast)]. split; [done|].
    exists before, (after ++ [line]). split.
    + by rewrite <- app_assoc.
    + intros l v' [Hl|Hl%list_elem_of_singleton]%elem_of_app.
      * by apply Hlast.
      * subst l. apply Hline.
Qed.

Lemma last_binding_snoc_same lines key value value' :
  find equals key = None ->
  last_binding (lines ++ [key +:+ "=" +:+ value]) key value'
  <-> value = value'.
Proof.
  intros Hk. unfold last_binding. split.
  - intros [_ (before & after & Heq & Hlast)].
    destruct (decide (after = [])) as [->|Hne].
    + apply app_inj_tail in Heq as [_ Heq].
      by apply entry_line_inj in Heq as [_ ?].
    + destruct (exists_last Hne) as (after' & x & ->).
      change (before ++ (key +:+ "=" +:+ value') :: after' ++ [x])
        with (before ++ ((key +:+ "=" +:+ value') :: after') ++ [x]) in Heq.
      rewrite app_assoc in Heq. apply app_inj_tail in Heq as [_ <-].
      destruct (Hlast (key +:+ "=" +:+ value) value); [|done].
      apply elem_of_app. right. by apply list_elem_of_singleton.
  - intros <-. split; [done|]. exists lines, []. split; [done|].
    intros l v' Hl. by apply elem_of_nil in Hl.
Qed.

Lemma load_lines_lookup lines key value :
  foldl load_line ∅ lines !! key = Some value
  <-> last_binding lines key value.
Proof.
  revert key value. induction lines as [|line lines IH] using rev_ind;
    intros key value.
  - simpl. rewrite lookup_empty. split; [done|].
    intros [_ (before & after & Heq & _)]. by destruct before.
  - rewrite foldl_app. simpl.
    destruct (find equals line) as [pos|] eqn:Hfind.
    + destruct (line_with_separator _ _ Hfind) as (k & v & -> & Hk).
      rewrite load_line_entry by done.
      destruct (decide (k = key)) as [->|Hne].
      * rewrite lookup_insert_eq, last_binding_snoc_same by done.
        split; congruence.
      * rewrite lookup_insert_ne, IH by done.
        symmetry. destruct (find equals key) eqn:Hkey.
        { split; intros [? _]; congruence. }
        apply last_binding_snoc_other. intros v' Heq.
        by apply entry_line_inj in Heq as [? _].
    + rewrite load_line_skip, IH by done. symmetry.
      apply last_binding_snoc_other. intros v' ->.
      destruct (find equals key) eqn:Hkey.
      * by rewrite (find_app_found _ _ _ _ Hkey) in Hfind.
      * change ("=" +:+ v') with (String equals v') in Hfind.
        by rewrite (find_app_first _ _ _ Hkey) in Hfind.
Qed.

(** C9: when the cache file cannot be opened, [load] reports so and the
    cache is as before; otherwise the mapping is replaced by the one the
    lines of the file define: [key] maps to [value] exactly when the last
    line [key=...] whose [key] has no separator is [key=value].  Lines
    without a separator define nothing. *)
Theorem load_spec (fs : FileSystem) (c : Cache.t) :
  match files fs !! cacheFile_ c with
  | None => load fs c = (false, c)
  | Some content =>
      exists m,
        load fs c = (true, with_signatures c m)
        /\ (forall key value,
              m !! key = Some value
              <-> last_binding (getlines content) key value)
        /\ (forall line, line ∈ getlines content ->
              find equals line = None ->
              forall key value, line <> key +:+ "=" +:+ value)
  end.
Proof.
  unfold load. destruct (files fs !! cacheFile_ c) as [content|]; [|done].
  eexists. split; [done|]. split.
  - apply load_lines_lookup.
  - intros line _ Hfind key value ->.
    destruct (find equals key) eqn:Hkey.
    + by rewrite (find_app_found _ _ _ _ Hkey) in Hfind.
    + change ("=" +:+ value) with (String equals value) in Hfind.
      by rewrite (find_app_first _ _ _ Hkey) in Hfind.
Qed.

(** *** Saving and loading again *)

Lemma write_entries_from out entries :
  foldl (fun out '(targetName, signature) =>
           out +:+ targetName +:+ "=" +:+ signature +:+ String newline "")
        out entries
  = out +:+ write_entries entries.
Proof.
  unfold write_entries. revert out.
  induction entries as [|[k v] entries IH] using rev_ind; intros out.
  - simpl. by rewrite str_app_nil_r.
  - rewrite !foldl_app. simpl. rewrite IH. by rewrite !str_app_assoc.
Qed.

Lemma write_entries_cons e entries :
  write_entries (e :: entries)
  = entry_line e +:+ String newline (write_entries entries).
Proof.
  destruct e as [k v]. unfold write_entries at 1. simpl.
  rewrite write_entries_from. unfold entry_line. simpl.
  rewrite !str_app_assoc. simpl. rewrite !str_app_assoc. done.
Qed.

Lemma entry_line_no_newline e :
  plain_entry e -> find newline (entry_line e) = None.
Proof.
  intros [[_ Hk] Hv]. unfold entry_line.
  apply find_app_None; [done|]. by apply (find_app_None _ "=").
Qed.

Lemma getlines_write_entries entries :
  Forall plain_entry entries ->
  getlines (write_entries entries) = entry_line <$> entries.
Proof.
  induction 1 as [|e entries He _ IH]; [done|].
  rewrite write_entries_cons, getlines_line, IH; [done|].
  by apply entry_line_no_newline.
Qed.

Lemma load_entry_lines m entries :
  Forall plain_entry entries ->
  foldl load_line m (entry_line <$> entries)
  = foldl (fun m e => <[e.1 := e.2]> m) m entries.
Proof.
  intros H. revert m. induction H as [|e entries [[He _] _] _ IH]; intros m.
  - done.
  - simpl. unfold entry_line at 1. rewrite load_line_entry by done. apply IH.
Qed.

Lemma insert_all_lookup (entries : list (string * string))
    (m : gmap string string) k v :
  NoDup (entries.*1) ->
  foldl (fun m e => <[e.1 := e.2]> m) m entries !! k = Some v
  <-> (k, v) ∈ entries \/ ((k ∉ entries.*1) /\ m !! k = Some v).
Proof.
  revert m. induction entries as [|[k' v'] entries IH]; intros m Hnd.
  - simpl. split; [|intros [H|[_ H]]; [by apply elem_of_nil in H|done]].
    intros H. right. split; [|done]. apply not_elem_of_nil.
  - rewrite fmap_cons, NoDup_cons in Hnd. destruct Hnd as [Hk' Hnd].
    simpl. rewrite IH by done. rewrite elem_of_cons, not_elem_of_cons.
    destruct (decide (k = k')) as [->|Hne].
    + rewrite lookup_insert_eq. split.
      * intros [H|[_ [= ->]]]; [|by left; left].
        destruct Hk'. apply list_elem_of_fmap. by exists (k', v).
      * intros [[[= ->]|H]|[[? _] _]]; [|left; done|done].
        right. split; [done|done].
    + rewrite lookup_insert_ne by done. split.
      * intros [H|[? ?]]; [left; by right|right; done].
      * intros [[[= ? ?]|H]|[[_ ?] ?]]; [done|by left|by right].
Qed.

Lemma set_all_plain c ops :
  map_Forall (fun k v => plain_entry (k, v)) (signatures_ c) ->
  Forall plain_entry ops ->
  map_Forall (fun k v => plain_entry (k, v)) (signatures_ (set_all c ops)).
Proof.
  intros Hc Hops. revert c Hc.
  induction Hops as [|[k v] ops He _ IH]; intros c Hc; [done|].
  apply IH. simpl. by apply map_Forall_insert_2.
Qed.

Lemma set_all_file c ops : cacheFile_ (set_all c ops) = cacheFile_ c.
Proof.
  revert c. induction ops as [|[k v] ops IH]; intros c; [done|].
  simpl. by rewrite IH.
Qed.

Lemma save_then_load O fs c fresh :
  map_Forall (fun k v => plain_entry (k, v)) (signatures_ c) ->
  cacheFile_ c ∉ blocked fs ->
  cacheFile_ fresh = cacheFile_ c ->
  exists fs',
    save O fs c = (true, fs')
    /\ load fs' fresh = (true, with_signatures fresh (signatures_ c)).
Proof.
  intros Hplain Hopen Hfile. unfold save.
  rewrite bool_decide_eq_false_2 by done. eexists. split; [done|].
  unfold load, write_file. simpl. rewrite Hfile, lookup_insert_eq.
  f_equal. f_equal.
  assert (Forall plain_entry (iter O (signatures_ c))) as Hall.
  { apply Forall_forall. intros [k v] Hin.
    apply (Hplain k v). by apply elem_of_iter in Hin. }
  rewrite getlines_write_entries, load_entry_lines by done.
  apply map_eq. intros k. apply option_eq. intros v.
  rewrite insert_all_lookup by apply iter_NoDup_keys.
  rewrite elem_of_iter, lookup_empty. split; [|by left].
  by intros [?|[_ ?]].
Qed.

(** C8, as it holds: for names without separator and line break and
    signatures without line break, what [save] writes is read back by
    [load] on any cache object that uses the same file. *)
Theorem save_load_roundtrip (O : UMapOrder) (fs : FileSystem)
    (c0 fresh : Cache.t) (ops : list (string * string)) :
  map_Forall (fun k v => plain_entry (k, v)) (signatures_ c0) ->
  Forall plain_entry ops ->
  cacheFile_ c0 ∉ blocked fs ->
  cacheFile_ fresh = cacheFile_ c0 ->
  exists fs' loaded,
    save O fs (set_all c0 ops) = (true, fs')
    /\ load fs' fresh = (true, loaded)
    /\ signatures_ loaded = signatures_ (set_all c0 ops).
Proof.
  intros Hc0 Hops Hopen Hfile.
  destruct (save_then_load O fs (set_all c0 ops) fresh) as (fs' & Hs & Hl).
  - by apply set_all_plain.
  - by rewrite set_all_file.
  - by rewrite set_all_file.
  - by exists fs', (with_signatures fresh (signatures_ (set_all c0 ops))).
Qed.

Lemma save_load_roundtrip_witness :
  exists fs' loaded,
    save std_order empty_fs
         (set_all (make ".mimir") [("target1", "abc123"); ("target2", "def456")])
    = (true, fs')
    /\ load fs' (make ".mimir") = (true, loaded)
    /\ signatures_ loaded
       = signatures_
           (set_all (make ".mimir")
                    [("target1", "abc123"); ("target2", "def456")]).
Proof.
  apply (save_load_roundtrip std_order empty_fs (make ".mimir") (make ".mimir")).
  - apply map_Forall_empty.
  - repeat constructor.
  - apply not_elem_of_empty.
  - reflexivity.
Defined.

(** C8 as stated fails: a name that holds the separator is cut at it
    when the file is read back. *)
Lemma save_load_roundtrip_counterexample :
  let c := set_all (make ".mimir") [("a=b", "c")] in
  exists fs' loaded,
    save std_order empty_fs c = (true, fs')
    /\ load fs' (make ".mimir") = (true, loaded)
    /\ signatures_ c !! "a=b" = Some "c"
    /\ signatures_ loaded !! "a=b" = None
    /\ signatures_ loaded !! "a" = Some "b=c"
    /\ signatures_ loaded <> signatures_ c.
Proof.
  eexists _, _. split; [reflexivity|]. split; [reflexivity|].
  split; [reflexivity|]. split; [reflexivity|]. split; [reflexivity|].
  intros H. apply (f_equal (fun m => m !! "a")) in H. vm_compute in H.
  discriminate.
Qed.

End CacheProofs.

(** ** Target graph *)

Section GraphFacts.
Import DAG.
Context (d : DAG.t).

Lemma is_path_cons a p : is_path d (a :: p) -> is_path d p.
Proof. destruct p; simpl; [done|]. by intros [_ ?]. Qed.

Lemma is_path_app_l p q : is_path d (p ++ q) -> is_path d p.
Proof.
  induction p as [|a p IH]; [done|].
  destruct p as [|b p]; [done|]. simpl in *.
  intros [H1 H2]. split; [done|]. by apply IH.
Qed.

Lemma is_path_app_r p q : is_path d (p ++ q) -> is_path d q.
Proof.
  induction p as [|a p IH]; [done|].
  intros H. apply IH. by apply is_path_cons in H.
Qed.

Lemma is_path_tc a mid b : is_path d (a :: mid ++ [b]) -> tc (edge d) a b.
Proof.
  revert a. induction mid as [|x mid IH]; intros a; simpl.
  - intros [H _]. by apply tc_once.
  - intros [H Hp]. eapply tc_l; [done|]. by apply IH.
Qed.

Lemma edge_registered a b : edge d a b -> is_Some (d !! a).
Proof. intros (target & H & _). eauto. Qed.

(** A list with a repeated element. *)
Lemma not_NoDup_repeat (l : list string) :
  ~ NoDup l -> exists x l1 l2 l3, l = l1 ++ x :: l2 ++ x :: l3.
Proof.
  induction l as [|a l IH]; intros Hnd.
  - destruct Hnd. constructor.
  - destruct (decide (a ∈ l)) as [Hin|Hnin].
    + apply list_elem_of_split in Hin as (l2 & l3 & ->).
      by exists a, [], l2, l3.
    + destruct IH as (x & l1 & l2 & l3 & ->).
      { intros H. apply Hnd. by constructor. }
      by exists x, (a :: l1), l2, l3.
Qed.

(** Walks of any length exist inside a set of targets each of which has
    a dependency in the set. *)
Lemma walk_in_set (S : string -> Prop) :
  (forall a, S a -> exists b, edge d a b /\ S b) ->
  forall k a, S a ->
    exists p, length p = k /\ is_path d (a :: p) /\ Forall S (a :: p).
Proof.
  intros Hstep k. induction k as [|k IH]; intros a Ha.
  - exists []. by repeat constructor.
  - destruct (Hstep _ Ha) as (b & Hab & Hb).
    destruct (IH b Hb) as (p & Hlen & Hp & HS).
    exists (b :: p). split; [simpl; congruence|].
    split; [by split | by constructor].
Qed.

(** A non-empty set of targets each of which has a dependency in the set
    holds a cycle. *)
Lemma no_sink_cycle (S : string -> Prop) a :
  (forall a, S a -> exists b, edge d a b /\ S b) -> S a -> has_cycle d.
Proof.
  intros Hstep Ha.
  destruct (walk_in_set S Hstep (size d) a Ha) as (p & Hlen & Hp & HS).
  assert (~ NoDup (a :: p)) as Hdup.
  { intros Hnd.
    assert (a :: p ⊆+ (map_to_list d).*1) as Hsub.
    { apply NoDup_submseteq; [done|]. intros x Hx.
      rewrite Forall_forall in HS. destruct (Hstep x (HS x Hx)) as (b & Hb & _).
      apply edge_registered in Hb as [target Hb].
      apply list_elem_of_fmap. exists (x, target). split; [done|].
      by apply elem_of_map_to_list. }
    apply submseteq_length in Hsub.
    rewrite length_fmap, length_map_to_list in Hsub. simpl in Hsub. lia. }
  apply not_NoDup_repeat in Hdup as (x & l1 & l2 & l3 & Heq).
  exists x. apply (is_path_tc x l2 x).
  rewrite Heq in Hp. apply is_path_app_r in Hp.
  change (x :: l2 ++ x :: l3) with ((x :: l2) ++ [x] ++ l3) in Hp.
  rewrite app_assoc in Hp. by apply is_path_app_l in Hp.
Qed.

Lemma all_edges_spec P a b :
  all_edges d P = true -> edge d a b -> P a b = true.
Proof.
  unfold all_edges. rewrite forallb_forall. intros Hall (t & Ht & Hb).
  specialize (Hall (a, t)). cbn [fst snd] in Hall.
  rewrite forallb_forall in Hall.
  apply Hall; [|by apply list_elem_of_In].
  by apply list_elem_of_In, elem_of_map_to_list.
Qed.

Lemma closed_check_spec : closed_check d = true -> dependency_closed d.
Proof.
  intros H a b Hab. apply (all_edges_spec _ _ _ H) in Hab.
  by apply bool_decide_eq_true in Hab.
Qed.

Lemma nodup_check_spec : nodup_check d = true -> no_duplicate_dependencies d.
Proof.
  unfold nodup_check. rewrite forallb_forall. intros H a t Ht.
  specialize (H (a, t)). cbn [snd] in H.
  eapply bool_decide_eq_true_1, H.
  by apply list_elem_of_In, elem_of_map_to_list.
Qed.

(** A graph whose edges go down along a rank has no cycle. *)
Lemma ranked_acyclic (rank : string -> nat) :
  (forall a b, edge d a b -> rank b < rank a) -> ~ has_cycle d.
Proof.
  intros Hrank [a Ha].
  assert (forall x y, tc (edge d) x y -> rank y < rank x) as Htc.
  { induction 1 as [x y H|x y z H _ IH]; [by apply Hrank|].
    apply Hrank in H. lia. }
  apply Htc in Ha. lia.
Qed.

Lemma rank_check_spec rank : rank_check d rank = true -> ~ has_cycle d.
Proof.
  intros H. apply (ranked_acyclic rank). intros a b Hab.
  apply (all_edges_spec _ _ _ H) in Hab. by apply Nat.ltb_lt in Hab.
Qed.

End GraphFacts.

(** ** Topological order *)

Section TopoProofs.
Import DAG.
Context (O : UMapOrder) (d : DAG.t).

Lemma subscript_present {V} (dflt : V) (m : gmap string V) k v :
  m !! k = Some v -> subscript dflt m k = (v, m).
Proof. unfold subscript. by intros ->. Qed.

(** *** The in-degree table *)

Lemma zeroed_lookup (l : list (string * Target)) (m : gmap string Z) n :
  foldl (fun inDegree e =>
           match inDegree !! e.1 with
           | None => <[e.1 := 0%Z]> inDegree
           | Some _ => inDegree
           end) m l !! n
  = match m !! n with
    | Some v => Some v
    | None => if decide (n ∈ l.*1) then Some 0%Z else None
    end.
Proof.
  revert m. induction l as [|[k t] l IH]; intros m.
  - cbn [foldl]. destruct (m !! n); [done|].
    destruct (decide (n ∈ [].*1)) as [H|H]; [by apply elem_of_nil in H|done].
  - cbn [foldl fst]. rewrite IH. rewrite fmap_cons. cbn [fst].
    destruct (decide (n = k)) as [->|Hne].
    + destruct (m !! k) eqn:Hk; [by rewrite Hk|].
      rewrite lookup_insert_eq.
      destruct (decide (k ∈ k :: l.*1)) as [H|H]; [done|].
      destruct H. by left.
    + assert ((match m !! k with
               | Some _ => m
               | None => <[k:=0%Z]> m
               end) !! n = m !! n) as ->.
      { destruct (m !! k); [done|]. by rewrite lookup_insert_ne. }
      destruct (m !! n); [done|].
      destruct (decide (n ∈ l.*1)) as [Hin|Hnin];
        destruct (decide (n ∈ k :: l.*1)) as [H|H]; try done.
      * destruct H. by right.
      * by apply elem_of_cons in H as [?|?].
Qed.

Lemma count_deps_inner k (deps : list string) (m : gmap string Z) v :
  m !! k = Some v ->
  foldl (fun inDegree (_ : string) =>
           let '(n, inDegree) := subscript 0%Z inDegree k in
           <[k := (n + 1)%Z]> inDegree) m deps
  = <[k := (v + Z.of_nat (length deps))%Z]> m.
Proof.
  revert m v. induction deps as [|dep deps IH]; intros m v Hk.
  - simpl. rewrite Z.add_0_r. by rewrite insert_id.
  - cbn [foldl]. rewrite (subscript_present _ _ _ _ Hk).
    rewrite (IH _ (v + 1)%Z) by apply lookup_insert_eq.
    rewrite insert_insert_eq. f_equal. simpl length. lia.
Qed.

Lemma count_deps_lookup (l : list (string * Target)) (m : gmap string Z) :
  NoDup (l.*1) -> (forall k, k ∈ l.*1 -> is_Some (m !! k)) ->
  let m' :=
    foldl (fun inDegree e =>
             foldl (fun inDegree (_ : string) =>
                      let '(n, inDegree) := subscript 0%Z inDegree e.1 in
                      <[e.1 := (n + 1)%Z]> inDegree)
                   inDegree (dependencies_ e.2)) m l in
  (forall n t, (n, t) ∈ l ->
     m' !! n = (fun v => (v + Z.of_nat (length (dependencies_ t)))%Z) <$> m !! n)
  /\ (forall n, n ∉ l.*1 -> m' !! n = m !! n).
Proof.
  revert m. induction l as [|[k t] l IH]; intros m Hnd Hkeys; cbn zeta.
  - split; [|done]. intros n t' H. by apply elem_of_nil in H.
  - rewrite fmap_cons, NoDup_cons in Hnd. destruct Hnd as [Hk Hnd].
    destruct (Hkeys k) as [v Hv]; [by left|].
    cbn [foldl fst snd]. rewrite (count_deps_inner _ _ _ _ Hv).
    destruct (IH (<[k := (v + Z.of_nat (length (dependencies_ t)))%Z]> m))
      as [IH1 IH2]; [done| |].
    { intros k' Hk'. destruct (decide (k = k')) as [->|Hne].
      - rewrite lookup_insert_eq. eauto.
      - rewrite lookup_insert_ne by done. apply Hkeys. by right. }
    split.
    + intros n t' [[= -> ->]|Hin]%elem_of_cons.
      * rewrite IH2 by done. by rewrite lookup_insert_eq, Hv.
      * rewrite (IH1 _ _ Hin). rewrite lookup_insert_ne; [done|].
        intros ->. apply Hk. apply list_elem_of_fmap. by exists (n, t').
    + intros n Hn. apply not_elem_of_cons in Hn as [Hne Hn].
      rewrite IH2 by done. by rewrite lookup_insert_ne.
Qed.

Lemma init_inDegree_lookup n :
  init_inDegree O d !! n
  = (fun t => Z.of_nat (length (dependencies_ t))) <$> d !! n.
Proof.
  unfold init_inDegree.
  match goal with |- context [foldl _ (foldl ?f ∅ _) _] =>
    set (zeroed := foldl f ∅ (iter O d)) end.
  assert (forall k, zeroed !! k
                    = if decide (k ∈ (iter O d).*1) then Some 0%Z else None)
    as Hz.
  { intros k. unfold zeroed. by rewrite zeroed_lookup, lookup_empty. }
  destruct (count_deps_lookup (iter O d) zeroed) as [H1 H2].
  { apply iter_NoDup_keys. }
  { intros k Hk. rewrite Hz, decide_True by done. eauto. }
  destruct (d !! n) as [t|] eqn:Hn; simpl.
  - rewrite (H1 n t) by by apply elem_of_iter.
    rewrite Hz, decide_True; [simpl; f_equal; lia|].
    apply elem_of_iter_keys. eauto.
  - assert (n ∉ (iter O d).*1) as Hnin.
    { rewrite elem_of_iter_keys, Hn. by intros [? ?]. }
    rewrite H2 by done. by rewrite Hz, decide_False.
Qed.

Lemma elem_of_init_queue (inD : gmap string Z) n :
  n ∈ init_queue O inD <-> inD !! n = Some 0%Z.
Proof.
  unfold init_queue. rewrite list_elem_of_fmap. split.
  - intros [[k v] [-> [Hv Hin]%list_elem_of_filter]].
    apply elem_of_iter in Hin. simpl in *. by subst.
  - intros H. exists (n, 0%Z). split; [done|].
    apply list_elem_of_filter. split; [done|]. by apply elem_of_iter.
Qed.

Lemma NoDup_init_queue (inD : gmap string Z) : NoDup (init_queue O inD).
Proof.
  unfold init_queue. eapply sublist_NoDup; [apply (iter_NoDup_keys O inD)|].
  apply fmap_sublist, sublist_filter.
Qed.

(** *** One pass over the targets *)

Lemma filter_ext_in {A} (P1 P2 : A -> Prop)
    `{!forall x, Decision (P1 x), !forall x, Decision (P2 x)} (l : list A) :
  (forall x, x ∈ l -> P1 x <-> P2 x) -> filter P1 l = filter P2 l.
Proof.
  induction l as [|a l IH]; intros Hall; [done|].
  rewrite !filter_cons, IH.
  - destruct (decide (P1 a)) as [Ha1|Ha1], (decide (P2 a)) as [Ha2|Ha2];
      try done.
    + destruct Ha2. apply Hall; [by left|done].
    + destruct Ha1. apply Hall; [by left|done].
  - intros x Hx. apply Hall. by right.
Qed.

Lemma relax_all cur (l : list (string * Target)) (inD : gmap string Z) q :
  NoDup (l.*1) -> (forall k, k ∈ l.*1 -> is_Some (inD !! k)) ->
  exists inD',
    foldl (relax cur) (inD, q) l
    = (inD', q ++ (filter (relaxed_by cur inD) l).*1)
    /\ (forall n t, (n, t) ∈ l ->
          inD' !! n = if decide (cur ∈ dependencies_ t)
                      then (fun v => (v - 1)%Z) <$> inD !! n
                      else inD !! n)
    /\ (forall n, n ∉ l.*1 -> inD' !! n = inD !! n).
Proof.
  revert inD q. induction l as [|[k t] l IH]; intros inD q Hnd Hkeys.
  - exists inD. cbn [foldl]. rewrite filter_nil, app_nil_r.
    split; [done|]. split; [|done]. intros n t H. by apply elem_of_nil in H.
  - rewrite fmap_cons, NoDup_cons in Hnd. destruct Hnd as [Hk Hnd].
    destruct (Hkeys k) as [v Hv]; [by left|].
    cbn [foldl]. unfold relax at 2. cbn [fst snd].
    destruct (decide (cur ∈ dependencies_ t)) as [Hcur|Hcur].
    + rewrite bool_decide_eq_true_2 by done.
      rewrite (subscript_present _ _ _ _ Hv).
      set (inD1 := <[k := (v - 1)%Z]> inD).
      set (q1 := if (v - 1 =? 0)%Z then q ++ [k] else q).
      destruct (IH inD1 q1) as (inD' & Hfold & H1 & H2); [done| |].
      { intros k' Hk'. unfold inD1. destruct (decide (k = k')) as [->|Hne].
        - rewrite lookup_insert_eq. eauto.
        - rewrite lookup_insert_ne by done. apply Hkeys. by right. }
      exists inD'. split; [|split].
      * rewrite Hfold. f_equal.
        assert (filter (relaxed_by cur inD1) l = filter (relaxed_by cur inD) l)
          as ->.
        { apply filter_ext_in.
          intros [k' t'] Hin. unfold relaxed_by, inD1. cbn [fst snd].
          rewrite lookup_insert_ne; [done|]. intros ->.
          apply Hk. apply list_elem_of_fmap. by exists (k', t'). }
        unfold q1. destruct (Z.eqb_spec (v - 1) 0) as [Hz|Hz].
        -- rewrite filter_cons_True.
           ++ rewrite fmap_cons. cbn [fst]. by rewrite <- app_assoc.
           ++ split; [done|]. cbn [fst]. rewrite Hv. f_equal. lia.
        -- rewrite filter_cons_False; [done|].
           intros [_ H]. cbn [fst] in H. rewrite Hv in H.
           injection H as ->. by apply Hz.
      * intros n t' [[= -> ->]|Hin]%elem_of_cons.
        -- rewrite H2 by done. unfold inD1.
           rewrite lookup_insert_eq, decide_True, Hv by done. done.
        -- rewrite (H1 _ _ Hin). unfold inD1.
           rewrite lookup_insert_ne; [done|]. intros ->.
           apply Hk. apply list_elem_of_fmap. by exists (n, t').
      * intros n Hn. apply not_elem_of_cons in Hn as [Hne Hn].
        rewrite H2 by done. unfold inD1. by rewrite lookup_insert_ne.
    + rewrite bool_decide_eq_false_2 by done.
      destruct (IH inD q) as (inD' & Hfold & H1 & H2); [done| |].
      { intros k' Hk'. apply Hkeys. by right. }
      exists inD'. split; [|split].
      * rewrite Hfold. f_equal. rewrite filter_cons_False; [done|].
        by intros [? _].
      * intros n t' [[= -> ->]|Hin]%elem_of_cons.
        -- rewrite H2 by done. by rewrite decide_False.
        -- by apply H1.
      * intros n Hn. apply not_elem_of_cons in Hn as [Hne Hn]. by apply H2.
Qed.

(** *** Counting the dependencies already taken from the queue *)

Lemma seen_snoc deps processed cur :
  seen deps (processed ++ [cur])
  = seen deps processed + (if decide (cur ∈ deps) then 1 else 0).
Proof.
  unfold seen. rewrite filter_app, length_app. f_equal.
  rewrite filter_cons, filter_nil. by destruct (decide (cur ∈ deps)).
Qed.

Lemma seen_submseteq (deps processed : list string) :
  NoDup processed -> filter (fun x => x ∈ deps) processed ⊆+ deps.
Proof.
  intros Hnd. apply NoDup_submseteq; [by apply NoDup_filter|].
  by intros x [? _]%list_elem_of_filter.
Qed.

Lemma seen_le deps processed :
  NoDup processed -> seen deps processed <= length deps.
Proof. intros Hnd. by apply submseteq_length, seen_submseteq. Qed.

Lemma seen_full deps processed :
  NoDup processed -> seen deps processed = length deps ->
  NoDup deps /\ forall x, x ∈ deps -> x ∈ processed.
Proof.
  intros Hnd Hlen.
  assert (filter (fun x => x ∈ deps) processed ≡ₚ deps) as Hperm.
  { apply submseteq_length_Permutation; [by apply seen_submseteq|].
    unfold seen in Hlen. lia. }
  split.
  - rewrite <- Hperm. by apply NoDup_filter.
  - intros x Hx. rewrite <- Hperm in Hx.
    by apply list_elem_of_filter in Hx as [_ ?].
Qed.

Lemma seen_all deps processed :
  NoDup processed -> NoDup deps -> (forall x, x ∈ deps -> x ∈ processed) ->
  seen deps processed = length deps.
Proof.
  intros Hp Hd Hsub. unfold seen. apply Permutation_length.
  apply NoDup_Permutation; [by apply NoDup_filter|done|].
  intros x. rewrite list_elem_of_filter. split; [by intros [? _]|].
  intros Hx. split; [done|]. by apply Hsub.
Qed.

(** *** The invariant of the loop over the queue *)

Lemma queue_inv_init :
  queue_inv d (init_inDegree O d) (init_queue O (init_inDegree O d)) 0.
Proof.
  split.
  - apply NoDup_init_queue.
  - lia.
  - intros n [v Hv]. rewrite init_inDegree_lookup in Hv.
    destruct (d !! n); [eauto|done].
  - intros n t Hn. rewrite init_inDegree_lookup, Hn. simpl.
    f_equal. unfold seen. simpl. lia.
  - intros n. apply elem_of_init_queue.
  - intros i n t dep Hi Hn Hdep.
    apply list_elem_of_lookup_2, elem_of_init_queue in Hi.
    rewrite init_inDegree_lookup, Hn in Hi. simpl in Hi.
    destruct (dependencies_ t); [by apply elem_of_nil in Hdep|].
    simpl in Hi. injection Hi. lia.
Qed.

Lemma queue_inv_length inD q idx : queue_inv d inD q idx -> length q <= size d.
Proof.
  intros Hinv.
  assert (q ⊆+ (iter O d).*1) as Hsub.
  { apply NoDup_submseteq; [apply Hinv|]. intros n Hn.
    apply elem_of_iter_keys. apply (inv_keys _ _ _ _ Hinv).
    apply (inv_queue _ _ _ _ Hinv) in Hn. eauto. }
  apply submseteq_length in Hsub. by rewrite iter_keys_length in Hsub.
Qed.

Lemma queue_inv_step inD q idx cur :
  queue_inv d inD q idx -> q !! idx = Some cur ->
  exists inD' q',
    foldl (relax cur) (inD, q) (iter O d) = (inD', q')
    /\ take (S idx) q' = take idx q ++ [cur]
    /\ queue_inv d inD' q' (S idx).
Proof.
  intros Hinv Hcur.
  destruct (relax_all cur (iter O d) inD q) as (inD' & Hfold & H1 & H2).
  { apply iter_NoDup_keys. }
  { intros k [t Hk]%elem_of_iter_keys.
    rewrite (inv_degree _ _ _ _ Hinv _ _ Hk). eauto. }
  set (newly := (filter (relaxed_by cur inD) (iter O d)).*1) in *.
  assert (idx < length q) as Hlt by by eapply lookup_lt_Some.
  assert (take (S idx) (q ++ newly) = take idx q ++ [cur]) as Htake.
  { rewrite take_app_le by lia. by apply take_S_r. }
  assert (NoDup (take idx q ++ [cur])) as Hnd'.
  { rewrite <- (take_S_r _ _ _ Hcur).
    eapply sublist_NoDup; [apply Hinv|apply sublist_take]. }
  assert (forall n t, d !! n = Some t ->
            inD' !! n = Some (Z.of_nat (length (dependencies_ t))
              - Z.of_nat (seen (dependencies_ t) (take idx q ++ [cur])))%Z)
    as Hdeg.
  { intros n t Hn. rewrite (H1 n t) by by apply elem_of_iter.
    rewrite (inv_degree _ _ _ _ Hinv _ _ Hn), seen_snoc.
    destruct (decide (cur ∈ dependencies_ t)); simpl; f_equal; lia. }
  assert (forall n, is_Some (inD' !! n) -> is_Some (d !! n)) as Hkeys.
  { intros n Hn. destruct (d !! n) as [t|] eqn:Hd; [eauto|].
    rewrite H2 in Hn; [by apply (inv_keys _ _ _ _ Hinv) in Hn; rewrite Hd in Hn|].
    rewrite elem_of_iter_keys, Hd. by intros [? ?]. }
  assert (forall n, n ∈ newly <-> exists t, d !! n = Some t
            /\ cur ∈ dependencies_ t /\ inD !! n = Some 1%Z) as Hnewly.
  { intros n. unfold newly. rewrite list_elem_of_fmap. split.
    - intros [[k t] [-> [[Hc Hd] Hin]%list_elem_of_filter]].
      apply elem_of_iter in Hin. by exists t.
    - intros (t & Hn & Hc & Hd). exists (n, t). split; [done|].
      apply list_elem_of_filter. split; [done|]. by apply elem_of_iter. }
  assert (forall n, n ∈ q ++ newly <-> inD' !! n = Some 0%Z) as Hqueue.
  { intros n. rewrite elem_of_app, Hnewly. split.
    - intros [Hn|(t & Hn & Hc & Hd)].
      + apply (inv_queue _ _ _ _ Hinv) in Hn as Hz.
        destruct (inv_keys _ _ _ _ Hinv n) as [t Ht]; [eauto|].
        pose proof (Hdeg n t Ht) as Hd'.
        pose proof (seen_le (dependencies_ t) _ Hnd') as Hle.
        rewrite (inv_degree _ _ _ _ Hinv _ _ Ht) in Hz.
        rewrite seen_snoc in Hd', Hle. rewrite Hd'. f_equal.
        injection Hz as Hz.
        destruct (decide (cur ∈ dependencies_ t)); lia.
      + rewrite (H1 n t) by by apply elem_of_iter.
        by rewrite decide_True, Hd by done.
    - intros Hz. destruct (Hkeys n) as [t Ht]; [eauto|].
      rewrite (H1 n t) in Hz by by apply elem_of_iter.
      destruct (decide (cur ∈ dependencies_ t)).
      + right. exists t. split; [done|]. split; [done|].
        destruct (inD !! n) as [v|]; [|done]. simpl in Hz.
        injection Hz as Hz. f_equal. lia.
      + left. by apply (inv_queue _ _ _ _ Hinv). }
  exists inD', (q ++ newly). split; [done|]. split; [done|].
  split; try done.
  - apply NoDup_app. split; [apply Hinv|]. split.
    + intros n Hn [t (_ & _ & Hone)]%Hnewly.
      apply (inv_queue _ _ _ _ Hinv) in Hn. congruence.
    + unfold newly. eapply sublist_NoDup; [apply (iter_NoDup_keys O d)|].
      apply fmap_sublist, sublist_filter.
  - rewrite length_app. lia.
  - intros n t Hn. rewrite Htake. by apply Hdeg.
  - intros i n t dep Hi Hn Hdep.
    destruct (decide (i < length q)) as [Hi'|Hi'].
    + rewrite lookup_app_l in Hi by done.
      destruct (inv_order _ _ _ _ Hinv _ _ _ _ Hi Hn Hdep) as (j & Hj & Hjq).
      exists j. split; [done|]. rewrite lookup_app_l by lia. done.
    + assert (n ∈ q ++ newly) as Hnq by by eapply list_elem_of_lookup_2.
      apply Hqueue in Hnq. rewrite (Hdeg _ _ Hn) in Hnq.
      injection Hnq as Hnq.
      destruct (seen_full (dependencies_ t) (take idx q ++ [cur]))
        as [_ Hall]; [done|lia|].
      apply Hall in Hdep. rewrite <- (take_S_r _ _ _ Hcur) in Hdep.
      apply elem_of_take in Hdep as (j & Hj & Hjlt).
      exists j. split; [lia|]. rewrite lookup_app_l; [done|].
      by eapply lookup_lt_Some.
Qed.

Lemma process_queue_spec fuel inD q idx :
  queue_inv d inD q idx -> size d <= fuel + idx ->
  exists inD' q',
    process_queue fuel (iter O d) inD q idx (take idx q) = Some q'
    /\ queue_inv d inD' q' (length q').
Proof.
  revert inD q idx. induction fuel as [|fuel IH]; intros inD q idx Hinv Hfuel.
  - pose proof (queue_inv_length _ _ _ Hinv) as Hlen.
    pose proof (inv_idx _ _ _ _ Hinv) as Hidx.
    assert (idx = length q) as -> by lia.
    exists inD, q. simpl. rewrite lookup_ge_None_2 by lia.
    by rewrite take_ge by lia.
  - cbn [process_queue]. destruct (q !! idx) as [cur|] eqn:Hcur.
    + destruct (queue_inv_step _ _ _ _ Hinv Hcur)
        as (inD' & q' & -> & Htake & Hinv').
      rewrite <- Htake. apply IH; [done|lia].
    + apply lookup_ge_None in Hcur.
      pose proof (inv_idx _ _ _ _ Hinv) as Hidx.
      assert (idx = length q) as -> by lia.
      exists inD, q. by rewrite take_ge by lia.
Qed.

Lemma topologicalSort_inv :
  exists order inD,
    topologicalSort O d = Some order /\ queue_inv d inD order (length order).
Proof.
  destruct (process_queue_spec (size d) _ _ 0 queue_inv_init)
    as (inD & q & Hrun & Hinv); [lia|].
  by exists q, inD.
Qed.

(** What [topologicalSort] returns for any graph: it ends, no name is
    listed twice, a name is listed exactly when it is a target without
    repeated dependencies all of whose dependencies are listed, and every
    listed target comes after its dependencies. *)
Lemma topologicalSort_sound :
  exists order,
    topologicalSort O d = Some order
    /\ NoDup order
    /\ (forall n, n ∈ order <->
          exists t, d !! n = Some t /\ NoDup (dependencies_ t)
                    /\ forall dep, dep ∈ dependencies_ t -> dep ∈ order)
    /\ (forall i n t dep,
          order !! i = Some n -> d !! n = Some t -> dep ∈ dependencies_ t ->
          exists j, j < i /\ order !! j = Some dep).
Proof.
  destruct topologicalSort_inv as (order & inD & Hrun & Hinv).
  exists order. split; [done|]. split; [apply Hinv|].
  split; [|apply Hinv].
  intros n. rewrite (inv_queue _ _ _ _ Hinv). split.
  - intros Hz. destruct (inv_keys _ _ _ _ Hinv n) as [t Ht]; [eauto|].
    exists t. split; [done|].
    rewrite (inv_degree _ _ _ _ Hinv _ _ Ht), take_ge in Hz by lia.
    injection Hz as Hz. apply (seen_full _ order); [apply Hinv|lia].
  - intros (t & Ht & Hnd & Hall).
    rewrite (inv_degree _ _ _ _ Hinv _ _ Ht), take_ge by lia.
    rewrite seen_all; [f_equal; lia|apply Hinv|done|done].
Qed.

(** C1, as it holds: for a graph without cycle in which every declared
    dependency is a target and no target lists a dependency twice,
    [topologicalSort] returns the target names, each once, every target
    after each of its dependencies. *)
Theorem topologicalSort_dependencies_first :
  ~ has_cycle d -> dependency_closed d -> no_duplicate_dependencies d ->
  exists order,
    topologicalSort O d = Some order
    /\ order ≡ₚ (map_to_list d).*1
    /\ forall a b, edge d a b -> before order b a.
Proof.
  intros Hacyclic Hclosed Hnodup.
  destruct topologicalSort_sound as (order & Hrun & Hnd & Hmem & Hord).
  assert (forall n, is_Some (d !! n) -> n ∈ order) as Hall.
  { intros n Hn. destruct (decide (n ∈ order)) as [|Hnin]; [done|].
    destruct Hacyclic.
    apply (no_sink_cycle d (fun a => is_Some (d !! a) /\ a ∉ order) n);
      [|done].
    intros a [[t Ht] Ha].
    destruct (decide (Forall (fun dep => dep ∈ order) (dependencies_ t)))
      as [Hdeps|Hdeps].
    - destruct Ha. apply Hmem. exists t. split; [done|].
      split; [by eapply Hnodup|]. by apply Forall_forall.
    - apply not_Forall_Exists in Hdeps; [|apply _].
      apply Exists_exists in Hdeps as (b & Hb & Hbo).
      exists b. assert (edge d a b) as Hab by by exists t.
      split; [done|]. split; [by eapply Hclosed|done]. }
  exists order. split; [done|]. split.
  - apply NoDup_Permutation; [done|apply NoDup_fst_map_to_list|].
    intros n. split.
    + intros (t & Ht & _)%Hmem. apply list_elem_of_fmap.
      exists (n, t). split; [done|]. by apply elem_of_map_to_list.
    + intros [[k t] [-> Hin%elem_of_map_to_list]]%list_elem_of_fmap.
      apply Hall. simpl. eauto.
  - intros a b (t & Ht & Hb).
    assert (a ∈ order) as [j Hj]%list_elem_of_lookup_1 by (apply Hall; eauto).
    destruct (Hord _ _ _ _ Hj Ht Hb) as (i & Hi & Hib).
    by exists i, j.
Qed.

End TopoProofs.

Section TopoExamples.
Import DAG Examples.

Lemma topologicalSort_dependencies_first_witness :
  (~ has_cycle diamond /\ dependency_closed diamond
   /\ no_duplicate_dependencies diamond)
  /\ exists order,
       topologicalSort std_order diamond = Some order
       /\ order ≡ₚ (map_to_list diamond).*1
       /\ forall a b, edge diamond a b -> before order b a.
Proof.
  assert (~ has_cycle diamond) as H1
    by (apply (rank_check_spec diamond diamond_rank); vm_compute; reflexivity).
  assert (dependency_closed diamond) as H2
    by (apply closed_check_spec; vm_compute; reflexivity).
  assert (no_duplicate_dependencies diamond) as H3
    by (apply nodup_check_spec; vm_compute; reflexivity).
  split; [done|].
  exact (topologicalSort_dependencies_first std_order diamond H1 H2 H3).
Defined.

(** S1 and S2 of the specification. *)
Example topologicalSort_linear :
  topologicalSort std_order linear = Some ["A"; "B"; "C"].
Proof. vm_compute. reflexivity. Qed.

Example topologicalSort_diamond :
  topologicalSort std_order diamond = Some ["A"; "C"; "B"; "D"].
Proof. vm_compute. reflexivity. Qed.

(** C1 as stated fails: a target that lists a dependency twice, or that
    depends on a name that is not a target, is never listed, although the
    graph has no cycle. *)
Lemma topologicalSort_counterexample :
  (~ has_cycle twice
   /\ topologicalSort std_order twice = Some ["A"]
   /\ ~ ["A"] ≡ₚ (map_to_list twice).*1)
  /\ (~ has_cycle ghost
      /\ topologicalSort std_order ghost = Some ["B"]
      /\ ~ ["B"] ≡ₚ (map_to_list ghost).*1).
Proof.
  split; (split; [|split]).
  - apply (rank_check_spec twice rank_B). vm_compute. reflexivity.
  - vm_compute. reflexivity.
  - intros H%Permutation_length. vm_compute in H. discriminate.
  - apply (rank_check_spec ghost rank_A). vm_compute. reflexivity.
  - vm_compute. reflexivity.
  - intros H%Permutation_length. vm_compute in H. discriminate.
Qed.

End TopoExamples.

(** ** Cycle detection *)

Section CycleProofs.
Import DAG.
Context (d : DAG.t).

Lemma colour_insert st k v n :
  colour {| visited := <[k := v]> (visited st); recStack := recStack st;
            found := found st |} n
  = if decide (k = n) then v else colour st n.
Proof.
  unfold colour. simpl. destruct (decide (k = n)) as [->|Hne].
  - by rewrite lookup_insert_eq.
  - by rewrite lookup_insert_ne.
Qed.

Lemma subscript_colour st k :
  (subscript 0%Z (visited st) k).1 = colour st k.
Proof. unfold subscript, colour. by destruct (visited st !! k). Qed.

(** Reading a marker with [visited[k]] changes no marker. *)
Lemma colour_subscript st k n :
  colour (set_visited st (subscript 0%Z (visited st) k).2) n = colour st n.
Proof.
  unfold subscript, colour. simpl.
  destruct (visited st !! k) eqn:Hk; simpl; [done|].
  destruct (decide (k = n)) as [->|Hne].
  - by rewrite lookup_insert_eq, Hk.
  - by rewrite lookup_insert_ne.
Qed.

Lemma dfs_inv_subscript st k :
  dfs_inv d st -> dfs_inv d (set_visited st (subscript 0%Z (visited st) k).2).
Proof.
  intros [H1 H2 H3 H4]. split; unfold finished in *; simpl.
  - intros n. rewrite colour_subscript. apply H1.
  - done.
  - intros a b. rewrite !colour_subscript. apply H3.
  - intros a. rewrite !colour_subscript. apply H4.
Qed.

Lemma filter_length_mono (P Q : string -> Prop)
    `{!forall x, Decision (P x), !forall x, Decision (Q x)} (l : list string) :
  (forall x, P x -> Q x) -> length (filter P l) <= length (filter Q l).
Proof.
  intros HPQ. induction l as [|y l IH]; [done|].
  rewrite !filter_cons.
  destruct (decide (P y)) as [Hp|Hp], (decide (Q y)) as [Hq|Hq];
    simpl; try lia.
  destruct Hq. by apply HPQ.
Qed.

Lemma filter_length_less (P Q : string -> Prop)
    `{!forall x, Decision (P x), !forall x, Decision (Q x)} (l : list string) x :
  (forall x, P x -> Q x) -> x ∈ l -> Q x -> ~ P x ->
  length (filter P l) < length (filter Q l).
Proof.
  intros HPQ Hx Hq Hp. induction l as [|y l IH].
  - by apply elem_of_nil in Hx.
  - rewrite !filter_cons. pose proof (filter_length_mono P Q l HPQ) as Hle.
    apply elem_of_cons in Hx as [<-|Hx].
    + destruct (decide (P x)), (decide (Q x)); simpl; try done; lia.
    + specialize (IH Hx).
      destruct (decide (P y)) as [Hpy|Hpy], (decide (Q y)) as [Hqy|Hqy];
        simpl; try lia.
      destruct Hqy. by apply HPQ.
Qed.

Lemma unvisited_mono st st' :
  (forall n, colour st n <> 0%Z -> colour st' n <> 0%Z) ->
  length (unvisited d st') <= length (unvisited d st).
Proof.
  intros H. apply filter_length_mono. intros x Hx.
  destruct (decide (colour st x = 0%Z)) as [|Hne]; [done|].
  by apply H in Hne.
Qed.

Lemma unvisited_less st st' x :
  (forall n, colour st n <> 0%Z -> colour st' n <> 0%Z) ->
  x ∈ universe d -> colour st x = 0%Z -> colour st' x <> 0%Z ->
  length (unvisited d st') < length (unvisited d st).
Proof.
  intros H Hx H0 H1. apply (filter_length_less _ _ _ x); try done.
  - intros y Hy. destruct (decide (colour st y = 0%Z)) as [|Hne]; [done|].
    by apply H in Hne.
  - by apply elem_of_elements.
Qed.

Lemma edge_universe a b : edge d a b -> b ∈ universe d.
Proof.
  intros (t & Ht & Hb). unfold universe. apply elem_of_union. right.
  apply elem_of_list_to_set, list_elem_of_bind. exists (a, t).
  split; [done|]. by apply elem_of_map_to_list.
Qed.

Lemma registered_universe a : is_Some (d !! a) -> a ∈ universe d.
Proof.
  intros H. unfold universe. apply elem_of_union. left.
  by apply elem_of_dom.
Qed.

Lemma from_first_split dep stack :
  dep ∈ stack ->
  exists pre rest, stack = pre ++ dep :: rest /\ from_first dep stack = dep :: rest.
Proof.
  induction stack as [|x stack IH]; intros Hin.
  - by apply elem_of_nil in Hin.
  - simpl. destruct (String.eqb_spec x dep) as [->|Hne].
    + by exists [], stack.
    + apply elem_of_cons in Hin as [->|Hin]; [done|].
      destruct (IH Hin) as (pre & rest & -> & Hf).
      by exists (x :: pre), rest.
Qed.

Lemma is_path_snoc p top x :
  is_path d p -> last p = Some top -> edge d top x -> is_path d (p ++ [x]).
Proof.
  intros Hp Hlast Hedge. induction p as [|a p IH]; [done|].
  destruct p as [|b p].
  - simpl in *. injection Hlast as ->. done.
  - destruct Hp as [Hab Hp]. split; [done|]. apply IH; [done|].
    by rewrite last_cons_cons in Hlast.
Qed.

Lemma finished_reach st a b :
  (forall a b, finished st a -> edge d a b -> finished st b) ->
  finished st a -> tc (edge d) a b -> finished st b.
Proof. intros Hc Ha Hab. induction Hab; eauto. Qed.

Lemma closed_path_cycle p : closed_path d p -> has_cycle d.
Proof.
  intros [(x & mid & ->) Hp]. exists x. by eapply is_path_tc.
Qed.

(** *** Entering and leaving a node *)

Lemma enter_inv fuel node st :
  visit_ready d (S fuel) node st ->
  let st1 := {| visited := <[node := 1%Z]> (visited st);
                recStack := recStack st ++ [node];
                found := found st |} in
  dfs_inv d st1
  /\ (forall n, colour st n <> 0%Z -> colour st1 n = colour st n)
  /\ length (unvisited d st1) < fuel.
Proof.
  intros ([HG HP HC HA] & Hwhite & Huni & Hstack & Hfuel) st1.
  assert (forall n, colour st1 n = if decide (node = n) then 1%Z else colour st n)
    as Hcol by apply colour_insert.
  assert (forall n, finished st1 n -> finished st n /\ n <> node) as Hfin.
  { intros n [H0 H1]. rewrite Hcol in H0, H1.
    destruct (decide (node = n)); [done|]. by split. }
  assert (forall n, finished st n -> finished st1 n) as Hfin'.
  { intros n [H0 H1]. unfold finished. rewrite Hcol.
    destruct (decide (node = n)) as [<-|]; [done|]. by split. }
  split; [split|split].
  - intros n. rewrite Hcol. cbn [recStack st1]. rewrite elem_of_app, <- HG.
    rewrite list_elem_of_singleton. destruct (decide (node = n)) as [->|Hne].
    + split; [by right|done].
    + split; [by left|]. by intros [?|?].
  - cbn [recStack st1]. destruct Hstack as [->|(top & Hlast & Hedge)]; [done|].
    by eapply is_path_snoc.
  - intros a b [Ha Hne]%Hfin Hab. apply Hfin'. by eapply HC.
  - intros a [Ha _]%Hfin. by apply HA.
  - intros n Hn. rewrite Hcol. destruct (decide (node = n)) as [<-|]; done.
  - assert (length (unvisited d st1) < length (unvisited d st)); [|lia].
    apply (unvisited_less st st1 node); try done.
    + intros n Hn. rewrite Hcol. by destruct (decide (node = n)).
    + rewrite Hcol. by rewrite decide_True.
Qed.

Lemma leave_spec node st0 st :
  dfs_inv d st0 -> colour st0 node = 0%Z ->
  dfs_inv d st ->
  recStack st = recStack st0 ++ [node] ->
  found st = found st0 ->
  (forall n, colour st0 n <> 0%Z -> colour st n = colour st0 n) ->
  (forall b, edge d node b -> finished st b) ->
  visit_result d node st0 (leave node st).
Proof.
  intros Hinv0 Hwhite [HG HP HC HA] Hstack Hfound Hcol Hdeps.
  eexists false, _. split; [done|].
  set (st' := {| visited := <[node := 2%Z]> (visited st);
                 recStack := removelast (recStack st);
                 found := found st |}).
  assert (forall n, colour st' n = if decide (node = n) then 2%Z else colour st n)
    as Hcol' by apply colour_insert.
  assert (colour st node = 1%Z) as Hgray.
  { apply HG. rewrite Hstack, elem_of_app. right. by left. }
  assert (node ∉ recStack st0) as Hnin.
  { intros Hin. apply (on_path_marked _ _ Hinv0) in Hin. congruence. }
  assert (recStack st' = recStack st0) as Hstack'.
  { cbn [recStack st']. by rewrite Hstack, removelast_last. }
  assert (forall n, finished st n -> finished st' n) as Hfin.
  { intros n [H0 H1]. unfold finished. rewrite Hcol'.
    by destruct (decide (node = n)). }
  assert (forall n, finished st' n -> n = node \/ finished st n) as Hfin'.
  { intros n Hn. unfold finished in Hn. rewrite Hcol' in Hn.
    destruct (decide (node = n)); [by left|by right]. }
  assert (finished st' node) as Hnode.
  { unfold finished. rewrite Hcol', decide_True by done. done. }
  split; [split|split; [done|split; [done|split; [|done]]]].
  - intros n. rewrite Hstack', Hcol'.
    destruct (decide (node = n)) as [<-|Hne]; [done|].
    rewrite HG, Hstack, elem_of_app, list_elem_of_singleton.
    split; [by intros [?|?]|by left].
  - rewrite Hstack'. rewrite Hstack in HP. by apply is_path_app_l in HP.
  - intros a b [->|Ha]%Hfin' Hab; apply Hfin; [by apply Hdeps|by eapply HC].
  - intros a [->|Ha]%Hfin' Hcyc; [|by eapply HA].
    assert (exists b, edge d node b /\ (b = node \/ tc (edge d) b node))
      as (b & Hb & Hback).
    { inversion Hcyc as [? ? Hab|? b ? Hab Hrest]; subst; eauto. }
    pose proof (Hdeps _ Hb) as Hfb.
    assert (finished st node) as [_ Hbad]; [|done].
    destruct Hback as [->|Hback]; [done|].
    by eapply finished_reach.
  - intros n Hn. rewrite Hcol'. destruct (decide (node = n)) as [<-|]; [done|].
    by apply Hcol.
Qed.

(** *** The traversal *)

Lemma visit_deps_spec fuel node st0 deps st :
  (forall dep st, visit_ready d fuel dep st ->
                  visit_result d dep st (hasCycleUtil fuel d dep st)) ->
  dfs_inv d st0 -> colour st0 node = 0%Z ->
  dfs_inv d st ->
  recStack st = recStack st0 ++ [node] ->
  found st = found st0 ->
  (forall n, colour st0 n <> 0%Z -> colour st n = colour st0 n) ->
  (forall dep, dep ∈ deps -> edge d node dep) ->
  (forall b, edge d node b -> b ∈ deps \/ finished st b) ->
  length (unvisited d st) < fuel ->
  visit_result d node st0 (visit_deps (hasCycleUtil fuel d) node deps st).
Proof.
  intros Hcall Hinv0 Hwhite. revert st.
  induction deps as [|dep deps IH];
    intros st Hinv Hstack Hfound Hcol Hdeps Hrest Hfuel.
  - cbn [visit_deps]. apply leave_spec; try done.
    intros b Hb. destruct (Hrest b Hb) as [Hin|?]; [|done].
    by apply elem_of_nil in Hin.
  - cbn [visit_deps].
    pose proof (subscript_colour st dep) as Hc.
    pose proof (colour_subscript st dep) as Hsame.
    pose proof (dfs_inv_subscript st dep Hinv) as Hinv1.
    destruct (subscript 0%Z (visited st) dep) as [c vis].
    cbn [fst snd] in Hc, Hsame, Hinv1. subst c.
    set (st1 := set_visited st vis) in *.
    assert (edge d node dep) as Hedge by (apply Hdeps; by left).
    assert (length (unvisited d st1) < fuel) as Hfuel1.
    { assert (length (unvisited d st1) <= length (unvisited d st)); [|lia].
      apply unvisited_mono. intros n. by rewrite Hsame. }
    destruct (Z.eqb_spec (colour st dep) 0) as [Hzero|Hnz].
    + destruct (Hcall dep st1) as (b & st2 & -> & Hres).
      { split; [done|]. split; [by rewrite Hsame|].
        split; [by eapply edge_universe|]. split; [|done].
        right. exists node. split; [|done].
        cbn [recStack st1 set_visited]. by rewrite Hstack, last_snoc. }
      destruct b.
      * by exists true, st2.
      * destruct Hres as (Hinv2 & Hstack2 & Hfound2 & Hcol2 & Hfin2).
        apply IH; try done.
        -- by rewrite Hstack2.
        -- by rewrite Hfound2.
        -- intros n Hn. rewrite Hcol2, Hsame; [by apply Hcol|].
           rewrite Hsame, Hcol; done.
        -- intros x Hx. apply Hdeps. by right.
        -- intros b Hb. destruct (Hrest b Hb) as [[->|Hin]%elem_of_cons|Hfb].
           ++ by right.
           ++ by left.
           ++ right. destruct Hfb as [H0 H1]. unfold finished.
              rewrite Hcol2, Hsame by by rewrite Hsame. done.
        -- assert (length (unvisited d st2) <= length (unvisited d st1));
             [|lia].
           apply unvisited_mono. intros n Hn. by rewrite Hcol2.
    + destruct (Z.eqb_spec (colour st dep) 1) as [Hone|Hno].
      * eexists true, _. split; [done|]. cbn [found recStack st1 set_visited].
        assert (dep ∈ recStack st) as Hin by by apply (on_path_marked _ _ Hinv).
        destruct (from_first_split _ _ Hin) as (pre & rest & Hsplit & ->).
        split; [by exists dep, rest|].
        assert (is_path d (recStack st ++ [dep])) as Hp.
        { eapply is_path_snoc; [apply Hinv| |done].
          by rewrite Hstack, last_snoc. }
        rewrite Hsplit, <- app_assoc in Hp. by apply is_path_app_r in Hp.
      * apply IH; try done.
        -- intros n Hn. rewrite Hsame. by apply Hcol.
        -- intros x Hx. apply Hdeps. by right.
        -- intros b Hb. unfold finished. rewrite Hsame.
           destruct (Hrest b Hb) as [[->|Hin]%elem_of_cons|Hfb].
           ++ by right.
           ++ by left.
           ++ by right.
Qed.

Lemma hasCycleUtil_spec fuel node st :
  visit_ready d fuel node st ->
  visit_result d node st (hasCycleUtil fuel d node st).
Proof.
  revert node st. induction fuel as [|fuel IH]; intros node st Hready.
  - destruct Hready as (_ & _ & _ & _ & Hfuel). lia.
  - pose proof (enter_inv fuel node st Hready) as (Hinv1 & Hcol1 & Hfuel1).
    destruct Hready as (Hinv & Hwhite & Huni & Hstack & Hfuel).
    cbn [hasCycleUtil]. destruct (d !! node) as [target|] eqn:Hnode.
    + apply (visit_deps_spec fuel node st); try done.
      * intros dep Hdep. by exists target.
      * intros b (t & Ht & Hb). left. congruence.
    + apply leave_spec; try done.
      intros b (t & Ht & _). congruence.
Qed.

(** *** The loop over the targets *)

Lemma unvisited_fuel st : length (unvisited d st) < dfs_fuel d.
Proof.
  unfold dfs_fuel, unvisited.
  pose proof (length_filter (fun n => colour st n = 0%Z)
                            (elements (universe d))) as H.
  unfold size, set_size. simpl. lia.
Qed.

Lemma detect_loop_spec (entries : list (string * Target)) st :
  dfs_inv d st -> recStack st = [] -> found st = [] ->
  (forall e, e ∈ entries -> is_Some (d !! e.1)) ->
  exists r,
    detect_loop d entries st = Some r
    /\ if hasCycle r then closed_path d (cycleNodes r)
       else cycleNodes r = []
            /\ exists st',
                 dfs_inv d st' /\ recStack st' = []
                 /\ (forall n, colour st n <> 0%Z -> colour st' n <> 0%Z)
                 /\ forall e, e ∈ entries -> colour st' e.1 <> 0%Z.
Proof.
  revert st. induction entries as [|[name t] entries IH];
    intros st Hinv Hstack Hfound Hreg.
  - eexists. split; [done|]. cbn [hasCycle cycleNodes]. split; [done|].
    exists st. split; [done|]. split; [done|]. split; [done|].
    intros e He. by apply elem_of_nil in He.
  - cbn [detect_loop].
    pose proof (subscript_colour st name) as Hc.
    pose proof (colour_subscript st name) as Hsame.
    pose proof (dfs_inv_subscript st name Hinv) as Hinv1.
    destruct (subscript 0%Z (visited st) name) as [c vis].
    cbn [fst snd] in Hc, Hsame, Hinv1. subst c.
    set (st1 := set_visited st vis) in *.
    assert (forall e, e ∈ entries -> is_Some (d !! e.1)) as Hreg'.
    { intros e He. apply Hreg. by right. }
    destruct (Z.eqb_spec (colour st name) 0) as [Hzero|Hnz].
    + destruct (hasCycleUtil_spec (dfs_fuel d) name st1)
        as (b & st2 & -> & Hres).
      { split; [done|]. split; [by rewrite Hsame|].
        split; [apply registered_universe, (Hreg (name, t)); by left|].
        split; [by left|apply unvisited_fuel]. }
      destruct b.
      * eexists. split; [done|]. done.
      * destruct Hres as (Hinv2 & Hstack2 & Hfound2 & Hcol2 & Hfin2).
        destruct (IH st2) as (r & -> & Hr); try done.
        { by rewrite Hstack2. }
        { by rewrite Hfound2. }
        exists r. split; [done|]. destruct (hasCycle r); [done|].
        destruct Hr as (Hnil & st' & Hinv' & Hstack' & Hmono & Hall).
        split; [done|]. exists st'. split; [done|]. split; [done|]. split.
        -- intros n Hn. apply Hmono. rewrite Hcol2, Hsame; [done|].
           by rewrite Hsame.
        -- intros e [->|He]%elem_of_cons; [|by apply Hall].
           apply Hmono. apply Hfin2.
    + destruct (IH st1) as (r & -> & Hr); try done.
      exists r. split; [done|]. destruct (hasCycle r); [done|].
      destruct Hr as (Hnil & st' & Hinv' & Hstack' & Hmono & Hall).
      split; [done|]. exists st'. split; [done|]. split; [done|]. split.
      * intros n Hn. apply Hmono. by rewrite Hsame.
      * intros e [->|He]%elem_of_cons; [|by apply Hall].
        apply Hmono. by rewrite Hsame.
Qed.

Lemma dfs_inv_init :
  dfs_inv d {| visited := ∅; recStack := []; found := [] |}.
Proof.
  split; unfold finished, colour; simpl.
  - intros n. rewrite lookup_empty. simpl. split; [done|].
    intros H. by apply elem_of_nil in H.
  - done.
  - intros a b. rewrite lookup_empty. simpl. by intros [? _].
  - intros a. rewrite lookup_empty. simpl. by intros [? _].
Qed.

Lemma detect_sound_complete (O : UMapOrder) :
  exists r,
    detectCyclesWithPath O d = Some r
    /\ (hasCycle r = true <-> has_cycle d)
    /\ (hasCycle r = true -> closed_path d (cycleNodes r))
    /\ (hasCycle r = false -> cycleNodes r = []).
Proof.
  destruct (detect_loop_spec (iter O d)
              {| visited := ∅; recStack := []; found := [] |})
    as (r & Hrun & Hr); try done.
  { apply dfs_inv_init. }
  { intros [k t] He. apply elem_of_iter in He. simpl. eauto. }
  exists r. split; [done|]. destruct (hasCycle r).
  - split; [|done]. split; [|done]. intros _. by eapply closed_path_cycle.
  - destruct Hr as (Hnil & st' & Hinv & Hstack & _ & Hall).
    split; [|done]. split; [done|]. intros [a Ha]. exfalso.
    assert (is_Some (d !! a)) as [t Ht].
    { inversion Ha; subst; by eapply edge_registered. }
    apply (finished_acyclic _ _ Hinv a); [|done]. split.
    + apply (Hall (a, t)). by apply elem_of_iter.
    + rewrite (on_path_marked _ _ Hinv), Hstack. apply not_elem_of_nil.
Qed.

End CycleProofs.

Section CycleTheorem.
Import DAG.

Lemma detect_self_loop (O : UMapOrder) X (target : Target) :
  dependencies_ target = [X] ->
  detectCyclesWithPath O {[X := target]}
  = Some {| hasCycle := true; cycleNodes := [X; X] |}.
Proof.
  intros Hdeps. unfold detectCyclesWithPath.
  assert (iter O ({[X := target]} : DAG.t) = [(X, target)]) as ->.
  { apply Permutation_singleton_r. rewrite (iter_perm O).
    by rewrite map_to_list_singleton. }
  cbn [detect_loop]. unfold subscript at 1. cbn [visited].
  rewrite lookup_empty. rewrite Z.eqb_refl. unfold dfs_fuel.
  cbn [hasCycleUtil set_visited visited recStack found].
  rewrite lookup_singleton_eq, Hdeps. cbn [visit_deps visited].
  unfold subscript. rewrite lookup_insert_eq.
  cbn [Z.eqb set_visited recStack app from_first].
  by rewrite String.eqb_refl.
Qed.

(** C2: [detectCyclesWithPath] ends; it reports a cycle exactly when the
    graph has one; the path it then returns starts and ends with the same
    name and follows declared edges; for the single target [X] depending
    on [X] it returns the path [X, X]. *)
Theorem detectCycles_sound_complete (O : UMapOrder) (d : DAG.t) :
  exists r,
    detectCyclesWithPath O d = Some r
    /\ (hasCycle r = true <-> has_cycle d)
    /\ (hasCycle r = true -> closed_path d (cycleNodes r))
    /\ (forall X target,
          d = {[X := target]} -> dependencies_ target = [X] ->
          r = {| hasCycle := true; cycleNodes := [X; X] |}).
Proof.
  destruct (detect_sound_complete d O) as (r & Hrun & Hiff & Hpath & _).
  exists r. split; [done|]. split; [done|]. split; [done|].
  intros X target -> Hdeps.
  rewrite (detect_self_loop O X target Hdeps) in Hrun. congruence.
Qed.

(** S3 and S4 of the specification. *)
Example detect_self_cycle :
  detectCyclesWithPath std_order (Examples.dag_of [Examples.target "X" ["X"]])
  = Some {| hasCycle := true; cycleNodes := ["X"; "X"] |}.
Proof. vm_compute. reflexivity. Qed.

Example detect_two_cycle :
  detectCyclesWithPath std_order
    (Examples.dag_of [Examples.target "P" ["Q"]; Examples.target "Q" ["P"]])
  = Some {| hasCycle := true; cycleNodes := ["Q"; "P"; "Q"] |}.
Proof. vm_compute. reflexivity. Qed.

Example detect_diamond :
  detectCyclesWithPath std_order Examples.diamond
  = Some {| hasCycle := false; cycleNodes := [] |}.
Proof. vm_compute. reflexivity. Qed.

End CycleTheorem.

(** ** Executor: the test for skipping *)

Section SkipProofs.
Import Executor.

Lemma outputsExist_spec fs outputs :
  outputsExist fs outputs = true
  <-> forall output, output ∈ outputs -> is_Some (files fs !! output).
Proof.
  induction outputs as [|o outputs IH]; simpl.
  - split; [|done]. intros _ x Hx. by apply elem_of_nil in Hx.
  - unfold file_good. destruct (decide (is_Some (files fs !! o))) as [Ho|Ho].
    + rewrite bool_decide_eq_true_2, IH by done. split.
      * intros H x [->|Hx]%elem_of_cons; [done|by apply H].
      * intros H x Hx. apply H. by right.
    + rewrite bool_decide_eq_false_2 by done. split; [done|].
      intros H. destruct Ho. apply H. by left.
Qed.

Lemma up_to_date_test target w :
  outputsExist (fs w) (outputs_ target) && negb (isOutOfDate target w) = true
  <-> up_to_date target w.
Proof.
  unfold up_to_date, isOutOfDate.
  rewrite andb_true_iff, negb_true_iff, outputsExist_spec. done.
Qed.

Lemma up_to_date_test_false target w :
  outputsExist (fs w) (outputs_ target) && negb (isOutOfDate target w) = false
  <-> ~ up_to_date target w.
Proof. rewrite <- up_to_date_test. by destruct (_ && _). Qed.

Lemma up_to_date_progress ex name current total status target w :
  up_to_date target (progress ex name current total status w)
  <-> up_to_date target w.
Proof. unfold progress. by destruct (progressCallback_ ex). Qed.

Lemma cache_progress ex name current total status w :
  cache (progress ex name current total status w) = cache w.
Proof. unfold progress. by destruct (progressCallback_ ex). Qed.

Lemma fs_progress ex name current total status w :
  fs (progress ex name current total status w) = fs w.
Proof. unfold progress. by destruct (progressCallback_ ex). Qed.

Lemma missing_output_not_up_to_date target w output :
  output ∈ outputs_ target -> files (fs w) !! output = None ->
  ~ up_to_date target w.
Proof. intros Hin Hnone [Hall _]. apply Hall in Hin as [? ?]. congruence. Qed.

(** A cached signature equal to the current one does not make up for a
    missing output. *)
Lemma needsRebuild_false c name sig :
  Cache.needsRebuild c name sig = false
  <-> Cache.signatures_ c !! name = Some sig.
Proof.
  unfold Cache.needsRebuild. destruct (Cache.signatures_ c !! name) as [s|].
  - rewrite negb_false_iff, String.eqb_eq. split; congruence.
  - done.
Qed.

Ltac trace_events :=
  cbn [fst snd];
  unfold events_since, printStatus, progress, store_signature, emit;
  repeat match goal with
         | |- context [progressCallback_ ?ex] => destruct (progressCallback_ ex)
         end;
  cbn [trace fs cache]; rewrite <- ?app_assoc; cbn [app];
  rewrite ?drop_app_length.

Ltac not_skipped :=
  let H := fresh in
  intros [H _];
  repeat (apply elem_of_cons in H as [H|H]; [discriminate H|]);
  by apply elem_of_nil in H.

Ltac is_skipped :=
  let e := fresh in
  let H := fresh in
  split;
  [repeat first [by left | right]
  |apply Forall_forall; intros e H;
   repeat (apply elem_of_cons in H as [->|H]; [by simpl; auto|]);
   by apply elem_of_nil in H].

Ltac in_events :=
  repeat first [by apply list_elem_of_here | apply list_elem_of_further].

Ltac not_in_events :=
  let H := fresh in
  intros H;
  repeat (apply elem_of_cons in H as [H|H]; [discriminate H|]);
  by apply elem_of_nil in H.

Ltac no_runs :=
  let e := fresh in
  let H := fresh in
  apply Forall_forall; intros e H;
  repeat (apply elem_of_cons in H as [->|H]; [by simpl; auto|]);
  by apply elem_of_nil in H.

Lemma executeTarget_skip ex target w :
  skipped (name_ target) (events_since w (executeTarget ex false target w).2)
  <-> up_to_date target w.
Proof.
  unfold executeTarget.
  destruct (outputsExist _ _ && negb _) eqn:Htest.
  - apply up_to_date_test in Htest. split; [done|]. intros _.
    trace_events. is_skipped.
  - apply up_to_date_test_false in Htest. split; [|done]. intros Hs.
    exfalso. revert Hs. unfold runCommand.
    destruct (dryRun (config_ ex)).
    + cbn [negb]. trace_events. not_skipped.
    + destruct (commandRunner_ ex _ _) as [[] fs'];
        cbn [negb]; trace_events; not_skipped.
Qed.

Lemma single_body_skip ex targetName current target w stats :
  skipped (name_ target)
    (events_since w (single_body ex targetName current target w stats).1.2)
  <-> up_to_date target w.
Proof.
  unfold single_body. rewrite <- (up_to_date_progress ex targetName current
    (totalTargets stats) "BUILDING" target w).
  destruct (outputsExist _ _ && negb _) eqn:Htest.
  - apply up_to_date_test in Htest. split; [done|]. intros _.
    cbn [fst snd]. trace_events; is_skipped.
  - apply up_to_date_test_false in Htest. split; [|done]. intros Hs.
    exfalso. revert Hs. unfold runCommand.
    destruct (dryRun (config_ ex)).
    + cbn [negb fst snd]. trace_events; not_skipped.
    + destruct (commandRunner_ ex _ _) as [[] fs'];
        cbn [negb fst snd]; trace_events; not_skipped.
Qed.

Lemma worker_check_skip O ex d order sh targetName target :
  let r := worker_step O ex d order sh (Checking targetName target) in
  ((r.2 = Finishing targetName true
    /\ skipped (name_ target) (events_since (world sh) (world r.1)))
   <-> up_to_date target (world sh))
  /\ (r.2 = Finishing targetName true \/ r.2 = Running targetName target).
Proof.
  cbn [worker_step]. destruct (outputsExist _ _ && negb _) eqn:Htest.
  - apply up_to_date_test in Htest. cbn [fst snd]. split; [|by left].
    split; [done|]. intros _. split; [done|].
    cbn [world set_stats set_world]. trace_events. is_skipped.
  - apply up_to_date_test_false in Htest. cbn [fst snd]. split; [|by right].
    split; [|done]. by intros [? _].
Qed.

(** A target that is not up to date is rebuilt. *)
Lemma executeTarget_rebuilt ex target w :
  ~ up_to_date target w ->
  rebuilt ex target w (executeTarget ex false target w).2.
Proof.
  intros Hup. apply up_to_date_test_false in Hup.
  unfold rebuilt, executeTarget. rewrite Hup. unfold runCommand.
  destruct (dryRun (config_ ex)).
  - cbn [negb]. trace_events.
    split; [in_events|]. split; [not_in_events|].
    split; [in_events|]. split; [no_runs|done].
  - cbn [printStatus emit fs].
    destruct (commandRunner_ ex _ _) as [[] fs'];
      cbn [negb]; trace_events;
      (split; [in_events|]; split; [not_in_events|];
       split; [in_events|]; split; [in_events|done]).
Qed.

Lemma single_body_rebuilt ex targetName current target w stats :
  ~ up_to_date target w ->
  rebuilt ex target w (single_body ex targetName current target w stats).1.2.
Proof.
  intros Hup.
  rewrite <- (up_to_date_progress ex targetName current
    (totalTargets stats) "BUILDING" target w) in Hup.
  apply up_to_date_test_false in Hup.
  unfold rebuilt, single_body. rewrite Hup. unfold runCommand.
  destruct (dryRun (config_ ex)).
  - cbn [negb fst snd]. trace_events;
      (split; [in_events|]; split; [not_in_events|];
       split; [in_events|]; split; [no_runs|done]).
  - cbn [printStatus emit fs]. rewrite fs_progress.
    destruct (commandRunner_ ex _ _) as [[] fs'];
      cbn [negb fst snd]; trace_events;
      (split; [in_events|]; split; [not_in_events|];
       split; [in_events|]; split; [in_events|done]).
Qed.

Lemma worker_rebuilt O ex d order sh targetName target :
  (~ up_to_date target (world sh) ->
   let r := worker_step O ex d order sh (Checking targetName target) in
   r.2 = Running targetName target
   /\ events_since (world sh) (world r.1) = [Status "BUILD" (name_ target)]
   /\ fs (world r.1) = fs (world sh))
  /\ (let r := worker_step O ex d order sh (Running targetName target) in
      let run := commandRunner_ ex (command_ target) (fs (world sh)) in
      if dryRun (config_ ex)
      then r.2 = Storing targetName target /\ world r.1 = world sh
      else RunSimple (command_ target) run.1
             ∈ events_since (world sh) (world r.1)
           /\ fs (world r.1) = run.2
           /\ r.2 = (if run.1 then Storing targetName target
                     else Finishing targetName false)).
Proof.
  split.
  - intros Hup. apply up_to_date_test_false in Hup.
    cbn [worker_step]. rewrite Hup. cbn [fst snd world set_world].
    split; [done|]. trace_events. done.
  - cbn [worker_step]. unfold runCommand.
    destruct (dryRun (config_ ex)); [done|].
    destruct (commandRunner_ ex _ _) as [[] fs'];
      cbn [fst snd world set_world set_stats]; trace_events;
      (split; [in_events|done]).
Qed.

(** C4: in each of the three places where the executor processes a
    target -- [executeTarget], the body of the single-threaded loop and a
    worker of the multi-threaded strategy -- the target is reported
    UP-TO-DATE without running a command exactly when every declared
    output can be opened and the cache does not ask for a rebuild.
    Otherwise the target is rebuilt: BUILD is printed and [runCommand]
    is called for its command, which outside dry-run mode is a call of
    the runner whose answer decides between SUCCESS and FAILED.  So one
    missing output forces the build whatever the cache holds. *)
Theorem skip_iff_up_to_date (ex : Executor.t) (target : Target) (w : World) :
  (skipped (name_ target) (events_since w (executeTarget ex false target w).2)
   <-> up_to_date target w)
  /\ (forall targetName current stats,
        skipped (name_ target)
          (events_since w (single_body ex targetName current target w stats).1.2)
        <-> up_to_date target w)
  /\ (forall O d order sh targetName,
        world sh = w ->
        let r := worker_step O ex d order sh (Checking targetName target) in
        ((r.2 = Finishing targetName true
          /\ skipped (name_ target) (events_since w (world r.1)))
         <-> up_to_date target w)
        /\ (r.2 = Finishing targetName true \/ r.2 = Running targetName target))
  /\ (forall output,
        output ∈ outputs_ target -> files (fs w) !! output = None ->
        ~ up_to_date target w)
  /\ (~ up_to_date target w ->
      rebuilt ex target w (executeTarget ex false target w).2
      /\ (forall targetName current stats,
            rebuilt ex target w
              (single_body ex targetName current target w stats).1.2)
      /\ (forall O d order sh targetName,
            world sh = w ->
            let r := worker_step O ex d order sh (Checking targetName target) in
            r.2 = Running targetName target
            /\ events_since w (world r.1) = [Status "BUILD" (name_ target)]
            /\ fs (world r.1) = fs w))
  /\ (forall O d order sh targetName,
        world sh = w ->
        let r := worker_step O ex d order sh (Running targetName target) in
        let run := commandRunner_ ex (command_ target) (fs w) in
        if dryRun (config_ ex)
        then r.2 = Storing targetName target /\ world r.1 = w
        else RunSimple (command_ target) run.1 ∈ events_since w (world r.1)
             /\ fs (world r.1) = run.2
             /\ r.2 = (if run.1 then Storing targetName target
                       else Finishing targetName false))
  /\ (forall output,
        output ∈ outputs_ target -> files (fs w) !! output = None ->
        rebuilt ex target w (executeTarget ex false target w).2
        /\ forall targetName current stats,
             rebuilt ex target w
               (single_body ex targetName current target w stats).1.2).
Proof.
  split; [apply executeTarget_skip|].
  split; [intros; apply single_body_skip|].
  split; [intros O d order sh targetName <-; apply worker_check_skip|].
  split; [apply missing_output_not_up_to_date|].
  split; [|split].
  - intros Hup. split; [by apply executeTarget_rebuilt|].
    split; [intros; by apply single_body_rebuilt|].
    intros O d order sh targetName <-.
    by apply (worker_rebuilt O ex d order sh targetName target).
  - intros O d order sh targetName <-.
    apply (worker_rebuilt O ex d order sh targetName target).
  - intros output Hin Hnone.
    pose proof (missing_output_not_up_to_date target w output Hin Hnone).
    split; [by apply executeTarget_rebuilt|].
    intros; by apply single_body_rebuilt.
Qed.

(** The cache holds the current signature of the target and its output
    has been deleted: the target is built. *)
Example missing_output_rebuilds :
  isOutOfDate Examples.output_target Examples.deleted_output_world = false
  /\ (executeTarget (Examples.executor 1 false) false Examples.output_target
        Examples.deleted_output_world).1 = true
  /\ exists sig,
       trace (executeTarget (Examples.executor 1 false) false
                Examples.output_target Examples.deleted_output_world).2
       = [Status "BUILD" "A"; RunSimple "touch a.out" true;
          SetSignature "A" sig; Status "SUCCESS" "A"].
Proof.
  split; [vm_compute; reflexivity|]. split; [vm_compute; reflexivity|].
  eexists. vm_compute. reflexivity.
Qed.

End SkipProofs.

(** ** Executor: writes to the cache *)

Section CacheWriteProofs.
Import Executor.

Lemma replay_app c tr1 tr2 : replay c (tr1 ++ tr2) = replay (replay c tr1) tr2.
Proof. apply foldl_app. Qed.

Lemma replay_plain c tr : Forall (fun e => ~ is_write e) tr -> replay c tr = c.
Proof.
  intros H. revert c. induction H as [|e tr He _ IH]; intros c; [done|].
  simpl. destruct e; try apply IH. by destruct He.
Qed.

Lemma wfs_plain ex known tr :
  Forall (fun e => ~ is_write e) tr -> writes_follow_success ex known tr.
Proof.
  intros H i name sig Hi. rewrite Forall_forall in H.
  destruct (H (SetSignature name sig)); [|done].
  by eapply list_elem_of_lookup_2.
Qed.

Lemma wfs_known ex (known known' : Target -> Prop) tr :
  (forall target, known target -> known' target) ->
  writes_follow_success ex known tr -> writes_follow_success ex known' tr.
Proof.
  intros Hk H i name sig Hi.
  destruct (H _ _ _ Hi) as (target & j & Hknown & Hrest).
  exists target, j. split; [by apply Hk|done].
Qed.

Lemma wfs_app ex known tr1 tr2 :
  writes_follow_success ex known tr1 -> writes_follow_success ex known tr2 ->
  writes_follow_success ex known (tr1 ++ tr2).
Proof.
  intros H1 H2 i name sig Hi.
  destruct (decide (i < length tr1)) as [Hlt|Hge].
  - rewrite lookup_app_l in Hi by done.
    destruct (H1 _ _ _ Hi) as (target & j & Hk & Hn & Hj & Hb & Hrun).
    exists target, j. split; [done|]. split; [done|]. split; [done|].
    split; [by rewrite lookup_app_l by lia|].
    destruct Hrun as [Hdry|(k & Hjk & Hki & Hrun)]; [by left|].
    right. exists k. split; [done|]. split; [done|].
    by rewrite lookup_app_l by lia.
  - rewrite lookup_app_r in Hi by lia.
    destruct (H2 _ _ _ Hi) as (target & j & Hk & Hn & Hj & Hb & Hrun).
    exists target, (length tr1 + j). split; [done|]. split; [done|].
    split; [lia|]. split.
    { rewrite lookup_app_r by lia.
      by replace (length tr1 + j - length tr1) with j by lia. }
    destruct Hrun as [Hdry|(k & Hjk & Hki & Hrun)]; [by left|].
    right. exists (length tr1 + k). split; [lia|]. split; [lia|].
    rewrite lookup_app_r by lia.
    by replace (length tr1 + k - length tr1) with k by lia.
Qed.

(** A write for [target] after a trace that holds its BUILD line and,
    after it, the success of its command. *)
Lemma wfs_write ex (known : Target -> Prop) tr target sig :
  writes_follow_success ex known tr ->
  known target ->
  (exists j,
     tr !! j = Some (Status "BUILD" (name_ target))
     /\ (dryRun (config_ ex) = true
         \/ exists k, j < k
              /\ tr !! k = Some (RunSimple (command_ target) true))) ->
  writes_follow_success ex known (tr ++ [SetSignature (name_ target) sig]).
Proof.
  intros Htr Hknown (j & Hb & Hjust).
  intros i name s Hi.
  destruct (decide (i < length tr)) as [Hlt|Hge].
  - rewrite lookup_app_l in Hi by done.
    destruct (Htr _ _ _ Hi) as (tg & j' & Hk & Hn & Hj & Hb' & Hrun).
    exists tg, j'. split; [done|]. split; [done|]. split; [done|].
    split; [by rewrite lookup_app_l by lia|].
    destruct Hrun as [Hdry|(k & Hjk & Hki & Hrun)]; [by left|].
    right. exists k. split; [done|]. split; [done|].
    by rewrite lookup_app_l by lia.
  - rewrite lookup_app_r in Hi by lia.
    destruct (i - length tr) as [|k] eqn:Hk; [|by destruct k].
    injection Hi as <- <-. exists target, j.
    apply lookup_lt_Some in Hb as Hlt.
    split; [done|]. split; [done|]. split; [lia|].
    split; [by rewrite lookup_app_l|].
    destruct Hjust as [Hdry|(k & Hjk & Hrun)]; [by left|]. right.
    exists k. apply lookup_lt_Some in Hrun as Hlt'.
    split; [done|]. split; [lia|]. by rewrite lookup_app_l.
Qed.

Lemma extends_refl ex known w : extends ex known w w.
Proof.
  exists []. rewrite app_nil_r. split; [done|]. split; [done|].
  by apply wfs_plain.
Qed.

Lemma extends_trans ex known w1 w2 w3 :
  extends ex known w1 w2 -> extends ex known w2 w3 -> extends ex known w1 w3.
Proof.
  intros (e1 & Ht1 & Hc1 & Hw1) (e2 & Ht2 & Hc2 & Hw2).
  exists (e1 ++ e2). rewrite Ht2, Ht1, app_assoc. split; [done|].
  rewrite Hc2, Hc1, replay_app. split; [done|]. by apply wfs_app.
Qed.

Lemma extends_known ex (known known' : Target -> Prop) w w' :
  (forall target, known target -> known' target) ->
  extends ex known w w' -> extends ex known' w w'.
Proof.
  intros Hk (events & Ht & Hc & Hw). exists events.
  split; [done|]. split; [done|]. by eapply wfs_known.
Qed.

Lemma extends_emit ex known e w : ~ is_write e -> extends ex known w (emit e w).
Proof.
  intros He. exists [e]. split; [done|]. simpl.
  split; [by destruct e|]. apply wfs_plain. by constructor.
Qed.

Lemma extends_progress ex known name current total status w :
  extends ex known w (progress ex name current total status w).
Proof.
  unfold progress. destruct (progressCallback_ ex); [|apply extends_refl].
  apply extends_emit. simpl. auto.
Qed.

Lemma extends_printStatus ex known status name w :
  extends ex known w (printStatus status name w).
Proof. apply extends_emit. simpl. auto. Qed.

(** [runCommand] writes nothing; when it reports success in a run that is
    not a dry run, the success of the command is on record. *)
Lemma runCommand_spec ex command w :
  let r := runCommand ex command w in
  cache r.2 = cache w
  /\ exists events,
       trace r.2 = trace w ++ events
       /\ Forall (fun e => ~ is_write e) events
       /\ (r.1 = true ->
           dryRun (config_ ex) = true \/ RunSimple command true ∈ events).
Proof.
  unfold runCommand. destruct (dryRun (config_ ex)) eqn:Hdry; cbn [fst snd].
  - split; [done|]. exists []. rewrite app_nil_r. split; [done|].
    split; [constructor|]. by left.
  - destruct (commandRunner_ ex command (fs w)) as [ok fs'] eqn:Hrun.
    cbn [fst snd emit trace cache]. split; [done|].
    exists [RunSimple command ok]. split; [done|].
    split; [constructor; [simpl; auto|constructor]|].
    intros ->. right. by left.
Qed.

(** From [BUILD] on: the command is run and, on success, the signature
    stored. *)
Lemma build_extends ex (known : Target -> Prop) target w0 w :
  extends ex known w0 w ->
  known target ->
  let r := runCommand ex (command_ target)
             (printStatus "BUILD" (name_ target) w) in
  extends ex known w0 r.2
  /\ (r.1 = true -> extends ex known w0 (store_signature target r.2)).
Proof.
  intros (e0 & Ht0 & Hc0 & Hw0) Hknown r.
  destruct (runCommand_spec ex (command_ target)
              (printStatus "BUILD" (name_ target) w))
    as (Hc & es & Ht & Hp & Hok).
  fold r in Hc, Ht, Hok.
  cbn [printStatus emit trace cache] in Hc, Ht.
  set (b := Status "BUILD" (name_ target)) in *.
  assert (Forall (fun e => ~ is_write e) (b :: es)) as Hp'.
  { constructor; [simpl; auto|done]. }
  assert (trace r.2 = trace w0 ++ e0 ++ b :: es) as Ht'.
  { rewrite Ht, Ht0, <- !app_assoc. done. }
  assert (extends ex known w0 r.2) as Hext.
  { exists (e0 ++ b :: es). split; [done|].
    rewrite Hc, Hc0, replay_app, (replay_plain _ (b :: es)) by done.
    split; [done|]. apply wfs_app; [done|]. by apply wfs_plain. }
  split; [done|]. intros Hr.
  unfold store_signature, emit. cbn [trace cache].
  set (sig := Signature.computeTargetSignature _ _ _).
  exists ((e0 ++ b :: es) ++ [SetSignature (name_ target) sig]).
  rewrite Ht', !app_assoc. split; [done|].
  rewrite replay_app, replay_app, (replay_plain _ (b :: es)) by done.
  simpl. rewrite Hc, Hc0. split; [done|].
  apply wfs_write; [|done|].
  - apply wfs_app; [done|]. by apply wfs_plain.
  - exists (length e0). split.
    { rewrite lookup_app_r by lia. by rewrite Nat.sub_diag. }
    destruct (Hok Hr) as [Hdry|[j Hj]%list_elem_of_lookup_1]; [by left|].
    right. exists (length e0 + S j). split; [lia|].
    rewrite lookup_app_r by lia.
    by replace (length e0 + S j - length e0) with (S j) by lia.
Qed.

Lemma executeTarget_cache ex cancelled target w :
  let r := executeTarget ex cancelled target w in
  extends ex (eq target) w r.2 /\ (r.1 = false -> cache r.2 = cache w).
Proof.
  unfold executeTarget. destruct cancelled; cbn [fst snd].
  { split; [apply extends_refl|done]. }
  destruct (outputsExist _ _ && negb _); cbn [fst snd].
  { split; [apply extends_printStatus|done]. }
  pose proof (build_extends ex (eq target) target w w
                (extends_refl _ _ _) eq_refl) as [Hrun Hstore].
  pose proof (runCommand_spec ex (command_ target)
                (printStatus "BUILD" (name_ target) w)) as [Hcache _].
  destruct (runCommand ex (command_ target) _) as [[] w1]; cbn [fst snd negb] in *.
  - split; [|done].
    eapply extends_trans; [by apply Hstore|apply extends_printStatus].
  - split; [|done].
    eapply extends_trans; [done|apply extends_printStatus].
Qed.

Lemma single_body_cache ex targetName current target w stats :
  let r := single_body ex targetName current target w stats in
  let w1 := progress ex targetName current (totalTargets stats) "BUILDING" w in
  let wb := printStatus "BUILD" (name_ target) w1 in
  extends ex (eq target) w r.1.2
  /\ (up_to_date target w \/ (runCommand ex (command_ target) wb).1 = false ->
      cache r.1.2 = cache w).
Proof.
  unfold single_body.
  set (w1 := progress ex targetName current (totalTargets stats) "BUILDING" w).
  assert (extends ex (eq target) w w1) as H1 by apply extends_progress.
  assert (cache w1 = cache w) as Hc1 by apply cache_progress.
  cbv zeta.
  destruct (outputsExist _ _ && negb _) eqn:Htest; cbn [fst snd].
  { split.
    - eapply extends_trans; [|apply extends_progress].
      eapply extends_trans; [done|apply extends_printStatus].
    - intros _. by rewrite cache_progress. }
  apply up_to_date_test_false in Htest.
  unfold w1 in Htest. rewrite up_to_date_progress in Htest.
  pose proof (build_extends ex (eq target) target w w1 H1 eq_refl)
    as [Hrun Hstore].
  pose proof (runCommand_spec ex (command_ target)
                (printStatus "BUILD" (name_ target) w1)) as [Hcache _].
  destruct (runCommand ex (command_ target) _) as [[] w2];
    cbn [fst snd negb] in *.
  - split.
    + eapply extends_trans; [|apply extends_progress].
      eapply extends_trans; [by apply Hstore|apply extends_printStatus].
    + by intros [?|?].
  - split.
    + eapply extends_trans; [|apply extends_progress].
      eapply extends_trans; [done|apply extends_printStatus].
    + intros _. rewrite cache_progress. cbn [printStatus emit cache].
      rewrite Hcache. cbn [printStatus emit cache]. exact Hc1.
Qed.

(** The whole single-threaded loop. *)
Lemma single_loop_extends ex d cancel_reads order current w stats :
  extends ex (registered d) w
    (single_loop ex d cancel_reads order current w stats).1.2.
Proof.
  revert current w stats.
  induction order as [|targetName rest IH]; intros current w stats;
    cbn [single_loop]; [apply extends_refl|].
  destruct (cancel_reads current); [apply extends_refl|].
  destruct (DAG.getTarget d targetName) as [target|] eqn:Htarget; [|apply IH].
  pose proof (single_body_cache ex targetName (S current) target w stats)
    as [Hbody _].
  apply (extends_known _ _ (registered d)) in Hbody;
    [|intros ? <-; by exists targetName].
  destruct (single_body ex targetName (S current) target w stats)
    as [[stop w'] stats'].
  cbn [fst snd] in Hbody. destruct stop; [done|].
  eapply extends_trans; [done|apply IH].
Qed.

(** *** Workers *)

Lemma plain_refl w : plain_change w w.
Proof. split; [done|]. exists []. by rewrite app_nil_r. Qed.

Lemma plain_trans w1 w2 w3 :
  plain_change w1 w2 -> plain_change w2 w3 -> plain_change w1 w3.
Proof.
  intros (Hc1 & e1 & Ht1 & Hp1) (Hc2 & e2 & Ht2 & Hp2).
  split; [congruence|]. exists (e1 ++ e2).
  rewrite Ht2, Ht1, app_assoc. split; [done|]. by apply Forall_app.
Qed.

Lemma plain_emit e w : ~ is_write e -> plain_change w (emit e w).
Proof. intros He. split; [done|]. exists [e]. split; [done|]. by constructor. Qed.

Lemma plain_printStatus status name w :
  plain_change w (printStatus status name w).
Proof. apply plain_emit. simpl. auto. Qed.

Lemma plain_progress ex name current total status w :
  plain_change w (progress ex name current total status w).
Proof.
  unfold progress. destruct (progressCallback_ ex); [|apply plain_refl].
  apply plain_emit. simpl. auto.
Qed.

Lemma plain_runCommand ex command w :
  plain_change w (runCommand ex command w).2.
Proof.
  destruct (runCommand_spec ex command w) as (Hc & es & Ht & Hp & _).
  split; [done|]. by exists es.
Qed.

Lemma justified_mono ex d events es pc :
  justified ex d events pc -> justified ex d (events ++ es) pc.
Proof.
  destruct pc as [| |n|n target|n target|n target|n success|]; try done.
  - intros [Hreg (j & Hj)]. split; [done|]. exists j.
    apply lookup_lt_Some in Hj as Hlt. by rewrite lookup_app_l.
  - intros [Hreg (j & Hj & Hrun)]. split; [done|]. exists j.
    apply lookup_lt_Some in Hj as Hlt. split; [by rewrite lookup_app_l|].
    destruct Hrun as [?|(k & Hjk & Hk)]; [by left|]. right. exists k.
    apply lookup_lt_Some in Hk as Hlt'. split; [done|].
    by rewrite lookup_app_l.
Qed.

(** A step of worker [i] that writes nothing keeps the invariant, when
    the worker is justified afterwards. *)
Lemma writes_inv_update ex d w0 sys sh' pc' i es :
  writes_inv ex d w0 sys ->
  cache (world sh') = cache (world (shared sys)) ->
  trace (world sh') = trace (world (shared sys)) ++ es ->
  Forall (fun e => ~ is_write e) es ->
  (forall events,
     trace (world (shared sys)) = trace w0 ++ events ->
     (forall j pc, threads sys !! j = Some pc -> justified ex d events pc) ->
     justified ex d (events ++ es) pc') ->
  writes_inv ex d w0 {| shared := sh'; threads := <[i := pc']> (threads sys) |}.
Proof.
  intros (events & Ht & Hc & Hw & Hst) Hc' Ht' Hp Hpc.
  exists (events ++ es). cbn [shared threads].
  rewrite Ht', Ht, app_assoc. split; [done|].
  rewrite Hc', Hc, replay_app, (replay_plain _ es) by done. split; [done|].
  split; [apply wfs_app; [done|by apply wfs_plain]|].
  intros i' pc Hi'.
  destruct (decide (i = i')) as [<-|Hne].
  - apply list_lookup_insert_Some in Hi' as [(_ & <- & _)|[? _]]; [|done].
    by apply Hpc.
  - rewrite list_lookup_insert_ne in Hi' by done.
    apply justified_mono. by eapply Hst.
Qed.

Lemma writes_inv_plain ex d w0 sys sh' pc' i :
  writes_inv ex d w0 sys ->
  plain_change (world (shared sys)) (world sh') ->
  (forall events, justified ex d events pc') ->
  writes_inv ex d w0 {| shared := sh'; threads := <[i := pc']> (threads sys) |}.
Proof.
  intros Hinv (Hc & es & Ht & Hp) Hpc.
  eapply writes_inv_update; [done|done|done|done|]. intros. apply Hpc.
Qed.

Lemma writes_inv_step O ex d order w0 sys a :
  writes_inv ex d w0 sys -> writes_inv ex d w0 (sys_step O ex d order sys a).
Proof.
  intros Hinv. destruct a as [i|]; cbn [sys_step].
  2:{ destruct Hinv as (events & ? & ? & ? & ?). by exists events. }
  destruct (threads sys !! i) as [pc|] eqn:Hpc; [|done].
  destruct pc as [| |n|n target|n target|n target|n success|];
    cbn [worker_step].
  - destruct (cancelled (shared sys));
      (apply writes_inv_plain; [done|apply plain_refl|done]).
  - unfold acquire.
    destruct (failed _ && _ || _);
      [apply writes_inv_plain; [done|apply plain_refl|done]|].
    destruct (allDone _ _);
      [apply writes_inv_plain; [done|apply plain_refl|done]|].
    destruct (first_ready _ _ _ _) as [[[name|] c] ip];
      (apply writes_inv_plain; [done|apply plain_refl|done]).
  - destruct (String.eqb n "");
      [apply writes_inv_plain; [done|apply plain_refl|done]|].
    destruct (DAG.getTarget d n) as [target|] eqn:Htarget;
      [|apply writes_inv_plain; [done|apply plain_refl|done]].
    apply writes_inv_plain; [done|apply plain_progress|].
    intros events. by exists n.
  - destruct (outputsExist _ _ && negb _).
    + apply writes_inv_plain; [done|apply plain_printStatus|done].
    + eapply (writes_inv_update _ _ _ _ _ _ _
                [Status "BUILD" (name_ target)]); [done|done|done| |].
      { constructor; [simpl; auto|constructor]. }
      intros events Ht Hst. split; [by apply (Hst _ _ Hpc)|].
      exists (length events). rewrite lookup_app_r by lia.
      by rewrite Nat.sub_diag.
  - pose proof (runCommand_spec ex (command_ target) (world (shared sys)))
      as (Hc & es & Ht & Hp & Hok).
    destruct (runCommand ex (command_ target) (world (shared sys)))
      as [[] w1]; cbn [fst snd] in *.
    + eapply (writes_inv_update _ _ _ _ _ _ _ es); [done|done|done|done|].
      intros events Ht0 Hst. destruct (Hst _ _ Hpc) as [Hreg (j & Hj)].
      split; [done|]. exists j. apply lookup_lt_Some in Hj as Hlt.
      split; [by rewrite lookup_app_l|].
      destruct (Hok eq_refl) as [?|[k Hk]%list_elem_of_lookup_1]; [by left|].
      right. exists (length events + k). split; [lia|].
      rewrite lookup_app_r by lia.
      by replace (length events + k - length events) with k by lia.
    + apply writes_inv_plain; [done| |done].
      cbn [world set_stats set_world].
      eapply plain_trans; [|apply plain_printStatus]. split; [done|].
      by exists es.
  - destruct Hinv as (events & Ht0 & Hc0 & Hw & Hst).
    destruct (Hst _ _ Hpc) as [Hreg Hjust].
    set (sig := Signature.computeTargetSignature (fs (world (shared sys)))
                  (command_ target) (inputs_ target)).
    exists (events ++ [SetSignature (name_ target) sig;
                       Status "SUCCESS" (name_ target)]).
    cbn [shared threads world set_stats set_world].
    unfold printStatus, store_signature, emit. cbn [trace cache].
    rewrite Ht0, <- !app_assoc. split; [done|].
    rewrite replay_app. cbn [replay foldl]. rewrite Hc0. split; [done|].
    split.
    + change [SetSignature (name_ target) sig; Status "SUCCESS" (name_ target)]
        with ([SetSignature (name_ target) sig]
              ++ [Status "SUCCESS" (name_ target)]).
      rewrite app_assoc. apply wfs_app; [by apply wfs_write|].
      apply wfs_plain. constructor; [simpl; auto|constructor].
    + intros i' pc Hi'.
      destruct (decide (i = i')) as [<-|Hne].
      * by apply list_lookup_insert_Some in Hi' as [(_ & <- & _)|[? _]].
      * rewrite list_lookup_insert_ne in Hi' by done.
        apply justified_mono. by eapply Hst.
  - apply writes_inv_plain; [done|apply plain_refl|done].
  - apply writes_inv_plain; [done|apply plain_refl|done].
Qed.

Lemma writes_inv_init ex d order cancelled0 w s :
  writes_inv ex d w (init_system ex order cancelled0 w s).
Proof.
  exists []. cbn [init_system shared world threads]. rewrite app_nil_r.
  split; [done|]. split; [done|]. split; [by apply wfs_plain|].
  intros i pc Hi. apply list_elem_of_lookup_2 in Hi.
  by apply elem_of_replicate in Hi as [-> _].
Qed.

Lemma writes_inv_run O ex d order w0 sys schedule :
  writes_inv ex d w0 sys ->
  writes_inv ex d w0 (run_schedule O ex d order sys schedule).
Proof.
  revert sys. induction schedule as [|a schedule IH]; intros sys Hinv; [done|].
  apply IH. by apply writes_inv_step.
Qed.

Lemma worker_step_cache O ex d order sh pc :
  (forall n target, pc <> Storing n target) ->
  cache (world (worker_step O ex d order sh pc).1) = cache (world sh).
Proof.
  intros Hpc. destruct pc as [| |n|n target|n target|n target|n success|];
    cbn [worker_step].
  - by destruct (cancelled sh).
  - unfold acquire. destruct (failed _ && _ || _); [done|].
    destruct (allDone _ _); [done|].
    by destruct (first_ready _ _ _ _) as [[[name|] c] ip].
  - destruct (String.eqb n ""); [done|].
    destruct (DAG.getTarget d n); [|done]. cbn [fst world].
    apply cache_progress.
  - by destruct (outputsExist _ _ && negb _).
  - pose proof (runCommand_spec ex (command_ target) (world sh)) as [Hc _].
    by destruct (runCommand ex (command_ target) (world sh)) as [[] w1].
  - by destruct (Hpc n target).
  - done.
  - done.
Qed.

Section DryRun.
Import Examples.

(** C3 as stated fails in dry-run mode: no command is run -- here every
    command would fail -- and the signature is stored all the same. *)
Lemma dry_run_counterexample :
  let r := executeTarget (failing_executor true) false (target "A" [])
                         fresh_world in
  r.1 = true
  /\ Forall (fun e => ~ is_run e) (trace r.2)
  /\ Cache.signatures_ (cache fresh_world) !! "A" = None
  /\ Cache.signatures_ (cache r.2) !! "A"
     = Some "f12f4b3d1b01cf183c6ef5f6a54ff53a510e527f9b05688c1f83d9ab5be0cd19".
Proof.
  cbv zeta. split; [vm_compute; reflexivity|]. split.
  - vm_compute. repeat (constructor; [tauto|]). constructor.
  - split; vm_compute; reflexivity.
Qed.

End DryRun.

End CacheWriteProofs.

(** ** Executor: order of events *)

Section OrderProofs.
Import Executor.
Context (d : DAG.t) (Hkeys : DAG.keyed_by_name d).

Lemma keyed_check_spec d' : keyed_check d' = true -> DAG.keyed_by_name d'.
Proof.
  unfold keyed_check. rewrite forallb_forall. intros H k target Hk.
  specialize (H (k, target)). cbn [fst snd] in H. apply String.eqb_eq, H.
  by apply list_elem_of_In, elem_of_map_to_list.
Qed.

Lemma finished_in_app tr es name :
  finished_in tr name -> finished_in (tr ++ es) name.
Proof.
  intros (j & e & Hj & He). exists j, e. split; [|done].
  apply lookup_lt_Some in Hj as Hlt. by rewrite lookup_app_l.
Qed.

Lemma finished_in_here tr e es name :
  finishes name e -> finished_in (tr ++ e :: es) name.
Proof.
  intros He. exists (length tr), e. split; [|done].
  by rewrite lookup_app_r, Nat.sub_diag by lia.
Qed.

Lemma quiet_Status status name : quiet (Status status name).
Proof. intros n (c & t & H). discriminate. Qed.

Lemma quiet_RunSimple command ok : quiet (RunSimple command ok).
Proof. intros n (c & t & H). discriminate. Qed.

Lemma quiet_SetSignature name sig : quiet (SetSignature name sig).
Proof. intros n (c & t & H). discriminate. Qed.

Lemma quiet_Progress name current total status :
  status <> "BUILDING" -> quiet (Progress name current total status).
Proof. intros Hs n (c & t & H). congruence. Qed.

Lemma respected_app tr es :
  dependencies_respected d tr -> Forall quiet es ->
  dependencies_respected d (tr ++ es).
Proof.
  intros Htr Hq i e name target dep Hi Hb Hn Hdep.
  destruct (decide (i < length tr)) as [Hlt|Hge].
  - rewrite lookup_app_l in Hi by done.
    destruct (Htr _ _ _ _ _ Hi Hb Hn Hdep) as (j & e' & Hj & Hje & Hf).
    exists j, e'. split; [done|]. split; [|done].
    by rewrite lookup_app_l by lia.
  - rewrite lookup_app_r in Hi by lia. apply list_elem_of_lookup_2 in Hi.
    rewrite Forall_forall in Hq. by destruct (Hq e Hi name).
Qed.

Lemma respected_begin tr name current total :
  dependencies_respected d tr ->
  (forall target dep,
     d !! name = Some target -> dep ∈ dependencies_ target ->
     finished_in tr dep) ->
  dependencies_respected d (tr ++ [Progress name current total "BUILDING"]).
Proof.
  intros Htr Hdeps i e n target dep Hi Hb Hn Hdep.
  destruct (decide (i < length tr)) as [Hlt|Hge].
  - rewrite lookup_app_l in Hi by done.
    destruct (Htr _ _ _ _ _ Hi Hb Hn Hdep) as (j & e' & Hj & Hje & Hf).
    exists j, e'. split; [done|]. split; [|done].
    by rewrite lookup_app_l by lia.
  - rewrite lookup_app_r in Hi by lia.
    destruct (i - length tr) as [|k] eqn:Hk; [|by destruct k].
    injection Hi as <-. destruct Hb as (c & t & [= <- _ _]).
    destruct (Hdeps _ _ Hn Hdep) as (j & e' & Hj & Hf).
    exists j, e'. apply lookup_lt_Some in Hj as Hlt.
    split; [lia|]. split; [|done]. by rewrite lookup_app_l.
Qed.

Lemma respected_progress ex tr w name current total :
  trace w = tr ->
  dependencies_respected d tr ->
  (forall target dep,
     d !! name = Some target -> dep ∈ dependencies_ target ->
     finished_in tr dep) ->
  dependencies_respected d
    (trace (progress ex name current total "BUILDING" w)).
Proof.
  intros <- Htr Hdeps. unfold progress.
  destruct (progressCallback_ ex); [|done]. by apply respected_begin.
Qed.

(** The events of [runCommand] are calls of the runner. *)
Lemma runCommand_events ex command w :
  exists events,
    trace (runCommand ex command w).2 = trace w ++ events
    /\ Forall quiet events.
Proof.
  unfold runCommand. destruct (dryRun (config_ ex)).
  - exists []. by rewrite app_nil_r.
  - destruct (commandRunner_ ex command (fs w)) as [ok fs'].
    exists [RunSimple command ok]. split; [done|].
    constructor; [apply quiet_RunSimple|constructor].
Qed.

Lemma quiet_refl w : quiet_change w w.
Proof. exists []. by rewrite app_nil_r. Qed.

Lemma quiet_trans w1 w2 w3 :
  quiet_change w1 w2 -> quiet_change w2 w3 -> quiet_change w1 w3.
Proof.
  intros (e1 & Ht1 & Hq1) (e2 & Ht2 & Hq2). exists (e1 ++ e2).
  rewrite Ht2, Ht1, app_assoc. split; [done|]. by apply Forall_app.
Qed.

Lemma quiet_emit e w : quiet e -> quiet_change w (emit e w).
Proof. intros He. exists [e]. split; [done|]. by constructor. Qed.

Lemma quiet_printStatus status name w :
  quiet_change w (printStatus status name w).
Proof. apply quiet_emit, quiet_Status. Qed.

Lemma quiet_progress ex name current total status w :
  status <> "BUILDING" ->
  quiet_change w (progress ex name current total status w).
Proof.
  intros Hs. unfold progress.
  destruct (progressCallback_ ex); [|apply quiet_refl].
  by apply quiet_emit, quiet_Progress.
Qed.

Lemma quiet_runCommand ex command w :
  quiet_change w (runCommand ex command w).2.
Proof. apply runCommand_events. Qed.

Lemma quiet_store target w : quiet_change w (store_signature target w).
Proof.
  eexists [_]. split; [done|].
  constructor; [apply quiet_SetSignature|constructor].
Qed.

Lemma quiet_respected w w' :
  quiet_change w w' ->
  dependencies_respected d (trace w) -> dependencies_respected d (trace w').
Proof. intros (es & -> & Hq) H. by apply respected_app. Qed.

Lemma quiet_finished w w' name :
  quiet_change w w' ->
  finished_in (trace w) name -> finished_in (trace w') name.
Proof. intros (es & -> & _) H. by apply finished_in_app. Qed.

Lemma finished_printStatus status name w :
  finishes name (Status status name) ->
  finished_in (trace (printStatus status name w)) name.
Proof. intros H. by apply finished_in_here. Qed.

(** What is left of the processing of a target once BUILDING has been
    reported: nothing starts, and the target ends. *)
Lemma process_quiet ex target w :
  let test := outputsExist (fs w) (outputs_ target)
              && negb (isOutOfDate target w) in
  let wb := printStatus "BUILD" (name_ target) w in
  let r := runCommand ex (command_ target) wb in
  let w' := if test then printStatus "UP-TO-DATE" (name_ target) w
            else if r.1
                 then printStatus "SUCCESS" (name_ target)
                                  (store_signature target r.2)
                 else printStatus "FAILED" (name_ target) r.2 in
  quiet_change w w' /\ finished_in (trace w') (name_ target).
Proof.
  cbv zeta. destruct (_ && _).
  - split; [apply quiet_printStatus|].
    apply finished_printStatus. by left.
  - destruct (runCommand ex _ _) as [[] w1] eqn:Hrun; cbn [fst snd].
    + split.
      * eapply quiet_trans; [apply quiet_printStatus|].
        eapply quiet_trans; [apply (quiet_runCommand ex (command_ target))|].
        rewrite Hrun. cbn [snd].
        eapply quiet_trans; [apply quiet_store|apply quiet_printStatus].
      * apply finished_printStatus. right. by left.
    + split.
      * eapply quiet_trans; [apply quiet_printStatus|].
        eapply quiet_trans; [apply (quiet_runCommand ex (command_ target))|].
        rewrite Hrun. cbn [snd]. apply quiet_printStatus.
      * apply finished_printStatus. right. by right.
Qed.

Lemma single_body_order ex n current target w stats :
  d !! n = Some target ->
  dependencies_respected d (trace w) ->
  (forall dep, dep ∈ dependencies_ target -> finished_in (trace w) dep) ->
  let r := single_body ex n current target w stats in
  dependencies_respected d (trace r.1.2)
  /\ finished_in (trace r.1.2) n
  /\ (forall m, finished_in (trace w) m -> finished_in (trace r.1.2) m).
Proof.
  intros Hn Hresp Hdeps. unfold single_body.
  set (w1 := progress ex n current (totalTargets stats) "BUILDING" w).
  assert (dependencies_respected d (trace w1)) as Hresp1.
  { apply (respected_progress _ (trace w)); [done|done|].
    intros target' dep Hn' Hdep. apply Hdeps. congruence. }
  assert (forall m, finished_in (trace w) m -> finished_in (trace w1) m) as Hmono.
  { intros m Hm. unfold w1, progress. destruct (progressCallback_ ex); [|done].
    by apply finished_in_app. }
  pose proof (process_quiet ex target w1) as [Hq Hfin]. cbv zeta in Hq, Hfin.
  pose proof (Hkeys _ _ Hn) as Hname. rewrite Hname in Hq, Hfin |- *.
  destruct (outputsExist _ _ && negb _); cbn [fst snd].
  - assert (quiet_change w1
              (progress ex n current (totalTargets stats) "UP-TO-DATE"
                 (printStatus "UP-TO-DATE" n w1))) as Hq'.
    { eapply quiet_trans; [done|]. by apply quiet_progress. }
    split; [by eapply quiet_respected|]. split.
    + eapply quiet_finished; [by apply quiet_progress|done].
    + intros m Hm. eapply quiet_finished; [done|by apply Hmono].
  - destruct (runCommand ex _ _) as [[] w2]; cbn [fst snd negb] in *.
    + assert (quiet_change w1
                (progress ex n current (totalTargets stats) "SUCCESS"
                   (printStatus "SUCCESS" n
                      (store_signature target w2)))) as Hq'.
      { eapply quiet_trans; [done|]. by apply quiet_progress. }
      split; [by eapply quiet_respected|]. split.
      * eapply quiet_finished; [by apply quiet_progress|done].
      * intros m Hm. eapply quiet_finished; [done|by apply Hmono].
    + assert (quiet_change w1
                (progress ex n current (totalTargets stats) "FAILED"
                   (printStatus "FAILED" n w2))) as Hq'.
      { eapply quiet_trans; [done|]. by apply quiet_progress. }
      split; [by eapply quiet_respected|]. split.
      * eapply quiet_finished; [by apply quiet_progress|done].
      * intros m Hm. eapply quiet_finished; [done|by apply Hmono].
Qed.

Lemma single_loop_order ex cancel_reads pre rest current w stats :
  (forall i n target dep,
     (pre ++ rest) !! i = Some n -> d !! n = Some target ->
     dep ∈ dependencies_ target ->
     exists j, j < i /\ (pre ++ rest) !! j = Some dep) ->
  (forall n, n ∈ rest -> is_Some (d !! n)) ->
  dependencies_respected d (trace w) ->
  (forall n, n ∈ pre -> finished_in (trace w) n) ->
  dependencies_respected d
    (trace (single_loop ex d cancel_reads rest current w stats).1.2).
Proof.
  revert pre current w stats.
  induction rest as [|n rest IH]; intros pre current w stats Hord Hreg Hresp Hpre;
    cbn [single_loop]; [done|].
  destruct (cancel_reads current); [done|].
  destruct (Hreg n) as [target Hn]; [by left|].
  unfold DAG.getTarget. rewrite Hn.
  destruct (single_body_order ex n (S current) target w stats)
    as (Hresp' & Hfin & Hmono); [done|done| |].
  { intros dep Hdep.
    destruct (Hord (length pre) n target dep) as (j & Hj & Hjd); [|done|done|].
    - by rewrite lookup_app_r, Nat.sub_diag by lia.
    - rewrite lookup_app_l in Hjd by done.
      apply Hpre. by eapply list_elem_of_lookup_2. }
  destruct (single_body ex n (S current) target w stats) as [[stop w'] stats'].
  cbn [fst snd] in *. destruct stop; [done|].
  apply (IH (pre ++ [n])).
  - by rewrite <- app_assoc.
  - intros m Hm. apply Hreg. by right.
  - done.
  - intros m [Hm|Hm%list_elem_of_singleton]%elem_of_app; [by apply Hmono, Hpre|].
    by subst.
Qed.

(** *** Workers *)

Lemma subscript_false_spec (c : gmap string bool) k :
  let r := subscript false c k in
  same_trues c r.2 /\ (r.1 = true -> c !! k = Some true).
Proof.
  unfold subscript. destruct (c !! k) as [v|] eqn:Hk; cbn [fst snd].
  - split; [done|]. by intros ->.
  - split; [|done]. intros x. destruct (decide (k = x)) as [->|Hne].
    + rewrite lookup_insert_eq, Hk. split; by intros [=].
    + by rewrite lookup_insert_ne.
Qed.

Lemma same_trues_trans c1 c2 c3 :
  same_trues c1 c2 -> same_trues c2 c3 -> same_trues c1 c3.
Proof. intros H1 H2 k. etrans; [apply H2|apply H1]. Qed.

Lemma deps_completed_spec deps c :
  let r := deps_completed deps c in
  same_trues c r.2
  /\ (r.1 = true -> forall dep, dep ∈ deps -> c !! dep = Some true).
Proof.
  revert c. induction deps as [|dep deps IH]; intros c; cbn [deps_completed].
  - split; [done|]. intros _ x Hx. by apply elem_of_nil in Hx.
  - pose proof (subscript_false_spec c dep) as [Hs Hv].
    destruct (subscript false c dep) as [[] c1]; cbn [fst snd] in *.
    + destruct (IH c1) as [Hs' Hall]. split; [by eapply same_trues_trans|].
      intros Hr x [->|Hx]%elem_of_cons; [by apply Hv|].
      apply Hs. by apply Hall.
    + done.
Qed.

Lemma canExecute_spec target c ip :
  let r := canExecute target c ip in
  same_trues c r.1.2
  /\ (r.1.1 = true ->
      forall dep, dep ∈ dependencies_ target -> c !! dep = Some true).
Proof.
  unfold canExecute.
  pose proof (deps_completed_spec (dependencies_ target) c) as [Hs Hall].
  destruct (deps_completed (dependencies_ target) c) as [[] c1];
    cbn [fst snd] in *; [|done].
  destruct (subscript false ip (name_ target)) as [busy ip1]. cbn [fst snd].
  split; [done|]. intros _. by apply Hall.
Qed.

Lemma first_ready_spec order c ip :
  let r := first_ready d order c ip in
  same_trues c r.1.2
  /\ forall n, r.1.1 = Some n ->
       exists target,
         d !! n = Some target
         /\ forall dep, dep ∈ dependencies_ target -> c !! dep = Some true.
Proof.
  revert c ip. induction order as [|name order IH]; intros c ip;
    cbn [first_ready].
  - done.
  - unfold DAG.getTarget. destruct (d !! name) as [target|] eqn:Hname;
      [|apply IH].
    pose proof (subscript_false_spec c name) as [Hs _].
    destruct (subscript false c name) as [[] c1]; cbn [fst snd] in *.
    + destruct (IH c1 ip) as [Hs' Hn]. split; [by eapply same_trues_trans|].
      intros n Hr. destruct (Hn n Hr) as (tg & Htg & Hall).
      exists tg. split; [done|]. intros dep Hdep. apply Hs. by apply Hall.
    + pose proof (canExecute_spec target c1 ip) as [Hs1 Hall1].
      destruct (canExecute target c1 ip) as [[[] c2] ip2]; cbn [fst snd] in *.
      * split; [by eapply same_trues_trans|]. intros n [= <-].
        exists target. split; [done|]. intros dep Hdep. apply Hs.
        by apply Hall1.
      * destruct (IH c2 ip2) as [Hs' Hn].
        split; [eapply same_trues_trans; [|done]; by eapply same_trues_trans|].
        intros n Hr. destruct (Hn n Hr) as (tg & Htg & Hall).
        exists tg. split; [done|]. intros dep Hdep. apply Hs, Hs1.
        by apply Hall.
Qed.

Lemma grows_refl sh : grows sh sh.
Proof. split; [done|]. exists []. by rewrite app_nil_r. Qed.

Lemma thread_ok_grows sh sh' pc :
  grows sh sh' -> thread_ok d sh pc -> thread_ok d sh' pc.
Proof.
  intros [Hc (es & Ht)] Hok. destruct pc; cbn [thread_ok] in *; try done.
  - intros target dep Hn Hdep. by eapply Hc, Hok.
  - rewrite Ht. by apply finished_in_app.
Qed.

(** What a step of a worker keeps. *)
Lemma worker_step_order O ex order sh pc :
  dependencies_respected d (trace (world sh)) ->
  (forall n, completed sh !! n = Some true -> finished_in (trace (world sh)) n) ->
  thread_ok d sh pc ->
  let r := worker_step O ex d order sh pc in
  dependencies_respected d (trace (world r.1))
  /\ (forall n, completed r.1 !! n = Some true ->
                finished_in (trace (world r.1)) n)
  /\ thread_ok d r.1 r.2
  /\ grows sh r.1.
Proof.
  intros Hresp Hdone Hok.
  destruct pc as [| |n|n target|n target|n target|n success|];
    cbn [worker_step thread_ok] in *.
  - destruct (cancelled sh); cbn [fst snd];
      (split; [done|]; split; [done|]; split; [done|apply grows_refl]).
  - unfold acquire. destruct (failed _ && _ || _); cbn [fst snd];
      [split; [done|]; split; [done|]; split; [done|apply grows_refl]|].
    destruct (allDone _ _); cbn [fst snd];
      [split; [done|]; split; [done|]; split; [done|apply grows_refl]|].
    pose proof (first_ready_spec order (completed sh) (inProgress sh))
      as [Hs Hn].
    destruct (first_ready d order (completed sh) (inProgress sh))
      as [[[name|] c] ip]; cbn [fst snd world completed set_maps thread_ok] in *.
    + split; [done|]. split; [intros k Hk; by apply Hdone, Hs|].
      split.
      * destruct (Hn name eq_refl) as (tg & Htg & Hall).
        intros target dep Hname Hdep. apply Hs, Hall. congruence.
      * split; [intros k Hk; by apply Hs|]. exists []. by rewrite app_nil_r.
    + split; [done|]. split; [intros k Hk; by apply Hdone, Hs|].
      split; [done|].
      split; [intros k Hk; by apply Hs|]. exists []. by rewrite app_nil_r.
  - destruct (String.eqb n ""); cbn [fst snd];
      [split; [done|]; split; [done|]; split; [done|apply grows_refl]|].
    unfold DAG.getTarget. destruct (d !! n) as [target|] eqn:Hn; cbn [fst snd];
      [|split; [done|]; split; [done|]; split; [done|apply grows_refl]].
    cbn [world completed thread_ok].
    split; [|split; [|split; [done|split; [done|]]]].
    + apply (respected_progress _ (trace (world sh))); [done|done|].
      intros target' dep Hn' Hdep. apply Hdone.
      apply (Hok target'); [congruence|done].
    + intros k Hk. unfold progress. destruct (progressCallback_ ex);
        [|by apply Hdone]. by apply finished_in_app, Hdone.
    + unfold progress. destruct (progressCallback_ ex); [|by exists []; rewrite app_nil_r].
      by eexists.
  - pose proof (Hkeys _ _ Hok) as Hname.
    destruct (outputsExist _ _ && negb _);
      cbn [fst snd world completed set_stats set_world thread_ok].
    + split; [eapply quiet_respected; [apply quiet_printStatus|done]|].
      split; [intros k Hk; eapply quiet_finished;
              [apply quiet_printStatus|by apply Hdone]|].
      split; [rewrite Hname; apply finished_printStatus; by left|].
      split; [done|]. by eexists.
    + split; [eapply quiet_respected; [apply quiet_printStatus|done]|].
      split; [intros k Hk; eapply quiet_finished;
              [apply quiet_printStatus|by apply Hdone]|].
      split; [done|]. split; [done|]. by eexists.
  - pose proof (Hkeys _ _ Hok) as Hname.
    pose proof (quiet_runCommand ex (command_ target) (world sh)) as Hq.
    destruct (runCommand ex (command_ target) (world sh)) as [[] w1];
      cbn [fst snd world completed set_stats set_world thread_ok] in *.
    + split; [by eapply quiet_respected|].
      split; [intros k Hk; eapply quiet_finished; [done|by apply Hdone]|].
      split; [done|]. split; [done|]. destruct Hq as (es & Ht & _). by exists es.
    + assert (quiet_change (world sh) (printStatus "FAILED" (name_ target) w1))
        as Hq' by (eapply quiet_trans; [done|apply quiet_printStatus]).
      split; [by eapply quiet_respected|].
      split; [intros k Hk; eapply quiet_finished; [done|by apply Hdone]|].
      split; [rewrite Hname; apply finished_printStatus; right; by right|].
      split; [done|]. destruct Hq' as (es & Ht & _). by exists es.
  - pose proof (Hkeys _ _ Hok) as Hname.
    cbn [fst snd world completed set_stats set_world thread_ok].
    assert (quiet_change (world sh)
              (printStatus "SUCCESS" (name_ target)
                 (store_signature target (world sh)))) as Hq'
      by (eapply quiet_trans; [apply quiet_store|apply quiet_printStatus]).
    split; [by eapply quiet_respected|].
    split; [intros k Hk; eapply quiet_finished; [done|by apply Hdone]|].
    split; [rewrite Hname; apply finished_printStatus; right; by left|].
    split; [done|]. destruct Hq' as (es & Ht & _). by exists es.
  - cbn [fst snd finish world completed thread_ok].
    split; [done|]. split.
    + intros k Hk. destruct (decide (n = k)) as [<-|Hne]; [done|].
      rewrite lookup_insert_ne in Hk by done. by apply Hdone.
    + split; [done|]. split; [|by exists []; rewrite app_nil_r].
      intros k Hk. cbn [finish completed].
      destruct (decide (n = k)) as [<-|Hne].
      * by rewrite lookup_insert_eq.
      * by rewrite lookup_insert_ne.
  - cbn [fst snd]. split; [done|]. split; [done|]. split; [done|].
    apply grows_refl.
Qed.

Lemma deps_inv_step O ex order sys a :
  deps_inv d sys -> deps_inv d (sys_step O ex d order sys a).
Proof.
  intros [Hresp Hdone Hthreads]. destruct a as [i|]; cbn [sys_step].
  2:{ by split. }
  destruct (threads sys !! i) as [pc|] eqn:Hpc; [|done].
  destruct (worker_step_order O ex order (shared sys) pc)
    as (Hresp' & Hdone' & Hok' & Hgrows); [done|done|by eapply Hthreads|].
  destruct (worker_step O ex d order (shared sys) pc) as [sh' pc'].
  cbn [fst snd] in *. split; cbn [shared threads]; try done.
  intros i' pc'' Hi'. destruct (decide (i = i')) as [<-|Hne].
  - apply list_lookup_insert_Some in Hi' as [(_ & <- & _)|[? _]]; done.
  - rewrite list_lookup_insert_ne in Hi' by done.
    eapply thread_ok_grows; [done|]. by eapply Hthreads.
Qed.

Lemma all_false_no_true order k : all_false order !! k <> Some true.
Proof.
  unfold all_false.
  assert (forall m : gmap string bool,
            m !! k <> Some true ->
            foldl (fun m name => <[name := false]> m) m order !! k <> Some true)
    as H.
  { induction order as [|n order IH]; intros m Hm; [done|].
    cbn [foldl]. apply IH. destruct (decide (n = k)) as [->|Hne].
    - by rewrite lookup_insert_eq.
    - by rewrite lookup_insert_ne. }
  apply H. by rewrite lookup_empty.
Qed.

Lemma deps_inv_init ex order cancelled0 w s :
  trace w = [] -> deps_inv d (init_system ex order cancelled0 w s).
Proof.
  intros Hw. split; cbn [init_system shared threads world completed].
  - rewrite Hw. intros i e ? ? ? Hi. by rewrite lookup_nil in Hi.
  - intros n Hn. by apply all_false_no_true in Hn.
  - intros i pc Hi. apply list_elem_of_lookup_2 in Hi.
    by apply elem_of_replicate in Hi as [-> _].
Qed.

Lemma deps_inv_run O ex order sys schedule :
  deps_inv d sys -> deps_inv d (run_schedule O ex d order sys schedule).
Proof.
  revert sys. induction schedule as [|a schedule IH]; intros sys Hinv; [done|].
  apply IH. by apply deps_inv_step.
Qed.

Lemma single_threaded_order O ex cancel_reads w s r :
  trace w = [] ->
  executeSingleThreaded O ex d cancel_reads w s = Some r ->
  dependencies_respected d (trace r.1.2).
Proof.
  intros Hw. unfold executeSingleThreaded.
  destruct (topologicalSort_sound O d) as (order & -> & _ & Hmem & Hord).
  cbn. intros [= <-]. apply (single_loop_order _ _ []).
  - done.
  - intros n (t & Ht & _)%Hmem. eauto.
  - rewrite Hw. intros i e ? ? ? Hi. by rewrite lookup_nil in Hi.
  - intros n Hn. by apply elem_of_nil in Hn.
Qed.

End OrderProofs.

Section OrderTheorem.
Import Executor Examples.

(** C6, as it holds: for every worker count, whenever BUILDING is
    reported for a target, an event that ends the processing of each of
    its dependencies -- UP-TO-DATE, SUCCESS or FAILED -- has been emitted
    before.  For the workers this holds in every state that any
    interleaving reaches. *)
Theorem dependencies_end_first (O : UMapOrder) (ex : Executor.t) (d : DAG.t) :
  DAG.keyed_by_name d ->
  (forall env w s r,
     trace w = [] -> executeWithStats O ex d env w s = Some r ->
     dependencies_respected d (trace r.1.2))
  /\ (forall order cancelled0 schedule w s,
        trace w = [] ->
        dependencies_respected d
          (trace (world (shared
             (run_schedule O ex d order
                (init_system ex order cancelled0 w s) schedule))))).
Proof.
  intros Hkeys.
  assert (forall order cancelled0 schedule w s,
            trace w = [] ->
            dependencies_respected d
              (trace (world (shared
                 (run_schedule O ex d order
                    (init_system ex order cancelled0 w s) schedule)))))
    as Hmulti.
  { intros order cancelled0 schedule w s Hw.
    by apply di_trace, deps_inv_run, deps_inv_init. }
  split; [|done].
  intros env w s r Hw. unfold executeWithStats.
  destruct (numThreads (config_ ex) <=? 1)%Z.
  - by apply single_threaded_order.
  - unfold executeMultiThreaded.
    destruct (DAG.topologicalSort O d) as [order|]; [|done]. cbn.
    destruct (joined _); [|done]. intros [= <-]. by apply Hmulti.
Qed.

Lemma dependencies_end_first_witness :
  DAG.keyed_by_name diamond
  /\ dependencies_respected diamond
       (trace (world (shared
          (run_schedule std_order (executor 2 false) diamond
             ["A"; "C"; "B"; "D"]
             (init_system (executor 2 false) ["A"; "C"; "B"; "D"] false
                          fresh_world no_stats)
             (round_robin 2 40))))).
Proof.
  assert (DAG.keyed_by_name diamond) as Hkeys
    by (apply keyed_check_spec; vm_compute; reflexivity).
  split; [done|].
  apply (proj2 (dependencies_end_first std_order (executor 2 false) diamond
                  Hkeys)).
  reflexivity.
Defined.

(** S2 of the specification with two workers. *)
Example diamond_two_workers :
  (fun r => match r with
            | Some (ok, w, s) => Some (ok, trace w, builtTargets s)
            | None => None
            end)
    (executeMultiThreaded std_order (executor 2 false) diamond false
       (round_robin 2 40) fresh_world no_stats)
  = Some (true,
          [Progress "A" 1 4 "BUILDING"; Status "BUILD" "A";
           RunSimple "touch A" true;
           SetSignature "A"
             "f12f4b3d1b01cf183c6ef5f6a54ff53a510e527f9b05688c1f83d9ab5be0cd19";
           Status "SUCCESS" "A";
           Progress "C" 2 4 "BUILDING"; Status "BUILD" "C";
           Progress "B" 3 4 "BUILDING";
           RunSimple "touch C" true; Status "BUILD" "B";
           SetSignature "C"
             "f12f4a3d1b01ce183c6ef5f8a54ff53a510e527f9b05688c1f83d9ab5be0cd19";
           Status "SUCCESS" "C"; RunSimple "touch B" true;
           SetSignature "B"
             "f12f4abd1b01ce983c6ef5f7a54ff53a510e527f9b05688c1f83d9ab5be0cd19";
           Status "SUCCESS" "B";
           Progress "D" 4 4 "BUILDING"; Status "BUILD" "D";
           RunSimple "touch D" true;
           SetSignature "D"
             "f12f49bd1b01cd983c6ef5f9a54ff53a510e527f9b05688c1f83d9ab5be0cd19";
           Status "SUCCESS" "D"], 4).
Proof. vm_compute. reflexivity. Qed.

(** C6 as stated fails: a dependency that is up to date ends with
    UP-TO-DATE, so no SUCCESS or FAILED event for [A] comes before the
    BUILDING event of [B]. *)
Lemma skipped_dependency_counterexample :
  DAG.edge linear "B" "A"
  /\ second_run_trace
     = [Progress "A" 1 3 "BUILDING"; Status "UP-TO-DATE" "A";
        Progress "A" 1 3 "UP-TO-DATE";
        Progress "B" 2 3 "BUILDING"; Status "UP-TO-DATE" "B";
        Progress "B" 2 3 "UP-TO-DATE";
        Progress "C" 3 3 "BUILDING"; Status "UP-TO-DATE" "C";
        Progress "C" 3 3 "UP-TO-DATE"]
  /\ second_run_trace !! 3 = Some (Progress "B" 2 3 "BUILDING")
  /\ forallb (fun e => negb (reports_result "A" e)) second_run_trace = true.
Proof.
  split.
  - exists (target "B" ["A"]). split; [vm_compute; reflexivity|by left].
  - split; [vm_compute; reflexivity|]. split; vm_compute; reflexivity.
Qed.

End OrderTheorem.

(** ** Executor: cancellation *)

Section CancelProofs.
Import Executor Examples.

Lemma cancelled_inv_step O ex d order w sys a :
  cancelled_inv w sys -> cancelled_inv w (sys_step O ex d order sys a).
Proof.
  intros (Hc & Hf & Hw & Hpcs). destruct a as [i|]; cbn [sys_step]; [|done].
  destruct (threads sys !! i) as [pc|] eqn:Hpc; [|done].
  assert (pc = AtTop \/ pc = Returned) as [->| ->].
  { rewrite Forall_forall in Hpcs. by eapply Hpcs, list_elem_of_lookup_2. }
  - cbn [worker_step]. rewrite Hc. split; [done|]. split; [done|].
    split; [done|]. cbn [threads]. apply Forall_insert; [done|by right].
  - cbn [worker_step]. split; [done|]. split; [done|]. split; [done|].
    cbn [threads]. apply Forall_insert; [done|by right].
Qed.

Lemma cancelled_inv_run O ex d order w sys schedule :
  cancelled_inv w sys -> cancelled_inv w (run_schedule O ex d order sys schedule).
Proof.
  revert sys. induction schedule as [|a schedule IH]; intros sys Hinv; [done|].
  apply IH. by apply cancelled_inv_step.
Qed.

(** With the cancel flag set from the start, the multi-threaded strategy
    does nothing and, whatever the interleaving, returns [true]. *)
Lemma cancelled_multithreaded_returns_true O ex d schedule w s r :
  executeMultiThreaded O ex d true schedule w s = Some r ->
  r.1.1 = true /\ r.1.2 = w.
Proof.
  unfold executeMultiThreaded.
  destruct (DAG.topologicalSort O d) as [order|]; [|done]. cbn.
  destruct (cancelled_inv_run O ex d order w
              (init_system ex order true w s) schedule)
    as (_ & Hf & Hw & _).
  { split; [done|]. split; [done|]. split; [done|].
    cbn [init_system threads]. apply Forall_forall.
    intros pc [-> _]%elem_of_replicate. by left. }
  destruct (joined _); [|done]. intros [= <-]. cbn [fst snd].
  by rewrite Hf, Hw.
Qed.

(** C5 fails on the code: [cancel()] is called before the execution of
    [A], [B -> A], [C -> B]; the single-threaded strategy returns [false],
    the multi-threaded one returns [true] -- as it does for every schedule
    -- and on an empty graph the single-threaded one returns [true] too. *)
Theorem cancelled_build_returns_success :
  executeWithStats std_order (executor 1 false) linear
    (cancelled_before []) fresh_world no_stats
  = Some (false, fresh_world, set_total no_stats 3)
  /\ executeWithStats std_order (executor 2 false) linear
       (cancelled_before [Run 0; Run 1]) fresh_world no_stats
     = Some (true, fresh_world, set_total no_stats 3)
  /\ executeWithStats std_order (executor 1 false) ∅
       (cancelled_before []) fresh_world no_stats
     = Some (true, fresh_world, no_stats).
Proof. repeat split; vm_compute; reflexivity. Qed.

End CancelProofs.

(** * Further properties *)

(** ** Target graph: queries *)

Section DagOps.
Import DAG.
Context (O : UMapOrder).

Lemma elem_of_validateDependencies (d : DAG.t) dep :
  dep ∈ validateDependencies O d
  <-> exists a, edge d a dep /\ d !! dep = None.
Proof.
  unfold validateDependencies. rewrite list_elem_of_bind. split.
  - intros ([a t] & Hdep & Hin).
    apply list_elem_of_filter in Hdep as [Hnone Hdep].
    apply elem_of_iter in Hin. exists a. split; [by exists t|done].
  - intros (a & (t & Ht & Hdep) & Hnone). exists (a, t). split.
    + by apply list_elem_of_filter.
    + by apply elem_of_iter.
Qed.

(** X1: [validateDependencies] returns the declared dependencies that are
    not targets, and none exactly when every declared dependency is a
    target. *)
Theorem validateDependencies_missing (d : DAG.t) :
  (forall dep, dep ∈ validateDependencies O d <->
     exists a, edge d a dep /\ d !! dep = None)
  /\ (validateDependencies O d = [] <-> dependency_closed d).
Proof.
  split; [apply elem_of_validateDependencies|]. split.
  - intros Hnil a b Hab. destruct (d !! b) eqn:Hb; [eauto|].
    assert (b ∈ validateDependencies O d) as Hin
      by (apply elem_of_validateDependencies; eauto).
    rewrite Hnil in Hin. by apply elem_of_nil in Hin.
  - intros Hclosed.
    destruct (validateDependencies O d) as [|dep l] eqn:Heq; [done|].
    assert (dep ∈ validateDependencies O d) as Hin by (rewrite Heq; left).
    apply elem_of_validateDependencies in Hin as (a & Hab & Hnone).
    apply Hclosed in Hab as [t Ht]. congruence.
Qed.

(** X2: [getDependents] is the inverse of [getDependencies], and lists no
    target twice. *)
Theorem getDependents_inverse (d : DAG.t) (name : string) :
  NoDup (getDependents O d name)
  /\ forall a, a ∈ getDependents O d name <-> name ∈ getDependencies d a.
Proof.
  unfold getDependents, getDependencies. split.
  - pose proof (iter_NoDup_keys O d) as Hnd.
    induction (iter O d) as [|e l IH]; [constructor|].
    rewrite fmap_cons in Hnd. apply NoDup_cons in Hnd as [Hnin Hnd].
    rewrite filter_cons. destruct (decide _); [|by apply IH].
    rewrite fmap_cons. apply NoDup_cons. split; [|by apply IH].
    intros Hin. apply Hnin. apply list_elem_of_fmap in Hin as (e' & -> & Hin).
    apply list_elem_of_filter in Hin as [_ Hin]. apply list_elem_of_fmap. eauto.
  - intros a. rewrite list_elem_of_fmap. split.
    + intros ([a' t] & -> & Hin). apply list_elem_of_filter in Hin as [Hdep Hin].
      apply elem_of_iter in Hin. simpl in *. by rewrite Hin.
    + destruct (d !! a) as [t|] eqn:Ha; [|by intros ?%elem_of_nil].
      intros Hdep. exists (a, t). split; [done|].
      apply list_elem_of_filter. split; [done|]. by apply elem_of_iter.
Qed.

End DagOps.

(** ** Target graph: what the sort lists *)

Section SortedTargets.
Import DAG.
Context (O : UMapOrder).

Lemma no_sink_cycle_in (d : DAG.t) (S : string -> Prop) a :
  (forall a, S a -> exists b, edge d a b /\ S b) -> S a ->
  exists x, S x /\ tc (edge d) x x.
Proof.
  intros Hstep Ha.
  destruct (walk_in_set d S Hstep (size d) a Ha) as (p & Hlen & Hp & HS).
  assert (~ NoDup (a :: p)) as Hdup.
  { intros Hnd.
    assert (a :: p ⊆+ (map_to_list d).*1) as Hsub.
    { apply NoDup_submseteq; [done|]. intros x Hx.
      rewrite Forall_forall in HS. destruct (Hstep x (HS x Hx)) as (b & Hb & _).
      apply edge_registered in Hb as [target Hb].
      apply list_elem_of_fmap. exists (x, target). split; [done|].
      by apply elem_of_map_to_list. }
    apply submseteq_length in Hsub.
    rewrite length_fmap, length_map_to_list in Hsub. simpl in Hsub. lia. }
  apply not_NoDup_repeat in Hdup as (x & l1 & l2 & l3 & Heq).
  exists x. split.
  - rewrite Forall_forall in HS. apply HS. rewrite Heq.
    apply elem_of_app. right. left.
  - apply (is_path_tc d x l2 x).
    rewrite Heq in Hp. apply is_path_app_r in Hp.
    change (x :: l2 ++ x :: l3) with ((x :: l2) ++ [x] ++ l3) in Hp.
    rewrite app_assoc in Hp. by apply is_path_app_l in Hp.
Qed.

(** The names [topologicalSort] lists. *)
Lemma topologicalSort_members (d : DAG.t) order :
  topologicalSort O d = Some order ->
  NoDup order
  /\ (forall a b, a ∈ order -> edge d a b -> before order b a)
  /\ (forall n, n ∈ order <-> buildable d n).
Proof.
  destruct (topologicalSort_sound O d) as (order' & Hrun & Hnd & Hmem & Hord).
  rewrite Hrun. intros [= <-].
  assert (forall a b, a ∈ order' -> edge d a b -> before order' b a) as Hbefore.
  { intros a b [i Hi]%list_elem_of_lookup_1 (t & Ht & Hb).
    destruct (Hord _ _ _ _ Hi Ht Hb) as (j & Hj & Hjb). by exists j, i. }
  assert (forall a b, tc (edge d) a b -> a ∈ order' -> before order' b a) as Htc.
  { intros a b Hab. induction Hab as [a b Hab|a b c Hab _ IH]; intros Ha.
    - by apply Hbefore.
    - destruct (Hbefore _ _ Ha Hab) as (j & i & Hj & Hi & Hji).
      destruct IH as (k & j' & Hk & Hj' & Hkj).
      { by eapply list_elem_of_lookup_2. }
      assert (j' = j) as -> by (eapply NoDup_lookup; eauto).
      exists k, i. split; [done|]. split; [done|lia]. }
  split; [done|]. split; [done|].
  intros n. split.
  - intros Hn m Hnm.
    assert (m ∈ order') as Hm.
    { induction Hnm as [|a b c Hab _ IH]; [done|].
      apply IH. destruct (Hbefore _ _ Hn Hab) as (j & _ & Hj & _).
      by eapply list_elem_of_lookup_2. }
    split.
    + apply Hmem in Hm as (t & Ht & Hndt & _). eauto.
    + intros Hcyc. destruct (Htc _ _ Hcyc Hm) as (j & i & Hj & Hi & Hji).
      assert (j = i) by (eapply NoDup_lookup; eauto). lia.
  - intros Hbuild. destruct (decide (n ∈ order')) as [|Hnin]; [done|].
    destruct (no_sink_cycle_in d (fun a => rtc (edge d) n a /\ a ∉ order') n)
      as (x & [Hnx _] & Hcyc).
    + intros a [Hna Ha].
      destruct (Hbuild a Hna) as [(t & Ht & Hndt) _].
      destruct (decide (Forall (fun dep => dep ∈ order') (dependencies_ t)))
        as [Hdeps|Hdeps].
      * destruct Ha. apply Hmem. exists t. split; [done|].
        split; [done|]. by apply Forall_forall.
      * apply not_Forall_Exists in Hdeps; [|apply _].
        apply Exists_exists in Hdeps as (b & Hb & Hbo).
        assert (edge d a b) as Hab by by exists t.
        exists b. split; [done|]. split; [|done].
        eapply rtc_r; eauto.
    + split; [constructor|done].
    + by destruct (Hbuild x Hnx) as [_ []].
Qed.

(** X4: whatever the graph, [topologicalSort] ends and lists, each once and
    after its dependencies, exactly the targets from which only targets
    without repeated dependencies and off every cycle can be reached. *)
Theorem topologicalSort_lists_buildable (d : DAG.t) :
  exists order,
    topologicalSort O d = Some order
    /\ NoDup order
    /\ (forall n, n ∈ order <-> buildable d n)
    /\ (forall a b, a ∈ order -> edge d a b -> before order b a).
Proof.
  destruct (topologicalSort_sound O d) as (order & Hrun & _).
  destruct (topologicalSort_members d order Hrun) as (Hnd & Hbefore & Hmem).
  by exists order.
Qed.

Lemma add_targets_lookup (targets : list Target) (d : DAG.t) n :
  foldl (fun dag target => (addTarget dag target).2) d targets !! n
  = match d !! n with
    | Some t => Some t
    | None => List.find (fun t => String.eqb (name_ t) n) targets
    end.
Proof.
  revert d. induction targets as [|t targets IH]; intros d; simpl.
  - by destruct (d !! n).
  - rewrite IH. unfold addTarget.
    destruct (d !! name_ t) as [t'|] eqn:Ht; simpl.
    + destruct (d !! n) eqn:Hn; [done|].
      destruct (String.eqb_spec (name_ t) n) as [<-|]; [congruence|done].
    + destruct (String.eqb_spec (name_ t) n) as [<-|Hne].
      * by rewrite lookup_insert_eq, Ht.
      * by rewrite lookup_insert_ne.
Qed.

(** X3: the graph [main] builds keeps, for each name, the first parsed
    target of that name, and its keys are the names of the targets. *)
Theorem add_targets_first_wins (targets : list Target) :
  keyed_by_name (Main.add_targets targets)
  /\ forall n, getTarget (Main.add_targets targets) n
               = List.find (fun t => String.eqb (name_ t) n) targets.
Proof.
  assert (forall n, getTarget (Main.add_targets targets) n
               = List.find (fun t => String.eqb (name_ t) n) targets) as Hfind.
  { intros n. unfold getTarget, Main.add_targets.
    by rewrite add_targets_lookup, lookup_empty. }
  split; [|done].
  intros k t Hk. change (getTarget (Main.add_targets targets) k = Some t) in Hk.
  rewrite Hfind in Hk. apply find_some in Hk as [_ Hk].
  by apply String.eqb_eq in Hk.
Qed.

End SortedTargets.

(** ** Cache and signatures: operations *)

Section CacheOps.
Import Cache Examples.

Lemma find_app_None_inv c a b :
  find c (a +:+ b) = None -> find c a = None /\ find c b = None.
Proof.
  induction a as [|x a IH]; simpl; [done|].
  destruct (Ascii.eqb x c); [done|].
  destruct (find c (a +:+ b)) eqn:Hab; [done|]. intros _.
  destruct IH as [-> ->]; done.
Qed.

Lemma getlines_no_newline s :
  Forall (fun line => find newline line = None) (getlines s).
Proof.
  induction s as [|c s IH]; simpl; [constructor|].
  destruct (Ascii.eqb c newline) eqn:Hc; [by constructor|].
  destruct (getlines s) as [|line lines].
  - constructor; [|constructor]. simpl. by rewrite Hc.
  - apply Forall_cons in IH as [Hline Hlines]. constructor; [|done].
    simpl. by rewrite Hc, Hline.
Qed.

Lemma load_line_plain m line :
  find newline line = None ->
  map_Forall (fun k v => plain_entry (k, v)) m ->
  map_Forall (fun k v => plain_entry (k, v)) (load_line m line).
Proof.
  intros Hline Hm. unfold load_line.
  destruct (find equals line) as [pos|] eqn:Hpos; [|done].
  destruct (find_split _ _ _ Hpos) as [Heq Hkey].
  rewrite Heq in Hline. apply find_app_None_inv in Hline as [Hk Hv].
  apply map_Forall_insert_2; [|done].
  split; [split|]; simpl; [done|done|].
  unfold plain_signature. simpl in Hv.
  by destruct (find newline (str_drop (pos + 1) line)).
Qed.

Lemma load_lines_plain lines m :
  Forall (fun line => find newline line = None) lines ->
  map_Forall (fun k v => plain_entry (k, v)) m ->
  map_Forall (fun k v => plain_entry (k, v)) (foldl load_line m lines).
Proof.
  intros H. revert m. induction H as [|line lines Hline _ IH]; intros m Hm.
  - done.
  - simpl. apply IH. by apply load_line_plain.
Qed.

(** X5: whatever the cache file holds, the mapping [load] builds from it can
    be saved and loaded again without change. *)
Theorem loaded_cache_round_trips (O : UMapOrder) (fs : FileSystem)
    (c loaded fresh : Cache.t) :
  load fs c = (true, loaded) ->
  cacheFile_ c ∉ blocked fs ->
  cacheFile_ fresh = cacheFile_ c ->
  exists fs',
    save O fs loaded = (true, fs')
    /\ load fs' fresh = (true, with_signatures fresh (signatures_ loaded)).
Proof.
  unfold load. destruct (files fs !! cacheFile_ c) as [content|]; [|done].
  intros [= <-] Hopen Hfile.
  apply save_then_load; [|done|done]. simpl.
  apply load_lines_plain; [apply getlines_no_newline|apply map_Forall_empty].
Qed.

Lemma loaded_cache_round_trips_witness :
  let fs := {| files := {[ ".mimir/cache.txt" := messy_cache_file ]};
               blocked := ∅ |} in
  exists fs',
    save std_order fs (load fs (make ".mimir")).2 = (true, fs')
    /\ load fs' (make ".mimir")
       = (true, with_signatures (make ".mimir")
                  (signatures_ (load fs (make ".mimir")).2)).
Proof.
  apply (loaded_cache_round_trips std_order _ (make ".mimir")).
  - reflexivity.
  - apply not_elem_of_empty.
  - reflexivity.
Defined.

(** X6: the in-memory operations: [needsRebuild] is false exactly for the
    stored signature, a missing entry reads as the empty string, and
    setting, removing and clearing act on the entry as expected. *)
Theorem needsRebuild_iff_not_stored (c : Cache.t) (name sig : string) :
  (needsRebuild c name sig = false <-> findSignature c name = Some sig)
  /\ getSignature c name = default "" (findSignature c name)
  /\ findSignature (setSignature c name sig) name = Some sig
  /\ (forall other, other <> name ->
        findSignature (setSignature c name sig) other = findSignature c other
        /\ findSignature (removeSignature c name).2 other = findSignature c other)
  /\ (removeSignature c name).1 = bool_decide (is_Some (findSignature c name))
  /\ needsRebuild (removeSignature c name).2 name sig = true
  /\ needsRebuild (clear c) name sig = true.
Proof.
  unfold needsRebuild, findSignature, getSignature, setSignature,
    removeSignature, clear. simpl.
  split.
  { destruct (signatures_ c !! name) as [s|]; [|done].
    destruct (String.eqb_spec s sig); simpl; split; congruence. }
  split; [by destruct (signatures_ c !! name)|].
  split; [by rewrite lookup_insert_eq|].
  split.
  { intros other Hne. by rewrite lookup_insert_ne, lookup_delete_ne. }
  split; [done|].
  by rewrite lookup_delete_eq, lookup_empty.
Qed.

End CacheOps.

Section SignatureOps.
Import Signature Examples.

Lemma sha256_length data : String.length (sha256 data) = 64.
Proof.
  unfold sha256. rewrite !str_length_app, !put_hex8_length. done.
Qed.

(** X7: a file that cannot be opened has the empty signature, and no file
    that can be opened has it. *)
Theorem computeFileSignature_empty_iff (fs : FileSystem) (filepath : string) :
  (computeFileSignature fs filepath = "" <-> file_good fs filepath = false)
  /\ (file_good fs filepath = true ->
      String.length (computeFileSignature fs filepath) = 64).
Proof.
  unfold computeFileSignature, file_good.
  destruct (files fs !! filepath) as [content|] eqn:Hf.
  - rewrite bool_decide_eq_true_2 by eauto. split; [|intros _; apply sha256_length].
    split; [|done]. intros H. apply (f_equal String.length) in H.
    rewrite sha256_length in H. done.
  - rewrite bool_decide_eq_false_2 by (by intros [? ?]). done.
Qed.

Lemma combined_agree fs1 fs2 (inputs : list string) acc :
  (forall input, input ∈ inputs -> files fs1 !! input = files fs2 !! input) ->
  foldl (fun combined input =>
           combined +:+ ("|" +:+ computeFileSignature fs1 input)) acc inputs
  = foldl (fun combined input =>
           combined +:+ ("|" +:+ computeFileSignature fs2 input)) acc inputs.
Proof.
  revert acc. induction inputs as [|i inputs IH]; intros acc H; [done|].
  cbn [foldl]. unfold computeFileSignature at 2 4.
  rewrite (H i) by left. apply IH. intros j Hj. apply H. by right.
Qed.

(** X8: the signature of a target depends on the file system only through
    the contents of the target's inputs. *)
Theorem computeTargetSignature_reads_inputs_only (fs1 fs2 : FileSystem)
    (command : string) (inputs : list string) :
  (forall input, input ∈ inputs -> files fs1 !! input = files fs2 !! input) ->
  computeTargetSignature fs1 command inputs
  = computeTargetSignature fs2 command inputs.
Proof.
  intros H. unfold computeTargetSignature. f_equal. by apply combined_agree.
Qed.

Lemma computeTargetSignature_reads_inputs_only_witness :
  computeTargetSignature source_fs "cc -c a.c" ["a.c"]
  = computeTargetSignature (write_file source_fs "a.o" "object") "cc -c a.c"
      ["a.c"].
Proof.
  apply (computeTargetSignature_reads_inputs_only source_fs
           (write_file source_fs "a.o" "object") "cc -c a.c" ["a.c"]).
  intros input ->%list_elem_of_singleton. reflexivity.
Defined.

End SignatureOps.

(** ** Executor: statistics, dry run, one target *)

Section Effects.
Import Executor.
Context (ex : Executor.t).
Context (R : World -> BuildStats -> World -> BuildStats -> Prop).
Context (R_refl : forall w s, R w s w s).
Context (R_trans : forall w1 s1 w2 s2 w3 s3,
           R w1 s1 w2 s2 -> R w2 s2 w3 s3 -> R w1 s1 w3 s3).
Context (R_progress : forall n c t st w s, R w s (progress ex n c t st w) s).
Context (R_skip : forall n w s,
           R w s (printStatus "UP-TO-DATE" n w) (count_skipped s)).
Context (R_build : forall n w s, R w s (printStatus "BUILD" n w) s).
Context (R_run : forall command w s,
           (runCommand ex command w).1 = true ->
           R w s (runCommand ex command w).2 s).
Context (R_failed : forall n command w s,
           (runCommand ex command w).1 = false ->
           R w s (printStatus "FAILED" n (runCommand ex command w).2)
             (count_failed s)).
Context (R_success : forall target w s,
           R w s (printStatus "SUCCESS" (name_ target)
                    (store_signature target w)) (count_built s)).

Lemma single_body_effect targetName current target w s :
  let r := single_body ex targetName current target w s in
  R w s r.1.2 r.2.
Proof.
  unfold single_body. cbv zeta.
  eapply R_trans; [apply (R_progress targetName current (totalTargets s) "BUILDING")|].
  destruct (outputsExist _ _ && negb _); cbn [fst snd].
  { eapply R_trans; [apply R_skip|apply R_progress]. }
  eapply R_trans; [apply R_build|].
  pose proof (R_run (command_ target)
    (printStatus "BUILD" (name_ target)
       (progress ex targetName current (totalTargets s) "BUILDING" w)) s) as Hrun.
  pose proof (R_failed (name_ target) (command_ target)
    (printStatus "BUILD" (name_ target)
       (progress ex targetName current (totalTargets s) "BUILDING" w)) s) as Hfail.
  destruct (runCommand ex (command_ target) _) as [[] w2];
    cbn [fst snd negb] in *.
  - eapply R_trans; [by apply Hrun|].
    eapply R_trans; [apply R_success|apply R_progress].
  - eapply R_trans; [by apply Hfail|apply R_progress].
Qed.

Lemma single_loop_effect d cancel_reads order current w s :
  let r := single_loop ex d cancel_reads order current w s in
  R w s r.1.2 r.2.
Proof.
  revert current w s.
  induction order as [|targetName rest IH]; intros current w s;
    cbn [single_loop]; [apply R_refl|].
  destruct (cancel_reads current); [apply R_refl|].
  destruct (DAG.getTarget d targetName) as [target|]; [|apply IH].
  pose proof (single_body_effect targetName (S current) target w s) as Hbody.
  destruct (single_body ex targetName (S current) target w s)
    as [[stop w'] s'].
  cbn [fst snd] in Hbody. destruct stop; [done|].
  eapply R_trans; [done|apply IH].
Qed.

Lemma worker_step_effect O d order sh pc :
  let r := worker_step O ex d order sh pc in
  R (world sh) (stats sh) (world r.1) (stats r.1).
Proof.
  destruct pc as [| |n|n target|n target|n target|n success|];
    cbn [worker_step].
  - destruct (cancelled sh); apply R_refl.
  - unfold acquire. destruct (failed _ && _ || _); [apply R_refl|].
    destruct (allDone _ _); [apply R_refl|].
    destruct (first_ready _ _ _ _) as [[[name|] c] ip]; apply R_refl.
  - destruct (String.eqb n ""); [apply R_refl|].
    destruct (DAG.getTarget d n) as [target|]; [|apply R_refl].
    apply R_progress.
  - destruct (outputsExist _ _ && negb _); cbn [fst snd world stats set_stats set_world].
    + apply R_skip.
    + apply R_build.
  - pose proof (R_run (command_ target) (world sh) (stats sh)) as Hrun.
    pose proof (R_failed (name_ target) (command_ target) (world sh) (stats sh))
      as Hfail.
    destruct (runCommand ex (command_ target) (world sh)) as [[] w1];
      cbn [fst snd world stats set_stats set_world] in *; auto.
  - cbn [fst snd world stats set_stats set_world]. apply R_success.
  - apply R_refl.
  - apply R_refl.
Qed.

Lemma run_schedule_effect O d order sys schedule :
  let sys' := run_schedule O ex d order sys schedule in
  R (world (shared sys)) (stats (shared sys))
    (world (shared sys')) (stats (shared sys')).
Proof.
  revert sys. induction schedule as [|a schedule IH]; intros sys;
    [apply R_refl|].
  cbn [run_schedule foldl]. eapply R_trans; [|apply IH].
  destruct a as [i|]; cbn [sys_step]; [|apply R_refl].
  destruct (threads sys !! i) as [pc|]; [|apply R_refl].
  pose proof (worker_step_effect O d order (shared sys) pc) as Hstep.
  by destruct (worker_step O ex d order (shared sys) pc) as [sh pc'].
Qed.

Lemma executeWithStats_effect O d env w s r :
  executeWithStats O ex d env w s = Some r ->
  exists n, R w (set_total s n) r.1.2 r.2.
Proof.
  unfold executeWithStats, executeSingleThreaded, executeMultiThreaded.
  destruct (DAG.topologicalSort O d) as [order|];
    [|by destruct (numThreads _ <=? 1)%Z].
  cbn [mbind option_bind]. intros Hr. exists (length order). revert Hr.
  destruct (numThreads _ <=? 1)%Z.
  - intros [= <-]. apply single_loop_effect.
  - destruct (joined _); [|done]. intros [= <-]. cbn [fst snd].
    apply (run_schedule_effect O d order
             (init_system ex order (cancelled0 env) w s) (schedule env)).
Qed.

End Effects.

Section ExecutorFacts.
Import Executor Examples.

Lemma status_count_app status es1 es2 :
  status_count status (es1 ++ es2)
  = status_count status es1 + status_count status es2.
Proof. unfold status_count. by rewrite List.filter_app, length_app. Qed.

Lemma events_since_app w w' events :
  trace w' = trace w ++ events -> events_since w w' = events.
Proof. intros H. unfold events_since. by rewrite H, drop_app_length. Qed.

Lemma accounted_refl w s : accounted w s w s.
Proof. exists []. rewrite app_nil_r. unfold status_count. simpl. repeat split; lia. Qed.

Lemma accounted_trans w1 s1 w2 s2 w3 s3 :
  accounted w1 s1 w2 s2 -> accounted w2 s2 w3 s3 -> accounted w1 s1 w3 s3.
Proof.
  intros (e1 & Ht1 & Hn1 & Hb1 & Hs1 & Hf1) (e2 & Ht2 & Hn2 & Hb2 & Hs2 & Hf2).
  exists (e1 ++ e2). rewrite Ht2, Ht1, app_assoc, !status_count_app.
  repeat split; lia.
Qed.

Lemma accounted_emit e w s s' :
  totalTargets s' = totalTargets s ->
  builtTargets s' = builtTargets s + status_count "SUCCESS" [e] ->
  skippedTargets s' = skippedTargets s + status_count "UP-TO-DATE" [e] ->
  failedTargets s' = failedTargets s + status_count "FAILED" [e] ->
  accounted w s (emit e w) s'.
Proof. intros. by exists [e]. Qed.

Lemma accounted_progress ex n c t st w s :
  accounted w s (progress ex n c t st w) s.
Proof.
  unfold progress. destruct (progressCallback_ ex); [|apply accounted_refl].
  apply accounted_emit; unfold status_count; simpl; lia.
Qed.

Lemma accounted_run ex command w s :
  accounted w s (runCommand ex command w).2 s.
Proof.
  unfold runCommand. destruct (dryRun (config_ ex)); [apply accounted_refl|].
  destruct (commandRunner_ ex command (fs w)) as [ok fs']. cbn [snd].
  exists [RunSimple command ok]. unfold status_count. simpl.
  repeat split; lia.
Qed.

Lemma accounted_status status n w s s' :
  totalTargets s' = totalTargets s ->
  builtTargets s' = builtTargets s + status_count "SUCCESS" [Status status n] ->
  skippedTargets s'
    = skippedTargets s + status_count "UP-TO-DATE" [Status status n] ->
  failedTargets s' = failedTargets s + status_count "FAILED" [Status status n] ->
  accounted w s (printStatus status n w) s'.
Proof. apply accounted_emit. Qed.

Lemma accounted_success target w s :
  accounted w s
    (printStatus "SUCCESS" (name_ target) (store_signature target w))
    (count_built s).
Proof.
  apply accounted_trans with (w2 := store_signature target w) (s2 := s).
  - eexists [_]. unfold store_signature, emit. cbn [trace].
    split; [reflexivity|]. unfold status_count. simpl. repeat split; lia.
  - apply accounted_status; unfold status_count; simpl; lia.
Qed.

Lemma accounted_all ex O d env w s r :
  executeWithStats O ex d env w s = Some r ->
  exists n, accounted w (set_total s n) r.1.2 r.2.
Proof.
  apply (executeWithStats_effect ex accounted).
  - apply accounted_refl.
  - apply accounted_trans.
  - apply accounted_progress.
  - intros. apply accounted_status; unfold status_count; simpl; lia.
  - intros. apply accounted_status; unfold status_count; simpl; lia.
  - intros. apply accounted_run.
  - intros. eapply accounted_trans; [apply accounted_run|].
    apply accounted_status; unfold status_count; simpl; lia.
  - apply accounted_success.
Qed.

(** X9: the statistics count the status lines: each SUCCESS, UP-TO-DATE and
    FAILED line printed during the call is counted once, whichever
    strategy runs and whatever the interleaving. *)
Theorem statistics_count_status_lines (O : UMapOrder) (ex : Executor.t)
    (d : DAG.t) (env : Environment) (w : World) (s : BuildStats)
    (r : bool * World * BuildStats) :
  executeWithStats O ex d env w s = Some r ->
  let events := events_since w r.1.2 in
  builtTargets r.2 = builtTargets s + status_count "SUCCESS" events
  /\ skippedTargets r.2 = skippedTargets s + status_count "UP-TO-DATE" events
  /\ failedTargets r.2 = failedTargets s + status_count "FAILED" events.
Proof.
  intros Hr.
  destruct (accounted_all ex O d env w s r Hr)
    as (n & events & Ht & _ & Hb & Hs & Hf).
  cbv zeta. rewrite (events_since_app _ _ _ Ht). done.
Qed.

Lemma statistics_count_status_lines_witness :
  let r := linear_run (executor 2 false) (round_robin 2 40) in
  let events := events_since fresh_world r.1.2 in
  builtTargets r.2 = builtTargets no_stats + status_count "SUCCESS" events
  /\ skippedTargets r.2
     = skippedTargets no_stats + status_count "UP-TO-DATE" events
  /\ failedTargets r.2 = failedTargets no_stats + status_count "FAILED" events.
Proof.
  apply (statistics_count_status_lines std_order (executor 2 false) linear
           (no_cancel (round_robin 2 40)) fresh_world no_stats).
  vm_compute. reflexivity.
Defined.

(** *** Dry run *)

Lemma no_run_refl w : no_run_change w w.
Proof. split; [done|]. exists []. by rewrite app_nil_r. Qed.

Lemma no_run_trans w1 w2 w3 :
  no_run_change w1 w2 -> no_run_change w2 w3 -> no_run_change w1 w3.
Proof.
  intros (Hf1 & e1 & Ht1 & Hp1) (Hf2 & e2 & Ht2 & Hp2).
  split; [congruence|]. exists (e1 ++ e2).
  rewrite Ht2, Ht1, app_assoc. split; [done|]. by apply Forall_app.
Qed.

Lemma no_run_status status n w : no_run_change w (printStatus status n w).
Proof.
  split; [done|]. exists [Status status n]. split; [done|].
  constructor; [simpl; auto|constructor].
Qed.

Lemma no_run_progress ex n c t st w :
  no_run_change w (progress ex n c t st w).
Proof.
  unfold progress. destruct (progressCallback_ ex); [|apply no_run_refl].
  split; [done|]. eexists [_]. split; [done|].
  constructor; [simpl; auto|constructor].
Qed.

Lemma no_run_store target w : no_run_change w (store_signature target w).
Proof.
  split; [done|]. eexists [_]. split; [done|].
  constructor; [simpl; auto|constructor].
Qed.

Lemma dry_runCommand ex command w :
  dryRun (config_ ex) = true -> runCommand ex command w = (true, w).
Proof. unfold runCommand. by intros ->. Qed.

Lemma dry_change_all ex O d env w s r :
  dryRun (config_ ex) = true ->
  executeWithStats O ex d env w s = Some r ->
  dry_change w s r.1.2 r.2.
Proof.
  intros Hdry Hr.
  destruct (executeWithStats_effect ex dry_change) with (9 := Hr) as [n Hn];
    [| | | | | | | |done].
  - intros. split; [apply no_run_refl|done].
  - intros w1 s1 w2 s2 w3 s3 [H1 E1] [H2 E2].
    split; [by eapply no_run_trans|congruence].
  - intros. split; [apply no_run_progress|done].
  - intros. split; [apply no_run_status|done].
  - intros. split; [apply no_run_status|done].
  - intros. rewrite dry_runCommand by done. split; [apply no_run_refl|done].
  - intros n command w0 s0. by rewrite dry_runCommand.
  - intros. split; [|done].
    eapply no_run_trans; [apply no_run_store|apply no_run_status].
Qed.

(** X10: in a dry run the command runner is never called and the file system
    is not changed, whichever strategy runs and whatever the
    interleaving; no target fails. *)
Theorem dry_run_runs_nothing (O : UMapOrder) (ex : Executor.t) (d : DAG.t)
    (env : Environment) (w : World) (s : BuildStats)
    (r : bool * World * BuildStats) :
  dryRun (config_ ex) = true ->
  executeWithStats O ex d env w s = Some r ->
  fs r.1.2 = fs w
  /\ Forall (fun e => ~ is_run e) (events_since w r.1.2)
  /\ failedTargets r.2 = failedTargets s.
Proof.
  intros Hdry Hr.
  destruct (dry_change_all ex O d env w s r Hdry Hr)
    as [(Hfs & events & Ht & Hev) Hf].
  by rewrite (events_since_app _ _ _ Ht).
Qed.

Lemma dry_run_runs_nothing_witness :
  let r := linear_run (executor 1 true) [] in
  fs r.1.2 = fs fresh_world
  /\ Forall (fun e => ~ is_run e) (events_since fresh_world r.1.2)
  /\ failedTargets r.2 = failedTargets no_stats.
Proof.
  apply (dry_run_runs_nothing std_order (executor 1 true) linear
           (no_cancel []) fresh_world no_stats).
  - reflexivity.
  - vm_compute. reflexivity.
Defined.

(** *** One target *)

Lemma needsRebuild_set c name sig :
  Cache.needsRebuild (Cache.setSignature c name sig) name sig = false.
Proof.
  unfold Cache.needsRebuild, Cache.setSignature, Cache.with_signatures.
  simpl. rewrite lookup_insert_eq. by rewrite String.eqb_refl.
Qed.

(** X11: after [executeTarget] has succeeded the cache holds the current
    signature of the target, so a second call does not build it again
    if its outputs are there. *)
Theorem executeTarget_twice (ex : Executor.t) (target : Target)
    (w w1 : World) :
  executeTarget ex false target w = (true, w1) ->
  isOutOfDate target w1 = false
  /\ (outputsExist (fs w1) (outputs_ target) = true ->
      executeTarget ex false target w1
      = (true, printStatus "UP-TO-DATE" (name_ target) w1)).
Proof.
  intros Hrun.
  assert (isOutOfDate target w1 = false) as Hfresh.
  { revert Hrun. unfold executeTarget.
    destruct (outputsExist _ _ && negb _) eqn:Htest.
    - intros [= <-]. apply andb_true_iff in Htest as [_ Htest].
      by apply negb_true_iff in Htest.
    - destruct (runCommand ex (command_ target) _) as [[] w2]; cbn [negb];
        [|done].
      intros [= <-]. unfold isOutOfDate, printStatus, store_signature, emit.
      cbn [fs cache]. apply needsRebuild_set. }
  split; [done|]. intros Hout. unfold executeTarget.
  by rewrite Hout, Hfresh.
Qed.

Lemma executeTarget_twice_witness :
  let w1 := (executeTarget (executor 1 false) false (target "A" [])
               fresh_world).2 in
  isOutOfDate (target "A" []) w1 = false
  /\ (outputsExist (fs w1) (outputs_ (target "A" [])) = true ->
      executeTarget (executor 1 false) false (target "A" []) w1
      = (true, printStatus "UP-TO-DATE" (name_ (target "A" [])) w1)).
Proof.
  apply (executeTarget_twice (executor 1 false) (target "A" []) fresh_world).
  vm_compute. reflexivity.
Defined.

End ExecutorFacts.

(** ** Executor: result of the single-threaded strategy *)

Section SingleThreaded.
Import Executor Examples.
Context (ex : Executor.t) (d : DAG.t).

Lemma status_count_pos status name events :
  Status status name ∈ events -> 0 < status_count status events.
Proof.
  intros (l1 & l2 & ->)%list_elem_of_split.
  rewrite status_count_app. unfold status_count at 2. simpl.
  rewrite String.eqb_refl. simpl. lia.
Qed.

(** One pass through the body of the loop: the target is reported up to
    date or built, or it fails and is counted. *)
Lemma single_body_outcome targetName current target w s :
  let r := single_body ex targetName current target w s in
  exists events,
    trace r.1.2 = trace w ++ events
    /\ failedTargets r.2 = failedTargets s + status_count "FAILED" events
    /\ ((succeeded (name_ target) events
         /\ status_count "FAILED" events = 0 /\ r.1.1 = false)
        \/ (r.1.1 = stopOnError (config_ ex)
            /\ exists pre post,
                 events = pre ++ Status "FAILED" (name_ target) :: post
                 /\ status_count "FAILED" pre = 0
                 /\ Forall is_progress post)).
Proof.
  unfold single_body. cbv zeta. unfold runCommand, progress, store_signature,
    printStatus, emit.
  destruct (outputsExist _ _ && negb _); cbn [fst snd].
  { destruct (progressCallback_ ex); cbn [trace]; rewrite <- ?app_assoc;
      eexists; (split; [reflexivity|]);
      (split; [unfold status_count; simpl; lia|]); left;
      (split; [left; cbn [app]; set_solver|]); done. }
  destruct (dryRun (config_ ex)); cbn [negb fst snd].
  { destruct (progressCallback_ ex); cbn [trace]; rewrite <- ?app_assoc;
      eexists; (split; [reflexivity|]);
      (split; [unfold status_count; simpl; lia|]); left;
      (split; [right; cbn [app]; set_solver|]); done. }
  destruct (commandRunner_ ex _ _) as [[] fs']; cbn [negb fst snd].
  - destruct (progressCallback_ ex); cbn [trace]; rewrite <- ?app_assoc;
      eexists; (split; [reflexivity|]);
      (split; [unfold status_count; simpl; lia|]); left;
      (split; [right; cbn [app]; set_solver|]); done.
  - destruct (progressCallback_ ex); cbn [trace]; rewrite <- ?app_assoc;
      eexists; (split; [reflexivity|]);
      (split; [unfold status_count; simpl; lia|]);
      right; (split; [done|]); cbn [app].
    + eexists [_; _; _], [_]. split; [reflexivity|]. split; [done|].
      by repeat constructor.
    + eexists [_; _], []. split; [reflexivity|]. split; [done|].
      by repeat constructor.
Qed.

Lemma status_count_failed_body pre name post :
  status_count "FAILED" pre = 0 -> Forall is_progress post ->
  status_count "FAILED" (pre ++ Status "FAILED" name :: post) = 1.
Proof.
  intros Hpre Hpost. rewrite status_count_app, Hpre.
  unfold status_count. simpl. f_equal.
  induction Hpost as [|e post He _ IH]; [done|].
  simpl. destruct e; try done.
Qed.

(** The loop, from any point on. *)
Lemma single_loop_outcome cancel_reads order current w s :
  let r := single_loop ex d cancel_reads order current w s in
  exists events,
    trace r.1.2 = trace w ++ events
    /\ failedTargets r.2 = failedTargets s + status_count "FAILED" events
    /\ (r.1.1 = true ->
        failedTargets r.2 = 0
        /\ forall n target, n ∈ order -> d !! n = Some target ->
             succeeded (name_ target) events)
    /\ ((forall i, cancel_reads i = false) -> r.1.1 = false ->
        0 < failedTargets r.2)
    /\ ((forall i, cancel_reads i = false) ->
        stopOnError (config_ ex) = false ->
        forall n target, n ∈ order -> d !! n = Some target ->
          finished_in events (name_ target))
    /\ (stopOnError (config_ ex) = true ->
        status_count "FAILED" events = 0
        \/ (r.1.1 = false
            /\ exists pre name post,
                 events = pre ++ Status "FAILED" name :: post
                 /\ status_count "FAILED" pre = 0
                 /\ Forall is_progress post)).
Proof.
  revert current w s.
  induction order as [|targetName rest IH]; intros current w s;
    cbn [single_loop].
  { exists []. rewrite app_nil_r. cbn [fst snd]. split; [done|].
    split; [unfold status_count; simpl; lia|]. split.
    - intros Hz%Nat.eqb_eq. split; [done|]. by intros n t ?%elem_of_nil.
    - split; [intros _ Hz%Nat.eqb_neq; lia|].
      split; [by intros _ _ n t ?%elem_of_nil|]. by left. }
  destruct (cancel_reads current) eqn:Hcancel.
  { exists []. rewrite app_nil_r. cbn [fst snd]. split; [done|].
    split; [unfold status_count; simpl; lia|]. split; [done|].
    split; [intros Hnc; by rewrite Hnc in Hcancel|].
    split; [intros Hnc; by rewrite Hnc in Hcancel|]. by left. }
  unfold DAG.getTarget. destruct (d !! targetName) as [target|] eqn:Htarget.
  2:{ destruct (IH (S current) w s) as (events & Ht & Hf & Hok & Hfail & Hall & Hstop).
      exists events. split; [done|]. split; [done|]. split.
      - intros Hr. destruct (Hok Hr) as [Hz Hs]. split; [done|].
        intros n t [->|Hn]%elem_of_cons Hnt; [congruence|by eapply Hs].
      - split; [done|]. split; [|done].
        intros Hnc Hse n t [->|Hn]%elem_of_cons Hnt; [congruence|by eapply Hall]. }
  destruct (single_body_outcome targetName (S current) target w s)
    as (e1 & Ht1 & Hf1 & Hbody).
  destruct (single_body ex targetName (S current) target w s)
    as [[stop w1] s1]. cbn [fst snd] in *.
  destruct stop.
  { destruct Hbody as [(_ & _ & ?)|(Hstop & pre & post & -> & Hpre & Hpost)];
      [done|].
    exists (pre ++ Status "FAILED" (name_ target) :: post). cbn [fst snd].
    split; [done|]. split; [done|]. split; [done|].
    rewrite Hf1, status_count_failed_body by done.
    split; [intros; lia|]. split; [intros _ Hs; congruence|].
    intros _. right. split; [done|]. by exists pre, (name_ target), post. }
  destruct (IH (S current) w1 s1) as (e2 & Ht2 & Hf2 & Hok & Hfail & Hall & Hstop).
  exists (e1 ++ e2). rewrite Ht2, Ht1, app_assoc. split; [done|].
  rewrite status_count_app. split; [lia|]. split; [|split; [|split]].
  - intros Hr. destruct (Hok Hr) as [Hz Hs]. split; [done|].
    intros n t [->|Hn]%elem_of_cons Hnt.
    + assert (t = target) as -> by congruence.
      destruct Hbody as [([H|H] & _)|(_ & pre & post & -> & Hpre & Hpost)].
      * left. apply elem_of_app. by left.
      * right. apply elem_of_app. by left.
      * rewrite status_count_failed_body in Hf1 by done. lia.
    + destruct (Hs n t Hn Hnt) as [H|H]; [left|right];
        apply elem_of_app; by right.
  - done.
  - intros Hnc Hse n t [->|Hn]%elem_of_cons Hnt.
    + assert (t = target) as -> by congruence.
      assert (exists e, e ∈ e1 /\ finishes (name_ target) e) as (e & He & Hfin).
      { destruct Hbody as [([H|H] & _)|(_ & pre & post & -> & Hpre & Hpost)].
        - eexists. split; [done|]. by left.
        - eexists. split; [done|]. right. by left.
        - eexists. split; [apply elem_of_app; right; left|]. right. by right. }
      apply list_elem_of_lookup_1 in He as [j Hj].
      exists j, e. split; [|done]. by apply lookup_app_l_Some.
    + destruct (Hall Hnc Hse n t Hn Hnt) as (j & e & Hj & Hfin).
      exists (length e1 + j), e. split; [|done].
      rewrite lookup_app_r by lia.
      by replace (length e1 + j - length e1) with j by lia.
  - intros Hse.
    assert (status_count "FAILED" e1 = 0) as Hz1.
    { destruct Hbody as [(_ & ? & _)|(Hstop0 & _)]; [done|congruence]. }
    destruct (Hstop Hse) as [Hz2|(Hr & pre & name & post & -> & Hpre & Hpost)].
    + left. lia.
    + right. split; [done|]. exists (e1 ++ pre), name, post.
      rewrite <- app_assoc. split; [done|]. split; [|done].
      rewrite status_count_app. lia.
Qed.

(** How many targets have been counted. *)
Lemma single_body_counts targetName current target w s :
  let r := single_body ex targetName current target w s in
  totalTargets r.2 = totalTargets s
  /\ counted r.2 = S (counted s).
Proof.
  unfold single_body, counted. cbv zeta.
  destruct (outputsExist _ _ && negb _); cbn [fst snd]; [simpl; lia|].
  destruct (runCommand ex (command_ target) _) as [[] w2];
    cbn [negb fst snd]; simpl; lia.
Qed.

Lemma single_loop_counts cancel_reads order current w s :
  let r := single_loop ex d cancel_reads order current w s in
  totalTargets r.2 = totalTargets s
  /\ counted r.2 <= counted s + length order
  /\ ((forall n, n ∈ order -> is_Some (d !! n)) ->
      r.1.1 = true
      \/ ((forall i, cancel_reads i = false)
          /\ stopOnError (config_ ex) = false) ->
      counted r.2 = counted s + length order).
Proof.
  revert current w s.
  induction order as [|targetName rest IH]; intros current w s;
    cbn [single_loop length].
  { cbn [fst snd]. split; [done|]. split; lia. }
  destruct (cancel_reads current) eqn:Hcancel.
  { cbn [fst snd]. split; [done|]. split; [lia|].
    intros _ [?|[Hnc _]]; [done|]. by rewrite Hnc in Hcancel. }
  unfold DAG.getTarget. destruct (d !! targetName) as [target|] eqn:Htarget.
  2:{ destruct (IH (S current) w s) as (Ht & Hle & Heq).
      split; [done|]. split; [lia|]. intros Hreg _.
      destruct (Hreg targetName) as [? ?]; [left|congruence]. }
  pose proof (single_body_counts targetName (S current) target w s)
    as [Ht1 Hc1].
  pose proof (single_body_outcome targetName (S current) target w s)
    as (e1 & _ & _ & Hbody).
  destruct (single_body ex targetName (S current) target w s)
    as [[stop w1] s1]. cbn [fst snd] in *.
  destruct stop.
  { cbn [fst snd]. split; [done|]. split; [lia|].
    intros _ [?|[_ Hse]]; [done|].
    destruct Hbody as [(_ & _ & ?)|[? _]]; congruence. }
  destruct (IH (S current) w1 s1) as (Ht & Hle & Heq).
  split; [congruence|]. split; [lia|]. intros Hreg Hcase.
  rewrite Heq; [lia| |done]. intros n Hn. apply Hreg. by right.
Qed.

End SingleThreaded.

Section SingleThreadedTheorems.
Import Executor Examples.

Lemma order_registered O d order :
  DAG.topologicalSort O d = Some order ->
  forall n, n ∈ order -> is_Some (d !! n).
Proof.
  intros Hrun n Hn.
  destruct (topologicalSort_sound O d) as (order' & Hrun' & _ & Hmem & _).
  assert (order' = order) as -> by congruence.
  apply Hmem in Hn as (t & Ht & _). eauto.
Qed.

(** X12: the single-threaded strategy returns [true] only when every target
    of the order was reported up to date or built and none failed; if the
    cancel flag is never seen set, it returns [true] whenever no target
    failed. *)
Theorem single_threaded_result (O : UMapOrder) (ex : Executor.t)
    (d : DAG.t) (cancel_reads : nat -> bool) (w : World)
    (order : list string) (r : bool * World * BuildStats) :
  DAG.topologicalSort O d = Some order ->
  executeSingleThreaded O ex d cancel_reads w no_stats = Some r ->
  let events := events_since w r.1.2 in
  (r.1.1 = true ->
   status_count "FAILED" events = 0
   /\ builtTargets r.2 + skippedTargets r.2 = length order
   /\ forall n target, n ∈ order -> d !! n = Some target ->
        succeeded (name_ target) events)
  /\ ((forall i, cancel_reads i = false) ->
      status_count "FAILED" events = 0 -> r.1.1 = true).
Proof.
  intros Horder. unfold executeSingleThreaded. rewrite Horder.
  cbn [mbind option_bind]. intros [= <-].
  destruct (single_loop_outcome ex d cancel_reads order 0 w
              (set_total no_stats (length order)))
    as (events & Ht & Hf & Hok & Hfail & _).
  destruct (single_loop_counts ex d cancel_reads order 0 w
              (set_total no_stats (length order)))
    as (_ & _ & Hcount).
  cbv zeta. rewrite (events_since_app _ _ _ Ht). cbn [failedTargets set_total no_stats] in *.
  split.
  - intros Hr. destruct (Hok Hr) as [Hz Hs].
    split; [lia|]. split; [|done].
    specialize (Hcount (order_registered O d order Horder) (or_introl Hr)).
    unfold counted in Hcount. simpl in Hcount. lia.
  - intros Hnc Hz.
    destruct (single_loop ex d cancel_reads order 0 w _).1.1 eqn:Hr; [done|].
    specialize (Hfail Hnc eq_refl). lia.
Qed.

Lemma single_threaded_result_witness :
  let r := linear_run (executor 1 false) [] in
  let events := events_since fresh_world r.1.2 in
  (r.1.1 = true ->
   status_count "FAILED" events = 0
   /\ builtTargets r.2 + skippedTargets r.2 = length ["A"; "B"; "C"]
   /\ forall n target, n ∈ ["A"; "B"; "C"] -> linear !! n = Some target ->
        succeeded (name_ target) events)
  /\ ((forall i, never_cancelled i = false) ->
      status_count "FAILED" events = 0 -> r.1.1 = true).
Proof.
  apply (single_threaded_result std_order (executor 1 false) linear
           never_cancelled fresh_world ["A"; "B"; "C"]).
  - vm_compute. reflexivity.
  - vm_compute. reflexivity.
Defined.

(** X13: with [stopOnError] the first failure ends the single-threaded build:
    after the FAILED line only the callback is told, nothing else is
    started, the result is [false] and one target is counted as failed. *)
Theorem single_threaded_stops_at_failure (O : UMapOrder) (ex : Executor.t)
    (d : DAG.t) (cancel_reads : nat -> bool) (w : World)
    (r : bool * World * BuildStats) (name : string) :
  stopOnError (config_ ex) = true ->
  executeSingleThreaded O ex d cancel_reads w no_stats = Some r ->
  Status "FAILED" name ∈ events_since w r.1.2 ->
  r.1.1 = false
  /\ failedTargets r.2 = 1
  /\ exists pre post,
       events_since w r.1.2 = pre ++ Status "FAILED" name :: post
       /\ Forall is_progress post.
Proof.
  intros Hstop. unfold executeSingleThreaded.
  destruct (DAG.topologicalSort O d) as [order|]; [|done].
  cbn [mbind option_bind]. intros [= <-].
  destruct (single_loop_outcome ex d cancel_reads order 0 w
              (set_total no_stats (length order)))
    as (events & Ht & Hf & _ & _ & _ & Hse).
  rewrite (events_since_app _ _ _ Ht). intros Hin.
  destruct (Hse Hstop) as [Hz|(Hr & pre & n & post & -> & Hpre & Hpost)].
  { apply status_count_pos in Hin. lia. }
  assert (n = name) as ->.
  { apply elem_of_app in Hin as [Hin|Hin].
    - apply status_count_pos in Hin. lia.
    - apply elem_of_cons in Hin as [[= ->]|Hin]; [done|].
      rewrite Forall_forall in Hpost. by apply Hpost in Hin. }
  split; [done|]. split; [|by exists pre, post].
  rewrite Hf, status_count_failed_body by done. done.
Qed.

Lemma single_threaded_stops_at_failure_witness :
  let r := linear_run (failing_executor false) [] in
  r.1.1 = false
  /\ failedTargets r.2 = 1
  /\ exists pre post,
       events_since fresh_world r.1.2 = pre ++ Status "FAILED" "A" :: post
       /\ Forall is_progress post.
Proof.
  apply (single_threaded_stops_at_failure std_order (failing_executor false)
           linear never_cancelled fresh_world).
  - reflexivity.
  - vm_compute. reflexivity.
  - vm_compute. apply list_elem_of_In. simpl. tauto.
Defined.

(** X14: without [stopOnError], and if the cancel flag is never seen set,
    every target of the order is processed whatever fails -- also the
    targets that depend on a failed one. *)
Theorem single_threaded_keeps_going (O : UMapOrder) (ex : Executor.t)
    (d : DAG.t) (cancel_reads : nat -> bool) (w : World)
    (order : list string) (r : bool * World * BuildStats) :
  stopOnError (config_ ex) = false ->
  (forall i, cancel_reads i = false) ->
  DAG.topologicalSort O d = Some order ->
  executeSingleThreaded O ex d cancel_reads w no_stats = Some r ->
  builtTargets r.2 + skippedTargets r.2 + failedTargets r.2 = length order
  /\ forall n target, n ∈ order -> d !! n = Some target ->
       finished_in (events_since w r.1.2) (name_ target).
Proof.
  intros Hse Hnc Horder. unfold executeSingleThreaded. rewrite Horder.
  cbn [mbind option_bind]. intros [= <-].
  destruct (single_loop_outcome ex d cancel_reads order 0 w
              (set_total no_stats (length order)))
    as (events & Ht & _ & _ & _ & Hall & _).
  destruct (single_loop_counts ex d cancel_reads order 0 w
              (set_total no_stats (length order)))
    as (_ & _ & Hcount).
  rewrite (events_since_app _ _ _ Ht). split; [|by apply Hall].
  specialize (Hcount (order_registered O d order Horder)
                (or_intror (conj Hnc Hse))).
  unfold counted in Hcount. simpl in Hcount. lia.
Qed.

Lemma single_threaded_keeps_going_witness :
  let r := linear_run lenient_executor [] in
  builtTargets r.2 + skippedTargets r.2 + failedTargets r.2
  = length ["A"; "B"; "C"]
  /\ forall n target, n ∈ ["A"; "B"; "C"] -> linear !! n = Some target ->
       finished_in (events_since fresh_world r.1.2) (name_ target).
Proof.
  apply (single_threaded_keeps_going std_order lenient_executor linear
           never_cancelled fresh_world ["A"; "B"; "C"]).
  - reflexivity.
  - reflexivity.
  - vm_compute. reflexivity.
  - vm_compute. reflexivity.
Defined.

End SingleThreadedTheorems.

(** ** Executor: every target is started once *)

Section Workers.
Import Executor Examples.
Context (O : UMapOrder) (ex : Executor.t) (d : DAG.t).

Lemma padded_refl c : padded c c.
Proof. intros k. by left. Qed.

Lemma padded_trans c1 c2 c3 : padded c1 c2 -> padded c2 c3 -> padded c1 c3.
Proof.
  intros H1 H2 k. destruct (H1 k) as [E1|[E1 F1]], (H2 k) as [E2|[E2 F2]].
  - left. congruence.
  - right. split; congruence.
  - right. split; congruence.
  - congruence.
Qed.

Lemma padded_true c c' k : padded c c' -> c' !! k = Some true <-> c !! k = Some true.
Proof. intros H. destruct (H k) as [->|[-> ->]]; [done|]. split; by intros [=]. Qed.

Lemma padded_keys c c' k : padded c c' -> is_Some (c !! k) -> is_Some (c' !! k).
Proof. intros H. destruct (H k) as [->|[-> ->]]; [done|]. by intros [? ?]. Qed.

Lemma subscript_padded (c : gmap string bool) k :
  let r := subscript false c k in
  padded c r.2 /\ (r.1 = true <-> c !! k = Some true).
Proof.
  unfold subscript. destruct (c !! k) as [v|] eqn:Hk; cbn [fst snd].
  - split; [apply padded_refl|]. split; congruence.
  - split; [|done]. intros x. destruct (decide (k = x)) as [->|Hne].
    + right. by rewrite lookup_insert_eq.
    + left. by rewrite lookup_insert_ne.
Qed.

Lemma deps_completed_padded deps c : padded c (deps_completed deps c).2.
Proof.
  revert c. induction deps as [|dep deps IH]; intros c; cbn [deps_completed].
  - apply padded_refl.
  - pose proof (subscript_padded c dep) as [Hs _].
    destruct (subscript false c dep) as [[] c1]; cbn [fst snd] in *; [|done].
    eapply padded_trans; [done|apply IH].
Qed.

Lemma canExecute_padded target c ip :
  let r := canExecute target c ip in
  padded c r.1.2 /\ padded ip r.2
  /\ (r.1.1 = true -> ip !! name_ target <> Some true).
Proof.
  unfold canExecute.
  pose proof (deps_completed_padded (dependencies_ target) c) as Hs.
  destruct (deps_completed (dependencies_ target) c) as [[] c1];
    cbn [fst snd] in *.
  - pose proof (subscript_padded ip (name_ target)) as [Hp Hv].
    destruct (subscript false ip (name_ target)) as [busy ip1].
    cbn [fst snd] in *. split; [done|]. split; [done|].
    intros Hb Hip. apply Hv in Hip. by destruct busy.
  - split; [done|]. split; [apply padded_refl|done].
Qed.

Lemma first_ready_padded order c ip :
  let r := first_ready d order c ip in
  padded c r.1.2 /\ padded ip r.2
  /\ forall n, r.1.1 = Some n ->
       exists target,
         d !! n = Some target
         /\ c !! n <> Some true
         /\ ip !! name_ target <> Some true.
Proof.
  revert c ip. induction order as [|name order IH]; intros c ip;
    cbn [first_ready].
  - split; [apply padded_refl|]. split; [apply padded_refl|done].
  - unfold DAG.getTarget. destruct (d !! name) as [target|] eqn:Hname;
      [|apply IH].
    pose proof (subscript_padded c name) as [Hs Hv].
    destruct (subscript false c name) as [[] c1]; cbn [fst snd] in *.
    + destruct (IH c1 ip) as (Hs' & Hp' & Hn).
      split; [by eapply padded_trans|]. split; [done|].
      intros n Hr. destruct (Hn n Hr) as (tg & Htg & Hc & Hip).
      exists tg. split; [done|]. split; [|done].
      by rewrite <- (padded_true c c1 n Hs).
    + pose proof (canExecute_padded target c1 ip) as (Hs1 & Hp1 & Hfree).
      destruct (canExecute target c1 ip) as [[[] c2] ip2]; cbn [fst snd] in *.
      * split; [by eapply padded_trans|]. split; [done|]. intros n [= <-].
        exists target. split; [done|]. split; [|by apply Hfree].
        intros Hc. apply Hv in Hc. done.
      * destruct (IH c2 ip2) as (Hs' & Hp' & Hn).
        split; [eapply padded_trans; [|done]; by eapply padded_trans|].
        split; [by eapply padded_trans|].
        intros n Hr. destruct (Hn n Hr) as (tg & Htg & Hc & Hip).
        exists tg. split; [done|]. split.
        -- rewrite <- (padded_true c c1 n Hs), <- (padded_true c1 c2 n Hs1).
           done.
        -- by rewrite <- (padded_true ip ip2 _ Hp1).
Qed.

Lemma start_count_app n es1 es2 :
  start_count n (es1 ++ es2) = start_count n es1 + start_count n es2.
Proof. unfold start_count. by rewrite List.filter_app, length_app. Qed.

(** Which worker a lookup in the updated list of workers finds. *)
Lemma lookup_stepped (threads : list WorkerPC) i pc pc' j pcj :
  threads !! i = Some pc ->
  <[i := pc']> threads !! j = Some pcj ->
  (j = i /\ pcj = pc') \/ (j <> i /\ threads !! j = Some pcj).
Proof.
  intros Hi [(-> & -> & _)|[Hne Hj]]%list_lookup_insert_Some; [by left|].
  right. by split.
Qed.

Lemma lookup_stepped_other (threads : list WorkerPC) i pc' j pcj :
  j <> i -> threads !! j = Some pcj -> <[i := pc']> threads !! j = Some pcj.
Proof. intros Hne Hj. by rewrite list_lookup_insert_ne. Qed.

Lemma lookup_stepped_self (threads : list WorkerPC) i pc pc' :
  threads !! i = Some pc -> <[i := pc']> threads !! i = Some pc'.
Proof.
  intros Hi. apply list_lookup_insert_Some. left.
  split; [done|]. split; [done|]. by eapply lookup_lt_Some.
Qed.

(** A step that takes and releases no target and prints no first status
    line keeps the invariant. *)
Lemma once_inv_quiet w0 sys i pc sh' pc' es :
  once_inv d w0 sys ->
  threads sys !! i = Some pc ->
  trace (world sh') = trace (world (shared sys)) ++ es ->
  (forall n, start_count n es = 0) ->
  padded (completed (shared sys)) (completed sh') ->
  padded (inProgress (shared sys)) (inProgress sh') ->
  (forall n, holds n pc' -> holds n pc) ->
  (forall n, late n pc -> late n pc') ->
  match pc' with
  | Checking n t | Running n t | Storing n t => d !! n = Some t
  | _ => True
  end ->
  once_inv d w0 {| shared := sh'; threads := <[i := pc']> (threads sys) |}.
Proof.
  intros [(events & Ht & Hev) Huniq Hheld Htarget] Hi Ht' Hes Hc Hip
    Hholds Hlate Hpc'.
  split; cbn [shared threads].
  - exists (events ++ es). rewrite Ht', Ht, app_assoc. split; [done|].
    intros n. rewrite start_count_app, Hes, Nat.add_0_r.
    destruct (Hev n) as [Hle Hone]. split; [done|].
    intros H1. destruct (Hone H1) as [Hdone|(j & pcj & Hj & Hl)].
    + left. by apply (padded_true _ _ n Hc).
    + right. destruct (decide (j = i)) as [->|Hne].
      * exists i, pc'. split; [by eapply lookup_stepped_self|].
        apply Hlate. congruence.
      * exists j, pcj. split; [by apply lookup_stepped_other|done].
  - intros n i1 i2 pc1 pc2 H1 H2 Hh1 Hh2.
    destruct (lookup_stepped _ _ _ _ _ _ Hi H1) as [[-> ->]|[Hn1 H1']],
             (lookup_stepped _ _ _ _ _ _ Hi H2) as [[-> ->]|[Hn2 H2']].
    + done.
    + apply (Huniq n i i2 pc pc2); auto.
    + apply (Huniq n i1 i pc1 pc); auto.
    + by apply (Huniq n i1 i2 pc1 pc2).
  - intros n j pcj Hj Hh.
    assert (inProgress (shared sys) !! n = Some true
            /\ completed (shared sys) !! n <> Some true) as [Hp Hd].
    { destruct (lookup_stepped _ _ _ _ _ _ Hi Hj) as [[-> ->]|[Hne Hj']].
      - apply (Hheld n i pc); auto.
      - by apply (Hheld n j pcj). }
    split.
    + by apply (padded_true _ _ n Hip).
    + by rewrite (padded_true _ _ n Hc).
  - intros j pcj Hj.
    destruct (lookup_stepped _ _ _ _ _ _ Hi Hj) as [[-> ->]|[Hne Hj']];
      [done|by apply (Htarget j)].
Qed.

Lemma start_count_other n es :
  Forall (fun e => forall status name,
            e = Status status name ->
            status <> "BUILD" /\ status <> "UP-TO-DATE") es ->
  start_count n es = 0.
Proof.
  induction 1 as [|e es He _ IH]; [done|].
  unfold start_count in *. cbn [List.filter]. destruct e; try done.
  cbn [is_start]. destruct (He status name eq_refl) as [H1 H2].
  apply String.eqb_neq in H1, H2. by rewrite H1, H2, andb_false_r.
Qed.

Lemma start_count_progress n name c t st w :
  exists es,
    trace (progress ex name c t st w) = trace w ++ es /\ start_count n es = 0.
Proof.
  unfold progress. destruct (progressCallback_ ex).
  - by eexists [_].
  - exists []. by rewrite app_nil_r.
Qed.

Lemma start_count_run n command w :
  exists es,
    trace (runCommand ex command w).2 = trace w ++ es
    /\ start_count n es = 0.
Proof.
  unfold runCommand. destruct (dryRun (config_ ex)).
  - exists []. by rewrite app_nil_r.
  - destruct (commandRunner_ ex command (fs w)) as [ok fs']. by eexists [_].
Qed.

Ltac quiet_step es :=
  eapply (once_inv_quiet _ _ _ _ _ _ es); [eassumption|eassumption|..];
  try apply padded_refl; try (by intros ? []); try done;
  try (cbn [world]; by rewrite app_nil_r).

Lemma once_inv_step order w0 sys a :
  DAG.keyed_by_name d ->
  once_inv d w0 sys -> once_inv d w0 (sys_step O ex d order sys a).
Proof.
  intros Hkeys Hinv. destruct a as [i|]; cbn [sys_step].
  2:{ destruct Hinv as [Hev Huniq Hheld Htarget]. by split. }
  destruct (threads sys !! i) as [pc|] eqn:Hi; [|done].
  destruct pc as [| |n|n target|n target|n target|n success|];
    cbn [worker_step].
  - (* AtTop *)
    destruct (cancelled (shared sys)); quiet_step (@nil Event).
  - (* AtWait *)
    unfold acquire.
    destruct (failed _ && _ || _); [quiet_step (@nil Event)|].
    destruct (allDone _ _); [quiet_step (@nil Event)|].
    pose proof (first_ready_padded order (completed (shared sys))
                  (inProgress (shared sys))) as (Hc & Hip & Hpick).
    destruct (first_ready _ _ _ _) as [[[name|] c] ip]; cbn [fst snd] in *.
    2:{ quiet_step (@nil Event). }
    destruct (Hpick name eq_refl) as (target & Htg & Hfree & Hidle).
    rewrite (Hkeys _ _ Htg) in Hidle.
    destruct Hinv as [(events & Ht & Hev) Huniq Hheld Htarget].
    split; cbn [shared threads set_maps completed inProgress world].
    + exists events. split; [done|]. intros n.
      destruct (Hev n) as [Hle Hone]. split; [done|].
      intros H1. destruct (Hone H1) as [Hdone|(j & pcj & Hj & Hl)].
      * left. by apply (padded_true _ _ n Hc).
      * right. exists j, pcj. split; [|done].
        apply lookup_stepped_other; [|done]. intros ->.
        rewrite Hi in Hj. by injection Hj as <-.
    + intros n i1 i2 pc1 pc2 H1 H2 Hh1 Hh2.
      destruct (lookup_stepped _ _ _ _ _ _ Hi H1) as [[-> ->]|[Hn1 H1']],
               (lookup_stepped _ _ _ _ _ _ Hi H2) as [[-> ->]|[Hn2 H2']].
      * done.
      * cbn [holds] in Hh1. subst n.
        by destruct (Hheld name i2 pc2 H2' Hh2) as [? _].
      * cbn [holds] in Hh2. subst n.
        by destruct (Hheld name i1 pc1 H1' Hh1) as [? _].
      * by apply (Huniq n i1 i2 pc1 pc2).
    + intros n j pcj Hj Hh.
      destruct (lookup_stepped _ _ _ _ _ _ Hi Hj) as [[-> ->]|[Hne Hj']].
      * cbn [holds] in Hh. subst n. rewrite lookup_insert_eq.
        split; [done|]. by rewrite (padded_true _ _ name Hc).
      * destruct (Hheld n j pcj Hj' Hh) as [Hp Hd]. split.
        -- destruct (decide (name = n)) as [->|Hnn].
           ++ by rewrite lookup_insert_eq.
           ++ rewrite lookup_insert_ne by done.
              by apply (padded_true _ _ n Hip).
        -- by rewrite (padded_true _ _ n Hc).
    + intros j pcj Hj.
      destruct (lookup_stepped _ _ _ _ _ _ Hi Hj) as [[-> ->]|[Hne Hj']];
        [done|by apply (Htarget j)].
  - (* Picked *)
    destruct (String.eqb n ""); [quiet_step (@nil Event)|].
    unfold DAG.getTarget. destruct (d !! n) as [target|] eqn:Htg;
      [|quiet_step (@nil Event)].
    destruct (start_count_progress "" n (S (processedCount (shared sys)))
                (totalTargets (stats (shared sys))) "BUILDING"
                (world (shared sys))) as (es & Hes & _).
    quiet_step es.
    intros m.
    destruct (start_count_progress m n (S (processedCount (shared sys)))
                (totalTargets (stats (shared sys))) "BUILDING"
                (world (shared sys))) as (es' & Hes' & Hz).
    rewrite Hes in Hes'. by apply app_inv_head in Hes' as ->.
  - (* Checking *)
    destruct Hinv as [(events & Ht & Hev) Huniq Hheld Htarget].
    pose proof (Htarget i _ Hi) as Htg. cbn in Htg.
    pose proof (Hkeys _ _ Htg) as Hname.
    assert (start_count n events = 0) as Hzero.
    { destruct (Hev n) as [Hle Hone].
      destruct (start_count n events) as [|[|k]] eqn:Hcount; [done| |lia].
      destruct (Hone eq_refl) as [Hdone|(j & pcj & Hj & Hl)].
      - by destruct (Hheld n i _ Hi eq_refl) as [_ []].
      - assert (j = i) as ->.
        { apply (Huniq n j i pcj (Checking n target));
            [done|done|by destruct pcj|by cbn]. }
        rewrite Hi in Hj. injection Hj as <-. done. }
    assert (forall st pc',
      (st = "UP-TO-DATE" \/ st = "BUILD") ->
      late n pc' ->
      match pc' with
      | Checking n t | Running n t | Storing n t => d !! n = Some t
      | _ => True
      end ->
      forall sh',
        completed sh' = completed (shared sys) ->
        inProgress sh' = inProgress (shared sys) ->
        world sh' = printStatus st (name_ target) (world (shared sys)) ->
        once_inv d w0 {| shared := sh';
                         threads := <[i := pc']> (threads sys) |}) as Hcase.
    { intros st pc' Hst Hlate Hpc' sh' Hc Hip Hw.
      split; cbn [shared threads].
      - exists (events ++ [Status st n]).
        rewrite Hw, Hname. cbn [printStatus emit trace].
        rewrite Ht, app_assoc. split; [done|].
        intros m. rewrite start_count_app. destruct (Hev m) as [Hle Hone].
        destruct (decide (m = n)) as [->|Hne].
        + rewrite Hzero. split.
          * unfold start_count. simpl. destruct (_ && _); simpl; lia.
          * intros _. right. exists i, pc'.
            split; [by eapply lookup_stepped_self|done].
        + assert (start_count m [Status st n] = 0) as ->.
          { unfold start_count. simpl.
            assert (String.eqb n m = false) as ->; [|done].
            apply String.eqb_neq. congruence. }
          rewrite Nat.add_0_r. split; [done|]. intros H1.
          destruct (Hone H1) as [Hdone|(j & pcj & Hj & Hl)].
          * left. by rewrite Hc.
          * right. exists j, pcj. split; [|done].
            apply lookup_stepped_other; [|done]. intros ->.
            rewrite Hi in Hj. by injection Hj as <-.
      - intros m i1 i2 pc1 pc2 H1 H2 Hh1 Hh2.
        assert (forall m, holds m pc' -> holds m (Checking n target)) as Hh.
        { intros m' Hm'.
          destruct pc'; cbn in Hlate, Hm' |- *; try done; congruence. }
        destruct (lookup_stepped _ _ _ _ _ _ Hi H1) as [[-> ->]|[Hn1 H1']],
                 (lookup_stepped _ _ _ _ _ _ Hi H2) as [[-> ->]|[Hn2 H2']].
        + done.
        + apply (Huniq m i i2 (Checking n target) pc2); auto.
        + apply (Huniq m i1 i pc1 (Checking n target)); auto.
        + by apply (Huniq m i1 i2 pc1 pc2).
      - intros m j pcj Hj Hhj. rewrite Hc, Hip.
        destruct (lookup_stepped _ _ _ _ _ _ Hi Hj) as [[-> ->]|[Hne Hj']].
        + apply (Hheld m i (Checking n target)); [done|].
          destruct pc'; cbn in Hlate, Hhj |- *; try done; congruence.
        + by apply (Hheld m j pcj).
      - intros j pcj Hj.
        destruct (lookup_stepped _ _ _ _ _ _ Hi Hj) as [[-> ->]|[Hne Hj']];
          [done|by apply (Htarget j)]. }
    destruct (outputsExist _ _ && negb _).
    + apply (Hcase "UP-TO-DATE"); auto. done.
    + apply (Hcase "BUILD"); auto. done.
  - (* Running *)
    pose proof (on_target _ _ _ Hinv i _ Hi) as Htg. cbn in Htg.
    destruct (start_count_run "" (command_ target) (world (shared sys)))
      as (es & Hes & _).
    assert (forall m, start_count m es = 0) as Hzero.
    { intros m.
      destruct (start_count_run m (command_ target) (world (shared sys)))
        as (es' & Hes' & Hz).
      rewrite Hes in Hes'. by apply app_inv_head in Hes' as ->. }
    destruct (runCommand ex (command_ target) (world (shared sys)))
      as [[] w1]; cbn [snd] in Hes.
    + quiet_step es.
    + quiet_step (es ++ [Status "FAILED" (name_ target)]).
      * cbn [world set_stats set_world printStatus emit trace].
        by rewrite Hes, app_assoc.
      * intros m. rewrite start_count_app, Hzero.
        unfold start_count. simpl. by rewrite andb_false_r.
  - (* Storing *)
    pose proof (on_target _ _ _ Hinv i _ Hi) as Htg. cbn in Htg.
    quiet_step [SetSignature (name_ target)
                  (Signature.computeTargetSignature
                     (fs (world (shared sys))) (command_ target)
                     (inputs_ target));
                Status "SUCCESS" (name_ target)].
    + cbn [world set_stats set_world printStatus store_signature emit trace].
      by rewrite <- app_assoc.
    + intros m. unfold start_count. simpl. by rewrite andb_false_r.
  - (* Finishing *)
    destruct Hinv as [(events & Ht & Hev) Huniq Hheld Htarget].
    split; cbn [shared threads finish completed inProgress world].
    + exists events. split; [done|]. intros m.
      destruct (Hev m) as [Hle Hone]. split; [done|].
      intros H1. destruct (Hone H1) as [Hdone|(j & pcj & Hj & Hl)].
      * left. destruct (decide (n = m)) as [->|Hne].
        -- by rewrite lookup_insert_eq.
        -- by rewrite lookup_insert_ne.
      * destruct (decide (j = i)) as [->|Hne].
        -- left. rewrite Hi in Hj. injection Hj as <-. cbn in Hl. subst m.
           by rewrite lookup_insert_eq.
        -- right. exists j, pcj. split; [by apply lookup_stepped_other|done].
    + intros m i1 i2 pc1 pc2 H1 H2 Hh1 Hh2.
      destruct (lookup_stepped _ _ _ _ _ _ Hi H1) as [[-> ->]|[Hn1 H1']];
        [done|].
      destruct (lookup_stepped _ _ _ _ _ _ Hi H2) as [[-> ->]|[Hn2 H2']];
        [done|].
      by apply (Huniq m i1 i2 pc1 pc2).
    + intros m j pcj Hj Hh.
      destruct (lookup_stepped _ _ _ _ _ _ Hi Hj) as [[-> ->]|[Hne Hj']];
        [done|].
      assert (n <> m) as Hnm.
      { intros ->. apply Hne.
        by apply (Huniq m j i pcj (Finishing m success)). }
      rewrite !lookup_insert_ne by done. by apply (Hheld m j pcj).
    + intros j pcj Hj.
      destruct (lookup_stepped _ _ _ _ _ _ Hi Hj) as [[-> ->]|[Hne Hj']];
        [done|by apply (Htarget j)].
  - (* Returned *)
    quiet_step (@nil Event).
Qed.

Lemma once_inv_init order cancelled0 w s :
  once_inv d w (init_system ex order cancelled0 w s).
Proof.
  assert (forall i pc,
    threads (init_system ex order cancelled0 w s) !! i = Some pc ->
    pc = AtTop) as Htop.
  { intros i pc Hi. apply list_elem_of_lookup_2 in Hi.
    by apply elem_of_replicate in Hi as [? _]. }
  split.
  - exists []. cbn [init_system shared world]. rewrite app_nil_r.
    split; [done|]. intros n. split; [unfold start_count; simpl; lia|done].
  - intros n i j pc pc' Hi _ Hh. apply Htop in Hi as ->. done.
  - intros n i pc Hi Hh. apply Htop in Hi as ->. done.
  - intros i pc Hi. by apply Htop in Hi as ->.
Qed.

Lemma once_inv_run order w0 sys schedule :
  DAG.keyed_by_name d ->
  once_inv d w0 sys ->
  once_inv d w0 (run_schedule O ex d order sys schedule).
Proof.
  intros Hkeys. revert sys.
  induction schedule as [|a schedule IH]; intros sys Hinv; [done|].
  apply IH. by apply once_inv_step.
Qed.

(** The first status line of one pass through the body of the loop. *)
Lemma single_body_starts targetName current target w s name :
  let r := single_body ex targetName current target w s in
  exists events,
    trace r.1.2 = trace w ++ events
    /\ start_count name events <= 1
    /\ (name <> name_ target -> start_count name events = 0).
Proof.
  unfold single_body. cbv zeta. unfold runCommand, progress, store_signature,
    printStatus, emit.
  assert (forall st, start_count name [Status st (name_ target)] <= 1) as H1.
  { intros st. unfold start_count. simpl. destruct (_ && _); simpl; lia. }
  assert (forall st, name <> name_ target ->
            start_count name [Status st (name_ target)] = 0) as H0.
  { intros st Hne. unfold start_count. simpl.
    assert (String.eqb (name_ target) name = false) as ->; [|done].
    apply String.eqb_neq. congruence. }
  assert (forall st, st <> "BUILD" -> st <> "UP-TO-DATE" ->
            start_count name [Status st (name_ target)] = 0) as Hst.
  { intros st Hb Hu. unfold start_count. simpl.
    apply String.eqb_neq in Hb, Hu. by rewrite Hb, Hu, andb_false_r. }
  destruct (outputsExist _ _ && negb _); cbn [fst snd].
  { destruct (progressCallback_ ex); cbn [trace]; rewrite <- ?app_assoc;
      eexists; (split; [reflexivity|]); cbn [app].
    - change [?a; Status ?st ?n; ?b] with ([a] ++ [Status st n] ++ [b]).
      rewrite !start_count_app. split.
      + specialize (H1 "UP-TO-DATE"). unfold start_count at 1 3. simpl. lia.
      + intros Hne. rewrite (H0 _ Hne). done.
    - split; [apply H1|apply H0]. }
  destruct (dryRun (config_ ex)); cbn [negb fst snd].
  { destruct (progressCallback_ ex); cbn [trace]; rewrite <- ?app_assoc;
      eexists; (split; [reflexivity|]); cbn [app].
    - change [?a; Status ?st ?n; ?x; Status ?st' ?n'; ?b]
        with ([a] ++ [Status st n] ++ [x] ++ [Status st' n'] ++ [b]).
      rewrite !start_count_app, (Hst "SUCCESS") by done. split.
      + specialize (H1 "BUILD"). unfold start_count at 1 3 4. simpl. lia.
      + intros Hne. rewrite (H0 _ Hne). done.
    - change [Status ?st ?n; ?x; Status ?st' ?n']
        with ([Status st n] ++ [x] ++ [Status st' n']).
      rewrite !start_count_app, (Hst "SUCCESS") by done. split.
      + specialize (H1 "BUILD"). unfold start_count at 2. simpl. lia.
      + intros Hne. rewrite (H0 _ Hne). done. }
  destruct (commandRunner_ ex _ _) as [[] fs']; cbn [negb fst snd].
  - destruct (progressCallback_ ex); cbn [trace]; rewrite <- ?app_assoc;
      eexists; (split; [reflexivity|]); cbn [app].
    + change [?a; Status ?st ?n; ?y; ?x; Status ?st' ?n'; ?b]
        with ([a] ++ [Status st n] ++ [y] ++ [x] ++ [Status st' n'] ++ [b]).
      rewrite !start_count_app, (Hst "SUCCESS") by done. split.
      * specialize (H1 "BUILD"). unfold start_count at 1 3 4 5. simpl. lia.
      * intros Hne. rewrite (H0 _ Hne). done.
    + change [Status ?st ?n; ?y; ?x; Status ?st' ?n']
        with ([Status st n] ++ [y] ++ [x] ++ [Status st' n']).
      rewrite !start_count_app, (Hst "SUCCESS") by done. split.
      * specialize (H1 "BUILD"). unfold start_count at 2 3. simpl. lia.
      * intros Hne. rewrite (H0 _ Hne). done.
  - destruct (progressCallback_ ex); cbn [trace]; rewrite <- ?app_assoc;
      eexists; (split; [reflexivity|]); cbn [app].
    + change [?a; Status ?st ?n; ?y; Status ?st' ?n'; ?b]
        with ([a] ++ [Status st n] ++ [y] ++ [Status st' n'] ++ [b]).
      rewrite !start_count_app, (Hst "FAILED") by done. split.
      * specialize (H1 "BUILD"). unfold start_count at 1 3 4. simpl. lia.
      * intros Hne. rewrite (H0 _ Hne). done.
    + change [Status ?st ?n; ?y; Status ?st' ?n']
        with ([Status st n] ++ [y] ++ [Status st' n']).
      rewrite !start_count_app, (Hst "FAILED") by done. split.
      * specialize (H1 "BUILD"). unfold start_count at 2. simpl. lia.
      * intros Hne. rewrite (H0 _ Hne). done.
Qed.

Lemma single_loop_starts cancel_reads order current w s name :
  DAG.keyed_by_name d ->
  let r := single_loop ex d cancel_reads order current w s in
  exists events,
    trace r.1.2 = trace w ++ events
    /\ (name ∉ order -> start_count name events = 0)
    /\ (NoDup order -> start_count name events <= 1).
Proof.
  intros Hkeys. revert current w s.
  induction order as [|targetName rest IH]; intros current w s;
    cbn [single_loop].
  { exists []. rewrite app_nil_r. cbn [fst snd]. split; [done|].
    split; intros _; unfold start_count; simpl; lia. }
  destruct (cancel_reads current).
  { exists []. rewrite app_nil_r. cbn [fst snd]. split; [done|].
    split; intros _; unfold start_count; simpl; lia. }
  unfold DAG.getTarget. destruct (d !! targetName) as [target|] eqn:Htarget.
  2:{ destruct (IH (S current) w s) as (events & Ht & Hnin & Hnd).
      exists events. split; [done|]. split.
      - intros Hn. apply Hnin. intros ?. apply Hn. by right.
      - intros [_ ?]%NoDup_cons. by apply Hnd. }
  pose proof (Hkeys _ _ Htarget) as Hname.
  destruct (single_body_starts targetName (S current) target w s name)
    as (e1 & Ht1 & Hle1 & Hz1).
  destruct (single_body ex targetName (S current) target w s)
    as [[stop w1] s1]. cbn [fst snd] in *.
  destruct stop.
  { exists e1. cbn [fst snd]. split; [done|]. split; [|done].
    intros Hn. apply Hz1. rewrite Hname. intros ->. apply Hn. by left. }
  destruct (IH (S current) w1 s1) as (e2 & Ht2 & Hnin & Hnd).
  exists (e1 ++ e2). rewrite Ht2, Ht1, app_assoc. split; [done|].
  rewrite start_count_app. split.
  - intros Hn. rewrite Hz1, Hnin; [done| |].
    + intros ?. apply Hn. by right.
    + rewrite Hname. intros ->. apply Hn. by left.
  - intros [Hfresh Hrest]%NoDup_cons.
    destruct (decide (name = targetName)) as [->|Hne].
    + rewrite (Hnin Hfresh). lia.
    + rewrite Hz1 by congruence. specialize (Hnd Hrest). lia.
Qed.

End Workers.

Section OnceTheorem.
Import Executor Examples.

(** X15: no target is started twice in one build: whichever strategy runs and
    whatever the interleaving, at most one UP-TO-DATE or BUILD line is
    printed for each name. *)
Theorem target_started_at_most_once (O : UMapOrder) (ex : Executor.t)
    (d : DAG.t) (env : Environment) (w : World) (s : BuildStats)
    (r : bool * World * BuildStats) (name : string) :
  DAG.keyed_by_name d ->
  executeWithStats O ex d env w s = Some r ->
  start_count name (events_since w r.1.2) <= 1.
Proof.
  intros Hkeys. unfold executeWithStats, executeSingleThreaded,
    executeMultiThreaded.
  destruct (topologicalSort_sound O d) as (order & -> & Hnd & _).
  cbn [mbind option_bind]. destruct (numThreads _ <=? 1)%Z.
  - intros [= <-].
    destruct (single_loop_starts ex d (cancel_reads env) order 0 w
                (set_total s (length order)) name Hkeys)
      as (events & Ht & _ & Hle).
    rewrite (events_since_app _ _ _ Ht). by apply Hle.
  - destruct (joined _); [|done]. intros [= <-]. cbn [fst snd].
    destruct (once_inv_run O ex d order w
                (init_system ex order (cancelled0 env) w s) (schedule env)
                Hkeys (once_inv_init ex d order (cancelled0 env) w s))
      as [(events & Ht & Hev) _ _ _].
    rewrite (events_since_app _ _ _ Ht). apply Hev.
Qed.

Lemma target_started_at_most_once_witness :
  start_count "B"
    (events_since fresh_world
       (linear_run (executor 2 false) (round_robin 2 40)).1.2) <= 1.
Proof.
  apply (target_started_at_most_once std_order (executor 2 false) linear
           (no_cancel (round_robin 2 40)) fresh_world no_stats).
  - apply keyed_check_spec. vm_compute. reflexivity.
  - vm_compute. reflexivity.
Defined.

End OnceTheorem.

(** ** Executor: writes to the cache in whole executions *)

Section SettledProofs.
Import Executor.

Lemma count_app p es1 es2 : count p (es1 ++ es2) = count p es1 + count p es2.
Proof. unfold count. by rewrite List.filter_app, length_app. Qed.

Lemma count_pos p e events : e ∈ events -> p e = true -> 1 <= count p events.
Proof.
  intros Hin Hp. unfold count.
  induction events as [|e' events IH]; [by apply elem_of_nil in Hin|].
  apply elem_of_cons in Hin as [<-|Hin]; simpl.
  - rewrite Hp. simpl. lia.
  - specialize (IH Hin). destruct (p e'); simpl; lia.
Qed.

Lemma settled_app name es1 es2 :
  settled name es1 -> settled name es2 -> settled name (es1 ++ es2).
Proof. unfold settled. rewrite !count_app. lia. Qed.

Lemma settled_nil name : settled name [].
Proof. unfold settled, count. simpl. lia. Qed.

(** The first status lines of a name are its BUILD and UP-TO-DATE
    lines. *)
Lemma start_count_builds name events :
  count (is_build name) events <= start_count name events.
Proof.
  unfold count, start_count.
  induction events as [|e events IH]; [done|]. simpl.
  destruct e as [st n| | |]; simpl; try done.
  destruct (String.eqb n name); simpl; [|done].
  destruct (String.eqb st "BUILD"); simpl; [lia|].
  destruct (String.eqb st "UP-TO-DATE"); simpl; lia.
Qed.

Lemma start_count_build name events :
  Status "UP-TO-DATE" name ∈ events ->
  count (is_build name) events < start_count name events.
Proof.
  intros Hin. induction events as [|e events IH];
    [by apply elem_of_nil in Hin|].
  apply elem_of_cons in Hin as [<-|Hin].
  - assert (is_build name (Status "UP-TO-DATE" name) = false) as Hb
      by (cbn; by rewrite String.eqb_refl).
    assert (is_start name (Status "UP-TO-DATE" name) = true) as Hs
      by (cbn; by rewrite String.eqb_refl).
    pose proof (start_count_builds name events) as Hle.
    unfold count, start_count in *. cbn [List.filter].
    rewrite Hb, Hs. cbn [length]. lia.
  - specialize (IH Hin).
    pose proof (start_count_builds name [e]) as Hle.
    change (e :: events) with ([e] ++ events).
    rewrite count_app, start_count_app. lia.
Qed.

(** A name that is started at most once and has failed or was skipped
    has no cache write. *)
Lemma settled_exclusive name events :
  settled name events ->
  start_count name events <= 1 ->
  Status "FAILED" name ∈ events \/ Status "UP-TO-DATE" name ∈ events ->
  forall sig, ~ SetSignature name sig ∈ events.
Proof.
  intros Hs Hstart Hend sig Hin.
  pose proof (count_pos (is_write_of name) _ _ Hin) as Hw.
  simpl in Hw. rewrite String.eqb_refl in Hw. specialize (Hw eq_refl).
  pose proof (start_count_builds name events) as Hb.
  unfold settled in Hs. destruct Hend as [Hf|Hu].
  - pose proof (count_pos (is_failure name) _ _ Hf) as Hc.
    simpl in Hc. rewrite String.eqb_refl in Hc. specialize (Hc eq_refl). lia.
  - pose proof (start_count_build name events Hu). lia.
Qed.

Lemma replay_other c name events :
  (forall sig, ~ SetSignature name sig ∈ events) ->
  Cache.signatures_ (replay c events) !! name = Cache.signatures_ c !! name.
Proof.
  revert c. induction events as [|e events IH]; intros c Hno; [done|].
  cbn [replay foldl]. fold (replay (match e with
                                    | SetSignature n sig =>
                                        Cache.setSignature c n sig
                                    | _ => c
                                    end) events).
  rewrite IH.
  - destruct e as [| | |n sig]; try done.
    unfold Cache.setSignature, Cache.with_signatures. cbn.
    apply lookup_insert_ne. intros ->. apply (Hno sig). by left.
  - intros sig Hin. apply (Hno sig). by right.
Qed.

Ltac counts :=
  unfold settled, count; cbn [List.filter is_build is_failure is_write_of];
  repeat match goal with
         | |- context [String.eqb (name_ ?t) ?b] =>
             destruct (String.eqb (name_ t) b)
         end; simpl; lia.

Lemma single_body_settled ex targetName current target w stats name :
  exists events,
    trace (single_body ex targetName current target w stats).1.2
    = trace w ++ events
    /\ settled name events.
Proof.
  unfold single_body, runCommand.
  destruct (outputsExist _ _ && negb _).
  { cbn [fst snd]. unfold printStatus, progress, emit.
    destruct (progressCallback_ ex); cbn [trace fs cache];
      rewrite <- ?app_assoc; cbn [app]; eexists; (split; [done|counts]). }
  destruct (dryRun (config_ ex)).
  { cbn [negb fst snd]. unfold printStatus, progress, store_signature, emit.
    destruct (progressCallback_ ex); cbn [trace fs cache];
      rewrite <- ?app_assoc; cbn [app]; eexists; (split; [done|counts]). }
  cbn [printStatus emit fs].
  destruct (commandRunner_ ex _ _) as [[] fs'];
    cbn [negb fst snd]; unfold printStatus, progress, store_signature, emit;
    destruct (progressCallback_ ex); cbn [trace fs cache];
    rewrite <- ?app_assoc; cbn [app]; eexists; (split; [done|counts]).
Qed.

Lemma single_loop_settled ex d cancel_reads order current w stats name :
  exists events,
    trace (single_loop ex d cancel_reads order current w stats).1.2
    = trace w ++ events
    /\ settled name events.
Proof.
  revert current w stats.
  induction order as [|targetName rest IH]; intros current w stats;
    cbn [single_loop].
  { exists []. rewrite app_nil_r. split; [done|apply settled_nil]. }
  destruct (cancel_reads current).
  { exists []. rewrite app_nil_r. split; [done|apply settled_nil]. }
  destruct (DAG.getTarget d targetName) as [target|]; [|apply IH].
  destruct (single_body_settled ex targetName (S current) target w stats name)
    as (e1 & Ht1 & Hs1).
  destruct (single_body ex targetName (S current) target w stats)
    as [[stop w'] stats'].
  cbn [fst snd] in *. destruct stop; [by exists e1|].
  destruct (IH (S current) w' stats') as (e2 & Ht2 & Hs2).
  exists (e1 ++ e2). rewrite Ht2, Ht1, app_assoc. split; [done|].
  by apply settled_app.
Qed.

(** *** Workers *)

Lemma settled_inv_update w0 sys sh' pc pc' i es :
  threads sys !! i = Some pc ->
  settled_inv w0 sys ->
  trace (world sh') = trace (world (shared sys)) ++ es ->
  (forall name events,
     settled name events ->
     ((building name pc
       \/ exists j pcj, j <> i /\ threads sys !! j = Some pcj
                         /\ building name pcj) ->
      count (is_failure name) events + count (is_write_of name) events
      < count (is_build name) events) ->
     settled name (events ++ es)
     /\ ((building name pc'
          \/ exists j pcj, j <> i /\ threads sys !! j = Some pcj
                            /\ building name pcj) ->
         count (is_failure name) (events ++ es)
         + count (is_write_of name) (events ++ es)
         < count (is_build name) (events ++ es))) ->
  settled_inv w0 {| shared := sh'; threads := <[i := pc']> (threads sys) |}.
Proof.
  intros Hi (events & Ht & Hall) Ht' Hstep.
  exists (events ++ es). cbn [shared threads].
  rewrite Ht', Ht, app_assoc. split; [done|]. intros name.
  destruct (Hall name) as [Hs Hb].
  destruct (Hstep name events Hs) as [Hs' Hb'].
  { intros [Hpc|(j & pcj & Hne & Hj & Hbj)]; apply Hb.
    - by exists i, pc.
    - by exists j, pcj. }
  split; [done|]. intros (j & pcj & Hj & Hbj). apply Hb'.
  destruct (lookup_stepped _ _ _ _ _ _ Hi Hj) as [[-> ->]|[Hne Hj']].
  - by left.
  - right. by exists j, pcj.
Qed.

(** A step that prints no BUILD and no FAILED line, writes nothing to the
    cache and does not turn to building keeps the invariant. *)
Lemma settled_inv_quiet w0 sys sh' pc pc' i es :
  threads sys !! i = Some pc ->
  settled_inv w0 sys ->
  trace (world sh') = trace (world (shared sys)) ++ es ->
  (forall name, count (is_build name) es = 0
                /\ count (is_failure name) es = 0
                /\ count (is_write_of name) es = 0) ->
  (forall name, building name pc' -> building name pc) ->
  settled_inv w0 {| shared := sh'; threads := <[i := pc']> (threads sys) |}.
Proof.
  intros Hi Hinv Ht Hes Hpc.
  eapply settled_inv_update; [done|done|done|].
  intros name events Hs Hb. destruct (Hes name) as (H1 & H2 & H3).
  unfold settled. rewrite !count_app, H1, H2, H3, !Nat.add_0_r.
  split; [done|]. intros [Hb'|Hb']; apply Hb; [left; by apply Hpc|by right].
Qed.

Lemma count_progress ex p name current total status w :
  (forall n c t st, p (Progress n c t st) = false) ->
  exists es,
    trace (progress ex name current total status w) = trace w ++ es
    /\ count p es = 0.
Proof.
  intros Hp. unfold progress. destruct (progressCallback_ ex).
  - eexists. split; [done|]. unfold count. simpl. by rewrite Hp.
  - exists []. by rewrite app_nil_r.
Qed.

Lemma count_runCommand ex p command w :
  (forall c ok, p (RunSimple c ok) = false) ->
  exists es,
    trace (runCommand ex command w).2 = trace w ++ es /\ count p es = 0.
Proof.
  intros Hp. unfold runCommand. destruct (dryRun (config_ ex)).
  - exists []. by rewrite app_nil_r.
  - destruct (commandRunner_ ex command (fs w)) as [ok fs'].
    eexists. split; [done|]. unfold count. simpl. by rewrite Hp.
Qed.

End SettledProofs.

Section SettledWorkers.
Import Executor.
Context (O : UMapOrder) (ex : Executor.t) (d : DAG.t).
Hypothesis Hkeys : DAG.keyed_by_name d.

Ltac quiet es :=
  eapply (settled_inv_quiet _ _ _ _ _ _ es);
  [eassumption|eassumption|by rewrite ?app_nil_r|done|done].

(** No other worker is building the target of worker [i]. *)
Lemma building_alone w0 sys i n target pc :
  once_inv d w0 sys ->
  threads sys !! i = Some pc ->
  (pc = Running n target \/ pc = Storing n target) ->
  forall j pcj,
    j <> i -> threads sys !! j = Some pcj -> ~ building (name_ target) pcj.
Proof.
  intros [_ Huniq _ Htarget] Hi Hpc j pcj Hne Hj Hb.
  assert (d !! n = Some target) as Hn.
  { specialize (Htarget _ _ Hi). by destruct Hpc as [-> | ->]. }
  apply Hkeys in Hn.
  assert (holds n pc) as Hh by by destruct Hpc as [-> | ->].
  assert (holds n pcj) as Hhj.
  { specialize (Htarget _ _ Hj).
    destruct pcj as [| |m|m t|m t|m t|m b|]; try done; simpl in *;
      apply Hkeys in Htarget; congruence. }
  apply Hne. by eapply (Huniq n j i).
Qed.

Lemma settled_inv_step order w0 sys a :
  once_inv d w0 sys ->
  settled_inv w0 sys -> settled_inv w0 (sys_step O ex d order sys a).
Proof.
  intros Honce Hinv. destruct a as [i|]; cbn [sys_step].
  2:{ destruct Hinv as (events & ? & ?). by exists events. }
  destruct (threads sys !! i) as [pc|] eqn:Hi; [|done].
  destruct pc as [| |n|n target|n target|n target|n success|];
    cbn [worker_step].
  - destruct (cancelled (shared sys)); quiet (@nil Event).
  - unfold acquire.
    destruct (failed _ && _ || _); [quiet (@nil Event)|].
    destruct (allDone _ _); [quiet (@nil Event)|].
    destruct (first_ready _ _ _ _) as [[[name|] c] ip]; quiet (@nil Event).
  - destruct (String.eqb n ""); [quiet (@nil Event)|].
    destruct (DAG.getTarget d n) as [target|]; [|quiet (@nil Event)].
    unfold progress. destruct (progressCallback_ ex).
    + eapply (settled_inv_quiet _ _ _ _ _ _ [_]);
        [eassumption|eassumption|done|done|done].
    + quiet (@nil Event).
  - destruct (outputsExist _ _ && negb _).
    + eapply (settled_inv_quiet _ _ _ _ _ _ [_]);
        [eassumption|eassumption|done| |done].
      intros name. unfold count. simpl.
      by destruct (String.eqb (name_ target) name).
    + eapply (settled_inv_update _ _ _ _ _ _ [_]);
        [eassumption|eassumption|done|].
      intros name events Hs Hb. unfold settled, count in *.
      rewrite !List.filter_app, !length_app. simpl.
      destruct (String.eqb_spec (name_ target) name) as [Heq|Hne]; simpl.
      * split; [lia|]. intros _. lia.
      * rewrite !Nat.add_0_r. split; [done|].
        intros [Hb'|Hb']; [by simpl in Hb'|]. apply Hb. by right.
  - pose proof (count_runCommand ex (is_build (name_ target))
                  (command_ target) (world (shared sys)) ltac:(done))
      as (es & Ht & Hc1).
    assert (forall name, count (is_build name) es = 0
                         /\ count (is_failure name) es = 0
                         /\ count (is_write_of name) es = 0) as Hes.
    { revert Ht. clear. unfold runCommand. destruct (dryRun (config_ ex)).
      - intros Ht. rewrite <- (app_nil_r (trace _)) in Ht at 1.
        apply app_inv_head in Ht as <-. done.
      - destruct (commandRunner_ ex _ _) as [ok fs'].
        cbn [snd emit trace]. intros Ht. apply app_inv_head in Ht as <-.
        done. }
    destruct (runCommand ex (command_ target) (world (shared sys)))
      as [[] w1]; cbn [fst snd] in *.
    + eapply (settled_inv_quiet _ _ _ _ _ _ es);
        [eassumption|eassumption|done|done|done].
    + eapply (settled_inv_update _ _ _ _ _ _
                (es ++ [Status "FAILED" (name_ target)]));
        [eassumption|eassumption| |].
      { cbn [world set_stats set_world printStatus emit trace].
        by rewrite Ht, app_assoc. }
      intros name events Hs Hb. destruct (Hes name) as (H1 & H2 & H3).
      unfold settled, count in *.
      rewrite !List.filter_app, !length_app, H1, H2, H3. simpl.
      destruct (String.eqb_spec (name_ target) name) as [Heq|Hne]; simpl.
      * assert (length (List.filter (is_failure name) events)
                + length (List.filter (is_write_of name) events)
                < length (List.filter (is_build name) events)) as Hlt
          by (apply Hb; by left).
        split; [lia|]. intros [Hb'|(j & pcj & Hne & Hj & Hbj)];
          [by simpl in Hb'|].
        exfalso. subst name.
        eapply (building_alone w0 sys i n target); eauto.
      * rewrite !Nat.add_0_r. split; [done|].
        intros [Hb'|Hb']; [by simpl in Hb'|]. apply Hb. by right.
  - eapply (settled_inv_update _ _ _ _ _ _ [_; _]);
      [eassumption|eassumption| |].
    { cbn [world set_stats set_world printStatus store_signature emit trace].
      by rewrite <- app_assoc. }
    intros name events Hs Hb. unfold settled, count in *.
    rewrite !List.filter_app, !length_app. simpl.
    destruct (String.eqb_spec (name_ target) name) as [Heq|Hne]; simpl.
    + assert (length (List.filter (is_failure name) events)
              + length (List.filter (is_write_of name) events)
              < length (List.filter (is_build name) events)) as Hlt
        by (apply Hb; by left).
      split; [lia|]. intros [Hb'|(j & pcj & Hne & Hj & Hbj)];
        [by simpl in Hb'|].
      exfalso. subst name.
      eapply (building_alone w0 sys i n target); eauto.
    + rewrite !Nat.add_0_r. split; [done|].
      intros [Hb'|Hb']; [by simpl in Hb'|]. apply Hb. by right.
  - quiet (@nil Event).
  - quiet (@nil Event).
Qed.

Lemma settled_inv_init order cancelled0 w s :
  settled_inv w (init_system ex order cancelled0 w s).
Proof.
  exists []. cbn [init_system shared world threads]. rewrite app_nil_r.
  split; [done|]. intros name. split; [apply settled_nil|].
  intros (i & pc & Hi & Hb). apply list_elem_of_lookup_2 in Hi.
  by apply elem_of_replicate in Hi as [-> _].
Qed.

Lemma settled_inv_run order w0 sys schedule :
  once_inv d w0 sys -> settled_inv w0 sys ->
  settled_inv w0 (run_schedule O ex d order sys schedule).
Proof.
  revert sys. induction schedule as [|a schedule IH]; intros sys Ho Hs;
    [done|].
  apply IH; [by apply once_inv_step|by apply settled_inv_step].
Qed.

End SettledWorkers.

Section CacheWriteTheorem.
Import Executor.

(** A whole call of [executeWithStats]. *)
Lemma executeWithStats_extends O ex d env w s r :
  executeWithStats O ex d env w s = Some r ->
  extends ex (registered d) w r.1.2.
Proof.
  unfold executeWithStats, executeSingleThreaded, executeMultiThreaded.
  destruct (topologicalSort_sound O d) as (order & -> & _).
  cbn [mbind option_bind]. destruct (numThreads _ <=? 1)%Z.
  - intros [= <-]. apply single_loop_extends.
  - destruct (joined _); [|done]. intros [= <-]. cbn [fst snd].
    destruct (writes_inv_run O ex d order w
                (init_system ex order (cancelled0 env) w s) (schedule env)
                (writes_inv_init ex d order (cancelled0 env) w s))
      as (events & Ht & Hc & Hw & _).
    by exists events.
Qed.

Lemma executeWithStats_settled O ex d env w s r name :
  DAG.keyed_by_name d ->
  executeWithStats O ex d env w s = Some r ->
  settled name (events_since w r.1.2)
  /\ start_count name (events_since w r.1.2) <= 1.
Proof.
  intros Hkeys. unfold executeWithStats, executeSingleThreaded,
    executeMultiThreaded.
  destruct (topologicalSort_sound O d) as (order & -> & Hnd & _).
  cbn [mbind option_bind]. destruct (numThreads _ <=? 1)%Z.
  - intros [= <-].
    destruct (single_loop_settled ex d (cancel_reads env) order 0 w
                (set_total s (length order)) name) as (events & Ht & Hs).
    destruct (single_loop_starts ex d (cancel_reads env) order 0 w
                (set_total s (length order)) name Hkeys)
      as (events' & Ht' & _ & Hle).
    rewrite Ht in Ht'. apply app_inv_head in Ht' as <-.
    rewrite (events_since_app _ _ _ Ht). split; [done|by apply Hle].
  - destruct (joined _); [|done]. intros [= <-]. cbn [fst snd].
    pose proof (once_inv_init ex d order (cancelled0 env) w s) as Ho.
    destruct (settled_inv_run O ex d Hkeys order w _ (schedule env) Ho
                (settled_inv_init ex order (cancelled0 env) w s))
      as (events & Ht & Hall).
    destruct (once_inv_run O ex d order w _ (schedule env) Hkeys Ho)
      as [(events' & Ht' & Hev) _ _ _].
    rewrite Ht in Ht'. apply app_inv_head in Ht' as <-.
    rewrite (events_since_app _ _ _ Ht). split; [apply Hall|apply Hev].
Qed.

(** C3, as it holds: the cache an execution leaves is its initial cache
    after the recorded writes, and every write is tied to the target it
    is for: the entry written is that of the target being processed (of a
    target of the graph, in a whole execution), and the write follows
    the BUILD line of that target and, after it, a successful
    [runCommand] for its command -- the runner returned success for it
    or, in dry-run mode, [runCommand] answered success without running
    it.  This holds for [executeTarget], for the single-threaded loop and
    for every interleaving of the workers.  A failing command and a
    skipped target leave the cache as it was; in a whole execution of a
    graph keyed by name, the entry of every target reported FAILED or
    UP-TO-DATE is what it was before. *)
Theorem cache_written_after_success (O : UMapOrder) (ex : Executor.t) :
  (forall cancelled target w,
     let r := executeTarget ex cancelled target w in
     extends ex (eq target) w r.2
     /\ (r.1 = false -> cache r.2 = cache w)
     /\ (up_to_date target w -> cache r.2 = cache w))
  /\ (forall targetName current target w stats,
        let r := single_body ex targetName current target w stats in
        let w1 := progress ex targetName current (totalTargets stats)
                           "BUILDING" w in
        let wb := printStatus "BUILD" (name_ target) w1 in
        extends ex (eq target) w r.1.2
        /\ (up_to_date target w
            \/ (runCommand ex (command_ target) wb).1 = false ->
            cache r.1.2 = cache w))
  /\ (forall d cancel_reads order current w stats,
        extends ex (registered d) w
          (single_loop ex d cancel_reads order current w stats).1.2)
  /\ (forall d order cancelled0 schedule w s,
        writes_inv ex d w
          (run_schedule O ex d order (init_system ex order cancelled0 w s)
                        schedule))
  /\ (forall d order sh pc,
        (forall n target, pc <> Storing n target) ->
        cache (world (worker_step O ex d order sh pc).1) = cache (world sh))
  /\ (forall d env w s r,
        executeWithStats O ex d env w s = Some r ->
        extends ex (registered d) w r.1.2)
  /\ (forall d env w s r name,
        DAG.keyed_by_name d ->
        executeWithStats O ex d env w s = Some r ->
        Status "FAILED" name ∈ events_since w r.1.2
        \/ Status "UP-TO-DATE" name ∈ events_since w r.1.2 ->
        (forall sig, ~ SetSignature name sig ∈ events_since w r.1.2)
        /\ Cache.signatures_ (cache r.1.2) !! name
           = Cache.signatures_ (cache w) !! name).
Proof.
  split; [|split; [|split; [|split; [|split; [|split]]]]].
  - intros cancelled target w r.
    destruct (executeTarget_cache ex cancelled target w) as [H1 H2].
    split; [done|]. split; [done|]. intros Hup. subst r.
    unfold executeTarget. destruct cancelled; [done|].
    apply up_to_date_test in Hup. by rewrite Hup.
  - intros. apply single_body_cache.
  - intros. apply single_loop_extends.
  - intros. apply writes_inv_run, writes_inv_init.
  - intros. by apply worker_step_cache.
  - intros. by eapply executeWithStats_extends.
  - intros d env w s r name Hkeys Hrun Hend.
    destruct (executeWithStats_settled O ex d env w s r name Hkeys Hrun)
      as [Hs Hle].
    pose proof (settled_exclusive name _ Hs Hle Hend) as Hno.
    split; [done|].
    destruct (executeWithStats_extends O ex d env w s r Hrun)
      as (events & Ht & Hc & _).
    rewrite (events_since_app _ _ _ Ht) in Hno.
    rewrite Hc. by apply replay_other.
Qed.

(** Traces that are not justified: a write for B after the command of
    another target has succeeded and that of B has failed, with and
    without the BUILD lines. *)
Example unjustified_writes :
  let ex := Examples.executor 1 false in
  let known := registered Examples.linear in
  ~ writes_follow_success ex known
      [RunSimple "touch A" true; RunSimple "touch B" false;
       SetSignature "B" "sig"]
  /\ ~ writes_follow_success ex known
        [Status "BUILD" "A"; RunSimple "touch A" true; Status "BUILD" "B";
         RunSimple "touch B" false; SetSignature "B" "sig"].
Proof.
  cbv zeta. split.
  - intros H. destruct (H 2 "B" "sig" eq_refl) as (t & j & _ & _ & Hj & Hb & _).
    destruct j as [|[|j]]; [done|done|lia].
  - intros H.
    destruct (H 4 "B" "sig" eq_refl)
      as (t & j & _ & _ & Hj & Hb & [Hdry|(k & Hjk & Hki & Hk)]); [done|].
    destruct j as [|[|[|[|j]]]]; try done; try lia.
    destruct k as [|[|[|[|k]]]]; try done; lia.
Qed.

(** The command of A succeeds and that of B fails, with two workers: the
    entry for A is written and the entry for B is what it was. *)
Example failed_target_keeps_entry :
  match executeWithStats std_order (Examples.picky_executor 2)
          Examples.linear (Examples.no_cancel (Examples.round_robin 2 40))
          Examples.stale_world no_stats with
  | Some (ok, w, _) =>
      ok = false
      /\ Status "SUCCESS" "A" ∈ trace w /\ Status "FAILED" "B" ∈ trace w
      /\ is_Some (Cache.signatures_ (cache w) !! "A")
      /\ Cache.signatures_ (cache w) !! "B" = Some "old"
  | None => False
  end.
Proof.
  vm_compute. split; [done|]. split; [|split; [|split; [by eexists|done]]].
  - repeat first [by apply list_elem_of_here | apply list_elem_of_further].
  - repeat first [by apply list_elem_of_here | apply list_elem_of_further].
Qed.

End CacheWriteTheorem.

(** ** Executor: result of the multi-threaded strategy *)

Section Result.
Import Executor Examples.
Context (O : UMapOrder) (ex : Executor.t) (d : DAG.t) (order : list string).

Lemma succeeded_app name events es :
  succeeded name events -> succeeded name (events ++ es).
Proof. intros [H|H]; [left|right]; apply elem_of_app; by left. Qed.

Lemma succeeded_finished name events :
  succeeded name events -> finished_in events name.
Proof.
  intros [[j Hj]%list_elem_of_lookup_1|[j Hj]%list_elem_of_lookup_1];
    eexists j, _; (split; [done|]); [by left|right; by left].
Qed.

Lemma failed_finished name events :
  Status "FAILED" name ∈ events -> finished_in events name.
Proof.
  intros [j Hj]%list_elem_of_lookup_1. eexists j, _. split; [done|].
  right. by right.
Qed.

Lemma thread_done_grows sh sh' events es pc :
  (forall k, completed sh !! k = Some true -> completed sh' !! k = Some true) ->
  (cancelled sh = true -> cancelled sh' = true) ->
  (failed sh = true -> failed sh' = true) ->
  thread_done ex d order sh events pc ->
  thread_done ex d order sh' (events ++ es) pc.
Proof.
  intros Hc Hcancel Hfailed. destruct pc as [| | | | | |n success|];
    cbn [thread_done]; try done.
  - intros (t & Ht & Hs). exists t. split; [done|]. destruct success.
    + by apply succeeded_app.
    + apply elem_of_app. by left.
  - intros [?|[[? ?]|Hall]]; [left; auto|right; left; auto|].
    right. right. intros n Hn. by apply Hc, Hall.
Qed.

Lemma allDone_spec (c : gmap string bool) n :
  allDone O c = true -> is_Some (c !! n) -> c !! n = Some true.
Proof.
  unfold allDone. rewrite forallb_forall. intros Hall [v Hv].
  specialize (Hall (n, v)). cbn [snd] in Hall. rewrite Hv.
  f_equal. apply Hall. by apply list_elem_of_In, elem_of_iter.
Qed.

(** A step that completes no target and does not touch the [failed]
    flag keeps the invariant. *)
Lemma done_inv_grow w0 sys i pc sh' pc' es :
  done_inv ex d order w0 sys ->
  threads sys !! i = Some pc ->
  trace (world sh') = trace (world (shared sys)) ++ es ->
  padded (completed (shared sys)) (completed sh') ->
  failed sh' = failed (shared sys) ->
  (cancelled (shared sys) = true -> cancelled sh' = true) ->
  (forall events,
     thread_done ex d order (shared sys) events pc ->
     thread_done ex d order sh' (events ++ es) pc') ->
  status_count "FAILED" es = 0 \/ (exists n, pc' = Finishing n false) ->
  (forall n, pc <> Finishing n false) ->
  done_inv ex d order w0
    {| shared := sh'; threads := <[i := pc']> (threads sys) |}.
Proof.
  intros [Hkeys (events & Ht & Hdone & Hfail & Hcount & Hthreads)] Hi Ht' Hc
    Hf Hcancel Hpc' Hes Hpc.
  split; cbn [shared threads].
  - intros n Hn. eapply padded_keys; [done|]. by apply Hkeys.
  - exists (events ++ es). rewrite Ht', Ht, app_assoc. split; [done|].
    split; [|split; [|split]].
    + intros n Hn. apply (padded_true _ _ n Hc) in Hn.
      destruct (Hdone n Hn) as (t & Htg & Hfin & Hs). exists t.
      split; [done|]. split; [by apply finished_in_app|].
      rewrite Hf. intros ?. by apply succeeded_app, Hs.
    + rewrite Hf, status_count_app. intros ?%Hfail. lia.
    + rewrite Hf, status_count_app. intros Hpos.
      destruct Hes as [Hz|[n ->]].
      * destruct Hcount as [?|(j & n & Hj)]; [lia|by left|].
        right. exists j, n. apply lookup_stepped_other; [|done].
        intros ->. rewrite Hi in Hj. injection Hj as ->. by destruct (Hpc n).
      * right. exists i, n. by eapply lookup_stepped_self.
    + intros j pcj Hj.
      destruct (lookup_stepped _ _ _ _ _ _ Hi Hj) as [[-> ->]|[Hne Hj']].
      * apply Hpc'. by apply (Hthreads i).
      * apply thread_done_grows with (sh := shared sys); auto.
        -- intros k. by apply (padded_true _ _ k Hc).
        -- rewrite Hf. auto.
        -- by apply (Hthreads j).
Qed.

Lemma progress_statuses name c t st w :
  exists es,
    trace (progress ex name c t st w) = trace w ++ es
    /\ forall status, status_count status es = 0.
Proof.
  unfold progress. destruct (progressCallback_ ex).
  - by eexists [_].
  - exists []. by rewrite app_nil_r.
Qed.

Lemma runCommand_statuses command w :
  exists es,
    trace (runCommand ex command w).2 = trace w ++ es
    /\ forall status, status_count status es = 0.
Proof.
  unfold runCommand. destruct (dryRun (config_ ex)).
  - exists []. by rewrite app_nil_r.
  - destruct (commandRunner_ ex command (fs w)) as [ok fs']. by eexists [_].
Qed.

Ltac grow_step es :=
  eapply (done_inv_grow _ _ _ _ _ _ es); [eassumption|eassumption|..];
  try apply padded_refl; try done;
  try (cbn [world]; by rewrite app_nil_r);
  try (by left).

Lemma done_inv_step w0 sys a :
  done_inv ex d order w0 sys ->
  done_inv ex d order w0 (sys_step O ex d order sys a).
Proof.
  intros Hinv. destruct a as [i|]; cbn [sys_step].
  2:{ destruct Hinv as [Hkeys (events & Ht & Hdone & Hfail & Hcount & Hth)].
      split; [done|]. exists events. cbn [shared world completed failed threads].
      split; [done|]. split; [done|]. split; [done|]. split; [done|].
      intros j pcj Hj. rewrite <- (app_nil_r events).
      apply thread_done_grows with (sh := shared sys); auto.
      by apply (Hth j). }
  destruct (threads sys !! i) as [pc|] eqn:Hi; [|done].
  destruct pc as [| |n|n target|n target|n target|n success|];
    cbn [worker_step].
  - (* AtTop *)
    destruct (cancelled (shared sys)) eqn:Hcancel; grow_step (@nil Event).
  - (* AtWait *)
    unfold acquire.
    destruct (failed _ && _ || _) eqn:Hstop.
    { grow_step (@nil Event). intros events _.
      apply orb_true_iff in Hstop as [[? ?]%andb_true_iff| ?];
        [right; left; done|by left]. }
    destruct (allDone _ _) eqn:Hall.
    { grow_step (@nil Event). intros events _. right. right.
      intros n Hn. apply allDone_spec; [done|]. by apply (dn_keys _ _ _ _ _ Hinv). }
    pose proof (first_ready_padded d order (completed (shared sys))
                  (inProgress (shared sys))) as (Hc & _ & _).
    destruct (first_ready _ _ _ _) as [[[name|] c] ip]; cbn [fst snd] in *;
      grow_step (@nil Event).
  - (* Picked *)
    destruct (String.eqb n ""); [grow_step (@nil Event)|].
    unfold DAG.getTarget. destruct (d !! n) as [target|] eqn:Htg;
      [|grow_step (@nil Event)].
    destruct (progress_statuses n (S (processedCount (shared sys)))
                (totalTargets (stats (shared sys))) "BUILDING"
                (world (shared sys))) as (es & Hes & Hz).
    grow_step es.
  - (* Checking *)
    destruct (outputsExist _ _ && negb _).
    + grow_step [Status "UP-TO-DATE" (name_ target)].
      intros events Htg. exists target. split; [done|]. left.
      apply elem_of_app. right. by left.
    + grow_step [Status "BUILD" (name_ target)].
  - (* Running *)
    destruct (runCommand_statuses (command_ target) (world (shared sys)))
      as (es & Hes & Hz).
    destruct (runCommand ex (command_ target) (world (shared sys)))
      as [[] w1]; cbn [snd] in Hes.
    + grow_step es.
    + grow_step (es ++ [Status "FAILED" (name_ target)]).
      * cbn [world set_stats set_world printStatus emit trace].
        by rewrite Hes, app_assoc.
      * intros events Htg. exists target. split; [done|].
        rewrite app_assoc. apply elem_of_app. right. by left.
      * right. by exists n.
  - (* Storing *)
    grow_step [SetSignature (name_ target)
                 (Signature.computeTargetSignature
                    (fs (world (shared sys))) (command_ target)
                    (inputs_ target));
               Status "SUCCESS" (name_ target)].
    + cbn [world set_stats set_world printStatus store_signature emit trace].
      by rewrite <- app_assoc.
    + intros events Htg. exists target. split; [done|]. right.
      apply elem_of_app. right. right. by left.
  - (* Finishing *)
    destruct Hinv as [Hkeys (events & Ht & Hdone & Hfail & Hcount & Hth)].
    pose proof (Hth i _ Hi) as (t & Htg & Hlast). cbn in Hlast.
    split; cbn [shared threads finish completed failed world].
    + intros m Hm. destruct (decide (n = m)) as [->|Hne].
      * by rewrite lookup_insert_eq.
      * rewrite lookup_insert_ne by done. by apply Hkeys.
    + exists events. split; [done|]. split; [|split; [|split]].
      * intros m Hm. destruct (decide (n = m)) as [->|Hne].
        -- exists t. split; [done|]. destruct success.
           ++ split; [by apply succeeded_finished|done].
           ++ split; [by apply failed_finished|done].
        -- rewrite lookup_insert_ne in Hm by done.
           destruct (Hdone m Hm) as (t' & Htg' & Hfin & Hs).
           exists t'. split; [done|]. split; [done|].
           destruct success; [done|done].
      * destruct success; [done|]. intros _.
        by eapply status_count_pos.
      * intros Hpos. destruct (Hcount Hpos) as [Hf|(j & m & Hj)].
        -- left. by destruct success.
        -- destruct (decide (j = i)) as [->|Hne].
           ++ left. rewrite Hi in Hj. by injection Hj as -> ->.
           ++ right. exists j, m. by apply lookup_stepped_other.
      * intros j pcj Hj.
        destruct (lookup_stepped _ _ _ _ _ _ Hi Hj) as [[-> ->]|[Hne Hj']];
          [done|].
        rewrite <- (app_nil_r events).
        apply thread_done_grows with (sh := shared sys).
        -- intros k Hk. unfold finish. cbn [completed].
           destruct (decide (n = k)) as [->|Hnk].
           ++ by rewrite lookup_insert_eq.
           ++ by rewrite lookup_insert_ne.
        -- done.
        -- unfold finish. cbn [failed]. intros ->. by destruct success.
        -- by apply (Hth j).
  - (* Returned *)
    grow_step (@nil Event).
Qed.

Lemma all_false_keys names n : n ∈ names -> is_Some (all_false names !! n).
Proof.
  unfold all_false. intros Hn.
  assert (forall m : gmap string bool,
            n ∈ names \/ is_Some (m !! n) ->
            is_Some (foldl (fun m name => <[name := false]> m) m names !! n))
    as Hgen; [|apply Hgen; by left].
  clear Hn. induction names as [|x names IH]; intros m Hm; simpl.
  - destruct Hm as [?%elem_of_nil|?]; done.
  - apply IH. destruct Hm as [[->|?]%elem_of_cons|?].
    + right. by rewrite lookup_insert_eq.
    + by left.
    + right. destruct (decide (x = n)) as [->|?].
      * by rewrite lookup_insert_eq.
      * by rewrite lookup_insert_ne.
Qed.

Lemma done_inv_init cancelled0 w s :
  done_inv ex d order w (init_system ex order cancelled0 w s).
Proof.
  split.
  - intros n Hn. cbn [init_system shared completed]. by apply all_false_keys.
  - exists []. cbn [init_system shared world completed failed threads].
    rewrite app_nil_r. split; [done|]. split.
    { intros n Hn. by apply all_false_no_true in Hn. }
    split; [done|]. split; [unfold status_count; simpl; lia|].
    intros i pc Hi. apply list_elem_of_lookup_2 in Hi.
    by apply elem_of_replicate in Hi as [-> _].
Qed.

Lemma done_inv_run w0 sys schedule :
  done_inv ex d order w0 sys ->
  done_inv ex d order w0 (run_schedule O ex d order sys schedule).
Proof.
  revert sys. induction schedule as [|a schedule IH]; intros sys Hinv; [done|].
  apply IH. by apply done_inv_step.
Qed.

Lemma worker_step_cancelled sh pc :
  cancelled (worker_step O ex d order sh pc).1 = cancelled sh.
Proof.
  destruct pc as [| |n|n target|n target|n target|n success|];
    cbn [worker_step]; try done.
  - by destruct (cancelled sh) eqn:Hc.
  - unfold acquire. destruct (failed _ && _ || _); [done|].
    destruct (allDone _ _); [done|].
    by destruct (first_ready _ _ _ _) as [[[name|] c] ip].
  - destruct (String.eqb n ""); [done|].
    by destruct (DAG.getTarget d n).
  - by destruct (outputsExist _ _ && negb _).
  - by destruct (runCommand ex (command_ target) (world sh)) as [[] w1].
Qed.

Lemma run_schedule_threads sys schedule :
  length (threads (run_schedule O ex d order sys schedule))
  = length (threads sys)
  /\ (CancelRequest ∉ schedule ->
      cancelled (shared (run_schedule O ex d order sys schedule))
      = cancelled (shared sys)).
Proof.
  revert sys. induction schedule as [|a schedule IH]; intros sys; [done|].
  cbn [run_schedule foldl]. destruct (IH (sys_step O ex d order sys a))
    as [Hlen Hcancel].
  fold (run_schedule O ex d order (sys_step O ex d order sys a) schedule).
  assert (length (threads (sys_step O ex d order sys a))
          = length (threads sys)) as Hlen1.
  { destruct a as [i|]; cbn [sys_step]; [|done].
    destruct (threads sys !! i) as [pc|]; [|done].
    destruct (worker_step O ex d order (shared sys) pc) as [sh pc'].
    cbn [threads]. by rewrite length_insert. }
  split; [congruence|].
  intros Hno. rewrite Hcancel.
  - destruct a as [i|]; cbn [sys_step].
    + destruct (threads sys !! i) as [pc|]; [|done].
      pose proof (worker_step_cancelled (shared sys) pc) as Hc.
      by destruct (worker_step O ex d order (shared sys) pc) as [sh pc'].
    + destruct Hno. left.
  - intros ?. apply Hno. by right.
Qed.

(** What holds once every worker has returned. *)
Lemma joined_outcome cancelled0 schedule w s :
  let sys := run_schedule O ex d order
               (init_system ex order cancelled0 w s) schedule in
  joined sys = true ->
  (0 < numThreads (config_ ex))%Z ->
  exists events,
    trace (world (shared sys)) = trace w ++ events
    /\ (failed (shared sys) = false <-> status_count "FAILED" events = 0)
    /\ (cancelled0 = false -> CancelRequest ∉ schedule ->
        (failed (shared sys) = false ->
         forall n target, n ∈ order -> d !! n = Some target ->
           succeeded (name_ target) events)
        /\ (stopOnError (config_ ex) = false ->
            forall n target, n ∈ order -> d !! n = Some target ->
              finished_in events (name_ target))).
Proof.
  set (sys0 := init_system ex order cancelled0 w s).
  intros sys Hjoined Hthreads.
  destruct (done_inv_run w sys0 schedule (done_inv_init cancelled0 w s))
    as [Hkeys (events & Ht & Hdone & Hfail & Hcount & Hth)].
  fold sys in Hkeys, Ht, Hdone, Hfail, Hcount, Hth.
  assert (forall i pc, threads sys !! i = Some pc -> pc = Returned) as Hret.
  { intros i pc Hi. unfold joined in Hjoined. rewrite forallb_forall in Hjoined.
    apply list_elem_of_lookup_2, list_elem_of_In, Hjoined in Hi.
    by destruct pc. }
  exists events. split; [done|]. split.
  - split.
    + intros Hf. destruct (status_count "FAILED" events) eqn:Hz; [done|].
      destruct Hcount as [?|(i & nm & Hi)]; [lia|congruence|].
      by apply Hret in Hi.
    + intros Hz. destruct (failed (shared sys)); [|done].
      specialize (Hfail eq_refl). lia.
  - intros -> Hno.
    destruct (run_schedule_threads sys0 schedule) as [Hlen Hc].
    fold sys in Hlen, Hc. specialize (Hc Hno).
    cbn [sys0 init_system shared cancelled threads] in Hlen, Hc.
    rewrite length_replicate in Hlen.
    destruct (threads sys) as [|pc0 rest] eqn:Hpcs; [simpl in Hlen; lia|].
    pose proof (Hth 0 pc0) as H0. rewrite (Hret 0 pc0) in H0 by done.
    specialize (H0 eq_refl). cbn [thread_done] in H0.
    split.
    + intros Hf n target Hn Htg.
      destruct H0 as [?|[[? _]|Hall]]; [congruence|congruence|].
      destruct (Hdone n (Hall n Hn)) as (t & Ht' & _ & Hs).
      assert (t = target) as -> by congruence. by apply Hs.
    + intros Hse n target Hn Htg.
      destruct H0 as [?|[[_ ?]|Hall]]; [congruence|congruence|].
      destruct (Hdone n (Hall n Hn)) as (t & Ht' & Hfin & _).
      by assert (t = target) as -> by congruence.
Qed.

End Result.

Section ResultTheorem.
Import Executor Examples.

(** X16: the multi-threaded strategy returns [true] exactly when no FAILED
    line was printed.  If the build is not cancelled, a [true] result
    means that every target of the order was reported up to date or
    built, and without [stopOnError] every target of the order is
    processed whatever fails. *)
Theorem multi_threaded_result (O : UMapOrder) (ex : Executor.t)
    (d : DAG.t) (cancelled0 : bool) (schedule : list Action) (w : World)
    (s : BuildStats) (order : list string)
    (r : bool * World * BuildStats) :
  (0 < numThreads (config_ ex))%Z ->
  DAG.topologicalSort O d = Some order ->
  executeMultiThreaded O ex d cancelled0 schedule w s = Some r ->
  let events := events_since w r.1.2 in
  (r.1.1 = true <-> status_count "FAILED" events = 0)
  /\ (cancelled0 = false -> CancelRequest ∉ schedule ->
      (r.1.1 = true ->
       forall n target, n ∈ order -> d !! n = Some target ->
         succeeded (name_ target) events)
      /\ (stopOnError (config_ ex) = false ->
          forall n target, n ∈ order -> d !! n = Some target ->
            finished_in events (name_ target))).
Proof.
  intros Hthreads Horder. unfold executeMultiThreaded. rewrite Horder.
  cbn [mbind option_bind].
  pose proof (joined_outcome O ex d order cancelled0 schedule w s) as Hout.
  cbv zeta in Hout.
  destruct (joined _); [|done]. intros [= <-]. cbn [fst snd].
  destruct (Hout eq_refl Hthreads) as (events & Ht & Hfail & Hall).
  rewrite (events_since_app _ _ _ Ht), negb_true_iff.
  split; [done|]. intros Hc Hno. by apply Hall.
Qed.

Lemma multi_threaded_result_witness :
  let r := linear_run (executor 2 false) (round_robin 2 40) in
  let events := events_since fresh_world r.1.2 in
  (r.1.1 = true <-> status_count "FAILED" events = 0)
  /\ (false = false -> CancelRequest ∉ round_robin 2 40 ->
      (r.1.1 = true ->
       forall n target, n ∈ ["A"; "B"; "C"] -> linear !! n = Some target ->
         succeeded (name_ target) events)
      /\ (stopOnError (config_ (executor 2 false)) = false ->
          forall n target, n ∈ ["A"; "B"; "C"] -> linear !! n = Some target ->
            finished_in events (name_ target))).
Proof.
  apply (multi_threaded_result std_order (executor 2 false) linear false
           (round_robin 2 40) fresh_world no_stats ["A"; "B"; "C"]).
  - reflexivity.
  - vm_compute. reflexivity.
  - vm_compute. reflexivity.
Defined.

End ResultTheorem.

(** ** The program: command line and build *)

Section MainProofs.
Import Executor Examples Main.

Lemma flag_keeps arg o :
  numThreads (config (flag arg o)) = numThreads (config o)
  /\ stopOnError (config (flag arg o)) = stopOnError (config o)
  /\ buildFile (flag arg o) = buildFile o
  /\ (command (flag arg o) = command o
      \/ command (flag arg o) = "build" \/ command (flag arg o) = "clean").
Proof.
  unfold flag.
  destruct (_ || _); [cbn; auto|].
  destruct (_ || _); [cbn; auto|].
  destruct (String.eqb arg "--no-color"); [cbn; auto|].
  destruct (String.eqb arg "build"); [cbn; auto 6|].
  destruct (String.eqb arg "clean"); cbn; auto 6.
Qed.

Lemma to_int_range n : (- 2 ^ 31 <= to_int n < 2 ^ 31)%Z.
Proof.
  unfold to_int. pose proof (Z.mod_pos_bound (n + 2 ^ 31) (2 ^ 32)) as H.
  lia.
Qed.

Lemma to_int_small n : (- 2 ^ 31 <= n < 2 ^ 31)%Z -> to_int n = n.
Proof. intros H. unfold to_int. rewrite Z.mod_small; lia. Qed.

Lemma digits_nonneg s acc : (0 <= acc)%Z -> (0 <= digits acc s)%Z.
Proof.
  revert acc. induction s as [|c s IH]; intros acc Hacc; simpl; [done|].
  destruct (digit_value c) as [v|] eqn:Hv; [|done].
  apply IH. unfold digit_value in Hv.
  destruct (_ && _); [|done]. injection Hv as <-. lia.
Qed.

Lemma atoi_number s :
  is_number s = true -> (digits 0 s < 2 ^ 31)%Z -> atoi s = digits 0 s.
Proof.
  intros Hs Hlt. pose proof (digits_nonneg s 0 ltac:(lia)) as Hge.
  unfold atoi, strtol.
  assert (match skip_spaces s with
          | String c rest =>
              if Ascii.eqb c "-" then (- digits 0 rest)%Z
              else if Ascii.eqb c "+" then digits 0 rest
              else digits 0 (String c rest)
          | EmptyString => 0%Z
          end = digits 0 s) as ->.
  { destruct s as [|c rest]; [done|]. simpl in Hs.
    apply andb_true_iff in Hs as [Hc _]. apply bool_decide_eq_true in Hc.
    assert (is_space c = false /\ Ascii.eqb c "-" = false
            /\ Ascii.eqb c "+" = false) as (H1 & H2 & H3).
    { destruct Hc as [v Hv]. unfold digit_value in Hv.
      destruct (_ && _) eqn:E; [|done]. apply andb_true_iff in E as [E1 E2].
      apply Nat.leb_le in E1, E2. split; [|split].
      - unfold is_space.
        destruct (nat_of_ascii c =? 32) eqn:E3;
          [apply Nat.eqb_eq in E3; lia|].
        destruct (9 <=? nat_of_ascii c) eqn:E4; [|done].
        destruct (nat_of_ascii c <=? 13) eqn:E5; [|done].
        apply Nat.leb_le in E5. lia.
      - destruct (Ascii.eqb_spec c "-") as [->|]; [|done].
        vm_compute in E1. lia.
      - destruct (Ascii.eqb_spec c "+") as [->|]; [|done].
        vm_compute in E1. lia. }
    cbn [skip_spaces]. by rewrite H1, H2, H3. }
  unfold LONG_MIN, LONG_MAX. rewrite Z.min_r, Z.max_r by lia.
  apply to_int_small. lia.
Qed.

(** What [std::atoi] reads, also outside the range of [int]. *)
Example atoi_values :
  atoi "8" = 8%Z /\ atoi "  -3" = (-3)%Z /\ atoi "+12abc" = 12%Z
  /\ atoi "jobs" = 0%Z /\ atoi "" = 0%Z
  /\ atoi "4294967298" = 2%Z /\ atoi "-4294967294" = 2%Z
  /\ atoi "2147483648" = (-2147483648)%Z
  /\ atoi "99999999999999999999" = (-1)%Z.
Proof. repeat split; vm_compute; reflexivity. Qed.

Lemma parse_args_keeps args o o' :
  parse_args args o = Some o' ->
  (1 <= numThreads (config o) < 2 ^ 31)%Z ->
  stopOnError (config o) = true ->
  (command o = "build" \/ command o = "clean") ->
  (1 <= numThreads (config o') < 2 ^ 31)%Z
  /\ stopOnError (config o') = true
  /\ (command o' = "build" \/ command o' = "clean").
Proof.
  remember (length args) as n eqn:Hlen.
  assert (length args <= n) as Hle by lia. clear Hlen.
  revert args o Hle. induction n as [|n IH]; intros args o Hle.
  { destruct args; [|simpl in Hle; lia]. by intros [= <-]. }
  destruct args as [|arg rest]; cbn [parse_args].
  { intros [= <-]. done. }
  cbn [length] in Hle.
  destruct (_ || _); [done|].
  assert ((1 <= numThreads (config o) < 2 ^ 31)%Z ->
          stopOnError (config o) = true ->
          (command o = "build" \/ command o = "clean") ->
          (1 <= numThreads (config (flag arg o)) < 2 ^ 31)%Z
          /\ stopOnError (config (flag arg o)) = true
          /\ (command (flag arg o) = "build"
              \/ command (flag arg o) = "clean")) as Hflag.
  { intros Hn Hs Hc. destruct (flag_keeps arg o) as (-> & -> & _ & Hcmd).
    split; [done|]. split; [done|]. destruct Hcmd as [->|[->| ->]]; auto. }
  destruct rest as [|value rest'].
  { intros [= <-] Hn Hs Hc. by apply Hflag. }
  cbn [length] in Hle.
  destruct (String.eqb arg "-f").
  { intros Hrun Hn Hs Hc. apply (IH rest' _ ltac:(lia) Hrun); done. }
  destruct (String.eqb arg "-j").
  { intros Hrun Hn Hs Hc. apply (IH rest' _ ltac:(lia) Hrun); [|done|done].
    unfold set_jobs. cbn. pose proof (to_int_range (strtol value)) as Hint.
    fold (atoi value) in Hint.
    destruct (atoi value <? 1)%Z eqn:Hlt; [lia|].
    apply Z.ltb_ge in Hlt. lia. }
  intros Hrun Hn Hs Hc. destruct (Hflag Hn Hs Hc) as (? & ? & ?).
  apply (IH (value :: rest') _ ltac:(simpl; lia) Hrun); done.
Qed.

(** X17: whatever the arguments, [main] runs with at least one job, a
    number that fits in an [int], and with [stopOnError] set, and its
    command is [build] or [clean]; [-j] gives the number [std::atoi] reads
    from its value -- the value itself when it is a decimal number below
    2^31 -- and one job when that number is below 1 or when the value
    begins, after white space, with no sign and no digit; an argument [main] does not know is ignored, and so
    is [-f] or [-j] with no value after it. *)
Theorem parse_args_options (args : list string) :
  (forall o, parse_args args default_options = Some o ->
     (1 <= numThreads (config o) < 2 ^ 31)%Z
     /\ stopOnError (config o) = true
     /\ (command o = "build" \/ command o = "clean"))
  /\ (forall value o,
        parse_args ["-j"; value] default_options = Some o ->
        numThreads (config o) = Z.max 1 (atoi value)
        /\ (- 2 ^ 31 <= atoi value < 2 ^ 31)%Z
        /\ (is_number value = true -> (digits 0 value < 2 ^ 31)%Z ->
            atoi value = digits 0 value)
        /\ (match skip_spaces value with
            | String c rest =>
                digit_value c = None /\ c <> "-"%char /\ c <> "+"%char
            | EmptyString => True
            end -> numThreads (config o) = 1%Z))
  /\ (forall arg o,
        arg ∉ known_arguments -> parse_args (arg :: args) o = parse_args args o)
  /\ (forall o, parse_args ["-f"] o = Some o /\ parse_args ["-j"] o = Some o).
Proof.
  split; [|split; [|split]].
  - intros o Hrun. apply (parse_args_keeps args default_options o Hrun);
      cbn; auto. lia.
  - intros value o. cbn [parse_args].
    assert (String.eqb "-j" "-h" || String.eqb "-j" "--help" = false) as ->
      by reflexivity.
    assert (String.eqb "-j" "-f" = false) as -> by reflexivity.
    assert (String.eqb "-j" "-j" = true) as -> by reflexivity.
    intros [= <-]. unfold set_jobs. cbn [config set_config numThreads].
    assert ((if (atoi value <? 1)%Z then 1%Z else atoi value)
            = Z.max 1 (atoi value)) as ->.
    { destruct (atoi value <? 1)%Z eqn:Hlt.
      - apply Z.ltb_lt in Hlt. lia.
      - apply Z.ltb_ge in Hlt. lia. }
    split; [done|]. split; [apply to_int_range|]. split; [apply atoi_number|].
    intros Hnone.
    assert (atoi value = 0%Z) as ->; [|done].
    unfold atoi, strtol. destruct (skip_spaces value) as [|c rest]; [done|].
    destruct Hnone as (Hd & Hm & Hp).
    apply Ascii.eqb_neq in Hm, Hp. rewrite Hm, Hp.
    cbn [digits]. by rewrite Hd.
  - intros arg o Hknown. unfold known_arguments in Hknown.
    rewrite !not_elem_of_cons in Hknown.
    destruct Hknown as (H1 & H2 & H3 & H4 & H5 & H6 & H7 & H8 & H9 & H10
      & H11 & _).
    apply String.eqb_neq in H1, H2, H3, H4, H5, H6, H7, H8, H9, H10, H11.
    assert (flag arg o = o) as Hflag.
    { unfold flag. by rewrite H5, H6, H7, H8, H9, H10, H11. }
    cbn [parse_args]. rewrite H1, H2, H3, H4, Hflag. cbn [orb].
    by destruct args.
  - intros o. split; reflexivity.
Qed.

(** *** The build *)

Lemma add_targets_registered (targets : list Target) t :
  t ∈ targets ->
  exists t', add_targets targets !! name_ t = Some t' /\ name_ t' = name_ t.
Proof.
  intros Hin. unfold add_targets. rewrite add_targets_lookup, lookup_empty.
  destruct (List.find _ targets) as [t'|] eqn:Hfind.
  - exists t'. split; [done|]. apply find_some in Hfind as [_ Heq].
    by apply String.eqb_eq in Heq.
  - apply list_elem_of_In in Hin. apply (find_none _ _ Hfind t) in Hin.
    by rewrite String.eqb_refl in Hin.
Qed.

(** In a graph that has passed the checks of [main], and in which no
    target lists a dependency twice, the sort lists every target. *)
Lemma checked_graph_sorted O (d : DAG.t) order n :
  DAG.validateDependencies O d = [] ->
  ~ DAG.has_cycle d ->
  DAG.no_duplicate_dependencies d ->
  DAG.topologicalSort O d = Some order ->
  is_Some (d !! n) -> n ∈ order.
Proof.
  intros Hvalid Hacyclic Hnodup Hsort Hn.
  apply (topologicalSort_members O d order Hsort).
  assert (DAG.dependency_closed d) as Hclosed.
  { intros a b Hab. destruct (d !! b) eqn:Hb; [eauto|].
    assert (b ∈ DAG.validateDependencies O d) as Hin
      by (apply elem_of_validateDependencies; eauto).
    rewrite Hvalid in Hin. by apply elem_of_nil in Hin. }
  intros m Hnm.
  assert (is_Some (d !! m)) as [t Ht].
  { induction Hnm as [|a b c Hab _ IH]; [done|]. apply IH.
    by eapply Hclosed. }
  split.
  - exists t. split; [done|]. by eapply Hnodup.
  - intros Hcyc. apply Hacyclic. by exists m.
Qed.

(** X18: when [main] returns 0 for a build file in which no target lists a
    dependency twice, every parsed target has been reported up to date
    or built. *)
Theorem main_exit_zero (O : UMapOrder) (config : ExecutorConfig)
    (runner : string -> FileSystem -> bool * FileSystem)
    (schedule : list nat) (targets : list Target) (fs fs' : FileSystem)
    (events : list Event) :
  build O config runner schedule targets fs = Some (0%Z, fs', events) ->
  DAG.no_duplicate_dependencies (add_targets targets) ->
  forall t, t ∈ targets -> succeeded (name_ t) events.
Proof.
  unfold build. destruct targets as [|t0 targets0] eqn:Htargets; [done|].
  rewrite <- Htargets. clear Htargets t0 targets0.
  set (dag := add_targets targets).
  destruct (DAG.validateDependencies O dag) eqn:Hvalid; [|done].
  destruct (detect_sound_complete dag O) as (cr & -> & Hcycle & _).
  destruct (DAG.hasCycle cr) eqn:Hcr; [done|].
  assert (~ DAG.has_cycle dag) as Hacyclic.
  { intros H. apply Hcycle in H. congruence. }
  set (ex := {| config_ := config; commandRunner_ := runner;
                progressCallback_ := false |}).
  set (w0 := {| Executor.fs := fs;
                cache := (Cache.load fs (Cache.make ".mimir")).2;
                trace := [] |}).
  unfold executeWithStats, executeSingleThreaded, executeMultiThreaded.
  destruct (topologicalSort_sound O dag) as (order & Hsort & _).
  rewrite Hsort. cbn [mbind option_bind].
  assert (forall ok w,
    trace w = trace w0 ++ trace w ->
    (ok = true ->
     forall n target, n ∈ order -> dag !! n = Some target ->
       succeeded (name_ target) (trace w)) ->
    (if ok then 0%Z else 1%Z) = 0%Z ->
    DAG.no_duplicate_dependencies dag ->
    forall t, t ∈ targets -> succeeded (name_ t) (trace w)) as Hall.
  { intros ok w _ Hok Hcode Hnodup t Ht. destruct ok; [|done].
    destruct (add_targets_registered targets t Ht) as (t' & Hreg & <-).
    apply (Hok eq_refl (name_ t)); [|done].
    apply (checked_graph_sorted O dag order); eauto. }
  cbn [config_ ex cancel_reads cancelled0 Executor.schedule].
  destruct (numThreads config <=? 1)%Z eqn:Hthreads.
  - destruct (single_loop_outcome ex dag (fun _ => false) order 0 w0
                (set_total no_stats (length order)))
      as (es & Ht & _ & Hok & _).
    destruct (single_loop ex dag (fun _ => false) order 0 w0 _)
      as [[ok w] stats]. cbn [fst snd] in *.
    intros [= Hcode _ <-]. cbn [w0 trace app] in Ht. subst es.
    apply (Hall ok w); [done| |done]. intros Hr. by apply Hok.
  - pose proof (joined_outcome O ex dag order false (Run <$> schedule) w0
                  no_stats) as Hout.
    cbv zeta in Hout. destruct (joined _); [|done].
    destruct (Hout eq_refl) as (es & Ht & _ & Hgood).
    { apply Z.leb_gt in Hthreads. cbn. lia. }
    intros [= Hcode _ <-]. cbn [w0 trace app] in Ht.
    destruct Hgood as [Hgood _]; [done| |].
    { intros [? [? _]]%list_elem_of_fmap. done. }
    rewrite <- Ht in Hgood.
    apply (Hall (negb (failed (shared
             (run_schedule O ex dag order
                (init_system ex order false w0 no_stats)
                (Run <$> schedule))))));
      [by rewrite Ht at 1|intros ?%negb_true_iff; by apply Hgood|done].
Qed.

Lemma main_exit_zero_witness :
  Forall (fun t => succeeded (name_ t) main_run.2) linear_targets.
Proof.
  apply Forall_forall.
  apply (main_exit_zero std_order default_config (fun _ fs => (true, fs)) []
           linear_targets empty_fs main_run.1.2 main_run.2).
  - vm_compute. reflexivity.
  - apply nodup_check_spec. vm_compute. reflexivity.
Defined.

End MainProofs.

(** ** The mock command runner *)

Section MockProofs.
Import CommandRunner MockCommandRunner.

Lemma runSimple_state m command :
  (runSimple m command).2
  = {| defaultResult_ := defaultResult_ m;
       commandResults_ := commandResults_ m;
       handler_ := handler_ m;
       lastCommand_ := command;
       commandCount_ := S (commandCount_ m) |}.
Proof.
  unfold runSimple, run. cbn [handler_ commandResults_ defaultResult_].
  destruct (handler_ m); [done|].
  by destruct (commandResults_ m !! command).
Qed.

(** X19: the mock counts every command it is given and remembers the last
    one, whatever result it is set up to give; running commands changes
    nothing else. *)
Theorem mock_counts_commands (m : t) (commands : list string) :
  getCommandCount (run_all m commands)
  = getCommandCount m + length commands
  /\ getLastCommand (run_all m commands)
     = default (getLastCommand m) (last commands)
  /\ defaultResult_ (run_all m commands) = defaultResult_ m
  /\ commandResults_ (run_all m commands) = commandResults_ m
  /\ handler_ (run_all m commands) = handler_ m.
Proof.
  unfold run_all, getCommandCount, getLastCommand. revert m.
  induction commands as [|command commands IH]; intros m.
  - cbn. repeat split; lia.
  - cbn [foldl]. rewrite runSimple_state.
    destruct (IH {| defaultResult_ := defaultResult_ m;
                    commandResults_ := commandResults_ m;
                    handler_ := handler_ m;
                    lastCommand_ := command;
                    commandCount_ := S (commandCount_ m) |})
      as (-> & -> & -> & -> & ->).
    cbn [commandCount_ lastCommand_ defaultResult_ commandResults_ handler_
         length].
    split; [lia|]. split; [|done].
    destruct commands as [|c2 commands]; [done|].
    rewrite (last_cons command). by destruct (last (c2 :: commands)).
Qed.

Lemma run_result m command options :
  (run m command options).1
  = match handler_ m with
    | Some handler => handler command options
    | None => default (defaultResult_ m) (commandResults_ m !! command)
    end.
Proof.
  unfold run. cbn [handler_ commandResults_ defaultResult_].
  destruct (handler_ m); [done|].
  by destruct (commandResults_ m !! command).
Qed.

(** X20: which result the mock gives: the handler's if one is set, else the
    result set for the command, else the default; a fresh or reset mock
    lets every command succeed. *)
Theorem mock_result_priority (m : t) (command : string)
    (options : CommandOptions) (result : CommandResult) :
  (forall handler,
     (run (setHandler m (Some handler)) command options).1
     = handler command options)
  /\ (handler_ m = None ->
      (run (setResultFor m command result) command options).1 = result
      /\ (forall other, other <> command ->
            (run (setResultFor m command result) other options).1
            = (run m other options).1)
      /\ (commandResults_ m !! command = None ->
          (run (setDefaultResult m result) command options).1 = result))
  /\ (runSimple make command).1 = true
  /\ reset m = make
  /\ (runSimple m command).1 = success (run m command default_options).1.
Proof.
  split; [intros handler; by rewrite run_result|]. split.
  - intros Hnone. rewrite !run_result. unfold setResultFor, setDefaultResult.
    cbn [handler_ commandResults_ defaultResult_]. rewrite Hnone.
    split; [by rewrite lookup_insert_eq|]. split.
    + intros other Hne. rewrite !run_result.
      cbn [handler_ commandResults_ defaultResult_].
      by rewrite Hnone, lookup_insert_ne.
    + by intros ->.
  - split; [done|]. split; [done|].
    unfold runSimple. by destruct (run m command default_options).
Qed.

End MockProofs.

(** ** Parser: variables, expressions and patterns *)

Section ParserStrings.
Import Parser Examples.

Lemma str_app_nil_l (s : string) : "" +:+ s = s.
Proof. reflexivity. Qed.

Lemma span_app p a b :
  all_chars p a = true ->
  match b with String c _ => p c = false | EmptyString => True end ->
  span p (a +:+ b) = (a, b).
Proof.
  intros Ha Hb. induction a as [|x a IH]; simpl in *.
  - destruct b as [|c b]; [done|]. simpl. by rewrite Hb.
  - apply andb_true_iff in Ha as [-> Ha]. by rewrite IH.
Qed.

Lemma span1_app p a b :
  a <> "" -> all_chars p a = true ->
  match b with String c _ => p c = false | EmptyString => True end ->
  span1 p (a +:+ b) = Some (a, b).
Proof.
  intros Hne Ha Hb. unfold span1. rewrite span_app by done.
  by destruct a.
Qed.

Lemma span_stop p c s : p c = false -> span p (String c s) = ("", String c s).
Proof. intros H. simpl. by rewrite H. Qed.

Lemma literal_app lit s : literal lit (lit +:+ s) = Some s.
Proof.
  induction lit as [|c lit IH]; simpl; [done|]. by rewrite Ascii.eqb_refl.
Qed.

Lemma word_not_space c : is_word c = true -> is_space c = false.
Proof.
  unfold is_word, is_space. intros H.
  destruct (nat_of_ascii c =? 32) eqn:E1.
  { apply Nat.eqb_eq in E1. rewrite E1 in H. done. }
  destruct ((9 <=? nat_of_ascii c) && (nat_of_ascii c <=? 13)) eqn:E2; [|done].
  apply andb_true_iff in E2 as [E2 E3].
  apply Nat.leb_le in E2, E3.
  repeat (apply orb_true_iff in H as [H|H]);
    repeat (apply andb_true_iff in H as [? H]);
    repeat match goal with
           | H : (_ <=? _) = true |- _ => apply Nat.leb_le in H
           | H : (_ =? _) = true |- _ => apply Nat.eqb_eq in H
           end; lia.
Qed.

Lemma all_chars_neg_find c s :
  all_chars (fun x => negb (Ascii.eqb x c)) s = true <-> Cache.find c s = None.
Proof.
  induction s as [|x s IH]; simpl; [done|].
  destruct (Ascii.eqb x c); simpl; [done|].
  rewrite IH. by destruct (Cache.find c s).
Qed.

End ParserStrings.

Section Expansion.
Import Parser Examples.
Context (vars cfg : gmap string string).

Lemma ternary_expr_word name : word name -> ternary_expr name = None.
Proof.
  intros [Hne Hall]. unfold ternary_expr.
  destruct name as [|c name]; [done|].
  pose proof Hall as Hc. simpl in Hc. apply andb_true_iff in Hc as [Hc _].
  rewrite span_stop by by apply word_not_space. cbn [snd].
  rewrite <- (str_app_nil_r (String c name)).
  rewrite span1_app by done. done.
Qed.

Lemma evaluateExpression_word name :
  word name -> evaluateExpression name vars cfg = default name (vars !! name).
Proof.
  intros H. unfold evaluateExpression. rewrite ternary_expr_word by done.
  by destruct (vars !! name).
Qed.

Lemma match_var_written name rest :
  word name -> match_var (written (Var name) +:+ rest) = Some (name, rest).
Proof.
  intros [Hne Hall]. unfold match_var, written.
  rewrite !str_app_assoc, literal_app. cbn [mbind option_bind].
  rewrite span1_app by done. cbn [mbind option_bind].
  by rewrite (literal_app "}" rest).
Qed.

Lemma match_expr_written expr rest :
  expr <> "" -> Cache.find "}" expr = None ->
  match_expr (written (Expr expr) +:+ rest) = Some (expr, rest).
Proof.
  intros Hne Hfind. unfold match_expr, written.
  rewrite !str_app_assoc, literal_app. cbn [mbind option_bind].
  rewrite span1_app; [|done|by apply all_chars_neg_find|done].
  cbn [mbind option_bind]. by rewrite (literal_app "}}" rest).
Qed.

Lemma match_var_dollar c s : c <> "$"%char -> match_var (String c s) = None.
Proof.
  intros Hc. unfold match_var. cbn [literal].
  destruct (Ascii.eqb_spec "$" c) as [<-|]; done.
Qed.

Lemma match_expr_dollar c s : c <> "$"%char -> match_expr (String c s) = None.
Proof.
  intros Hc. unfold match_expr. cbn [literal].
  destruct (Ascii.eqb_spec "$" c) as [<-|]; done.
Qed.

Lemma regex_search_here m s group after :
  m s = Some (group, after) -> regex_search m s = Some ("", group, after).
Proof. intros H. destruct s; simpl; by rewrite H. Qed.

Lemma inert_nil m : inert m "".
Proof.
  intros rest. change ("" +:+ rest) with rest.
  destruct (regex_search m rest) as [[[b g] a]|]; reflexivity.
Qed.

Lemma inert_app m a b : inert m a -> inert m b -> inert m (a +:+ b).
Proof.
  intros Ha Hb rest. rewrite str_app_assoc, Ha, Hb.
  destruct (regex_search m rest) as [[[x g] y]|]; simpl; [|done].
  by rewrite str_app_assoc.
Qed.

Lemma inert_text m s :
  (forall c rest, c <> "$"%char -> m (String c rest) = None) ->
  no_dollar s -> inert m s.
Proof.
  intros Hm. unfold no_dollar. induction s as [|c s IH]; intros Hs.
  - apply inert_nil.
  - simpl in Hs. destruct (Ascii.eqb_spec c "$") as [|Hc]; [done|].
    destruct (Cache.find "$" s) eqn:E; [done|].
    intros rest. simpl. rewrite Hm by done. rewrite IH by done.
    destruct (regex_search m rest) as [[[x g] y]|]; done.
Qed.

Lemma inert_expr_var expr :
  no_dollar expr -> inert match_var (written (Expr expr)).
Proof.
  intros He rest.
  assert (inert match_var ("{{" +:+ (expr +:+ "}}"))) as Hin.
  { apply inert_text; [apply match_var_dollar|].
    unfold no_dollar in *.
    change (S <$> (S <$> Cache.find "$" (expr +:+ "}}")) = None).
    rewrite find_app_None; done. }
  change (written (Expr expr) +:+ rest)
    with (String "$" (("{{" +:+ (expr +:+ "}}")) +:+ rest)).
  cbn [regex_search]. rewrite Hin.
  assert (match_var (String "$" (("{{" +:+ (expr +:+ "}}")) +:+ rest)) = None)
    as -> by done.
  destruct (regex_search match_var rest) as [[[x g] y]|]; done.
Qed.

(** One loop of [expandVariables] over pieces: the active ones are
    replaced from left to right. *)
Lemma expand_loop_pieces m (active : Piece -> bool) (group : Piece -> string)
    pieces :
  m "" = None ->
  forall pre fuel,
  inert m pre ->
  Forall (fun p =>
            if active p
            then (forall rest, m (written p +:+ rest) = Some (group p, rest))
                 /\ inert m (evaluateExpression (group p) vars cfg)
            else inert m (written p)) pieces ->
  length pieces <= fuel ->
  expand_loop fuel m vars cfg (pre +:+ text_of pieces)
  = Some (pre +:+ foldr (fun p s =>
                           (if active p
                            then evaluateExpression (group p) vars cfg
                            else written p) +:+ s) "" pieces).
Proof.
  intros Hnil.
  induction pieces as [|p pieces IH]; intros pre fuel Hpre Hall Hfuel.
  - cbn [text_of foldr].
    destruct fuel; cbn [expand_loop]; rewrite Hpre; cbn [regex_search];
      by rewrite Hnil.
  - apply Forall_cons in Hall as [Hp Hall]. simpl in Hfuel.
    cbn [text_of foldr]. fold (text_of pieces).
    destruct (active p).
    + destruct Hp as [Hm Hv]. destruct fuel as [|fuel]; [lia|].
      cbn [expand_loop]. rewrite Hpre.
      rewrite (regex_search_here _ _ (group p) (text_of pieces)) by done.
      cbn [fmap option_fmap option_map fst snd]. rewrite str_app_nil_r.
      rewrite <- str_app_assoc. rewrite IH; [|by apply inert_app|done|lia].
      by rewrite str_app_assoc.
    + rewrite <- str_app_assoc. rewrite IH; [|by apply inert_app|done|lia].
      by rewrite str_app_assoc.
Qed.

Lemma substitutable_var_loop pieces :
  Forall (substitutable vars cfg) pieces ->
  Forall (fun p =>
            if (match p with Var _ => true | _ => false end)
            then (forall rest,
                    match_var (written p +:+ rest)
                    = Some (match p with Var n => n | _ => "" end, rest))
                 /\ inert match_var
                      (evaluateExpression
                         (match p with Var n => n | _ => "" end) vars cfg)
            else inert match_var (written p)) pieces.
Proof.
  intros Hall. eapply Forall_impl; [exact Hall|].
  intros [s|name|expr] [Hv Hp]; simpl in *.
  - apply inert_text; [apply match_var_dollar|done].
  - split; [intros rest; by apply match_var_written|].
    rewrite evaluateExpression_word by done.
    apply inert_text; [apply match_var_dollar|done].
  - destruct Hp as (_ & _ & Hd). by apply inert_expr_var.
Qed.

(** The pieces after the first loop. *)
Lemma first_loop_result pieces :
  foldr (fun p s =>
           (if (match p with Var _ => true | _ => false end)
            then evaluateExpression
                   (match p with Var n => n | _ => "" end) vars cfg
            else written p) +:+ s) "" pieces
  = text_of ((fun p => match p with
                       | Var n => Text (evaluateExpression n vars cfg)
                       | _ => p
                       end) <$> pieces).
Proof.
  induction pieces as [|[s|n|e] pieces IH]; simpl; [done|..];
    by rewrite IH.
Qed.

End Expansion.

Section ExpansionTheorems.
Import Parser Examples.

(** X21: a text whose references and values hold no [$] is expanded by plain
    substitution: each [${name}] becomes the value of [name], or [name]
    itself when no such variable is set, and each [${{expr}}] the value of
    the expression; as many replacements as there are pieces suffice. *)
Theorem expandVariables_substitutes (vars cfg : gmap string string)
    (pieces : list Piece) (fuel : nat) :
  Forall (substitutable vars cfg) pieces ->
  length pieces <= fuel ->
  expandVariables fuel (text_of pieces) vars cfg
  = Some (foldr (fun p s => expanded vars cfg p +:+ s) "" pieces).
Proof.
  intros Hall Hfuel. unfold expandVariables.
  pose proof (expand_loop_pieces vars cfg match_var
                (fun p => match p with Var _ => true | _ => false end)
                (fun p => match p with Var n => n | _ => "" end)
                pieces eq_refl "" fuel (inert_nil _)
                (substitutable_var_loop vars cfg pieces Hall) Hfuel) as H1.
  rewrite !str_app_nil_l in H1. rewrite H1. cbn [mbind option_bind].
  rewrite first_loop_result.
  set (pieces' := _ <$> pieces).
  pose proof (expand_loop_pieces vars cfg match_expr
                (fun p => match p with Expr _ => true | _ => false end)
                (fun p => match p with Expr e => e | _ => "" end)
                pieces' eq_refl "" fuel (inert_nil _)) as H2.
  rewrite !str_app_nil_l in H2. rewrite H2.
  - f_equal. subst pieces'. clear -Hall.
    induction Hall as [|p pieces [Hv Hp] _ IH]; [done|].
    rewrite fmap_cons. cbn [foldr]. rewrite IH.
    destruct p as [s|n|e]; cbn [expanded written]; [done| |done].
    by rewrite evaluateExpression_word.
  - subst pieces'. clear -Hall.
    induction Hall as [|[s|n|e] pieces [Hv Hp] _ IH]; [done|..];
      rewrite fmap_cons; constructor; try done; cbn [expanded written] in *.
    + apply inert_text; [apply match_expr_dollar|done].
    + apply inert_text; [apply match_expr_dollar|].
      by rewrite evaluateExpression_word.
    + destruct Hp as (Hne & Hclose & Hd).
      split; [intros rest; by apply match_expr_written|].
      apply inert_text; [apply match_expr_dollar|done].
  - subst pieces'. by rewrite length_fmap.
Qed.

Lemma expandVariables_substitutes_witness :
  expandVariables 7 (text_of compile_command) flags debug_mode
  = Some "gcc -Wall -O2 -g -c SRC".
Proof.
  apply (expandVariables_substitutes flags debug_mode compile_command 7).
  - repeat constructor; vm_compute; done.
  - vm_compute. lia.
Defined.

(** X22: a variable whose value refers to the variable itself is expanded
    for ever: whatever the number of replacements allowed, the first loop
    of [expandVariables] has not finished. *)
Theorem expandVariables_self_reference (vars cfg : gmap string string)
    (name before after : string) (fuel : nat) :
  word name ->
  no_dollar before ->
  vars !! name = Some (written (Var name)) ->
  expandVariables fuel (before +:+ written (Var name) +:+ after) vars cfg
  = None.
Proof.
  intros Hname Hbefore Hvalue. unfold expandVariables.
  assert (expand_loop fuel match_var vars cfg
            (before +:+ written (Var name) +:+ after) = None) as ->; [|done].
  assert (regex_search match_var
            (before +:+ written (Var name) +:+ after)
          = Some (before, name, after)) as Hsearch.
  { rewrite (inert_text match_var before match_var_dollar Hbefore).
    rewrite (regex_search_here _ _ name after)
      by by apply match_var_written.
    cbn [fmap option_fmap option_map fst snd]. by rewrite str_app_nil_r. }
  induction fuel as [|fuel IH]; cbn [expand_loop]; rewrite Hsearch; [done|].
  rewrite evaluateExpression_word, Hvalue by done. cbn [default]. done.
Qed.

Lemma expandVariables_self_reference_witness :
  expandVariables 1000 "gcc ${CC} main.c" {[ "CC" := "${CC}" ]} ∅ = None.
Proof.
  apply (expandVariables_self_reference {[ "CC" := "${CC}" ]} ∅ "CC" "gcc "
           " main.c" 1000); vm_compute; [split|..]; done.
Defined.

(** X23: a ternary expression takes the first variable when the configuration
    key has the quoted value and the second one otherwise; a variable that
    is not set gives the empty text, where a plain reference gives the
    name. *)
Theorem evaluateExpression_ternary (vars cfg : gmap string string)
    (varTrue cfgKey cfgVal varFalse : string) :
  word varTrue -> word cfgKey -> word varFalse ->
  cfgVal <> "" -> Cache.find quote cfgVal = None ->
  evaluateExpression (ternary varTrue cfgKey cfgVal varFalse) vars cfg
  = if bool_decide (cfg !! cfgKey = Some cfgVal)
    then default "" (vars !! varTrue)
    else default "" (vars !! varFalse).
Proof.
  intros [Ha1 Ha2] [Hk1 Hk2] [Hb1 Hb2] Hv1 Hv2.
  assert (forall s, word s -> exists c s', s = String c s' /\ is_space c = false)
    as Hhead.
  { intros [|c s'] [Hs1 Hs2]; [done|]. exists c, s'. split; [done|].
    simpl in Hs2. apply andb_true_iff in Hs2 as [Hs2 _].
    by apply word_not_space. }
  assert (ternary_expr (ternary varTrue cfgKey cfgVal varFalse)
          = Some (varTrue, cfgKey, cfgVal, varFalse)) as Hmatch.
  { unfold ternary_expr, ternary.
    destruct (Hhead varTrue) as (c & a' & Ea & Hc); [done|].
    rewrite Ea at 1. change (String c a' +:+ ?x) with (String c (a' +:+ x)).
    rewrite span_stop by done. cbn [snd].
    change (String c (a' +:+ ?x)) with (String c a' +:+ x). rewrite <- Ea.
    rewrite span1_app by done. cbn [mbind option_bind].
    rewrite span1_app by done. cbn [mbind option_bind].
    rewrite literal_app. cbn [mbind option_bind].
    rewrite span1_app by done. cbn [mbind option_bind].
    rewrite literal_app. cbn [mbind option_bind].
    rewrite span1_app by done. cbn [mbind option_bind].
    rewrite span_app by done. cbn [snd].
    rewrite literal_app. cbn [mbind option_bind].
    rewrite span_app by done. cbn [snd].
    rewrite literal_app. cbn [mbind option_bind].
    rewrite span1_app; [|done|by apply all_chars_neg_find|done].
    cbn [mbind option_bind].
    rewrite literal_app. cbn [mbind option_bind].
    rewrite span_app by done. cbn [snd].
    rewrite literal_app. cbn [mbind option_bind].
    destruct (Hhead varFalse) as (c' & b' & Eb & Hc'); [done|].
    rewrite span_app; [|done|by rewrite Eb]. cbn [snd].
    rewrite <- (str_app_nil_r varFalse) at 1.
    rewrite span1_app by done. done. }
  unfold evaluateExpression. by rewrite Hmatch.
Qed.

Lemma evaluateExpression_ternary_witness :
  evaluateExpression (ternary "DEBUG" "mode" "debug" "CFLAGS") flags debug_mode
  = "-g"
  /\ evaluateExpression (ternary "DEBUG" "mode" "release" "OPT") flags
       debug_mode = "".
Proof.
  split.
  - apply (evaluateExpression_ternary flags debug_mode "DEBUG" "mode" "debug"
             "CFLAGS"); vm_compute; try split; done.
  - apply (evaluateExpression_ternary flags debug_mode "DEBUG" "mode"
             "release" "OPT"); vm_compute; try split; done.
Defined.

End ExpansionTheorems.

Section Globs.
Import Parser Examples.

Lemma find_str_app pattern c base rest :
  front pattern = Some c ->
  Cache.find c base = None ->
  find_str pattern (base +:+ pattern +:+ rest) = Some (String.length base).
Proof.
  intros Hc. induction base as [|x base IH]; intros Hbase.
  - rewrite str_app_nil_l.
    assert (starts_with pattern (pattern +:+ rest) = true) as Hp.
    { clear. induction pattern as [|a p IH]; simpl; [done|].
      by rewrite Ascii.eqb_refl. }
    destruct (pattern +:+ rest); simpl in *; by rewrite Hp.
  - simpl in Hbase. destruct (Ascii.eqb_spec x c) as [|Hx]; [done|].
    destruct (Cache.find c base) eqn:E; [done|].
    destruct pattern as [|a p]; [done|]. injection Hc as ->.
    change (String x base +:+ ?y) with (String x (base +:+ y)).
    cbn [find_str starts_with].
    destruct (Ascii.eqb_spec c x) as [->|_]; [done|].
    by rewrite IH.
Qed.

Lemma find_str_none pattern c s :
  front pattern = Some c -> Cache.find c s = None -> find_str pattern s = None.
Proof.
  intros Hc. destruct pattern as [|a p]; [done|]. injection Hc as ->.
  induction s as [|x s IH]; intros Hs; [done|].
  simpl in Hs. destruct (Ascii.eqb_spec x c) as [|Hx]; [done|].
  destruct (Cache.find c s) eqn:E; [done|].
  cbn [find_str starts_with].
  destruct (Ascii.eqb_spec c x) as [->|_]; [done|]. by rewrite IH.
Qed.

(** X24: a pattern with [**] lists all the regular files below the text before
    the [**]: what follows the [**] plays no role.  A pattern without [*]
    is not a pattern: it is the path itself when it exists. *)
Theorem expandGlob_ignores_suffix (disk : Disk) (base rest : string) :
  Cache.find "*" base = None ->
  expandGlob disk (base +:+ "**" +:+ rest)
  = (if exists_ disk base then regular_files disk base else [])
  /\ expandGlob disk base = if exists_ disk base then [base] else [].
Proof.
  intros Hbase. unfold expandGlob. split.
  - rewrite (find_str_app "**" "*") by done.
    unfold Cache.substr. cbn [Cache.str_drop]. by rewrite str_take_app.
  - by rewrite (find_str_none "**" "*").
Qed.

Lemma expandGlob_ignores_suffix_witness :
  expandGlob sources_disk "src/**/*.c" = ["src/main.c"; "src/README"]
  /\ expandGlob sources_disk "src/" = ["src/"].
Proof.
  apply (expandGlob_ignores_suffix sources_disk "src/" "/*.c"). done.
Defined.

Lemma concat_expandGlob disk l :
  Forall (fun p => find_str "**" p = None) l ->
  concat (expandGlob disk <$> l) = List.filter (exists_ disk) l.
Proof.
  induction 1 as [|p l Hp _ IH]; [done|].
  rewrite fmap_cons. cbn [concat List.filter]. rewrite IH.
  unfold expandGlob at 1. rewrite Hp. by destruct (exists_ disk p).
Qed.

(** X25: in the command of a YAML target, [${inputs}], [${outputs}] and
    [${dependencies}] stand for those of the declared names that exist on
    disk when the file is parsed, whatever a variable of that name was set
    to. *)
Theorem yaml_list_variables_existing_only (disk : Disk)
    (vars : gmap string string) (t : Target) :
  Forall (fun p => find_str "**" p = None)
         (inputs_ t ++ outputs_ t ++ dependencies_ t) ->
  let tmpVars := expandAllLists disk vars t in
  tmpVars !! "inputs" = Some (joinList (List.filter (exists_ disk) (inputs_ t)))
  /\ tmpVars !! "outputs"
     = Some (joinList (List.filter (exists_ disk) (outputs_ t)))
  /\ tmpVars !! "dependencies"
     = Some (joinList (List.filter (exists_ disk) (dependencies_ t))).
Proof.
  intros Hall. apply Forall_app in Hall as [Hi Hall].
  apply Forall_app in Hall as [Ho Hd].
  unfold expandAllLists. cbn zeta.
  rewrite !concat_expandGlob by done.
  repeat split.
  - rewrite lookup_insert_ne, lookup_insert_ne, lookup_insert_eq; done.
  - rewrite lookup_insert_ne, lookup_insert_eq; done.
  - by rewrite lookup_insert_eq.
Qed.

Lemma yaml_list_variables_existing_only_witness :
  expandAllLists sources_disk flags compile_main !! "inputs"
  = Some "src/main.c"
  /\ expandAllLists sources_disk flags compile_main !! "outputs" = Some ""
  /\ expandAllLists sources_disk flags compile_main !! "dependencies"
     = Some "".
Proof.
  apply (yaml_list_variables_existing_only sources_disk flags compile_main).
  repeat constructor.
Defined.

End Globs.

(** ** Parser: what a parse returns *)

Section ParserResults.
Import Parser Examples.

Lemma set_expanded_command_targets disk fuel st text st' :
  set_expanded_command disk fuel st text = Some st' ->
  targets st' = targets st /\ inTarget st' = inTarget st
  /\ name_ (current st') = name_ (current st).
Proof.
  unfold set_expanded_command. intros H.
  destruct (expandVariables _ _ _ _); simplify_eq/=. done.
Qed.

Lemma push_current_named st :
  Forall named (targets st) -> Forall named (push_current st).
Proof.
  intros H. unfold push_current.
  destruct (inTarget st); simpl; [|done].
  destruct (String.eqb_spec (name_ (current st)) ""); simpl; [done|].
  apply Forall_app. split; [done|]. by constructor.
Qed.

Lemma yaml_key_value_targets disk fuel st indent key value st' :
  yaml_key_value disk fuel st indent key value = Some st' ->
  targets st' = targets st.
Proof.
  unfold yaml_key_value.
  destruct (String.eqb key "name"); [by intros [= <-]|].
  destruct (String.eqb key "command").
  { destruct (_ || _); [by intros [= <-]|].
    destruct (set_expanded_command _ _ _ _) as [st1|] eqn:E; [|done].
    apply set_expanded_command_targets in E as (E & _).
    by intros [= <-]. }
  destruct (String.eqb key "inputs"); [by intros [= <-]|].
  destruct (String.eqb key "outputs"); [by intros [= <-]|].
  destruct (String.eqb key "dependencies"); by intros [= <-].
Qed.

Lemma yaml_plain_line_named disk fuel st line st' :
  yaml_plain_line disk fuel st line = Some st' ->
  Forall named (targets st) -> Forall named (targets st').
Proof.
  intros H Hall. pose proof (push_current_named st Hall) as Hpush.
  unfold yaml_plain_line in H.
  destruct (_ || _); [by simplify_eq|].
  destruct (find_first_not_of blanks line) as [indent|]; [|by simplify_eq].
  cbv zeta in H.
  destruct (_ && _); [by simplify_eq|].
  destruct (_ && _); [by simplify_eq|].
  destruct (_ && _); [by simplify_eq|].
  destruct (if String.eqb (currentSection st) "" then None else _)
    as [colonPos|].
  { destruct (String.eqb (currentSection st) "variables"); [by simplify_eq|].
    destruct (String.eqb (currentSection st) "config"); by simplify_eq. }
  destruct (_ && _); [by simplify_eq|].
  destruct (negb (inTarget st)); [by simplify_eq|].
  destruct (Cache.find ":" _) as [colonPos|].
  { apply yaml_key_value_targets in H. by rewrite H. }
  destruct (_ && _); by simplify_eq.
Qed.

Lemma yaml_line_named disk fuel st line st' :
  yaml_line disk fuel st line = Some st' ->
  Forall named (targets st) -> Forall named (targets st').
Proof.
  unfold yaml_line, end_block. intros H Hall.
  destruct (readingMultilineCommand st);
    [|by eapply yaml_plain_line_named].
  destruct (in_block st line); simplify_eq/=; [done|].
  destruct (set_expanded_command _ _ _ _) eqn:E; simplify_eq/=.
  apply set_expanded_command_targets in E as (E & _).
  eapply yaml_plain_line_named; [done|]. simpl. by rewrite E.
Qed.

Lemma yaml_lines_named disk fuel lines :
  forall st st',
  yaml_lines disk fuel st lines = Some st' ->
  Forall named (targets st) -> Forall named (targets st').
Proof.
  induction lines as [|line lines IH]; intros st st' H Hall; simplify_eq/=;
    [done|].
  destruct (yaml_line disk fuel st line) eqn:E; simplify_eq/=.
  eapply IH; [done|]. by eapply yaml_line_named.
Qed.

Lemma toml_push_named st :
  Forall named (toml_targets st) -> Forall named (toml_push st).
Proof.
  intros H. unfold toml_push.
  destruct (String.eqb_spec (name_ (toml_current st)) ""); [done|].
  apply Forall_app. split; [done|]. by constructor.
Qed.

Lemma toml_key_value_targets fuel st key value st' :
  toml_key_value fuel st key value = Some st' ->
  toml_targets st' = toml_targets st.
Proof.
  unfold toml_key_value.
  destruct (String.eqb key "name"); [by intros [= <-]|].
  destruct (String.eqb key "command").
  { cbv zeta. destruct (expandVariables _ _ _ _); [|done]. by intros [= <-]. }
  destruct (_ || _); by intros [= <-].
Qed.

Lemma toml_line_named fuel st line st' :
  toml_line fuel st line = Some st' ->
  Forall named (toml_targets st) -> Forall named (toml_targets st').
Proof.
  intros H Hall. pose proof (toml_push_named st Hall) as Hpush.
  unfold toml_line in H.
  destruct (_ || _); [by simplify_eq|].
  destruct (find_first_not_of blanks line) as [trimStart|]; [|by simplify_eq].
  cbv zeta in H.
  destruct (_ && _); [by simplify_eq|].
  destruct (Cache.find "=" _) as [eqPos|]; [|by simplify_eq].
  apply toml_key_value_targets in H. by rewrite H.
Qed.

Lemma toml_lines_named fuel lines :
  forall st st',
  toml_lines fuel st lines = Some st' ->
  Forall named (toml_targets st) -> Forall named (toml_targets st').
Proof.
  induction lines as [|line lines IH]; intros st st' H Hall; simplify_eq/=;
    [done|].
  destruct (toml_line fuel st line) eqn:E; simplify_eq/=.
  eapply IH; [done|]. by eapply toml_line_named.
Qed.

Lemma parseYAML_result disk fuel fs filepath r :
  parseYAML disk fuel fs filepath = Some r ->
  Forall named r.1
  /\ (r.2 = None <-> is_Some (files fs !! filepath))
  /\ (forall e, r.2 = Some e ->
        e = error "Failed to open file" filepath /\ r.1 = []).
Proof.
  unfold parseYAML. intros H.
  destruct (files fs !! filepath) as [content|] eqn:Hfile; simplify_eq/=.
  - destruct (yaml_lines _ _ _ _) as [st|] eqn:E; simplify_eq/=.
    apply yaml_lines_named in E; [|by constructor].
    assert (exists st', Forall named (targets st')
                        /\ r = (push_current st', None)) as (st' & H1 & ->).
    { destruct (readingMultilineCommand st); simplify_eq/=; [|by eexists].
      destruct (set_expanded_command _ _ _ _) eqn:E'; simplify_eq/=.
      apply set_expanded_command_targets in E' as (E' & _).
      eexists. split; [|done]. by rewrite E'. }
    simpl. split; [by apply push_current_named|]. split; [done|]. done.
  - split; [by constructor|]. split; [|by intros e [= <-]].
    split; [done|]. by intros [? ?].
Qed.

Lemma parseTOML_result fuel fs filepath r :
  parseTOML fuel fs filepath = Some r ->
  Forall named r.1
  /\ (r.2 = None <-> is_Some (files fs !! filepath))
  /\ (forall e, r.2 = Some e ->
        e = error "Failed to open file" filepath /\ r.1 = []).
Proof.
  unfold parseTOML. intros H.
  destruct (files fs !! filepath) as [content|] eqn:Hfile; simplify_eq/=.
  - destruct (toml_lines _ _ _) as [st|] eqn:E; simplify_eq/=.
    apply toml_lines_named in E; [|by constructor].
    split; [by apply toml_push_named|]. split; [done|]. done.
  - split; [by constructor|]. split; [|by intros e [= <-]].
    split; [done|]. by intros [? ?].
Qed.

(** X26: the targets that [parseFile] returns all have a name: a target
    without one is left out. *)
Theorem parsed_targets_named (disk : Disk) (fuel : nat) (fs : FileSystem)
    (filepath : string) (targets : list Target) :
  parseFile disk fuel fs filepath = Some (Value targets) ->
  Forall named targets.
Proof.
  unfold parseFile, parseYAMLWithResult, parseTOMLWithResult. intros H.
  destruct (_ || _).
  - destruct (parseYAML disk fuel fs filepath) as [r|] eqn:E; simplify_eq/=.
    apply parseYAML_result in E as (E & _). unfold with_result in H.
    destruct (r.2); by simplify_eq.
  - destruct (bool_decide _); [|done].
    destruct (parseTOML fuel fs filepath) as [r|] eqn:E; simplify_eq/=.
    apply parseTOML_result in E as (E & _). unfold with_result in H.
    destruct (r.2); by simplify_eq.
Qed.

Lemma parsed_targets_named_witness :
  exists t, parseFile no_disk 0 nameless_fs "build.yaml" = Some (Value [t])
            /\ command_ t = "echo named" /\ Forall named [t].
Proof.
  eexists. split; [vm_compute; reflexivity|]. split; [reflexivity|].
  apply (parsed_targets_named no_disk 0 nameless_fs "build.yaml").
  vm_compute. reflexivity.
Defined.

(** X27: [parseFile] reports an error in two cases only: the name of the file
    shows no known format, or the file cannot be opened.  Whatever a file
    that can be opened holds, no error is reported. *)
Theorem parseFile_failure (disk : Disk) (fuel : nat) (fs : FileSystem)
    (filepath : string) (e : ParseError) :
  parseFile disk fuel fs filepath = Some (Failure e) <->
  (known_format filepath = false
   /\ e = error "Unknown file format" filepath)
  \/ (known_format filepath = true /\ files fs !! filepath = None
      /\ e = error "Failed to open file" filepath).
Proof.
  assert (forall r : option (list Target * option ParseError),
            (forall x, r = Some x ->
               (x.2 = None <-> is_Some (files fs !! filepath))
               /\ (forall e', x.2 = Some e' ->
                     e' = error "Failed to open file" filepath)) ->
            (is_Some (files fs !! filepath) -> is_Some r \/ r = None) ->
            (files fs !! filepath = None -> is_Some r) ->
            with_result <$> r = Some (Failure e) <->
            files fs !! filepath = None
            /\ e = error "Failed to open file" filepath) as Hcase.
  { intros [x|] Hx Hsome Hnone; cbn.
    - destruct (Hx x eq_refl) as [H1 H2]. unfold with_result.
      destruct (x.2) as [e'|] eqn:E.
      + specialize (H2 e' eq_refl). subst e'. split.
        * intros [= <-]. split; [|done].
          destruct (files fs !! filepath) eqn:F; [|done].
          assert (Some (error "Failed to open file" filepath) = None)
            as Habs by (apply H1; by eexists). done.
        * by intros [_ ->].
      + split; [done|]. intros [Hf _].
        assert (is_Some (files fs !! filepath)) as [? Hs] by by apply H1.
        congruence.
    - split; [done|]. intros [Hf _]. by destruct (Hnone Hf). }
  assert (with_result <$> parseYAML disk fuel fs filepath = Some (Failure e)
          <-> files fs !! filepath = None
              /\ e = error "Failed to open file" filepath) as Hyaml.
  { apply Hcase.
    - intros x Hx. apply parseYAML_result in Hx as (_ & H1 & H2).
      split; [done|]. intros e' He'. by apply H2.
    - intros _. destruct (parseYAML _ _ _ _); [left; by eexists|by right].
    - intros Hf. unfold parseYAML. rewrite Hf. by eexists. }
  assert (with_result <$> parseTOML fuel fs filepath = Some (Failure e)
          <-> files fs !! filepath = None
              /\ e = error "Failed to open file" filepath) as Htoml.
  { apply Hcase.
    - intros x Hx. apply parseTOML_result in Hx as (_ & H1 & H2).
      split; [done|]. intros e' He'. by apply H2.
    - intros _. destruct (parseTOML _ _ _); [left; by eexists|by right].
    - intros Hf. unfold parseTOML. rewrite Hf. by eexists. }
  clear Hcase.
  unfold parseFile, parseYAMLWithResult, parseTOMLWithResult, known_format.
  destruct (bool_decide (is_Some (find_str ".yaml" filepath)));
    destruct (bool_decide (is_Some (find_str ".yml" filepath)));
    destruct (bool_decide (is_Some (find_str ".toml" filepath)));
    cbn [orb]; cbv iota.
  all: try (split; [intros [= <-]; by left|intros [[_ ->]|(? & _)]; done]).
  all: first [rewrite Hyaml | rewrite Htoml];
    (split; [intros [? ?]; by right|intros [[? _]|(_ & ? & ?)]; done]).
Qed.

End ParserResults.

(** ** Parser: YAML files read back *)

Section YamlLines.
Import Parser TargetOps Examples.
Context (disk : Disk) (fuel : nat).

Lemma getlines_unlines lines :
  Forall (fun l => Cache.find Cache.newline l = None) lines ->
  Cache.getlines (unlines lines) = lines.
Proof.
  induction 1 as [|l lines Hl _ IH]; [done|].
  cbn [unlines foldr]. fold (unlines lines).
  by rewrite getlines_line, IH.
Qed.

Lemma yaml_lines_app st l1 l2 :
  yaml_lines disk fuel st (l1 ++ l2)
  = yaml_lines disk fuel st l1 ≫= fun st' => yaml_lines disk fuel st' l2.
Proof.
  revert st. induction l1 as [|l l1 IH]; intros st; [done|].
  cbn [app yaml_lines]. destruct (yaml_line disk fuel st l); [|done].
  cbn [mbind option_bind]. apply IH.
Qed.

Lemma drop_blanks_plain s : plain_text s -> drop_blanks (" " +:+ s) = s.
Proof.
  intros [Hc _]. destruct s as [|c s]; [done|].
  unfold drop_blanks.
  change (" " +:+ String c s) with (String " " (String c s)).
  cbn [find_first_not_of]. rewrite Hc. reflexivity.
Qed.

Lemma expandVariables_plain text vars cfg :
  no_dollar text -> expandVariables fuel text vars cfg = Some text.
Proof.
  intros Hd. unfold expandVariables.
  assert (forall m,
            (forall c rest, c <> "$"%char -> m (String c rest) = None) ->
            m "" = None ->
            expand_loop fuel m vars cfg text = Some text) as Hloop.
  { intros m Hm Hnil.
    pose proof (inert_text m text Hm Hd "") as Hin.
    rewrite str_app_nil_r in Hin.
    destruct fuel; cbn [expand_loop]; rewrite Hin; cbn [regex_search];
      by rewrite Hnil. }
  rewrite (Hloop match_var match_var_dollar eq_refl). cbn [mbind option_bind].
  apply (Hloop match_expr match_expr_dollar eq_refl).
Qed.

Lemma find_first_not_of_spaces k c rest :
  contains c blanks = false ->
  find_first_not_of blanks (spaces k +:+ String c rest) = Some k.
Proof.
  intros Hc. induction k as [|k IH].
  - cbn [spaces]. rewrite str_app_nil_l. cbn [find_first_not_of].
    by rewrite Hc.
  - cbn [spaces]. change (String " " (spaces k) +:+ ?x)
      with (String " " (spaces k +:+ x)).
    cbn [find_first_not_of]. change (contains " " blanks) with true.
    cbv iota. by rewrite IH.
Qed.

Lemma str_drop_spaces k s : Cache.str_drop k (spaces k +:+ s) = s.
Proof.
  induction k as [|k IH]; [by destruct s|]. cbn [spaces].
  change (String " " (spaces k) +:+ ?x) with (String " " (spaces k +:+ x)).
  cbn [Cache.str_drop]. apply IH.
Qed.

Lemma substr_spaces k s : Cache.substr (spaces k +:+ s) k None = s.
Proof. apply str_drop_spaces. Qed.

Lemma front_dash c rest :
  bool_decide (front (String c rest) = Some "-"%char) = Ascii.eqb c "-".
Proof.
  cbn [front]. destruct (Ascii.eqb_spec c "-") as [->|Hne].
  - by rewrite bool_decide_eq_true_2.
  - rewrite bool_decide_eq_false_2; [done|]. by intros [= ->].
Qed.

(** A line that begins with spaces, between the lines of targets. *)
Lemma yaml_line_between ts cur b L k c rest :
  0 < k -> contains c blanks = false ->
  let body := String c rest in
  let st := between ts cur b L in
  yaml_line disk fuel st (spaces k +:+ body)
  = if (k =? 2) && Ascii.eqb c "-" then Some (begin_target st body)
    else if negb b then Some st
    else match Cache.find ":" body with
         | Some colonPos =>
             yaml_key_value disk fuel st k
               (Cache.substr body 0 (Some colonPos))
               (drop_blanks (Cache.substr body (colonPos + 1) None))
         | None =>
             if Ascii.eqb c "-" && negb (String.eqb L "")
             then Some (with_current st
                          (add_to_list L cur
                             (drop_blanks (Cache.substr body 1 None))))
             else Some st
         end.
Proof.
  intros Hk Hc. cbv zeta.
  set (st := between ts cur b L).
  unfold yaml_line.
  change (readingMultilineCommand st) with false. cbv iota.
  unfold yaml_plain_line.
  rewrite find_first_not_of_spaces by done.
  destruct k as [|k]; [lia|].
  assert (String.eqb (spaces (S k) +:+ String c rest) "" = false) as ->
    by done.
  assert (bool_decide (front (spaces (S k) +:+ String c rest)
                       = Some "#"%char) = false)
    as -> by (by apply bool_decide_eq_false_2).
  cbn [orb]. cbv iota zeta.
  rewrite !substr_spaces.
  change (S k =? 0) with false. cbn [andb]. cbv iota.
  change (currentSection st) with "".
  change (String.eqb "" "") with true. cbv iota.
  rewrite !front_dash.
  change (inTarget st) with b. change (currentList st) with L.
  change (current st) with cur. done.
Qed.

Lemma yaml_name_line ts cur b L n :
  plain_text n ->
  yaml_line disk fuel (between ts cur b L) ("  - name: " +:+ n)
  = Some (between (push_current (between ts cur b L))
                  (setName TargetOps.default n) true "").
Proof.
  intros Hn.
  change ("  - name: " +:+ n) with (spaces 2 +:+ String "-" (" name: " +:+ n)).
  rewrite yaml_line_between by (done || lia).
  change ((2 =? 2) && Ascii.eqb "-" "-") with true. cbv iota.
  unfold begin_target.
  assert (find_str "name:" (String "-" (" name: " +:+ n)) = Some 2) as ->
    by reflexivity.
  assert (Cache.substr (String "-" (" name: " +:+ n)) (2 + 5) None
          = " " +:+ n) as -> by reflexivity.
  by rewrite drop_blanks_plain.
Qed.

Lemma yaml_key_line ts cur L key :
  key = "inputs" \/ key = "outputs" \/ key = "dependencies" ->
  yaml_line disk fuel (between ts cur true L) ("    " +:+ key +:+ ":")
  = Some (between ts cur true key).
Proof.
  intros [->|[->| ->]].
  - change ("    " +:+ "inputs" +:+ ":") with (spaces 4 +:+ String "i" "nputs:").
    by rewrite yaml_line_between by (done || lia).
  - change ("    " +:+ "outputs" +:+ ":")
      with (spaces 4 +:+ String "o" "utputs:").
    by rewrite yaml_line_between by (done || lia).
  - change ("    " +:+ "dependencies" +:+ ":")
      with (spaces 4 +:+ String "d" "ependencies:").
    by rewrite yaml_line_between by (done || lia).
Qed.

Lemma yaml_item_line ts cur L item :
  L = "inputs" \/ L = "outputs" \/ L = "dependencies" ->
  yaml_item item ->
  yaml_line disk fuel (between ts cur true L) ("      - " +:+ item)
  = Some (between ts (add_to_list L cur item) true L).
Proof.
  intros HL [Hplain Hcolon].
  change ("      - " +:+ item) with (spaces 6 +:+ String "-" (" " +:+ item)).
  rewrite yaml_line_between by (done || lia).
  change ((6 =? 2) && Ascii.eqb "-" "-") with false.
  change (negb true) with false. cbv iota.
  assert (Cache.find ":" (String "-" (" " +:+ item)) = None) as ->.
  { change (S <$> (S <$> Cache.find ":" item) = None). by rewrite Hcolon. }
  assert (negb (String.eqb L "") = true) as ->
    by (by destruct HL as [->|[->| ->]]).
  change (Ascii.eqb "-" "-" && true) with true. cbv iota.
  assert (Cache.substr (String "-" (" " +:+ item)) 1 None = " " +:+ item)
    as -> by reflexivity.
  by rewrite drop_blanks_plain.
Qed.

Lemma yaml_items_lines ts cur L items :
  L = "inputs" \/ L = "outputs" \/ L = "dependencies" ->
  Forall yaml_item items ->
  yaml_lines disk fuel (between ts cur true L) (yaml_items items)
  = Some (between ts (foldl (add_to_list L) cur items) true L).
Proof.
  intros HL Hall. revert cur.
  induction Hall as [|item items Hitem _ IH]; intros cur; [done|].
  unfold yaml_items. rewrite fmap_cons. fold (yaml_items items).
  cbn [yaml_lines]. rewrite yaml_item_line by done.
  cbn [mbind option_bind foldl]. apply IH.
Qed.

Lemma yaml_command_line ts cur L command :
  plain_text command -> no_dollar command ->
  command <> "|" -> command <> ">" ->
  yaml_line disk fuel (between ts cur true L) ("    command: " +:+ command)
  = Some (between ts (setCommand cur command) true "").
Proof.
  intros Hplain Hd Hbar Hgt.
  change ("    command: " +:+ command)
    with (spaces 4 +:+ String "c" ("ommand: " +:+ command)).
  rewrite yaml_line_between by (done || lia).
  change ((4 =? 2) && Ascii.eqb "c" "-") with false.
  change (negb true) with false. cbv iota.
  assert (Cache.find ":" (String "c" ("ommand: " +:+ command)) = Some 7) as ->
    by reflexivity.
  assert (Cache.substr (String "c" ("ommand: " +:+ command)) 0 (Some 7)
          = "command") as -> by reflexivity.
  assert (Cache.substr (String "c" ("ommand: " +:+ command)) (7 + 1) None
          = " " +:+ command) as -> by reflexivity.
  rewrite drop_blanks_plain by done.
  unfold yaml_key_value.
  change (String.eqb "command" "name") with false.
  change (String.eqb "command" "command") with true. cbv iota.
  apply String.eqb_neq in Hbar, Hgt. rewrite Hbar, Hgt. cbn [orb]. cbv iota.
  unfold set_expanded_command. rewrite expandVariables_plain by done.
  done.
Qed.

(** The fields that the lines of a target fill. *)
Lemma foldl_add_to_list L cur items :
  L = "inputs" \/ L = "outputs" \/ L = "dependencies" ->
  foldl (add_to_list L) cur items
  = {| name_ := name_ cur;
       inputs_ := inputs_ cur ++ (if String.eqb L "inputs" then items else []);
       outputs_ :=
         outputs_ cur ++ (if String.eqb L "outputs" then items else []);
       command_ := command_ cur;
       dependencies_ :=
         dependencies_ cur
         ++ (if String.eqb L "dependencies" then items else []);
       signature_ := signature_ cur |}.
Proof.
  intros HL. revert cur. induction items as [|item items IH]; intros cur.
  - destruct cur. simpl.
    destruct (String.eqb L "inputs"), (String.eqb L "outputs"),
      (String.eqb L "dependencies"); by rewrite ?app_nil_r.
  - cbn [foldl]. rewrite IH.
    destruct HL as [->|[->| ->]]; cbn; by rewrite <- ?app_assoc, ?app_nil_r.
Qed.

Lemma yaml_target_lines ts cur b L t :
  yaml_writable t ->
  yaml_lines disk fuel (between ts cur b L) (yaml_target t)
  = Some (between (push_current (between ts cur b L)) t true "dependencies").
Proof.
  intros (Hname & Hin & Hout & Hdep & Hcmd & Hd & Hbar & Hgt & Hsig).
  unfold yaml_target. cbn [app yaml_lines].
  rewrite yaml_name_line by done. cbn [mbind option_bind].
  rewrite (yaml_key_line _ _ _ "inputs") by auto. cbn [mbind option_bind].
  rewrite yaml_lines_app, yaml_items_lines by auto. cbn [mbind option_bind].
  cbn [app yaml_lines].
  rewrite (yaml_key_line _ _ _ "outputs") by auto. cbn [mbind option_bind].
  rewrite yaml_lines_app, yaml_items_lines by auto. cbn [mbind option_bind].
  cbn [app yaml_lines].
  rewrite yaml_command_line by done. cbn [mbind option_bind].
  rewrite (yaml_key_line _ _ _ "dependencies") by auto.
  cbn [mbind option_bind].
  rewrite yaml_items_lines by auto.
  rewrite !foldl_add_to_list by auto.
  destruct t as [n i o c dp sg]. cbn in Hsig. subst sg. cbn.
  by rewrite ?app_nil_r.
Qed.

Lemma yaml_targets_lines targets :
  Forall yaml_writable targets ->
  forall ts cur b L,
  exists st,
    yaml_lines disk fuel (between ts cur b L) (concat (yaml_target <$> targets))
    = Some st
    /\ readingMultilineCommand st = false
    /\ push_current st = push_current (between ts cur b L) ++ targets.
Proof.
  induction 1 as [|t targets Ht _ IH]; intros ts cur b L.
  - exists (between ts cur b L). by rewrite app_nil_r.
  - rewrite fmap_cons. cbn [concat]. rewrite yaml_lines_app.
    rewrite yaml_target_lines by done. cbn [mbind option_bind].
    destruct (IH (push_current (between ts cur b L)) t true "dependencies")
      as (st & Hrun & Hread & Hpush).
    exists st. split; [done|]. split; [done|]. rewrite Hpush.
    assert (push_current
              (between (push_current (between ts cur b L)) t true
                       "dependencies")
            = push_current (between ts cur b L) ++ [t]) as ->.
    { unfold push_current at 1. unfold between at 1 2 3 4. simpl.
      destruct Ht as ([Hne _] & _).
      destruct (name_ t); [done|]. done. }
    by rewrite <- app_assoc.
Qed.

Lemma yaml_lines_plain targets :
  Forall yaml_writable targets ->
  Forall (fun l => Cache.find Cache.newline l = None)
         (concat (yaml_target <$> targets)).
Proof.
  assert (forall items, Forall yaml_item items ->
            Forall (fun l => Cache.find Cache.newline l = None)
                   (yaml_items items)) as Hitems.
  { induction 1 as [|item items [[_ Hnl] _] _ IH]; [constructor|].
    unfold yaml_items. rewrite fmap_cons. constructor; [|done].
    by apply (find_app_None _ "      - "). }
  induction 1 as [|t targets Ht _ IH]; [constructor|].
  rewrite fmap_cons. cbn [concat]. apply Forall_app. split; [|done].
  destruct Ht as ([_ Hname] & Hin & Hout & Hdep & [_ Hcmd] & _).
  unfold yaml_target. repeat (apply Forall_app; split).
  - constructor; [by apply (find_app_None _ "  - name: ")|].
    constructor; [done|constructor].
  - by apply Hitems.
  - by constructor.
  - by apply Hitems.
  - constructor; [by apply (find_app_None _ "    command: ")|].
    constructor; [done|constructor].
  - by apply Hitems.
Qed.

End YamlLines.

Section YamlTheorem.
Import Parser TargetOps Examples.

(** X28: a YAML build file in the usual layout is read back as the targets it
    was written from, whatever the disk holds: names, inputs, outputs,
    commands and dependencies, in their order. *)
Theorem parseYAML_round_trip (disk : Disk) (fuel : nat) (fs : FileSystem)
    (filepath : string) (targets : list Target) :
  Forall yaml_writable targets ->
  files fs !! filepath = Some (yaml_file targets) ->
  parseYAML disk fuel fs filepath = Some (targets, None).
Proof.
  intros Hall Hfile. unfold parseYAML. rewrite Hfile. unfold yaml_file.
  rewrite getlines_unlines.
  2:{ constructor; [done|]. by apply yaml_lines_plain. }
  cbn [yaml_lines].
  assert (yaml_line disk fuel yaml_init "targets:" = Some yaml_init) as ->
    by reflexivity.
  cbn [mbind option_bind].
  destruct (yaml_targets_lines disk fuel targets Hall [] TargetOps.default
              false "") as (st & Hrun & Hread & Hpush).
  change (between [] TargetOps.default false "") with yaml_init in Hrun.
  rewrite Hrun. cbn [mbind option_bind]. rewrite Hread.
  cbn [mbind option_bind]. by rewrite Hpush.
Qed.

End YamlTheorem.


Section YamlExamples.
Import Parser Examples.

Lemma parseYAML_round_trip_witness :
  parseYAML no_disk 0 build_fs "build.yaml" = Some (two_targets, None).
Proof.
  apply (parseYAML_round_trip no_disk 0 build_fs "build.yaml" two_targets).
  - repeat constructor; vm_compute; congruence.
  - vm_compute. reflexivity.
Defined.

(** A list item that holds a colon is read as a key and left out. *)
Example yaml_item_with_colon :
  exists t,
    parseYAML no_disk 0
      {| files := {[ "build.yaml" := colon_yaml ]}; blocked := ∅ |}
      "build.yaml" = Some ([t], None)
    /\ name_ t = "fetch" /\ inputs_ t = [].
Proof. eexists. split; [vm_compute; reflexivity|done]. Qed.

End YamlExamples.

(** ** Parser: TOML files read back *)

Section TomlStrings.
Import Parser Examples.

Lemma back_app s c : back (s +:+ String c "") = Some c.
Proof.
  induction s as [|x s IH]; [done|].
  change (String x s +:+ ?y) with (String x (s +:+ y)). cbn [back].
  rewrite IH. by destruct s.
Qed.

Lemma find_last_not_of_end chars s q :
  contains q chars = true ->
  find_last_not_of chars (s +:+ String q "") = find_last_not_of chars s.
Proof.
  intros Hq. induction s as [|x s IH].
  - rewrite str_app_nil_l. cbn [find_last_not_of]. by rewrite Hq.
  - change (String x s +:+ ?y) with (String x (s +:+ y)).
    cbn [find_last_not_of]. by rewrite IH.
Qed.

Lemma find_last_not_of_back chars s c :
  back s = Some c -> contains c chars = false ->
  find_last_not_of chars s = Some (String.length s - 1).
Proof.
  revert c. induction s as [|x s IH]; intros c Hb Hc; [done|].
  cbn [find_last_not_of]. destruct s as [|y s].
  - injection Hb as ->. cbn [find_last_not_of]. by rewrite Hc.
  - cbn [back] in Hb. rewrite (IH c Hb Hc). cbn [String.length].
    f_equal. lia.
Qed.

Lemma split_on_piece d p rest :
  Cache.find d p = None ->
  split_on d (p +:+ String d rest) = p :: split_on d rest.
Proof.
  intros Hp. induction p as [|x p IH].
  - rewrite str_app_nil_l. cbn [split_on]. by rewrite Ascii.eqb_refl.
  - change (String x p +:+ ?y) with (String x (p +:+ y)).
    cbn [split_on]. cbn [Cache.find] in Hp.
    destruct (Ascii.eqb x d); [done|].
    destruct (Cache.find d p); [done|]. by rewrite IH.
Qed.

Lemma split_on_last d p :
  p <> "" -> Cache.find d p = None -> split_on d p = [p].
Proof.
  induction p as [|x p IH]; intros Hne Hp; [done|].
  cbn [split_on]. cbn [Cache.find] in Hp.
  destruct (Ascii.eqb x d); [done|].
  destruct (Cache.find d p) eqn:E; [done|].
  destruct p as [|y p]; [done|]. by rewrite IH.
Qed.

Lemma split_on_join d pieces :
  Forall (fun p => p <> "" /\ Cache.find d p = None) pieces ->
  split_on d (join_with (String d "") pieces) = pieces.
Proof.
  induction 1 as [|p pieces [Hne Hp] Hall IH]; [done|].
  destruct pieces as [|p' pieces].
  - by apply split_on_last.
  - change (join_with (String d "") (p :: p' :: pieces))
      with (p +:+ String d (join_with (String d "") (p' :: pieces))).
    by rewrite split_on_piece, IH.
Qed.

Lemma toml_item_piece L cur item blank :
  toml_item_ok item ->
  toml_item L cur ((if blank : bool then " " else "") +:+ quoted item)
  = add_to_list L cur item.
Proof.
  intros (Hfront & Hback & _). unfold toml_item.
  destruct item as [|c item]; [done|].
  destruct (back (String c item)) as [e|] eqn:Hb; [|done].
  pose proof (find_last_not_of_back blanks_quote _ _ Hb Hback) as Hlast.
  assert (find_last_not_of blanks_quote (quoted (String c item))
          = Some (String.length (String c item))) as Hq.
  { unfold quoted. cbn [find_last_not_of].
    rewrite find_last_not_of_end by reflexivity.
    rewrite Hlast. cbn [String.length]. f_equal. lia. }
  destruct blank.
  - change (" " +:+ quoted (String c item))
      with (String " " (quoted (String c item))).
    cbn [find_last_not_of]. rewrite Hq.
    unfold quoted.
    change (String c item +:+ ?y) with (String c (item +:+ y)).
    cbn [find_first_not_of]. rewrite Hfront.
    change (contains " " blanks_quote) with true.
    change (contains quote blanks_quote) with true. cbv iota.
    cbn [fmap option_fmap option_map].
    unfold Cache.substr. cbn [Cache.str_drop].
    replace (S (String.length (String c item)) - 2 + 1)
      with (String.length (String c item)) by (cbn [String.length]; lia).
    change (String c (item +:+ String quote ""))
      with (String c item +:+ String quote "").
    by rewrite str_take_app.
  - rewrite str_app_nil_l. rewrite Hq. unfold quoted.
    change (String c item +:+ ?y) with (String c (item +:+ y)).
    cbn [find_first_not_of]. rewrite Hfront.
    change (contains quote blanks_quote) with true. cbv iota.
    cbn [fmap option_fmap option_map].
    unfold Cache.substr. cbn [Cache.str_drop].
    replace (String.length (String c item) - 1 + 1)
      with (String.length (String c item)) by (cbn [String.length]; lia).
    change (String c (item +:+ String quote ""))
      with (String c item +:+ String quote "").
    by rewrite str_take_app.
Qed.

End TomlStrings.

Section TomlLines.
Import Parser TargetOps Examples.
Context (fuel : nat).

Lemma front_is c rest d :
  bool_decide (front (String c rest) = Some d) = Ascii.eqb c d.
Proof.
  cbn [front]. destruct (Ascii.eqb_spec c d) as [->|Hne].
  - by rewrite bool_decide_eq_true_2.
  - rewrite bool_decide_eq_false_2; [done|]. by intros [= ->].
Qed.

Lemma back_is s d :
  bool_decide (back (s +:+ String d "") = Some d) = true.
Proof. rewrite back_app. by apply bool_decide_eq_true_2. Qed.

Lemma toml_lines_app st l1 l2 :
  toml_lines fuel st (l1 ++ l2)
  = toml_lines fuel st l1 ≫= fun st' => toml_lines fuel st' l2.
Proof.
  revert st. induction l1 as [|l l1 IH]; intros st; [done|].
  cbn [app toml_lines]. destruct (toml_line fuel st l); [|done].
  cbn [mbind option_bind]. apply IH.
Qed.

(** A line that begins with a character that is no blank and no [#]. *)
Lemma toml_line_start st c rest :
  contains c blanks = false -> c <> "#"%char ->
  let line := String c rest in
  toml_line fuel st line
  = if Ascii.eqb c "[" && bool_decide (back line = Some "]"%char)
    then Some (toml_section st line)
    else
      match Cache.find "=" line with
      | None => Some st
      | Some eqPos =>
          let key := Cache.substr line 0 (Some eqPos) in
          let value := Cache.substr line (eqPos + 1) None in
          let key :=
            match find_last_not_of blanks key with
            | Some keyEnd => Cache.substr key 0 (Some (keyEnd + 1))
            | None => key
            end in
          let value := drop_blanks value in
          let value :=
            if negb (String.eqb value "")
               && bool_decide (front value = Some quote)
               && bool_decide (back value = Some quote)
            then Cache.substr value 1 (Some (String.length value - 2))
            else value in
          toml_key_value fuel st key value
      end.
Proof.
  intros Hc Hhash. cbv zeta. unfold toml_line.
  assert (String.eqb (String c rest) "" = false) as -> by done.
  rewrite front_is. apply Ascii.eqb_neq in Hhash. rewrite Hhash.
  cbn [orb]. cbv iota. cbn [find_first_not_of]. rewrite Hc. cbv zeta.
  change (Cache.substr (String c rest) 0 None) with (String c rest).
  by rewrite front_is.
Qed.

Lemma toml_section_line st n :
  toml_line fuel st ("[target." +:+ n +:+ "]")
  = Some {| toml_targets := toml_push st;
            toml_current := setName TargetOps.default n;
            toml_currentList := "" |}.
Proof.
  change ("[target." +:+ n +:+ "]")
    with (String "[" ("target." +:+ n +:+ "]")).
  rewrite toml_line_start by done.
  change (Ascii.eqb "[" "[") with true.
  change (String "[" ("target." +:+ n +:+ "]"))
    with ("[target." +:+ n +:+ "]").
  rewrite <- (str_app_assoc "[target." n "]"), back_is. cbn [andb]. cbv iota.
  unfold toml_section.
  assert (Cache.substr (("[target." +:+ n) +:+ "]") 1
            (Some (String.length (("[target." +:+ n) +:+ "]") - 2))
          = "target." +:+ n) as ->.
  { rewrite !str_length_app. unfold Cache.substr.
    change (Cache.str_drop 1 (("[target." +:+ n) +:+ "]"))
      with (("target." +:+ n) +:+ "]").
    replace (String.length "[target." + String.length n + String.length "]"
             - 2) with (String.length ("target." +:+ n))
      by (rewrite str_length_app; cbn [String.length]; lia).
    apply str_take_app. }
  assert (find_str "target" ("target." +:+ n) = Some 0) as -> by reflexivity.
  rewrite bool_decide_eq_true_2 by done.
  assert (Cache.find "." ("target." +:+ n) = Some 6) as -> by reflexivity.
  done.
Qed.

(** The value of a line [key = "text"]. *)
Lemma quoted_value text :
  (let value := quoted text in
   if negb (String.eqb value "") && bool_decide (front value = Some quote)
      && bool_decide (back value = Some quote)
   then Cache.substr value 1 (Some (String.length value - 2))
   else value) = text.
Proof.
  cbv zeta.
  assert (String.eqb (quoted text) "" = false) as -> by done.
  assert (bool_decide (front (quoted text) = Some quote) = true) as ->
    by (by apply bool_decide_eq_true_2).
  assert (bool_decide (back (quoted text) = Some quote) = true) as ->.
  { unfold quoted.
    change (String quote (text +:+ String quote ""))
      with (String quote text +:+ String quote "").
    apply back_is. }
  cbn [negb andb]. cbv iota.
  unfold quoted, Cache.substr. cbn [Cache.str_drop String.length].
  rewrite str_length_app. cbn [String.length].
  replace (S (String.length text + 1) - 2) with (String.length text) by lia.
  apply str_take_app.
Qed.

Lemma toml_name_line st n :
  toml_line fuel st ("name = " +:+ quoted n)
  = Some {| toml_targets := toml_targets st;
            toml_current := setName (toml_current st) n;
            toml_currentList := toml_currentList st |}.
Proof.
  change ("name = " +:+ quoted n) with (String "n" ("ame = " +:+ quoted n)).
  rewrite toml_line_start by done.
  change (Ascii.eqb "n" "[" && _) with false. cbv iota.
  assert (Cache.find "=" (String "n" ("ame = " +:+ quoted n)) = Some 5) as ->
    by reflexivity.
  cbv zeta.
  assert (drop_blanks
            (Cache.substr (String "n" ("ame = " +:+ quoted n)) (5 + 1) None)
          = quoted n) as -> by reflexivity.
  pose proof (quoted_value n) as Hv. cbv zeta in Hv. rewrite Hv.
  reflexivity.
Qed.

Lemma toml_command_line st command :
  no_dollar command ->
  toml_line fuel st ("command = " +:+ quoted command)
  = Some {| toml_targets := toml_targets st;
            toml_current := setCommand (toml_current st) command;
            toml_currentList := "" |}.
Proof.
  intros Hd.
  change ("command = " +:+ quoted command)
    with (String "c" ("ommand = " +:+ quoted command)).
  rewrite toml_line_start by done.
  change (Ascii.eqb "c" "[" && _) with false. cbv iota.
  assert (Cache.find "=" (String "c" ("ommand = " +:+ quoted command))
          = Some 8) as -> by reflexivity.
  cbv zeta.
  assert (drop_blanks
            (Cache.substr (String "c" ("ommand = " +:+ quoted command))
               (8 + 1) None)
          = quoted command) as -> by reflexivity.
  pose proof (quoted_value command) as Hv. cbv zeta in Hv. rewrite Hv.
  assert (match find_last_not_of blanks
                  (Cache.substr
                     (String "c" ("ommand = " +:+ quoted command)) 0 (Some 8))
          with
          | Some keyEnd =>
              Cache.substr
                (Cache.substr (String "c" ("ommand = " +:+ quoted command))
                   0 (Some 8)) 0 (Some (keyEnd + 1))
          | None =>
              Cache.substr (String "c" ("ommand = " +:+ quoted command)) 0
                (Some 8)
          end = "command") as -> by reflexivity.
  unfold toml_key_value.
  change (String.eqb "command" "name") with false.
  change (String.eqb "command" "command") with true. cbv iota zeta.
  by rewrite expandVariables_plain.
Qed.

Lemma pieces_ok items :
  Forall toml_item_ok items ->
  Forall (fun p => p <> "" /\ Cache.find "," p = None) (toml_pieces items)
  /\ Cache.find "]" (join_with "," (toml_pieces items)) = None
  /\ Cache.find Cache.newline (join_with "," (toml_pieces items)) = None.
Proof.
  assert (forall c item (blank : bool),
            Cache.find c item = None -> c <> quote -> c <> " "%char ->
            Cache.find c ((if blank then " " else "") +:+ quoted item) = None)
    as Hq.
  { intros c item blank Hitem Hc1 Hc2.
    apply find_app_None.
    - destruct blank; [|done]. cbn [Cache.find].
      by destruct (Ascii.eqb_spec " " c).
    - unfold quoted. cbn [Cache.find].
      destruct (Ascii.eqb_spec quote c); [done|].
      rewrite find_app_None; [done|done|]. cbn [Cache.find].
      by destruct (Ascii.eqb_spec quote c). }
  assert (forall c (blank : bool) items,
            c <> quote -> c <> " "%char -> c <> ","%char ->
            Forall (fun item => Cache.find c item = None) items ->
            Cache.find c
              (join_with ","
                 ((fun item => (if blank then " " else "") +:+ quoted item)
                    <$> items)) = None) as Hjoin.
  { intros c blank l Hc1 Hc2 Hc3. induction 1 as [|item l Hitem Hl IH];
      [done|]. rewrite fmap_cons. destruct l as [|item' l].
    - by apply Hq.
    - change (join_with "," (?p :: (?f <$> (item' :: l))))
        with (p +:+ "," +:+ join_with "," (f <$> (item' :: l))).
      apply find_app_None; [by apply Hq|].
      change ("," +:+ ?x) with (String "," x). cbn [Cache.find].
      destruct (Ascii.eqb_spec "," c); [done|]. by rewrite IH. }
  intros Hall. destruct items as [|first rest]; [done|].
  apply Forall_cons in Hall as [Hfirst Hrest].
  cbn [toml_pieces]. split; [|split].
  - constructor.
    + split; [done|]. destruct Hfirst as (_ & _ & Hcomma & _).
      apply (Hq ","%char first false); done.
    + apply Forall_fmap. eapply Forall_impl; [exact Hrest|].
      intros item (_ & _ & Hcomma & _). split; [done|].
      apply (Hq ","%char item true); done.
  - destruct rest as [|second rest].
    + destruct Hfirst as (_ & _ & _ & Hclose & _).
      apply (Hq "]"%char first false); done.
    + change (join_with "," (quoted first :: (?f <$> (second :: rest))))
        with (quoted first +:+ "," +:+ join_with "," (f <$> (second :: rest))).
      apply find_app_None.
      * destruct Hfirst as (_ & _ & _ & Hclose & _).
        apply (Hq "]"%char first false); done.
      * change ("," +:+ ?x) with (String "," x). cbn [Cache.find].
        change (Ascii.eqb "," "]") with false. cbv iota.
        rewrite (Hjoin "]"%char true); [done|done|done|done|].
        eapply Forall_impl; [exact Hrest|]. by intros item (_ & _ & _ & ? & _).
  - destruct rest as [|second rest].
    + destruct Hfirst as (_ & _ & _ & _ & Hnl).
      apply (Hq Cache.newline first false); done.
    + change (join_with "," (quoted first :: (?f <$> (second :: rest))))
        with (quoted first +:+ "," +:+ join_with "," (f <$> (second :: rest))).
      apply find_app_None.
      * destruct Hfirst as (_ & _ & _ & _ & Hnl).
        apply (Hq Cache.newline first false); done.
      * change ("," +:+ ?x) with (String "," x). cbn [Cache.find].
        change (Ascii.eqb "," Cache.newline) with false. cbv iota.
        rewrite (Hjoin Cache.newline true); [done|done|done|done|].
        eapply Forall_impl; [exact Hrest|]. by intros item (_ & _ & _ & _ & ?).
Qed.

Lemma toml_items_fold L cur items :
  Forall toml_item_ok items ->
  foldl (toml_item L) cur (toml_pieces items) = foldl (add_to_list L) cur items.
Proof.
  intros Hall. destruct items as [|first rest]; [done|].
  apply Forall_cons in Hall as [Hfirst Hrest].
  cbn [toml_pieces foldl].
  pose proof (toml_item_piece L cur first false Hfirst) as H1.
  rewrite str_app_nil_l in H1. rewrite H1.
  generalize (add_to_list L cur first). clear H1 Hfirst.
  induction Hrest as [|item rest Hitem _ IH]; intros t; [done|].
  rewrite fmap_cons. cbn [foldl].
  rewrite (toml_item_piece L t item true Hitem). apply IH.
Qed.

Lemma toml_list_line st key items :
  key = "inputs" \/ key = "outputs" \/ key = "dependencies" ->
  Forall toml_item_ok items ->
  toml_line fuel st (key +:+ " = " +:+ toml_list items)
  = Some {| toml_targets := toml_targets st;
            toml_current := foldl (add_to_list key) (toml_current st) items;
            toml_currentList := key |}.
Proof.
  intros Hkey Hall.
  destruct (pieces_ok items Hall) as (Hpieces & Hclose & _).
  set (joined := join_with "," (toml_pieces items)) in *.
  assert (toml_key_value fuel st key (toml_list items)
          = Some {| toml_targets := toml_targets st;
                    toml_current :=
                      foldl (add_to_list key) (toml_current st) items;
                    toml_currentList := key |}) as Hkv.
  { unfold toml_key_value.
    assert (String.eqb key "name" = false) as ->
      by (by destruct Hkey as [->|[->| ->]]).
    assert (String.eqb key "command" = false) as ->
      by (by destruct Hkey as [->|[->| ->]]).
    assert (String.eqb key "inputs" || String.eqb key "outputs"
            || String.eqb key "dependencies" = true) as ->
      by (by destruct Hkey as [->|[->| ->]]).
    cbv iota. unfold toml_list. fold joined.
    assert (String.eqb ("[" +:+ joined +:+ "]") "" = false) as -> by done.
    change ("[" +:+ joined +:+ "]") with (String "[" (joined +:+ "]")).
    rewrite front_is. change (negb false && Ascii.eqb "[" "[") with true.
    cbv iota. cbn [Cache.find]. change (Ascii.eqb "[" "]") with false.
    cbv iota. rewrite (find_app_first "]" joined "") by done.
    cbn [fmap option_fmap option_map].
    unfold Cache.substr. cbn [Cache.str_drop].
    replace (S (String.length joined) - 1) with (String.length joined) by lia.
    rewrite str_take_app. unfold joined.
    rewrite split_on_join by done. by rewrite toml_items_fold. }
  destruct Hkey as [->|[->| ->]].
  - change ("inputs" +:+ " = " +:+ toml_list items)
      with (String "i" ("nputs = " +:+ toml_list items)).
    rewrite toml_line_start by done.
    change (Ascii.eqb "i" "[" && _) with false. cbv iota.
    assert (Cache.find "=" (String "i" ("nputs = " +:+ toml_list items))
            = Some 7) as -> by reflexivity.
    cbv zeta. exact Hkv.
  - change ("outputs" +:+ " = " +:+ toml_list items)
      with (String "o" ("utputs = " +:+ toml_list items)).
    rewrite toml_line_start by done.
    change (Ascii.eqb "o" "[" && _) with false. cbv iota.
    assert (Cache.find "=" (String "o" ("utputs = " +:+ toml_list items))
            = Some 8) as -> by reflexivity.
    cbv zeta. exact Hkv.
  - change ("dependencies" +:+ " = " +:+ toml_list items)
      with (String "d" ("ependencies = " +:+ toml_list items)).
    rewrite toml_line_start by done.
    change (Ascii.eqb "d" "[" && _) with false. cbv iota.
    assert (Cache.find "="
              (String "d" ("ependencies = " +:+ toml_list items))
            = Some 13) as -> by reflexivity.
    cbv zeta. exact Hkv.
Qed.

Lemma toml_target_lines st t :
  toml_writable t ->
  toml_lines fuel st (toml_target t)
  = Some {| toml_targets := toml_push st; toml_current := t;
            toml_currentList := "dependencies" |}.
Proof.
  intros (Hname & Hnl & Hin & Hout & Hdep & Hcnl & Hd & Hsig).
  unfold toml_target. cbn [toml_lines].
  change ("inputs = " +:+ ?x) with ("inputs" +:+ " = " +:+ x).
  change ("outputs = " +:+ ?x) with ("outputs" +:+ " = " +:+ x).
  change ("dependencies = " +:+ ?x) with ("dependencies" +:+ " = " +:+ x).
  rewrite toml_section_line. cbn [mbind option_bind].
  rewrite toml_name_line. cbn [mbind option_bind].
  rewrite (toml_list_line _ "inputs") by auto. cbn [mbind option_bind].
  rewrite (toml_list_line _ "outputs") by auto. cbn [mbind option_bind].
  rewrite toml_command_line by done. cbn [mbind option_bind].
  rewrite (toml_list_line _ "dependencies") by auto.
  cbn [mbind option_bind].
  rewrite !foldl_add_to_list by auto.
  destruct t as [n i o c dp sg]. cbn in Hsig. subst sg. simpl.
  by rewrite ?app_nil_r.
Qed.

Lemma toml_targets_lines targets :
  Forall toml_writable targets ->
  forall st,
  exists st',
    toml_lines fuel st (concat (toml_target <$> targets)) = Some st'
    /\ toml_push st' = toml_push st ++ targets.
Proof.
  induction 1 as [|t targets Ht _ IH]; intros st.
  - exists st. by rewrite app_nil_r.
  - rewrite fmap_cons. cbn [concat]. rewrite toml_lines_app.
    rewrite toml_target_lines by done. cbn [mbind option_bind].
    destruct (IH {| toml_targets := toml_push st; toml_current := t;
                    toml_currentList := "dependencies" |})
      as (st' & Hrun & Hpush).
    exists st'. split; [done|]. rewrite Hpush.
    unfold toml_push at 1. simpl.
    destruct Ht as (Hne & _). destruct (name_ t); [done|].
    simpl. by rewrite <- app_assoc.
Qed.

Lemma toml_lines_plain targets :
  Forall toml_writable targets ->
  Forall (fun l => Cache.find Cache.newline l = None)
         (concat (toml_target <$> targets)).
Proof.
  assert (forall text, Cache.find Cache.newline text = None ->
            Cache.find Cache.newline (quoted text) = None) as Hq.
  { intros text Ht. unfold quoted. cbn [Cache.find].
    change (Ascii.eqb quote Cache.newline) with false. cbv iota.
    by rewrite find_app_None. }
  assert (forall items, Forall toml_item_ok items ->
            Cache.find Cache.newline (toml_list items) = None) as Hl.
  { intros items Hitems. destruct (pieces_ok items Hitems) as (_ & _ & Hnl).
    unfold toml_list. apply (find_app_None _ "["); [done|].
    by apply find_app_None. }
  induction 1 as [|t targets Ht _ IH]; [constructor|].
  rewrite fmap_cons. cbn [concat]. apply Forall_app. split; [|done].
  destruct Ht as (_ & Hnl & Hin & Hout & Hdep & Hcnl & _).
  unfold toml_target. repeat constructor.
  - apply (find_app_None _ "[target."); [done|]. by apply find_app_None.
  - apply (find_app_None _ "name = "); [done|]. by apply Hq.
  - apply (find_app_None _ "inputs = "); [done|]. by apply Hl.
  - apply (find_app_None _ "outputs = "); [done|]. by apply Hl.
  - apply (find_app_None _ "command = "); [done|]. by apply Hq.
  - apply (find_app_None _ "dependencies = "); [done|]. by apply Hl.
Qed.

End TomlLines.


Section TomlTheorem.
Import Parser Examples.

(** X29: a TOML build file in the usual layout is read back as the targets it
    was written from: names, inputs, outputs, commands and dependencies,
    in their order. *)
Theorem parseTOML_round_trip (fuel : nat) (fs : FileSystem)
    (filepath : string) (targets : list Target) :
  Forall toml_writable targets ->
  files fs !! filepath = Some (toml_file targets) ->
  parseTOML fuel fs filepath = Some (targets, None).
Proof.
  intros Hall Hfile. unfold parseTOML. rewrite Hfile. unfold toml_file.
  rewrite getlines_unlines by by apply toml_lines_plain.
  destruct (toml_targets_lines fuel targets Hall toml_init)
    as (st & Hrun & Hpush).
  rewrite Hrun. cbn [mbind option_bind]. by rewrite Hpush.
Qed.

Lemma parseTOML_round_trip_witness :
  parseTOML 0 toml_fs "build.toml" = Some (two_targets, None).
Proof.
  apply (parseTOML_round_trip 0 toml_fs "build.toml" two_targets).
  - repeat constructor; vm_compute; congruence.
  - vm_compute. reflexivity.
Defined.

End TomlTheorem.
